(** * nlcd: the checkpoint pipeline and its helpers, embedded in Rocq

    Source files covered:
    - [src/pipelines/pipeline.py]: [to_utf_8_dict], [json_dump],
      [step_6_filter_out_unrelated], [step_7_gen_cr_data],
      [step_8_find_cross_references];
    - [src/fenrir/extraction/entity.py]: [NerExtractor.truecase].

    The program is Python 2.  A [str] is a byte string and is modelled as
    [string] (a list of 8-bit [ascii]); a [unicode] object is a list of code
    points ([list N]).  Dictionaries with string keys are [gmap string _],
    Python sets of strings are [gset string]. *)

From Stdlib Require Import ZArith NArith QArith Ascii String List Lia Permutation.
From stdpp Require Import base option gmap strings list sets.

Local Open Scope N_scope.
Set Warnings "-register-all".

(** ** Byte strings of Python 2 *)

Module PyStr.

Definition ord (c : ascii) : N := N_of_ascii c.
Definition chr (n : N) : ascii := ascii_of_N n.

(** [isupper], [islower], [toupper], [tolower] of the C locale, on which
    the [str] methods of Python 2 are built. *)
Definition c_isupper (c : ascii) : bool := (65 <=? ord c) && (ord c <=? 90).
Definition c_islower (c : ascii) : bool := (97 <=? ord c) && (ord c <=? 122).
Definition c_toupper (c : ascii) : ascii :=
  if c_islower c then chr (ord c - 32) else c.
Definition c_tolower (c : ascii) : ascii :=
  if c_isupper c then chr (ord c + 32) else c.

(** [str.isupper]: no lowercase character and at least one uppercase one.
    (The one-character and empty shortcuts of CPython agree with the loop.) *)
Fixpoint isupper_loop (cased : bool) (s : string) : bool :=
  match s with
  | EmptyString => cased
  | String c s' =>
      if c_islower c then false
      else if negb cased && c_isupper c then isupper_loop true s'
      else isupper_loop cased s'
  end.

Definition isupper (s : string) : bool := isupper_loop false s.

(** [str.title]. *)
Fixpoint title_loop (previous_is_cased : bool) (s : string) : string :=
  match s with
  | EmptyString => EmptyString
  | String c s' =>
      if c_islower c then
        String (if previous_is_cased then c else c_toupper c) (title_loop true s')
      else if c_isupper c then
        String (if previous_is_cased then c_tolower c else c) (title_loop true s')
      else String c (title_loop false s')
  end.

Definition title (s : string) : string := title_loop false s.

(** [str.lower]. *)
Fixpoint lower (s : string) : string :=
  match s with
  | EmptyString => EmptyString
  | String c s' => String (c_tolower c) (lower s')
  end.

(** [<] on two [str]: byte-wise lexicographic order, a proper prefix first. *)
Fixpoint str_lt (a b : string) : bool :=
  match a, b with
  | _, EmptyString => false
  | EmptyString, String _ _ => true
  | String x a', String y b' =>
      if ord x <? ord y then true
      else if ord y <? ord x then false
      else str_lt a' b'
  end.

(** ["%02d" % n] for [n < 100], followed by [k]; and the string
    [strftime("%Y.%m.%d")] writes for a date of a four-digit year. *)
Definition two_digits (n : N) (k : string) : string :=
  String (chr (48 + n / 10)) (String (chr (48 + n mod 10)) k).

Definition date_string (y m d : N) : string :=
  two_digits (y / 100)
    (two_digits (y mod 100)
       (String "." (two_digits m (String "." (two_digits d EmptyString))))).

End PyStr.

(** ** The UTF-8 and latin-1 codecs of CPython 2.7

    [data.decode("utf-8")], [data.encode("utf-8")] and
    [data.decode("latin-1")] are calls into the interpreter.  The definitions
    follow [PyUnicode_EncodeUTF8] and [PyUnicode_DecodeUTF8Stateful] of CPython
    2.7 (strict error mode, UCS-4 build): the encoder joins a surrogate pair
    into one four-byte sequence and writes a lone surrogate as three bytes;
    the decoder rejects overlong forms, bytes [0x80..0xC1] and [0xF5..0xFF] as
    start bytes and values above [0x10FFFF], and accepts the three-byte forms
    of surrogates. *)

Module Utf8.
Import PyStr.

Definition put1 (ch : N) (k : string) : string := String (chr ch) k.

Definition put2 (ch : N) (k : string) : string :=
  String (chr (N.lor 0xc0 (N.shiftr ch 6)))
    (String (chr (N.lor 0x80 (N.land ch 0x3f))) k).

Definition put3 (ch : N) (k : string) : string :=
  String (chr (N.lor 0xe0 (N.shiftr ch 12)))
    (String (chr (N.lor 0x80 (N.land (N.shiftr ch 6) 0x3f)))
       (String (chr (N.lor 0x80 (N.land ch 0x3f))) k)).

Definition put4 (ch : N) (k : string) : string :=
  String (chr (N.lor 0xf0 (N.shiftr ch 18)))
    (String (chr (N.lor 0x80 (N.land (N.shiftr ch 12) 0x3f)))
       (String (chr (N.lor 0x80 (N.land (N.shiftr ch 6) 0x3f)))
          (String (chr (N.lor 0x80 (N.land ch 0x3f))) k))).

Definition is_high_surrogate (ch : N) : bool := (0xD800 <=? ch) && (ch <=? 0xDBFF).
Definition is_low_surrogate (ch : N) : bool := (0xDC00 <=? ch) && (ch <=? 0xDFFF).

Definition join_surrogates (ch ch2 : N) : N :=
  N.lor (N.shiftl (ch - 0xD800) 10) (ch2 - 0xDC00) + 0x10000.

Fixpoint utf8_encode (u : list N) : string :=
  match u with
  | [] => EmptyString
  | ch :: rest =>
      if ch <? 0x80 then put1 ch (utf8_encode rest)
      else if ch <? 0x800 then put2 ch (utf8_encode rest)
      else if ch <? 0x10000 then
        match rest with
        | ch2 :: rest' =>
            if is_high_surrogate ch && is_low_surrogate ch2
            then put4 (join_surrogates ch ch2) (utf8_encode rest')
            else put3 ch (utf8_encode rest)
        | [] => put3 ch (utf8_encode rest)
        end
      else put4 ch (utf8_encode rest)
  end.

(** The table [utf8_code_length] of the decoder. *)
Definition utf8_code_length (b : N) : nat :=
  if b <? 0x80 then 1%nat
  else if b <? 0xC2 then 0%nat
  else if b <? 0xE0 then 2%nat
  else if b <? 0xF0 then 3%nat
  else if b <? 0xF5 then 4%nat
  else 0%nat.

(** [(b & 0xc0) == 0x80] *)
Definition is_cont (b : N) : bool := N.land b 0xc0 =? 0x80.

Definition decode2 (b0 b1 : N) : option N :=
  if negb (is_cont b1) then None
  else Some (N.shiftl (N.land b0 0x1f) 6 + N.land b1 0x3f).

Definition decode3 (b0 b1 b2 : N) : option N :=
  if negb (is_cont b1) || negb (is_cont b2) || ((b0 =? 0xE0) && (b1 <? 0xA0))
  then None
  else Some (N.shiftl (N.land b0 0x0f) 12 + N.shiftl (N.land b1 0x3f) 6
             + N.land b2 0x3f).

Definition decode4 (b0 b1 b2 b3 : N) : option N :=
  if negb (is_cont b1) || negb (is_cont b2) || negb (is_cont b3)
     || ((b0 =? 0xF0) && (b1 <? 0x90)) || ((b0 =? 0xF4) && (0x8F <? b1))
  then None
  else Some (N.shiftl (N.land b0 0x7) 18 + N.shiftl (N.land b1 0x3f) 12
             + N.shiftl (N.land b2 0x3f) 6 + N.land b3 0x3f).

Definition cons_opt (c : option N) (k : option (list N)) : option (list N) :=
  match c, k with
  | Some ch, Some l => Some (ch :: l)
  | _, _ => None
  end.

(** [None] is the [UnicodeDecodeError]. *)
Fixpoint utf8_decode (s : string) : option (list N) :=
  match s with
  | EmptyString => Some []
  | String c0 s1 =>
      if ord c0 <? 0x80 then cons_opt (Some (ord c0)) (utf8_decode s1)
      else
        match utf8_code_length (ord c0) with
        | 2%nat =>
            match s1 with
            | String c1 s2 =>
                cons_opt (decode2 (ord c0) (ord c1)) (utf8_decode s2)
            | _ => None
            end
        | 3%nat =>
            match s1 with
            | String c1 (String c2 s3) =>
                cons_opt (decode3 (ord c0) (ord c1) (ord c2)) (utf8_decode s3)
            | _ => None
            end
        | 4%nat =>
            match s1 with
            | String c1 (String c2 (String c3 s4)) =>
                cons_opt (decode4 (ord c0) (ord c1) (ord c2) (ord c3))
                  (utf8_decode s4)
            | _ => None
            end
        | _ => None
        end
  end.

(** [data.decode("latin-1")] never fails: byte [b] is code point [b]. *)
Fixpoint latin1_decode (s : string) : list N :=
  match s with
  | EmptyString => []
  | String c s' => ord c :: latin1_decode s'
  end.

(** The code points a [unicode] object can hold. *)
Definition valid_code_point (ch : N) : Prop := ch < 0x110000.

(** [P] holds of every number below [n]; used to check a fact about a byte or
    a group of bits by running through its values. *)
Fixpoint all_below (n : nat) (P : N -> bool) : bool :=
  match n with
  | O => true
  | S k => P (N.of_nat k) && all_below k P
  end.

End Utf8.

(** ** Encoding normalisation: [to_utf_8_dict] and [json_dump] *)

Module Encoding.
Import PyStr Utf8.

Section Values.

(** The leaves that are neither [str] nor [unicode] ([None], booleans,
    numbers, ...) and Python's [==] on them; the function never looks
    inside them. *)
Variable scalar : Type.
Variable scalar_eqb : scalar -> scalar -> bool.

(** The values [to_utf_8_dict] dispatches on.  A mapping is kept as its list
    of items in iteration order. *)
Inductive pyval : Type :=
| PUnicode (u : list N)
| PStr (s : string)
| PDict (items : list (pyval * pyval))
| PList (l : list pyval)
| PTuple (l : list pyval)
| PScalar (a : scalar).

Definition is_ascii_str (s : string) : bool :=
  forallb (fun ch => ch <? 0x80) (latin1_decode s).

Definition code_points_eqb (u v : list N) : bool :=
  bool_decide (u = v).

(** [==] between two dictionary keys.  Keys are hashable: strings, scalars
    and tuples of keys.  A [unicode] equals a [str] when the [str] is ASCII
    and has the same characters. *)
Fixpoint key_eqb (a b : pyval) : bool :=
  match a, b with
  | PStr s, PStr t => bool_decide (s = t)
  | PUnicode u, PUnicode v => code_points_eqb u v
  | PUnicode u, PStr s => is_ascii_str s && code_points_eqb (latin1_decode s) u
  | PStr s, PUnicode u => is_ascii_str s && code_points_eqb (latin1_decode s) u
  | PTuple l, PTuple m =>
      (fix all2 (l m : list pyval) : bool :=
         match l, m with
         | [], [] => true
         | x :: l', y :: m' => key_eqb x y && all2 l' m'
         | _, _ => false
         end) l m
  | PScalar x, PScalar y => scalar_eqb x y
  | _, _ => false
  end.

(** [d[k] = v] on the item list: an equal key keeps its place (and the key
    object already stored), a new key is added. *)
Fixpoint dict_setitem (d : list (pyval * pyval)) (k v : pyval)
  : list (pyval * pyval) :=
  match d with
  | [] => [(k, v)]
  | (k', v') :: d' =>
      if key_eqb k' k then (k', v) :: d' else (k', v') :: dict_setitem d' k v
  end.

(** No key of the item list equals a later one: what every dictionary
    satisfies. *)
Fixpoint keys_distinct (d : list (pyval * pyval)) : Prop :=
  match d with
  | [] => True
  | kv :: d' => Forall (fun kv' => key_eqb (fst kv) (fst kv') = false) d'
                /\ keys_distinct d'
  end.

(** [dict(pairs)]: the pairs are stored from left to right. *)
Definition py_dict (pairs : list (pyval * pyval)) : list (pyval * pyval) :=
  fold_left (fun d kv => dict_setitem d (fst kv) (snd kv)) pairs [].

(** [to_utf_8_dict].  The items of a mapping are two-element tuples, so
    [map(to_utf_8_dict, data.iteritems())] converts the key and the value of
    each item through the [Iterable] branch; [type(data)] rebuilds a list as
    a list and a tuple as a tuple. *)
Fixpoint to_utf_8_dict (data : pyval) : pyval :=
  match data with
  | PUnicode u => PStr (utf8_encode u)
  | PStr s =>
      match utf8_decode s with
      | Some unicode_data => PStr s
      | None => PStr (utf8_encode (latin1_decode s))
      end
  | PDict items =>
      PDict (py_dict (map (fun kv => (to_utf_8_dict (fst kv), to_utf_8_dict (snd kv)))
                        items))
  | PList l => PList (map to_utf_8_dict l)
  | PTuple l => PTuple (map to_utf_8_dict l)
  | PScalar a => PScalar a
  end.

(** [json.dumps(..., indent=4, ensure_ascii=False, encoding="utf-8")] is the
    standard library's; a file opened for writing is the list of strings
    written to it. *)
Variable json_dumps : pyval -> string.

Definition json_dump (obj : pyval) (fp : list string) : list string :=
  fp ++ [json_dumps (to_utf_8_dict obj)].

(** Inputs the interpreter can hold: every code point of every [unicode]
    object is at most [0x10FFFF]. *)
Fixpoint wf_pyval (data : pyval) : Prop :=
  match data with
  | PUnicode u => Forall valid_code_point u
  | PStr _ => True
  | PDict items =>
      (fix wf_items (l : list (pyval * pyval)) : Prop :=
         match l with
         | [] => True
         | kv :: l' => wf_pyval (fst kv) /\ wf_pyval (snd kv) /\ wf_items l'
         end) items
  | PList l | PTuple l =>
      (fix wf_all (l : list pyval) : Prop :=
         match l with
         | [] => True
         | x :: l' => wf_pyval x /\ wf_all l'
         end) l
  | PScalar _ => True
  end.

(** Every string of a value is a [str] that decodes as UTF-8. *)
Fixpoint utf8_clean (data : pyval) : Prop :=
  match data with
  | PUnicode _ => False
  | PStr s => utf8_decode s <> None
  | PDict items =>
      (fix clean_items (l : list (pyval * pyval)) : Prop :=
         match l with
         | [] => True
         | kv :: l' => utf8_clean (fst kv) /\ utf8_clean (snd kv) /\ clean_items l'
         end) items
  | PList l | PTuple l =>
      (fix clean_all (l : list pyval) : Prop :=
         match l with
         | [] => True
         | x :: l' => utf8_clean x /\ clean_all l'
         end) l
  | PScalar _ => True
  end.

End Values.

Arguments PUnicode {scalar} u.
Arguments PStr {scalar} s.
Arguments PDict {scalar} items.
Arguments PList {scalar} l.
Arguments PTuple {scalar} l.
Arguments PScalar {scalar} a.
Arguments to_utf_8_dict {scalar} scalar_eqb data.
Arguments json_dump {scalar} scalar_eqb json_dumps obj fp.
Arguments py_dict {scalar} scalar_eqb pairs.
Arguments dict_setitem {scalar} scalar_eqb d k v.
Arguments key_eqb {scalar} scalar_eqb a b.
Arguments keys_distinct {scalar} scalar_eqb d.
Arguments wf_pyval {scalar} data.
Arguments utf8_clean {scalar} data.

End Encoding.

(** ** The normalisation in the words of its specification

    Every string of a nested value is converted where it stands, and a
    mapping keeps all its items: what [to_utf_8_dict] is compared with. *)

Module EncodingSpec.
Import PyStr Utf8 Encoding.

Section Values.
Context {scalar : Type}.
Variable scalar_eqb : scalar -> scalar -> bool.

(** A byte string is decoded as UTF-8 first and kept when that succeeds;
    only when it fails is it decoded as latin-1 and encoded as UTF-8. *)
Definition normalise_text (s : string) : string :=
  match utf8_decode s with
  | Some _ => s
  | None => utf8_encode (latin1_decode s)
  end.

(** A leaf after the conversion: text becomes UTF-8 bytes, any other leaf
    stays as it is. *)
Definition normalise_leaf (x : pyval scalar) : pyval scalar :=
  match x with
  | PUnicode u => PStr (utf8_encode u)
  | PStr s => PStr (normalise_text s)
  | other => other
  end.

(** The conversion applied through nested sequences and mappings, item by
    item. *)
Fixpoint normalise (data : pyval scalar) : pyval scalar :=
  match data with
  | PDict items =>
      PDict (map (fun kv => (normalise (fst kv), normalise (snd kv))) items)
  | PList l => PList (map normalise l)
  | PTuple l => PTuple (map normalise l)
  | leaf => normalise_leaf leaf
  end.

(** The leaves reachable in a value, in iteration order; the leaves of the
    key of an item come before those of its value. *)
Fixpoint leaves (data : pyval scalar) : list (pyval scalar) :=
  match data with
  | PDict items => flat_map (fun kv => leaves (fst kv) ++ leaves (snd kv)) items
  | PList l => flat_map leaves l
  | PTuple l => flat_map leaves l
  | leaf => [leaf]
  end.

(** In no mapping of the value do two keys become equal by the
    conversion. *)
Fixpoint collision_free (data : pyval scalar) : Prop :=
  match data with
  | PDict items =>
      keys_distinct scalar_eqb
        (map (fun kv => (to_utf_8_dict scalar_eqb (fst kv),
                         to_utf_8_dict scalar_eqb (snd kv))) items)
      /\ (fix free_items (l : list (pyval scalar * pyval scalar)) : Prop :=
            match l with
            | [] => True
            | kv :: l' =>
                collision_free (fst kv) /\ collision_free (snd kv) /\ free_items l'
            end) items
  | PList l | PTuple l =>
      (fix free_all (l : list (pyval scalar)) : Prop :=
         match l with
         | [] => True
         | x :: l' => collision_free x /\ free_all l'
         end) l
  | _ => True
  end.

End Values.

(** A menu kept under the same word in two encodings, latin-1 and UTF-8: two
    different keys of one dictionary. *)
Definition cafe_latin1 : string :=
  String "c" (String "a" (String "f" (String (chr 0xe9) EmptyString))).

Definition cafe_utf8 : string :=
  String "c" (String "a" (String "f"
    (String (chr 0xc3) (String (chr 0xa9) EmptyString)))).

Definition two_menus : pyval Z :=
  PDict [(PStr cafe_latin1, PList [PStr "espresso"; PScalar 1%Z]);
         (PStr cafe_utf8, PScalar 2%Z)].

(** A value without such keys: text in both types and both encodings. *)
Definition one_menu : pyval Z :=
  PDict [(PUnicode [0x63; 0x61; 0x66; 0xe9],
          PList [PStr cafe_latin1; PStr cafe_utf8; PScalar 1%Z;
                 PTuple [PUnicode [0x20AC]; PStr "abc"]]);
         (PStr "n", PScalar 2%Z)].

End EncodingSpec.

(** ** [NerExtractor.truecase]

    Lists are mutable objects: the heap maps a reference to the tokens of the
    list it points to.  [None] is an exception ([IndexError], or a reference
    that is not a list). *)

Module Ner.
Import PyStr.

(** [tokens[:]]: a new list object with the same items. *)
Definition copy_list (h : gmap nat (list string)) (tokens : nat)
  : option (gmap nat (list string) * nat) :=
  l ← h !! tokens;
  let r := fresh (dom h) in
  Some (<[r := l]> h, r).

(** [tokens[i][0]] *)
Definition first_char (tok : string) : option ascii :=
  match tok with
  | EmptyString => None
  | String c _ => Some c
  end.

(** One round of the loop at index [i]. *)
Definition truecase_body (tokens : nat) (h : gmap nat (list string)) (i : nat)
  : option (gmap nat (list string)) :=
  l ← h !! tokens;
  tok ← l !! i;
  if (String.length tok <=? 3)%nat then Some h
  else
    c ← first_char tok;
    if bool_decide (c = "@"%char) then Some h
    else if isupper tok then Some (<[tokens := <[i := title tok]> l]> h)
    else Some h.

Fixpoint for_range (body : gmap nat (list string) -> nat -> option (gmap nat (list string)))
  (h : gmap nat (list string)) (range : list nat)
  : option (gmap nat (list string)) :=
  match range with
  | [] => Some h
  | i :: range' => h' ← body h i; for_range body h' range'
  end.

(** [truecase(self, tokens)]: the heap after the call and the reference
    returned. *)
Definition truecase (h : gmap nat (list string)) (tokens : nat)
  : option (gmap nat (list string) * nat) :=
  '(h1, tokens') ← copy_list h tokens;
  l ← h1 !! tokens';
  h2 ← for_range (truecase_body tokens') h1 (seq 0 (length l));
  Some (h2, tokens').

(** The condition under which a token is rewritten, and the token stored. *)
Definition is_shouting (tok : string) : bool :=
  negb (String.length tok <=? 3)%nat
  && negb (bool_decide (first_char tok = Some "@"%char))
  && isupper tok.

Definition truecased (tok : string) : string :=
  if is_shouting tok then title tok else tok.

End Ner.

(** ** The pipeline stages of [pipeline.py]

    A stage reads the files [i.json] of one checkpoint directory and writes
    those of the next; a directory is a map from the origin's index to the
    content of its file.  A text read back from a checkpoint is the text that
    was written ([json_dump] writes UTF-8, [json.load] reads it, and
    [.encode("utf-8")] gives the same bytes again), so the same [string]
    stands for it on both sides. *)

Module Pipeline.
Import PyStr.

(** *** Effects: exceptions, log records and files written

    A stage computes a trace of what it logged and wrote, and either a value
    or the exception that left the stage. *)

Inductive exn : Type :=
| KeyError (key : string)
| IOError (index : nat)
| Failure (what : string).

Inductive result (A : Type) : Type :=
| Ok (a : A)
| Raise (e : exn).
Arguments Ok {A} a.
Arguments Raise {A} e.

(** The log records of steps 6 and 7, by format string. *)
Inductive logmsg : Type :=
| FuzzyMatching (j n : nat)
| HtmlCannotBeParsed (url : string)
| StrangeDocument
| ErrorExtractingDates (url : string)
| ErrorExtractingAuthors (url : string)
| SavingEntries (n : nat).

(** [Write i c]: file [i.json] of the stage's output directory receives [c]. *)
Inductive event (W : Type) : Type :=
| Log (m : logmsg)
| Write (i : nat) (content : W).
Arguments Log {W} m.
Arguments Write {W} i content.

Definition M (W A : Type) : Type := (list (event W) * result A)%type.

Definition ret {W A} (a : A) : M W A := ([], Ok a).

Definition bind {W A B} (m : M W A) (f : A -> M W B) : M W B :=
  match m with
  | (t, Ok a) => (t ++ fst (f a), snd (f a))
  | (t, Raise e) => (t, Raise e)
  end.

Definition lift {W A} (r : result A) : M W A := ([], r).
Definition logging {W} (m : logmsg) : M W unit := ([Log m], Ok tt).
Definition write_file {W} (i : nat) (c : W) : M W unit := ([Write i c], Ok tt).

(** [try: m except Exception: h] *)
Definition try_except {W A} (m : M W A) (h : M W A) : M W A :=
  match m with
  | (t, Ok a) => (t, Ok a)
  | (t, Raise _) => (t ++ fst h, snd h)
  end.

#[global] Instance M_ret {W} : MRet (M W) := fun A a => ret a.
#[global] Instance M_bind {W} : MBind (M W) := fun A B f m => bind m f.

(** [for x in l: s = body(s, x)] *)
Fixpoint for_each {W A S} (l : list A) (body : S -> A -> M W S) (s : S) : M W S :=
  match l with
  | [] => ret s
  | x :: l' => s' ← body s x; for_each l' body s'
  end.

(** [d[k]] *)
Definition getitem {W V} (d : gmap string V) (k : string) : M W V :=
  match d !! k with
  | Some v => ret v
  | None => lift (Raise (KeyError k))
  end.

(** [json.load] of file [i.json] of a checkpoint directory. *)
Definition read_file {W V} (dir : gmap nat V) (i : nat) : M W V :=
  match dir !! i with
  | Some v => ret v
  | None => lift (Raise (IOError i))
  end.

(** [a > b] on the ratios.  A ratio that is a number is a finite float, that
    is a rational, and floats compare as the rationals they denote. *)
Definition Qgtb (a b : Q) : bool := negb (Qle_bool a b).

(** The iteration order of a Python set is fixed by the interpreter; all that
    is known of it is that every element comes once.  (A set that is not
    modified is iterated in the same order each time, which is how step 6
    reads the segments of a URL twice.) *)
Class SetOrder : Type := {
  set_iter : gset string -> list string;
  set_iter_perm : forall s, set_iter s ≡ₚ elements s
}.

(** *** Collaborators ([husky.*]), by class

    The calls that read a page or an annotation can raise and return a
    [result]; text simplification, pattern compilation and the fetcher
    (which fills in what it could fetch) are functions. *)

(** [TextUtil] *)
Record TextUtil (pattern : Type) : Type := {
  simplified_text : string -> string;
  extract_body : string -> option string -> result (string * string);
  compile_fuzzy_patterns : gset string -> gmap string pattern;
  fuzzy_search : string -> string -> pattern -> result (Q * string)
}.
Arguments simplified_text {pattern} _ _.
Arguments extract_body {pattern} _ _ _.
Arguments compile_fuzzy_patterns {pattern} _ _.
Arguments fuzzy_search {pattern} _ _ _ _.

(** [EntityExtractor] *)
Record EntityExtractor (gse_item article raw_date raw_author : Type) : Type := {
  parse_article : string -> option string -> result article;
  article_text : article -> string;
  extract_titles : article -> result (list string);
  extract_sources : gse_item -> result (list string);
  extract_dates : gse_item -> result (list raw_date);
  extract_authors : article -> gse_item -> result (list raw_author)
}.
Arguments parse_article {gse_item article raw_date raw_author} _ _ _.
Arguments article_text {gse_item article raw_date raw_author} _ _.
Arguments extract_titles {gse_item article raw_date raw_author} _ _.
Arguments extract_sources {gse_item article raw_date raw_author} _ _.
Arguments extract_dates {gse_item article raw_date raw_author} _ _.
Arguments extract_authors {gse_item article raw_date raw_author} _ _ _.

(** [EntityNormalizer]: dates come back as strings ([%Y.%m.%d], as step 8
    parses them), authors as the [name] of each normalised author. *)
Record EntityNormalizer (article raw_date raw_author : Type) : Type := {
  normalize_dates : list raw_date -> result (list string);
  normalize_authors : list raw_author -> article -> result (list string)
}.
Arguments normalize_dates {article raw_date raw_author} _ _.
Arguments normalize_authors {article raw_date raw_author} _ _ _.

(** *** Records written by the stages *)

(** One element of [5.origin_gse/i.json]. *)
Record segment_entry (gse_item : Type) : Type := {
  segment : string;
  foundItems : list gse_item
}.
Arguments segment {gse_item} _.
Arguments foundItems {gse_item} _.

Record found_match : Type := {
  fm_match : string;
  fm_ratio : Q
}.

(** One element of [6.related_links/i.json]. *)
Record candidate (gse_item : Type) : Type := {
  c_url : string;
  c_segments : list string;
  c_body : string;
  bestRatio : Q;
  foundMatches : list found_match;
  highRatio : bool;
  gseData : gse_item;
  c_html : option string
}.
Arguments c_url {gse_item} _.
Arguments c_segments {gse_item} _.
Arguments c_body {gse_item} _.
Arguments bestRatio {gse_item} _.
Arguments foundMatches {gse_item} _.
Arguments highRatio {gse_item} _.
Arguments gseData {gse_item} _.
Arguments c_html {gse_item} _.

(** One element of [7.crossref.in/i.json]. *)
Record cr_entry : Type := {
  e_id : Z;
  e_url : string;
  e_text : string;
  e_title : string;
  e_sources : list string;
  e_pub_date : option string;
  e_authors : list string;
  e_body : string
}.

(** *** Step 6: discovery, deduplication and fuzzy verification *)

Section Step6.
Context {gse_item pattern : Type}.
Context `{SetOrder}.
(** [item_link] is [gse_found_item["link"]], [black_domains] the test
    [item_url in black_domains], [fetch_urls] what
    [fetcher.fetch_urls(related_url2html, ...)] leaves in the dictionary. *)
Variable item_link : gse_item -> string.
Variable black_domains : string -> bool.
Variable text_util : TextUtil pattern.
Variable fetch_urls : gmap string (option string) -> gmap string (option string).

(** The three dictionaries and the set filled by the first loop. *)
Record discovery : Type := {
  related_url2gse : gmap string gse_item;
  related_url2html : gmap string (option string);
  related_url2segm : gmap string (gset string);
  uniq_segments : gset string
}.

Definition discovery_init : discovery :=
  {| related_url2gse := ∅; related_url2html := ∅; related_url2segm := ∅;
     uniq_segments := ∅ |}.

(** The body of [for gse_found_item in segment_entry["foundItems"]]. *)
Definition add_found_item (segment_text : string) (st : discovery)
  (gse_found_item : gse_item) : discovery :=
  let item_url := item_link gse_found_item in
  if black_domains item_url then st
  else
    {| related_url2gse :=
         match related_url2gse st !! item_url with
         | None => <[item_url := gse_found_item]> (related_url2gse st)
         | Some _ => related_url2gse st
         end;
       related_url2segm :=
         match related_url2segm st !! item_url with
         | None => <[item_url := {[segment_text]}]> (related_url2segm st)
         | Some segm => <[item_url := segm ∪ {[segment_text]}]> (related_url2segm st)
         end;
       related_url2html :=
         match related_url2html st !! item_url with
         | None => <[item_url := None]> (related_url2html st)
         | Some _ => related_url2html st
         end;
       uniq_segments := uniq_segments st |}.

(** The body of [for segment_entry in gse]. *)
Definition add_segment_entry (st : discovery) (entry : segment_entry gse_item)
  : discovery :=
  let segment_text := simplified_text text_util (segment entry) in
  let st' :=
    {| related_url2gse := related_url2gse st;
       related_url2html := related_url2html st;
       related_url2segm := related_url2segm st;
       uniq_segments := uniq_segments st ∪ {[segment_text]} |} in
  fold_left (add_found_item segment_text) (foundItems entry) st'.

Definition discover (gse : list (segment_entry gse_item)) : discovery :=
  fold_left add_segment_entry gse discovery_init.

(** The found items of one origin in the order the two loops visit them,
    each with the simplified text of its segment. *)
Definition found_in_order (gse : list (segment_entry gse_item))
  : list (string * gse_item) :=
  flat_map (fun entry =>
              map (fun item => (simplified_text text_util (segment entry), item))
                (foundItems entry)) gse.

(** Those of the visited items whose link is [u], in the order visited. *)
Definition items_for (u : string) (found : list (string * gse_item))
  : list (string * gse_item) :=
  filter (fun p => item_link (snd p) = u) found.

(** What the three dictionaries hold once the items [found] were visited:
    nothing for a blacklisted URL; for any other URL the first item found
    with that link, the set of the segments it was found for, and no page
    yet. *)
Definition discovered (found : list (string * gse_item)) (st : discovery) : Prop :=
  (forall u, related_url2gse st !! u
             = if black_domains u then None else snd <$> head (items_for u found))
  /\ (forall u, related_url2segm st !! u
                = if black_domains u then None
                  else match items_for u found with
                       | [] => None
                       | l => Some (list_to_set (map fst l))
                       end)
  /\ (forall u, related_url2html st !! u
                = if black_domains u then None
                  else match items_for u found with
                       | [] => None
                       | _ => Some None
                       end).

(** The body of [for segment in segments], on [(best_ratio, matches)]. *)
Definition match_segment (fuzzy_patterns : gmap string pattern) (body : string)
  (acc : Q * list found_match) (segment : string)
  : M (list (candidate gse_item)) (Q * list found_match) :=
  fuzzy_pattern ← getitem fuzzy_patterns segment;
  rm ← lift (fuzzy_search text_util body segment fuzzy_pattern);
  let ratio := fst rm in
  let matches := snd acc ++ [{| fm_match := snd rm; fm_ratio := ratio |}] in
  if Qgtb ratio (fst acc) then mret (ratio, matches) else mret (fst acc, matches).

(** [best] is the largest of the ratios of [matches] and of [0.0]: no ratio
    is above it, and it is [0.0] itself unless it is a ratio above [0.0]. *)
Definition best_of (best : Q) (matches : list found_match) : Prop :=
  (forall m, m ∈ matches -> (fm_ratio m <= best)%Q)
  /\ ((best = 0%Q /\ forall m, m ∈ matches -> (fm_ratio m <= 0)%Q)
      \/ (exists m, m ∈ matches /\ best = fm_ratio m /\ (0 < fm_ratio m)%Q)).

(** [r] is the record one round of the second loop builds for [rel_url]. *)
Definition verified (st : discovery) (html_of : gmap string (option string))
  (fuzzy_patterns : gmap string pattern) (rel_url : string)
  (r : candidate gse_item) : Prop :=
  c_url r = rel_url
  /\ html_of !! rel_url = Some (c_html r)
  /\ related_url2gse st !! rel_url = Some (gseData r)
  /\ (exists segments, related_url2segm st !! rel_url = Some segments
                       /\ c_segments r = set_iter segments)
  /\ highRatio r = Qgtb (bestRatio r) (1 # 2)
  /\ (exists body_lang, extract_body text_util rel_url (c_html r) = Ok body_lang
                        /\ c_body r = simplified_text text_util (fst body_lang))
  /\ Forall2 (fun seg m =>
                exists pat, fuzzy_patterns !! seg = Some pat
                            /\ fuzzy_search text_util (c_body r) seg pat
                               = Ok (fm_ratio m, fm_match m))
       (c_segments r) (foundMatches r)
  /\ best_of (bestRatio r) (foundMatches r).

(** The body of [for j, rel_url in enumerate(related_urls)]. *)
Definition verify_url (st : discovery) (html_of : gmap string (option string))
  (fuzzy_patterns : gmap string pattern) (n_urls : nat)
  (filtered_urls : list (candidate gse_item)) (j_rel_url : nat * string)
  : M (list (candidate gse_item)) (list (candidate gse_item)) :=
  let j := fst j_rel_url in
  let rel_url := snd j_rel_url in
  _ ← (if (j mod 10 =? 0)%nat then logging (FuzzyMatching j n_urls) else mret tt);
  html ← getitem html_of rel_url;
  body_lang ← lift (extract_body text_util rel_url html);
  let body := simplified_text text_util (fst body_lang) in
  segments ← getitem (related_url2segm st) rel_url;
  best_matches ← for_each (set_iter segments)
                   (match_segment fuzzy_patterns body) (0%Q, []);
  let best_ratio := fst best_matches in
  gse_data ← getitem (related_url2gse st) rel_url;
  mret (filtered_urls ++
        [{| c_url := rel_url;
            c_segments := set_iter segments;
            c_body := body;
            bestRatio := best_ratio;
            foundMatches := snd best_matches;
            highRatio := Qgtb best_ratio (1 # 2);
            gseData := gse_data;
            c_html := html |}]).

(** [enumerate(l)] *)
Definition enumerate {A} (l : list A) : list (nat * A) :=
  combine (seq 0 (length l)) l.

(** The body of [for i, url in enumerate(origins)]. *)
Definition step_6_origin (origin_gse_dir : gmap nat (list (segment_entry gse_item)))
  (i : nat) : M (list (candidate gse_item)) unit :=
  gse ← read_file origin_gse_dir i;
  let st := discover gse in
  let html_of := fetch_urls (related_url2html st) in
  let related_urls := set_iter (dom html_of) in
  let fuzzy_patterns := compile_fuzzy_patterns text_util (uniq_segments st) in
  filtered_urls ← for_each (enumerate related_urls)
                    (verify_url st html_of fuzzy_patterns (length related_urls)) [];
  write_file i filtered_urls.

Definition step_6_filter_out_unrelated (origins : list string)
  (origin_gse_dir : gmap nat (list (segment_entry gse_item)))
  : M (list (candidate gse_item)) unit :=
  for_each (enumerate origins)
    (fun _ i_url => step_6_origin origin_gse_dir (fst i_url)) tt.

End Step6.

(** *** Step 7: metadata extraction *)

Section Step7.
Context {gse_item article raw_date raw_author : Type}.
Context `{SetOrder}.
Variable blacklist : string -> bool.
Variable extractor : EntityExtractor gse_item article raw_date raw_author.
Variable normalizer : EntityNormalizer article raw_date raw_author.

(** [min(dates)] on a non-empty sequence: the first of the smallest items. *)
Definition py_min (first : string) (others : list string) : string :=
  fold_left (fun m d => if str_lt d m then d else m) others first.

(** The [try] block of "5. Extract publication dates", without its handler. *)
Definition extract_pub_date (gse_data : gse_item)
  : M (list cr_entry) (option string) :=
  raw_dates ← lift (extract_dates extractor gse_data);
  dates ← lift (normalize_dates normalizer raw_dates);
  match dates with
  | d :: ds => mret (Some (py_min d ds))
  | [] => mret None
  end.

(** The [try] block of "6. Extract authors", without its handler. *)
Definition extract_author_names (art : article) (gse_data : gse_item)
  : M (list cr_entry) (list string) :=
  raw_authors ← lift (extract_authors extractor art gse_data);
  authors ← lift (normalize_authors normalizer raw_authors art);
  mret (set_iter (list_to_set (map lower authors))).

(** What follows a successful [parse_article] in the loop body. *)
Definition annotate (st : Z * list cr_entry) (link_entry : candidate gse_item)
  (art : article) : M (list cr_entry) (Z * list cr_entry) :=
  let annotation_id := fst st in
  let output_data := snd st in
  let url := c_url link_entry in
  let gse_data := gseData link_entry in
  let text := article_text extractor art in
  titles ← lift (extract_titles extractor art);
  match titles with
  | [] => _ ← logging StrangeDocument; mret st
  | title :: _ =>
      sources ← lift (extract_sources extractor gse_data);
      let sources := set_iter (list_to_set (map lower sources)) in
      pub_date ← try_except (extract_pub_date gse_data)
                   (_ ← logging (ErrorExtractingDates url); mret None);
      authors ← try_except (extract_author_names art gse_data)
                  (_ ← logging (ErrorExtractingAuthors url); mret []);
      let rel_id := annotation_id in
      mret ((annotation_id + 1)%Z,
            output_data ++
            [{| e_id := rel_id; e_url := url; e_text := text; e_title := title;
                e_sources := sources; e_pub_date := pub_date;
                e_authors := authors; e_body := c_body link_entry |}])
  end.

(** The body of [for link_entry in link_entries], on
    [(annotation_id, output_data)]. *)
Definition gen_cr_entry (st : Z * list cr_entry) (link_entry : candidate gse_item)
  : M (list cr_entry) (Z * list cr_entry) :=
  if negb (highRatio link_entry) then mret st
  else if blacklist (c_url link_entry) then mret st
  else
    match parse_article extractor (c_url link_entry) (c_html link_entry) with
    | Raise _ => _ ← logging (HtmlCannotBeParsed (c_url link_entry)); mret st
    | Ok art => annotate st link_entry art
    end.

(** The body of [for i, _ in enumerate(origins)]. *)
Definition step_7_origin (related_links_dir : gmap nat (list (candidate gse_item)))
  (i : nat) : M (list cr_entry) unit :=
  link_entries ← read_file related_links_dir i;
  st ← for_each link_entries gen_cr_entry (1%Z, []);
  _ ← logging (SavingEntries (length (snd st)));
  write_file i (snd st).

Definition step_7_gen_cr_data (origins : list string)
  (related_links_dir : gmap nat (list (candidate gse_item)))
  : M (list cr_entry) unit :=
  for_each (enumerate origins)
    (fun _ i_url => step_7_origin related_links_dir (fst i_url)) tt.

End Step7.

(** *** Step 8: the cross-reference graph *)

Section Step8.
Context {datetime : Type}.

(** [husky.rd.ReferenceEntry]: the keyword arguments of its constructor. *)
Record ReferenceEntry : Type := {
  ref_id : Z;
  re_url : string;
  re_html : option string;
  re_text : string;
  re_title : string;
  re_sources : list string;
  re_pub_date : option datetime;
  re_authors : list string;
  re_body : string
}.

Record graph_node : Type := {
  n_refId : Z;
  n_url : string;
  n_text : string;
  n_title : string;
  n_sources : list string;
  n_pubDate : option string;
  n_authors : list string;
  n_body : string
}.

Record graph : Type := {
  nodes : gmap Z graph_node;
  edges : list (list Z)
}.

(** [husky.rd.ReferenceIndex]: the constructor followed by [index()], and
    the two methods step 8 reads the index with. *)
Record ReferenceIndex : Type := {
  index_t : Type;
  new_index : list ReferenceEntry -> index_t;
  iterentries : index_t -> list ReferenceEntry;
  find_cross_references : index_t -> nat -> list (Z * Z)
}.

(** [datetime.datetime.strptime(s, "%Y.%m.%d")] and
    [d.strftime("%Y.%m.%d")].  Both raise [ValueError]: the first for a
    string that does not match the format, the second for a date whose year
    is before 1900, which the first accepts. *)
Variable strptime : string -> result datetime.
Variable strftime : datetime -> result string.
Variable RI : ReferenceIndex.

Definition read_ref_entry (article_data : cr_entry) : M graph ReferenceEntry :=
  pub_date ← match e_pub_date article_data with
             | None => mret None
             | Some EmptyString => mret None
             | Some date_str => d ← lift (strptime date_str); mret (Some d)
             end;
  mret {| ref_id := e_id article_data;
          re_url := e_url article_data;
          re_html := None;
          re_text := e_text article_data;
          re_title := e_title article_data;
          re_sources := e_sources article_data;
          re_pub_date := pub_date;
          re_authors := e_authors article_data;
          re_body := e_body article_data |}.

(** The entry built from an article keeps its id and its fields. *)
Definition mirrors (a : cr_entry) (e : ReferenceEntry) : Prop :=
  ref_id e = e_id a /\ re_url e = e_url a /\ re_text e = e_text a
  /\ re_title e = e_title a /\ re_sources e = e_sources a
  /\ re_authors e = e_authors a /\ re_body e = e_body a.

(** The dictionary stored under [entry.ref_id]; [strftime] is called for an
    entry that has a date. *)
Definition node_of (entry : ReferenceEntry) : M graph graph_node :=
  pubDate ← match re_pub_date entry with
            | Some pub_date => s ← lift (strftime pub_date); mret (Some s)
            | None => mret None
            end;
  mret {| n_refId := ref_id entry;
          n_url := re_url entry;
          n_text := re_text entry;
          n_title := re_title entry;
          n_sources := re_sources entry;
          n_pubDate := pubDate;
          n_authors := re_authors entry;
          n_body := re_body entry |}.

(** [list(pair)] *)
Definition list_of_pair (pair : Z * Z) : list Z := [fst pair; snd pair].

(** Two pairs with the same two ends. *)
Definition same_unordered (p q : Z * Z) : Prop :=
  p = q \/ p = (snd q, fst q).

(** No unordered pair comes twice in a list of pairs. *)
Definition unordered_distinct (l : list (Z * Z)) : Prop :=
  forall (i j : nat) (p q : Z * Z),
    i <> j -> l !! i = Some p -> l !! j = Some q -> ~ same_unordered p q.

(** The two loops that fill [graph_edges] and [graph_nodes]; the second
    ends with the exception of [strftime] at the first entry whose date it
    rejects. *)
Definition build_graph (found_links : list (Z * Z)) (entries : list ReferenceEntry)
  : M graph graph :=
  let graph_edges :=
    fold_left (fun acc pair => acc ++ [list_of_pair pair]) found_links [] in
  graph_nodes ← for_each entries
                  (fun acc entry => n ← node_of entry; mret (<[ref_id entry := n]> acc))
                  ∅;
  mret {| nodes := graph_nodes; edges := graph_edges |}.

(** The body of [for i, origin_url in enumerate(origin_urls)]. *)
Definition step_8_origin (input_documents_dir : gmap nat (list cr_entry)) (i : nat)
  : M graph unit :=
  articles ← read_file input_documents_dir i;
  entries ← for_each articles
              (fun acc article => e ← read_ref_entry article; mret (acc ++ [e])) [];
  let ref_index := new_index RI entries in
  let found_links := find_cross_references RI ref_index 3 in
  g ← build_graph found_links (iterentries RI ref_index);
  write_file i g.

Definition step_8_find_cross_references (origin_urls : list string)
  (input_documents_dir : gmap nat (list cr_entry)) : M graph unit :=
  for_each (enumerate origin_urls)
    (fun _ i_url => step_8_origin input_documents_dir (fst i_url)) tt.

End Step8.

End Pipeline.

(** ** A small world to run the stages in

    One origin with two segments.  The search for the first returns three
    items, one of them on a blacklisted URL; the search for the second
    returns the first URL again, with another annotation.  The page of the
    first URL holds the quote (ratio 0.62), the other page does not (ratio
    0.2).  A second directory holds an origin whose only page cannot be
    read, before one that can. *)

Module Demo.
Import PyStr Pipeline.

#[global] Instance sorted_order : SetOrder :=
  {| set_iter := elements; set_iter_perm := fun s => Permutation_refl (elements s) |}.

(** A found item: its link and the raw dates of its annotation. *)
Definition item : Type := (string * list string)%type.

Definition item_link (it : item) : string := fst it.

Definition blacklist (url : string) : bool :=
  bool_decide (url = "http://spam.example/x").

Definition page (url : string) : string :=
  if bool_decide (url = "http://a.example/1") then "He said: The Quote In Full"
  else "Other text".

Definition fetch_urls (m : gmap string (option string)) : gmap string (option string) :=
  map_imap (fun url _ => Some (Some (page url))) m.

Definition text_util : TextUtil unit :=
  {| simplified_text := lower;
     extract_body := fun url html =>
       if bool_decide (url = "http://broken.example/p")
       then Raise (Failure "malformed HTML")
       else match html with
            | Some h => Ok (h, "en")
            | None => Raise (Failure "no page")
            end;
     compile_fuzzy_patterns := fun segments => gset_to_gmap tt segments;
     fuzzy_search := fun body segment _ =>
       if bool_decide (body = "he said: the quote in full")
       then (if bool_decide (segment = "the quote in full")
             then Ok (62 # 100, segment) else Ok (1 # 10, ""))%Q
       else Ok (2 # 10, "")%Q |}.

Definition a1 : item := ("http://a.example/1", ["2020.05.02"; "2020.03.11"; "2020.04.01"]).
Definition a2 : item := ("http://a.example/1", ["2021.01.01"]).
Definition b1 : item := ("http://b.example/2", []).
Definition spam : item := ("http://spam.example/x", []).
Definition broken : item := ("http://broken.example/p", []).

Definition origins : list string := ["http://origin.example/0"].

Definition origin_gse_dir : gmap nat (list (segment_entry item)) :=
  {[ 0%nat := [ {| segment := "The Quote In Full"; foundItems := [a1; spam; b1] |};
                {| segment := "He Said"; foundItems := [a2] |} ] ]}.

(** What step 6 writes for the origin. *)
Definition cand_a : candidate item :=
  {| c_url := "http://a.example/1";
     c_segments := ["the quote in full"; "he said"];
     c_body := "he said: the quote in full";
     bestRatio := (62 # 100)%Q;
     foundMatches := [ {| fm_match := "the quote in full"; fm_ratio := (62 # 100)%Q |};
                       {| fm_match := ""; fm_ratio := (1 # 10)%Q |} ];
     highRatio := true;
     gseData := a1;
     c_html := Some "He said: The Quote In Full" |}.

Definition cand_b : candidate item :=
  {| c_url := "http://b.example/2";
     c_segments := ["the quote in full"];
     c_body := "other text";
     bestRatio := (2 # 10)%Q;
     foundMatches := [ {| fm_match := ""; fm_ratio := (2 # 10)%Q |} ];
     highRatio := false;
     gseData := b1;
     c_html := Some "Other text" |}.

(** Two origins, the first with a page that cannot be read. *)
Definition two_origins : list string :=
  ["http://origin.example/0"; "http://origin.example/1"].

Definition broken_gse_dir : gmap nat (list (segment_entry item)) :=
  {[ 0%nat := [ {| segment := "The Quote In Full"; foundItems := [broken] |} ];
     1%nat := [ {| segment := "The Quote In Full"; foundItems := [b1] |} ] ]}.

(** The extractor and the normaliser: an article is its HTML, which is also
    its only title; the raw dates of an annotation are kept as they are. *)
Definition extractor : EntityExtractor item string string string :=
  {| parse_article := fun url html =>
       match html with
       | Some h => Ok h
       | None => Raise (Failure "no html")
       end;
     article_text := fun art => art;
     extract_titles := fun art => Ok [art];
     extract_sources := fun _ => Ok ["Reuters"; "reuters"];
     extract_dates := fun it => Ok (snd it);
     extract_authors := fun _ _ => Ok ["Jane Doe"] |}.

Definition normalizer : EntityNormalizer string string string :=
  {| normalize_dates := fun raw => Ok raw;
     normalize_authors := fun raw _ => Ok raw |}.

(** A checkpoint of step 6 with a skipped candidate between two that are
    extracted. *)
Definition cand_c : candidate item :=
  {| c_url := "http://c.example/3";
     c_segments := ["the quote in full"];
     c_body := "the quote in full";
     bestRatio := (9 # 10)%Q;
     foundMatches := [ {| fm_match := "the quote in full"; fm_ratio := (9 # 10)%Q |} ];
     highRatio := true;
     gseData := ("http://c.example/3", []);
     c_html := Some "The Quote In Full" |}.

Definition related_links_dir : gmap nat (list (candidate item)) :=
  {[ 0%nat := [cand_a; cand_b; cand_c] ]}.

(** A checkpoint whose first candidate has no HTML to parse. *)
Definition cand_n : candidate item :=
  {| c_url := "http://n.example/4";
     c_segments := ["the quote in full"];
     c_body := "";
     bestRatio := (7 # 10)%Q;
     foundMatches := [ {| fm_match := "the quote"; fm_ratio := (7 # 10)%Q |} ];
     highRatio := true;
     gseData := ("http://n.example/4", []);
     c_html := None |}.

Definition unparsable_links_dir : gmap nat (list (candidate item)) :=
  {[ 0%nat := [cand_n; cand_c] ]}.

Definition entry_a : cr_entry :=
  {| e_id := 1; e_url := "http://a.example/1";
     e_text := "He said: The Quote In Full";
     e_title := "He said: The Quote In Full";
     e_sources := ["reuters"];
     e_pub_date := Some "2020.03.11";
     e_authors := ["jane doe"];
     e_body := "he said: the quote in full" |}.

Definition entry_c : cr_entry :=
  {| e_id := 2; e_url := "http://c.example/3";
     e_text := "The Quote In Full";
     e_title := "The Quote In Full";
     e_sources := ["reuters"];
     e_pub_date := None;
     e_authors := ["jane doe"];
     e_body := "the quote in full" |}.

Definition crossref_in_dir : gmap nat (list cr_entry) :=
  {[ 0%nat := [entry_a; entry_c] ]}.

(** An index that keeps the entries as a list and links the first two when
    their ids differ; dates are kept as strings. *)
Definition reference_index : ReferenceIndex (datetime := string) :=
  {| index_t := list (ReferenceEntry (datetime := string));
     new_index := fun entries => entries;
     iterentries := fun ix => ix;
     find_cross_references := fun ix _ =>
       match ix with
       | e1 :: e2 :: _ =>
           if bool_decide (ref_id e1 = ref_id e2) then []
           else [(ref_id e1, ref_id e2)]
       | _ => []
       end |}.

(** An index that reports the link of the first two entries from both
    ends. *)
Definition two_way_index : ReferenceIndex (datetime := string) :=
  {| index_t := list (ReferenceEntry (datetime := string));
     new_index := fun entries => entries;
     iterentries := fun ix => ix;
     find_cross_references := fun ix _ =>
       match ix with
       | e1 :: e2 :: _ =>
           if bool_decide (ref_id e1 = ref_id e2) then []
           else [(ref_id e1, ref_id e2); (ref_id e2, ref_id e1)]
       | _ => []
       end |}.

(** A date is the string it was read from; one before the year 1900 cannot
    be written again. *)
Definition strptime (s : string) : result string := Ok s.
Definition strftime (d : string) : result string :=
  if str_lt d "1900" then Raise (Failure "year is before 1900") else Ok d.

Definition graph_0 : graph :=
  {| nodes :=
       {[ 1%Z := {| n_refId := 1; n_url := "http://a.example/1";
                    n_text := "He said: The Quote In Full";
                    n_title := "He said: The Quote In Full";
                    n_sources := ["reuters"];
                    n_pubDate := Some "2020.03.11";
                    n_authors := ["jane doe"];
                    n_body := "he said: the quote in full" |};
          2%Z := {| n_refId := 2; n_url := "http://c.example/3";
                    n_text := "The Quote In Full";
                    n_title := "The Quote In Full";
                    n_sources := ["reuters"];
                    n_pubDate := None;
                    n_authors := ["jane doe"];
                    n_body := "the quote in full" |} ]};
     edges := [[1%Z; 2%Z]] |}.

(** The same nodes, with the link reported from both ends. *)
Definition graph_two_way : graph :=
  {| nodes := nodes graph_0; edges := [[1%Z; 2%Z]; [2%Z; 1%Z]] |}.

End Demo.

(** ** The origins file: [step_1_init_work_dir], [read_origins] and the
    reading of step 8 *)

Module Origins.
Import PyStr.

Definition newline : ascii := "010"%char.

(** [isspace] of the C locale: space, [\t], [\n], [\v], [\f], [\r]. *)
Definition c_isspace (c : ascii) : bool :=
  (ord c =? 32) || ((9 <=? ord c) && (ord c <=? 13)).

(** [s.lstrip(chars)] and [s.rstrip(chars)], the set of characters given by
    its test. *)
Fixpoint lstrip (p : ascii -> bool) (s : string) : string :=
  match s with
  | EmptyString => EmptyString
  | String c s' => if p c then lstrip p s' else s
  end.

Fixpoint rstrip (p : ascii -> bool) (s : string) : string :=
  match s with
  | EmptyString => EmptyString
  | String c s' =>
      match rstrip p s' with
      | EmptyString => if p c then EmptyString else String c EmptyString
      | r => String c r
      end
  end.

Definition is_newline (c : ascii) : bool := bool_decide (c = newline).

(** [s.strip("\n")] *)
Definition strip_newlines (s : string) : string :=
  rstrip is_newline (lstrip is_newline s).

(** [s.split("\n")] *)
Fixpoint split_lines (s : string) : list string :=
  match s with
  | EmptyString => [EmptyString]
  | String c s' =>
      if is_newline c then EmptyString :: split_lines s'
      else match split_lines s' with
           | line :: lines => String c line :: lines
           | [] => [String c EmptyString]
           end
  end.

(** ["\n".join(lines)] *)
Fixpoint join_lines (lines : list string) : string :=
  match lines with
  | [] => EmptyString
  | [line] => line
  | line :: lines' => line +:+ String newline (join_lines lines')
  end.

(** [read_origins]: the list of origin URLs from the content of
    [1.origin_url]. *)
Definition read_origins (content : string) : list string :=
  split_lines (strip_newlines content).

(** [step_1_init_work_dir]: from the content of the origins file given on
    the command line, the content written to [1.origin_url] and the number
    logged by "Initialized %d origins.". *)
Definition step_1_init_work_dir (origins_file : string) : string * nat :=
  let origins := split_lines (strip_newlines origins_file) in
  (join_lines origins, length origins).

(** The origins as step 8 reads them: [fl.read().rstrip().split("\n")]. *)
Definition read_origins_step_8 (content : string) : list string :=
  split_lines (rstrip c_isspace content).

(** The number of newline characters of a string. *)
Fixpoint count_newlines (s : string) : nat :=
  match s with
  | EmptyString => 0%nat
  | String c s' => ((if is_newline c then 1 else 0) + count_newlines s')%nat
  end.

(** The last character of a string. *)
Fixpoint last_char (s : string) : option ascii :=
  match s with
  | EmptyString => None
  | String c EmptyString => Some c
  | String _ s' => last_char s'
  end.

End Origins.

(** ** The driver: the two loops over [STEPS] at the end of [pipeline.py]

    The steps act on the working directory; [world] is whatever they read
    and write, a step is a function on it that can raise. *)

Module Driver.
Import Pipeline.

Section Run.
Context {world : Type}.

(** The two [logging.info] calls around a step. *)
Inductive driver_log : Type :=
| StartingStep (step_i : Z)
| BlankLine.

(** [args.first_step <= step_i <= args.last_step] *)
Definition active (first_step last_step step_i : Z) : bool :=
  (first_step <=? step_i)%Z && (step_i <=? last_step)%Z.

(** The loop that announces the steps on [stderr]: for each step its mark
    ([true] for "*") and its number. *)
Fixpoint announce_from (i : nat) (steps : list (world -> result world))
  (first_step last_step : Z) : list (bool * Z) :=
  match steps with
  | [] => []
  | _ :: steps' =>
      let step_i := (Z.of_nat i + 1)%Z in
      (active first_step last_step step_i, step_i)
        :: announce_from (S i) steps' first_step last_step
  end.

Definition announce (steps : list (world -> result world))
  (first_step last_step : Z) : list (bool * Z) :=
  announce_from 0 steps first_step last_step.

(** The loop that runs the steps, from index [i] of [enumerate(STEPS)]: what
    it logged, and the world it ends with or the exception that ended it. *)
Fixpoint run_from (i : nat) (steps : list (world -> result world))
  (first_step last_step : Z) (w : world) : list driver_log * result world :=
  match steps with
  | [] => ([], Ok w)
  | step_function :: steps' =>
      let step_i := (Z.of_nat i + 1)%Z in
      if active first_step last_step step_i then
        match step_function w with
        | Ok w' =>
            let rest := run_from (S i) steps' first_step last_step w' in
            (StartingStep step_i :: BlankLine :: fst rest, snd rest)
        | Raise e => ([StartingStep step_i], Raise e)
        end
      else run_from (S i) steps' first_step last_step w
  end.

Definition run (steps : list (world -> result world))
  (first_step last_step : Z) (w : world) : list driver_log * result world :=
  run_from 0 steps first_step last_step w.

(** The numbers of the steps started, in the order of the log. *)
Definition started (log : list driver_log) : list Z :=
  omap (fun l => match l with StartingStep k => Some k | BlankLine => None end) log.

(** The marked numbers of an announcement. *)
Definition marked (marks : list (bool * Z)) : list Z :=
  map snd (filter (fun m => fst m = true) marks).

(** A list of step numbers in strictly increasing order. *)
Fixpoint increasing (l : list Z) : Prop :=
  match l with
  | [] => True
  | k :: l' => Forall (fun k' => (k < k')%Z) l' /\ increasing l'
  end.

End Run.

End Driver.

(** A small run of the driver: the world is the list of checkpoint
    directories written so far; the third step fails. *)
Module DriverDemo.
Import Pipeline Driver.

Definition writes (dir : string) (w : list string) : result (list string) :=
  Ok (w ++ [dir]).

Definition fails (w : list string) : result (list string) :=
  Raise (Failure "no network").

Definition three_steps : list (list string -> result (list string)) :=
  [writes "1.origins"; writes "2.html"; writes "3.bodies"].

Definition failing_steps : list (list string -> result (list string)) :=
  [writes "1.origins"; fails; writes "3.bodies"].

End DriverDemo.

(** ** What the UTF-8 codec does to surrogate pairs *)

Module Surrogates.
Import Utf8.

(** The code points the decoder reads back from what the encoder wrote: a
    high surrogate followed by a low one has become one code point. *)
Fixpoint join_pairs (u : list N) : list N :=
  match u with
  | [] => []
  | ch :: rest =>
      match rest with
      | ch2 :: rest' =>
          if is_high_surrogate ch && is_low_surrogate ch2
          then join_surrogates ch ch2 :: join_pairs rest'
          else ch :: join_pairs rest
      | [] => [ch]
      end
  end.

(** No high surrogate is followed by a low one. *)
Fixpoint pair_free (u : list N) : bool :=
  match u with
  | [] => true
  | ch :: rest =>
      match rest with
      | ch2 :: _ => negb (is_high_surrogate ch && is_low_surrogate ch2) && pair_free rest
      | [] => true
      end
  end.

End Surrogates.

(** ** Dictionaries inside a value *)

Module Dicts.
Import Encoding.

Section Values.
Context {scalar : Type}.
Variable scalar_eqb : scalar -> scalar -> bool.

(** Every mapping inside the value is a dictionary: no two of its keys are
    equal. *)
Fixpoint dicts_distinct (data : pyval scalar) : Prop :=
  match data with
  | PDict items =>
      keys_distinct scalar_eqb items
      /\ (fix all_items (l : list (pyval scalar * pyval scalar)) : Prop :=
            match l with
            | [] => True
            | kv :: l' => dicts_distinct (fst kv) /\ dicts_distinct (snd kv)
                          /\ all_items l'
            end) items
  | PList l | PTuple l =>
      (fix all_values (l : list (pyval scalar)) : Prop :=
         match l with
         | [] => True
         | x :: l' => dicts_distinct x /\ all_values l'
         end) l
  | _ => True
  end.

End Values.

End Dicts.

(** ** [NerExtractor.extract_entities]

    The tokenisers, the tagger and the chunker are NLTK's.  The chunker
    returns a tree whose children are tagged tokens and subtrees; only a
    subtree has a [node]. *)

Module Entities.
Import PyStr Ner.

Inductive chunk : Type :=
| Token (word tag : string)
| Tree (node : string) (leaves : list (string * string)).

Record Nltk : Type := {
  sent_tokenize : string -> list string;
  word_tokenize : string -> list string;
  pos_tag : list string -> list (string * string);
  ne_chunk : list (string * string) -> list chunk
}.

(** The iteration order of a set of pairs, as [SetOrder] for sets of
    strings. *)
Class PairOrder : Type := {
  pairs_iter : gset (string * string) -> list (string * string);
  pairs_iter_perm : forall s, pairs_iter s ≡ₚ elements s
}.

(** The dictionaries of the result. *)
Record entity_dict : Type := {
  label : string;
  entity : string
}.

(** [" ".join(words)] *)
Fixpoint join_words (words : list string) : string :=
  match words with
  | [] => EmptyString
  | [w] => w
  | w :: words' => w ++ " " ++ join_words words'
  end.

(** [self.truecase(sent)] on a list object [sent]: the tokens of the list
    returned. *)
Definition call_truecase (sent : list string) : option (list string) :=
  '(h, r) ← truecase {[ 0%nat := sent ]} 0%nat;
  h !! r.

(** [for i, sent in enumerate(sentences): sentences[i] = self.truecase(sent)] *)
Fixpoint truecase_loop (sentences : list (list string)) (range : list nat)
  : option (list (list string)) :=
  match range with
  | [] => Some sentences
  | i :: range' =>
      sent ← sentences !! i;
      truecaed ← call_truecase sent;
      truecase_loop (<[i := truecaed]> sentences) range'
  end.

Section Extract.
Context `{PairOrder}.
Variable nltk : Nltk.

(** The body of [for ne in ner_tree]. *)
Definition add_chunk (entities : gset (string * string)) (ne : chunk)
  : gset (string * string) :=
  match ne with
  | Tree node leaves => entities ∪ {[ (node, join_words (map fst leaves)) ]}
  | Token _ _ => entities
  end.

(** The body of [for text in texts]. *)
Definition add_text (truecase : bool) (entities : gset (string * string))
  (text : string) : option (gset (string * string)) :=
  let sentences := sent_tokenize nltk text in
  let sentences := map (word_tokenize nltk) sentences in
  sentences ← (if truecase
               then truecase_loop sentences (seq 0 (length sentences))
               else Some sentences);
  let sentences := map (pos_tag nltk) sentences in
  Some (fold_left (fun entities sent =>
                     fold_left add_chunk (ne_chunk nltk sent) entities)
          sentences entities).

Fixpoint for_texts (truecase : bool) (texts : list string)
  (entities : gset (string * string)) : option (gset (string * string)) :=
  match texts with
  | [] => Some entities
  | text :: texts' =>
      entities' ← add_text truecase entities text;
      for_texts truecase texts' entities'
  end.

(** [None] would be an exception; [set_label] is [None] or a label. *)
Definition extract_entities (texts : list string) (truecase : bool)
  (set_label : option string) : option (list entity_dict) :=
  entities ← for_texts truecase texts ∅;
  match set_label with
  | Some set_label =>
      Some (map (fun le => {| label := set_label; entity := snd le |})
              (pairs_iter entities))
  | None =>
      Some (map (fun le => {| label := fst le; entity := snd le |})
              (pairs_iter entities))
  end.

(** The chunker finds a subtree [node] with the words [e] in a sentence of
    one of the texts, the tokens of the sentence truecased first if
    [truecase] is set. *)
Definition found (texts : list string) (truecase : bool) (node e : string) : Prop :=
  exists text sent leaves,
    text ∈ texts
    /\ sent ∈ sent_tokenize nltk text
    /\ Tree node leaves
       ∈ ne_chunk nltk
           (pos_tag nltk
              (if truecase then map truecased (word_tokenize nltk sent)
               else word_tokenize nltk sent))
    /\ e = join_words (map fst leaves).

End Extract.

End Entities.

(** A tagger and a chunker small enough to run: every capitalised token is
    tagged [NNP] and chunked alone as [NE]. *)
Module EntitiesDemo.
Import PyStr Entities.

Definition split_on (sep : ascii) : string -> list string :=
  fix go (s : string) : list string :=
    match s with
    | EmptyString => [EmptyString]
    | String c s' =>
        if bool_decide (c = sep) then EmptyString :: go s'
        else match go s' with
             | w :: ws => String c w :: ws
             | [] => [String c EmptyString]
             end
    end.

Definition capitalised (w : string) : bool :=
  match w with
  | String c _ => c_isupper c
  | EmptyString => false
  end.

Definition nltk : Nltk :=
  {| sent_tokenize := split_on "."%char;
     word_tokenize := split_on " "%char;
     pos_tag := map (fun w => (w, if capitalised w then "NNP" else "NN"));
     ne_chunk := map (fun wt => if bool_decide (snd wt = "NNP")
                                then Tree "NE" [wt] else Token (fst wt) (snd wt)) |}.

#[global] Instance sorted_pairs : PairOrder :=
  {| pairs_iter := elements; pairs_iter_perm := fun s => reflexivity _ |}.

End EntitiesDemo.

(** ** What a stage leaves behind, and where an entry of step 7 comes from *)

Module Checkpoints.
Import PyStr Pipeline.

(** The files a trace writes, in the order written. *)
Definition written {W : Type} (t : list (event W)) : list (nat * W) :=
  omap (fun e => match e with
                 | Write i content => Some (i, content)
                 | Log _ => None
                 end) t.

(** The checkpoint directory a trace leaves behind: a file written twice
    holds what was written last. *)
Definition checkpoint {W : Type} (t : list (event W)) : gmap nat W :=
  fold_left (fun dir iw => <[fst iw := snd iw]> dir) (written t) ∅.

(** A call of a collaborator ended with an exception. *)
Definition raises {A : Type} (r : result A) : bool :=
  match r with
  | Ok _ => false
  | Raise _ => true
  end.

Section Annotation.
Context {gse_item article raw_date raw_author : Type}.
Context `{SetOrder}.
Variable blacklist : string -> bool.
Variable extractor : EntityExtractor gse_item article raw_date raw_author.
Variable normalizer : EntityNormalizer article raw_date raw_author.

(** The authors of an entry: the lowercased names, each once, and none when
    extraction or normalisation raised. *)
Definition author_names (art : article) (gse_data : gse_item) : list string :=
  match extract_authors extractor art gse_data with
  | Raise _ => []
  | Ok raw_authors =>
      match normalize_authors normalizer raw_authors art with
      | Raise _ => []
      | Ok authors => set_iter (list_to_set (map lower authors))
      end
  end.

(** Entry [e] is what step 7 extracts from candidate [c]. *)
Definition annotated_from (c : candidate gse_item) (e : cr_entry) : Prop :=
  highRatio c = true
  /\ blacklist (c_url c) = false
  /\ e_url e = c_url c
  /\ e_body e = c_body c
  /\ exists art title titles srcs,
       parse_article extractor (c_url c) (c_html c) = Ok art
       /\ extract_titles extractor art = Ok (title :: titles)
       /\ extract_sources extractor (gseData c) = Ok srcs
       /\ e_text e = article_text extractor art
       /\ e_title e = title
       /\ e_sources e = set_iter (list_to_set (map lower srcs))
       /\ e_authors e = author_names art (gseData c).

(** Candidate [c] is passed over: filtered out, not parsed, or without a
    title. *)
Definition passed_over (c : candidate gse_item) : Prop :=
  highRatio c = false
  \/ blacklist (c_url c) = true
  \/ (exists x, parse_article extractor (c_url c) (c_html c) = Raise x)
  \/ (exists art, parse_article extractor (c_url c) (c_html c) = Ok art
                  /\ extract_titles extractor art = Ok []).

End Annotation.

Section Dates.
Context {datetime : Type}.
Variable strptime : string -> result datetime.
Variable strftime : datetime -> result string.

(** The date of the entry step 8 reads from an article: none for an article
    without a date or with an empty one, the parsed date for any other. *)
Definition entry_date (a : cr_entry) (pub_date : option datetime) : Prop :=
  match e_pub_date a with
  | None => pub_date = None
  | Some EmptyString => pub_date = None
  | Some date_str => exists d, strptime date_str = Ok d /\ pub_date = Some d
  end.

(** The [pubDate] of the node step 8 writes for an article: none for an
    article without a date or with an empty one, the parsed date written
    again for any other. *)
Definition node_date (a : cr_entry) (pubDate : option string) : Prop :=
  match e_pub_date a with
  | None => pubDate = None
  | Some EmptyString => pubDate = None
  | Some date_str =>
      exists d s, strptime date_str = Ok d /\ strftime d = Ok s /\ pubDate = Some s
  end.

(** The date of an article is one [strptime] rejects. *)
Definition bad_date (a : cr_entry) : bool :=
  match e_pub_date a with
  | None => false
  | Some EmptyString => false
  | Some date_str => raises (strptime date_str)
  end.

(** The date of an article is one [strptime] accepts and [strftime] then
    rejects: in Python 2, a date before the year 1900. *)
Definition early_date (a : cr_entry) : bool :=
  match e_pub_date a with
  | None => false
  | Some EmptyString => false
  | Some date_str =>
      match strptime date_str with
      | Ok d => raises (strftime d)
      | Raise _ => false
      end
  end.

End Dates.

End Checkpoints.

(** An extractor that cannot read the titles of one page. *)
Module Step7Demo.
Import PyStr Pipeline.

Definition extractor : EntityExtractor Demo.item string string string :=
  {| parse_article := parse_article Demo.extractor;
     article_text := article_text Demo.extractor;
     extract_titles := fun art =>
       if bool_decide (art = "The Quote In Full")
       then Raise (Failure "no title tag") else Ok [art];
     extract_sources := extract_sources Demo.extractor;
     extract_dates := extract_dates Demo.extractor;
     extract_authors := extract_authors Demo.extractor |}.

End Step7Demo.

(** A fetcher that follows a redirect and stores the page under the URL it
    was sent to. *)
Module Step6Demo.
Import PyStr Pipeline.

Definition fetch_urls (m : gmap string (option string)) : gmap string (option string) :=
  <[ "http://elsewhere.example/" := Some "Moved" ]> (Demo.fetch_urls m).

End Step6Demo.

(** A [strptime] that accepts ten characters, and an entry file with a date
    it rejects. *)
Module Step8Demo.
Import PyStr Pipeline.

Definition strptime (s : string) : result string :=
  if bool_decide (String.length s = 10%nat) then Ok s
  else Raise (Failure "does not match format").

Definition entry_undated : cr_entry :=
  {| e_id := 1; e_url := "http://d.example/5";
     e_text := "Text"; e_title := "Title";
     e_sources := []; e_pub_date := Some "yesterday";
     e_authors := []; e_body := "text" |}.

Definition crossref_bad_dir : gmap nat (list cr_entry) :=
  {[ 0%nat := [Demo.entry_a; entry_undated] ]}.

(** An entry file with a date of the year 1899. *)
Definition entry_1899 : cr_entry :=
  {| e_id := 2; e_url := "http://d.example/6";
     e_text := "Text"; e_title := "Title";
     e_sources := []; e_pub_date := Some "1899.12.31";
     e_authors := []; e_body := "text" |}.

Definition crossref_early_dir : gmap nat (list cr_entry) :=
  {[ 0%nat := [Demo.entry_a; entry_1899] ]}.

End Step8Demo.

(** ** Steps 2 to 5: fetching, body extraction, segmentation, search

    A file opened for writing exists from then on, empty until something is
    written to it: the trace of a stage records the opening and the writing
    apart.  [json.load] of an empty file raises, [read()] returns the empty
    string. *)

Module Early.
Import PyStr Pipeline.

Inductive event (W L : Type) : Type :=
| Opened (i : nat)
| Wrote (i : nat) (content : W)
| Logged (m : L).
Arguments Opened {W L} i.
Arguments Wrote {W L} i content.
Arguments Logged {W L} m.

(** The directory a trace leaves: [None] is an empty file. *)
Definition files {W L : Type} (t : list (event W L)) : gmap nat (option W) :=
  fold_left (fun dir e => match e with
                          | Opened i => <[i := None]> dir
                          | Wrote i content => <[i := Some content]> dir
                          | Logged _ => dir
                          end) t ∅.

(** What a trace does to file [j], from the state [s] of the file: [None]
    is no file, [Some None] an empty one. *)
Definition file_step {W L : Type} (j : nat) (s : option (option W)) (e : event W L)
  : option (option W) :=
  match e with
  | Opened i => if decide (i = j) then Some None else s
  | Wrote i content => if decide (i = j) then Some (Some content) else s
  | Logged _ => s
  end.

(** The indices of the files a trace opens, and what it writes, in order. *)
Definition opened {W L : Type} (t : list (event W L)) : list nat :=
  omap (fun e => match e with Opened i => Some i | _ => None end) t.

Definition wrote {W L : Type} (t : list (event W L)) : list (nat * W) :=
  omap (fun e => match e with Wrote i content => Some (i, content) | _ => None end) t.

Definition logs {W L : Type} (t : list (event W L)) : list L :=
  omap (fun e => match e with Logged m => Some m | _ => None end) t.

(** [i_fl.read()] of file [i.html] *)
Definition read_text (dir : gmap nat (option string)) (i : nat) : result string :=
  match dir !! i with
  | None => Raise (IOError i)
  | Some None => Ok EmptyString
  | Some (Some text) => Ok text
  end.

(** [json.load(i_fl)] of file [i.json] *)
Definition read_json {W : Type} (dir : gmap nat (option W)) (i : nat) : result W :=
  match dir !! i with
  | None => Raise (IOError i)
  | Some None => Raise (Failure "No JSON object could be decoded")
  | Some (Some content) => Ok content
  end.

(** [for i, url in enumerate(origins): body(i, url)], from index [i]. *)
Fixpoint for_origins {W L : Type}
  (body : nat -> string -> list (event W L) * result unit)
  (i : nat) (origins : list string) : list (event W L) * result unit :=
  match origins with
  | [] => ([], Ok tt)
  | url :: origins' =>
      match body i url with
      | (t, Ok _) =>
          let rest := for_origins body (S i) origins' in
          (t ++ fst rest, snd rest)
      | (t, Raise x) => (t, Raise x)
      end
  end.

(** *** Step 2 *)

Record PageFetcher (response : Type) : Type := {
  fetch_documents : list string -> result (list response);
  response_to_utf_8 : response -> result string
}.
Arguments fetch_documents {response} _ _.
Arguments response_to_utf_8 {response} _ _.

Inductive log_2 : Type := Fetched (n : nat).

Section Step2.
Context {response : Type}.
Variable fetcher : PageFetcher response.

(** [map(write_html_to_disk, enumerate(origin_responses))], from index [i]. *)
Fixpoint write_html_to_disk (i : nat) (origin_responses : list response)
  : list (event string log_2) * result unit :=
  match origin_responses with
  | [] => ([], Ok tt)
  | response :: responses' =>
      match response_to_utf_8 fetcher response with
      | Ok html =>
          let rest := write_html_to_disk (S i) responses' in
          (Opened i :: Wrote i html :: fst rest, snd rest)
      | Raise x => ([Opened i], Raise x)
      end
  end.

Definition step_2_fetch_origin_articles (origins : list string)
  : list (event string log_2) * result unit :=
  match fetch_documents fetcher origins with
  | Raise x => ([], Raise x)
  | Ok origin_responses =>
      match write_html_to_disk 0 origin_responses with
      | (t, Ok _) => (t ++ [Logged (Fetched (length origins))], Ok tt)
      | (t, Raise x) => (t, Raise x)
      end
  end.

End Step2.

(** *** Step 3 *)

Record body_file : Type := {
  bf_body : string;
  bf_lang_id : string
}.

Inductive log_3 : Type := ExtractedBodies (n : nat).

Section Step3.
Context {pattern : Type}.
Variable text_util : TextUtil pattern.

Definition step_3_origin (origin_html_dir : gmap nat (option string))
  (i : nat) (url : string) : list (event body_file log_3) * result unit :=
  match read_text origin_html_dir i with
  | Raise x => ([], Raise x)
  | Ok html =>
      match extract_body text_util url (Some html) with
      | Raise x => ([], Raise x)
      | Ok body_lang =>
          ([Opened i;
            Wrote i {| bf_body := fst body_lang; bf_lang_id := snd body_lang |}],
           Ok tt)
      end
  end.

Definition step_3_extract_origin_bodies (origins : list string)
  (origin_html_dir : gmap nat (option string))
  : list (event body_file log_3) * result unit :=
  match for_origins (step_3_origin origin_html_dir) 0 origins with
  | (t, Ok _) => (t ++ [Logged (ExtractedBodies (length origins))], Ok tt)
  | (t, Raise x) => (t, Raise x)
  end.

End Step3.

(** *** Step 4 *)

(** The methods of [TextUtil] step 4 calls. *)
Record Segmenter : Type := {
  sent_tokenize : string -> result (list string);
  extract_quoted : string -> result (list string);
  select_segments : list string -> list string -> result (list string)
}.

Record segment_file : Type := {
  sf_url : string;
  sf_text : string;
  sf_lang_id : string;
  sf_sentences : list string;
  sf_quoted : list string;
  sf_segments : list string
}.

Inductive log_4 : Type := Extracted (sent quot segm : nat).

Section Step4.
Variable text_util : Segmenter.

Definition step_4_origin (origin_body_dir : gmap nat (option body_file))
  (i : nat) (url : string) : list (event segment_file log_4) * result unit :=
  match read_json origin_body_dir i with
  | Raise x => ([], Raise x)
  | Ok body_obj =>
      let body := bf_body body_obj in
      let lang_id := bf_lang_id body_obj in
      match sent_tokenize text_util body with
      | Raise x => ([Opened i], Raise x)
      | Ok sentences =>
          match extract_quoted text_util body with
          | Raise x => ([Opened i], Raise x)
          | Ok quoted =>
              match select_segments text_util sentences quoted with
              | Raise x => ([Opened i], Raise x)
              | Ok segments =>
                  ([Opened i;
                    Wrote i {| sf_url := url; sf_text := body; sf_lang_id := lang_id;
                               sf_sentences := sentences; sf_quoted := quoted;
                               sf_segments := segments |};
                    Logged (Extracted (length sentences) (length quoted)
                              (length segments))],
                   Ok tt)
              end
          end
      end
  end.

Definition step_4_extract_sentences (origins : list string)
  (origin_body_dir : gmap nat (option body_file))
  : list (event segment_file log_4) * result unit :=
  for_origins (step_4_origin origin_body_dir) 0 origins.

End Step4.

(** *** Step 5 *)

(** The search API: [make_query(query_string, exact_terms)] and
    [find_results(query, query_size_heuristic, upper_threshold,
    bottom_threshold, max_results)], which returns the found items, the
    URLs and the total. *)
Record SearchApi (query gse_item : Type) : Type := {
  make_query : string -> string -> result query;
  find_results : query -> option Z -> option Z -> option Z -> option Z
                 -> result (list gse_item * list string * Z)
}.
Arguments make_query {query gse_item} _ _ _.
Arguments find_results {query gse_item} _ _ _ _ _ _.

Record gse_entry (gse_item : Type) : Type := {
  ge_segment : string;
  ge_totalResults : Z;
  ge_foundUrls : list string;
  ge_foundItems : list gse_item
}.
Arguments ge_segment {gse_item} _.
Arguments ge_totalResults {gse_item} _.
Arguments ge_foundUrls {gse_item} _.
Arguments ge_foundItems {gse_item} _.

Inductive log_5 : Type :=
| FoundItems (total : Z) (segment_fragment : string)
| SavingGse (unique_links : nat).

(** [segment[:16]] *)
Fixpoint prefix_16 (n : nat) (s : string) : string :=
  match n, s with
  | S n', String c s' => String c (prefix_16 n' s')
  | _, _ => EmptyString
  end.

Section Step5.
Context {query gse_item : Type}.
Variable item_link : gse_item -> string.
Variable gse_api : SearchApi query gse_item.
Variables query_size_heuristic upper_threshold bottom_threshold : option Z.

(** The state of the loop over the segments: [unique_links], [origin_gse]
    and the records logged. *)
Record search_state : Type := {
  unique_links : gset string;
  origin_gse : list (gse_entry gse_item);
  logged : list log_5
}.

(** [for segment in segments], from the state [st]. *)
Fixpoint for_segments (segments : list string) (st : search_state)
  : list log_5 * result search_state :=
  match segments with
  | [] => (logged st, Ok st)
  | segment :: segments' =>
      match make_query gse_api segment segment with
      | Raise x => (logged st, Raise x)
      | Ok query =>
          match find_results gse_api query query_size_heuristic upper_threshold
                  bottom_threshold upper_threshold with
          | Raise x => (logged st, Raise x)
          | Ok (found, urls, total) =>
              let segment_fragment :=
                if (String.length segment <? 16)%nat then segment
                else prefix_16 16 segment in
              for_segments segments'
                {| unique_links :=
                     fold_left (fun s item => s ∪ {[ item_link item ]}) found
                       (unique_links st);
                   origin_gse :=
                     origin_gse st
                     ++ [{| ge_segment := segment; ge_totalResults := total;
                            ge_foundUrls := urls; ge_foundItems := found |}];
                   logged := logged st ++ [FoundItems total segment_fragment] |}
          end
      end
  end.

Definition step_5_origin (origin_segment_dir : gmap nat (option segment_file))
  (i : nat) (url : string)
  : list (event (list (gse_entry gse_item)) log_5) * result unit :=
  match read_json origin_segment_dir i with
  | Raise x => ([], Raise x)
  | Ok segment_obj =>
      match for_segments (sf_segments segment_obj)
              {| unique_links := ∅; origin_gse := []; logged := [] |} with
      | (logs, Raise x) => (Opened i :: map Logged logs, Raise x)
      | (logs, Ok st) =>
          (Opened i :: map Logged logs
             ++ [Logged (SavingGse (size (unique_links st)));
                 Wrote i (origin_gse st)],
           Ok tt)
      end
  end.

Definition step_5_request_gse (origins : list string)
  (origin_segment_dir : gmap nat (option segment_file))
  : list (event (list (gse_entry gse_item)) log_5) * result unit :=
  for_origins (step_5_origin origin_segment_dir) 0 origins.

(** What step 6 reads of an entry. *)
Definition to_segment_entry (entry : gse_entry gse_item) : segment_entry gse_item :=
  {| segment := ge_segment entry; foundItems := ge_foundItems entry |}.

End Step5.

End Early.

(** What the segmentation and the search of an origin amount to. *)
Module EarlySpec.
Import PyStr Pipeline Early.

Section Segmentation.
Variable text_util : Segmenter.

(** File [c] holds the segmentation of the text [body_obj] of [url]. *)
Definition segmented (url : string) (body_obj : body_file) (c : segment_file) : Prop :=
  sf_url c = url
  /\ sf_text c = bf_body body_obj
  /\ sf_lang_id c = bf_lang_id body_obj
  /\ sent_tokenize text_util (bf_body body_obj) = Ok (sf_sentences c)
  /\ extract_quoted text_util (bf_body body_obj) = Ok (sf_quoted c)
  /\ select_segments text_util (sf_sentences c) (sf_quoted c) = Ok (sf_segments c).

(** One of the three calls raises [x] on [body]. *)
Definition segmenter_raises (body : string) (x : exn) : Prop :=
  sent_tokenize text_util body = Raise x
  \/ exists sentences,
       sent_tokenize text_util body = Ok sentences
       /\ (extract_quoted text_util body = Raise x
           \/ exists quoted,
                extract_quoted text_util body = Ok quoted
                /\ select_segments text_util sentences quoted = Raise x).

End Segmentation.

Section Search.
Context {query gse_item : Type}.
Variable item_link : gse_item -> string.
Variable gse_api : SearchApi query gse_item.
Variables query_size_heuristic upper_threshold bottom_threshold : option Z.

(** Entry [e] is the answer to the search for [segment]. *)
Definition searched (segment : string) (e : gse_entry gse_item) : Prop :=
  ge_segment e = segment
  /\ exists q,
       make_query gse_api segment segment = Ok q
       /\ find_results gse_api q query_size_heuristic upper_threshold
            bottom_threshold upper_threshold
          = Ok (ge_foundItems e, ge_foundUrls e, ge_totalResults e).

(** The search for [segment] raises [x]. *)
Definition search_raises (segment : string) (x : exn) : Prop :=
  make_query gse_api segment segment = Raise x
  \/ exists q,
       make_query gse_api segment segment = Ok q
       /\ find_results gse_api q query_size_heuristic upper_threshold
            bottom_threshold upper_threshold = Raise x.

(** The links of the items found for an origin. *)
Definition found_links (entries : list (gse_entry gse_item)) : list string :=
  flat_map (fun e => map item_link (ge_foundItems e)) entries.

(** The log records of the searches of an origin. *)
Definition search_logs (entries : list (gse_entry gse_item)) : list log_5 :=
  map (fun e => FoundItems (ge_totalResults e) (prefix_16 16 (ge_segment e))) entries.

(** The directory step 6 reads after a run of step 5: the files that were
    written, each entry with the two fields step 6 uses. *)
Definition gse_checkpoint (t : list (event (list (gse_entry gse_item)) log_5))
  : gmap nat (list (segment_entry gse_item)) :=
  omap (fun file => map to_segment_entry <$> file) (files t).

End Search.

End EarlySpec.

(** A fetcher that gets the first page only, a segmenter that cuts at full
    stops and fails on an empty text, and a search that knows one quote. *)
Module EarlyDemo.
Import PyStr Pipeline Early.

Definition fetcher : PageFetcher string :=
  {| fetch_documents := fun origins => Ok (map (fun url => String.append "Page of " url) (take 1 origins));
     response_to_utf_8 := fun response => Ok response |}.

Definition segmenter : Segmenter :=
  {| sent_tokenize := fun body =>
       if bool_decide (body = EmptyString) then Raise (Failure "empty text")
       else Ok (EntitiesDemo.split_on "."%char body);
     extract_quoted := fun _ => Ok [];
     select_segments := fun sentences _ => Ok sentences |}.

Definition body_dir : gmap nat (option body_file) :=
  {[ 0%nat := Some {| bf_body := "The Quote In Full.He Said"; bf_lang_id := "en" |};
     1%nat := Some {| bf_body := EmptyString; bf_lang_id := "en" |} ]}.

Definition gse_api : SearchApi string Demo.item :=
  {| make_query := fun query_string exact_terms => Ok query_string;
     find_results := fun q _ _ _ _ =>
       if bool_decide (q = "The Quote In Full")
       then Ok ([Demo.a1; Demo.spam; Demo.b1],
                ["http://a.example/1"; "http://spam.example/x"; "http://b.example/2"],
                3%Z)
       else if bool_decide (q = "He Said")
       then Ok ([Demo.a2], ["http://a.example/1"], 1%Z)
       else Raise (Failure "quota exceeded") |}.

Definition segment_dir : gmap nat (option segment_file) :=
  {[ 0%nat := Some {| sf_url := "http://origin.example/0";
                      sf_text := "The Quote In Full.He Said";
                      sf_lang_id := "en";
                      sf_sentences := ["The Quote In Full"; "He Said"];
                      sf_quoted := [];
                      sf_segments := ["The Quote In Full"; "He Said"] |};
     1%nat := Some {| sf_url := "http://origin.example/1";
                      sf_text := "He Said.Nothing else";
                      sf_lang_id := "en";
                      sf_sentences := ["He Said"; "Nothing else"];
                      sf_quoted := [];
                      sf_segments := ["He Said"; "Nothing else"] |} ]}.

End EarlyDemo.

(** * Properties of [NerExtractor.truecase] *)

Section TruecaseFacts.
Import PyStr Ner.

Lemma truecase_body_insert (r : nat) (h : gmap nat (list string)) (l0 : list string)
  (i : nat) (tok : string) :
  h !! r = Some l0 -> l0 !! i = Some tok ->
  truecase_body r h i = Some (<[r := <[i := truecased tok]> l0]> h).
Proof.
  intros Hr Hi. unfold truecase_body, truecased, is_shouting.
  rewrite Hr. simpl. rewrite Hi. simpl.
  assert (Hid : Some h = Some (<[r := <[i := tok]> l0]> h)).
  { rewrite (list_insert_id l0 i tok Hi). by rewrite insert_id. }
  destruct (String.length tok <=? 3)%nat eqn:Hlen; simpl; [exact Hid|].
  destruct tok as [|c tok']; [discriminate Hlen|]. simpl.
  destruct (bool_decide (c = "@"%char)) eqn:Hat.
  - apply bool_decide_eq_true in Hat. subst c.
    rewrite bool_decide_eq_true_2 by reflexivity. simpl. exact Hid.
  - apply bool_decide_eq_false in Hat.
    rewrite bool_decide_eq_false_2 by congruence. simpl.
    destruct (isupper (String c tok')); [reflexivity | exact Hid].
Qed.

Lemma for_range_truecase (r : nat) (n : nat) :
  forall (a : nat) (h : gmap nat (list string)) (l0 : list string),
    h !! r = Some l0 -> (a + n <= length l0)%nat ->
    exists l1,
      for_range (truecase_body r) h (seq a n) = Some (<[r := l1]> h)
      /\ length l1 = length l0
      /\ (forall i, (a <= i < a + n)%nat -> l1 !! i = truecased <$> l0 !! i)
      /\ (forall i, ~ (a <= i < a + n)%nat -> l1 !! i = l0 !! i).
Proof.
  induction n as [|n IH]; intros a h l0 Hr Hlen.
  - exists l0. simpl. rewrite insert_id by exact Hr.
    split; [reflexivity|]. split; [reflexivity|].
    split; [intros i Hi; lia | done].
  - destruct (lookup_lt_is_Some_2 l0 a) as [tok Htok]; [lia|].
    simpl. rewrite (truecase_body_insert r h l0 a tok Hr Htok). simpl.
    set (l0' := <[a := truecased tok]> l0).
    destruct (IH (S a) (<[r := l0']> h) l0') as (l1 & Hrun & Hl & Hin & Hout).
    { apply lookup_insert_eq. }
    { unfold l0'. rewrite length_insert. lia. }
    exists l1. rewrite Hrun, insert_insert_eq.
    split; [reflexivity|]. split.
    { rewrite Hl. apply length_insert. }
    split.
    + intros i Hi. destruct (decide (i = a)) as [->|Hne].
      * rewrite Hout by lia. unfold l0'.
        rewrite list_lookup_insert_eq by lia. by rewrite Htok.
      * rewrite Hin by lia. unfold l0'.
        by rewrite list_lookup_insert_ne by congruence.
    + intros i Hi. rewrite Hout by lia. unfold l0'.
      apply list_lookup_insert_ne. lia.
Qed.

(** C10. [truecase] returns a new list of the same length and leaves its
    argument (and every other object) as it was; at each position the token is
    its title-cased form exactly when it is longer than 3, does not start with
    "@" and is upper case, and the token itself otherwise. *)
Theorem truecase_fresh_copy_titlecases_shouting
  (h : gmap nat (list string)) (tokens : nat) (l : list string) :
  h !! tokens = Some l ->
  exists (h' : gmap nat (list string)) (r : nat) (l' : list string),
    truecase h tokens = Some (h', r)
    /\ r <> tokens /\ h !! r = None
    /\ (forall p, p <> r -> h' !! p = h !! p)
    /\ h' !! tokens = Some l
    /\ h' !! r = Some l'
    /\ length l' = length l
    /\ forall (i : nat) (tok : string), l !! i = Some tok ->
         ((3 < String.length tok)%nat /\ first_char tok <> Some "@"%char
            /\ isupper tok = true -> l' !! i = Some (title tok))
         /\ (~ ((3 < String.length tok)%nat /\ first_char tok <> Some "@"%char
                /\ isupper tok = true) -> l' !! i = Some tok).
Proof.
  intros Hl.
  set (r := fresh (dom h)).
  assert (Hfresh : h !! r = None).
  { apply not_elem_of_dom. apply is_fresh. }
  assert (Hne : r <> tokens) by (intros ->; congruence).
  destruct (for_range_truecase r (length l) 0 (<[r := l]> h) l)
    as (l1 & Hrun & Hlen & Hin & _).
  { apply lookup_insert_eq. }
  { lia. }
  exists (<[r := l1]> h), r, l1.
  split.
  { unfold truecase, copy_list. rewrite Hl. simpl. fold r.
    rewrite lookup_insert_eq. simpl. rewrite Hrun. simpl.
    by rewrite insert_insert_eq. }
  split; [exact Hne|]. split; [exact Hfresh|].
  split. { intros p Hp. by rewrite lookup_insert_ne. }
  split. { by rewrite lookup_insert_ne. }
  split. { apply lookup_insert_eq. }
  split; [exact Hlen|].
  intros i tok Hi.
  assert (Hli : l1 !! i = Some (truecased tok)).
  { rewrite Hin, Hi; [done|]. apply lookup_lt_Some in Hi. lia. }
  rewrite Hli. unfold truecased, is_shouting.
  split.
  - intros (H3 & Hat & Hup).
    rewrite Hup.
    assert ((String.length tok <=? 3)%nat = false) as -> by (apply Nat.leb_gt; lia).
    rewrite bool_decide_eq_false_2 by exact Hat. reflexivity.
  - intros Hnot.
    destruct (String.length tok <=? 3)%nat eqn:E3; [reflexivity|].
    apply Nat.leb_gt in E3. simpl.
    destruct (bool_decide (first_char tok = Some "@"%char)) eqn:Eat; [reflexivity|].
    apply bool_decide_eq_false in Eat. simpl.
    destruct (isupper tok) eqn:Eup; [|reflexivity].
    exfalso. apply Hnot. auto.
Qed.

(** The theorem at a heap with one list, ["HELLO"; "@USER"; "the"; "NASA"]. *)
Lemma truecase_fresh_copy_titlecases_shouting_witness :
  exists (h' : gmap nat (list string)) (r : nat) (l' : list string),
    truecase {[ 0%nat := ["HELLO"; "@USER"; "the"; "NASA"] ]} 0%nat = Some (h', r)
    /\ r <> 0%nat
    /\ ({[ 0%nat := ["HELLO"; "@USER"; "the"; "NASA"] ]} : gmap nat (list string)) !! r = None
    /\ (forall p, p <> r ->
          h' !! p = ({[ 0%nat := ["HELLO"; "@USER"; "the"; "NASA"] ]} : gmap nat (list string)) !! p)
    /\ h' !! 0%nat = Some ["HELLO"; "@USER"; "the"; "NASA"]
    /\ h' !! r = Some l'
    /\ length l' = length ["HELLO"; "@USER"; "the"; "NASA"]
    /\ forall (i : nat) (tok : string),
         ["HELLO"; "@USER"; "the"; "NASA"] !! i = Some tok ->
         ((3 < String.length tok)%nat /\ first_char tok <> Some "@"%char
            /\ isupper tok = true -> l' !! i = Some (title tok))
         /\ (~ ((3 < String.length tok)%nat /\ first_char tok <> Some "@"%char
                /\ isupper tok = true) -> l' !! i = Some tok).
Proof.
  apply (truecase_fresh_copy_titlecases_shouting
           {[ 0%nat := ["HELLO"; "@USER"; "the"; "NASA"] ]} 0%nat
           ["HELLO"; "@USER"; "the"; "NASA"]).
  reflexivity.
Defined.

(** The call evaluated on that heap. *)
Example truecase_example :
  (h_r ← truecase {[ 0%nat := ["HELLO"; "@USER"; "the"; "NASA"; "USA"; "Mixed"; ""] ]} 0%nat;
   Some (h_r.1 !! h_r.2, h_r.1 !! 0%nat))
  = Some (Some ["Hello"; "@USER"; "the"; "Nasa"; "USA"; "Mixed"; ""],
          Some ["HELLO"; "@USER"; "the"; "NASA"; "USA"; "Mixed"; ""]).
Proof. vm_compute. reflexivity. Qed.

End TruecaseFacts.

(** * The codecs: what the encoder writes, the decoder reads *)

Section CodecFacts.
Import PyStr Utf8.

Lemma ord_chr (n : N) : n < 256 -> ord (chr n) = n.
Proof. intros Hn. unfold ord, chr. apply N_ascii_embedding. exact Hn. Qed.

Lemma ord_lt_256 (c : ascii) : ord c < 256.
Proof. apply N_ascii_bounded. Qed.

Lemma all_below_spec (n : nat) (P : N -> bool) :
  all_below n P = true -> forall x, x < N.of_nat n -> P x = true.
Proof.
  induction n as [|k IH]; intros Hall x Hx; [lia|].
  simpl in Hall. apply andb_prop in Hall as [Hk Hrest].
  destruct (N.eq_dec x (N.of_nat k)) as [->|Hne]; [exact Hk|].
  apply IH; [exact Hrest | lia].
Qed.

Lemma shiftr_lt (ch : N) (k bound : N) :
  ch < bound * 2 ^ k -> N.shiftr ch k < bound.
Proof.
  intros Hlt. rewrite N.shiftr_div_pow2.
  apply N.Div0.div_lt_upper_bound. lia.
Qed.

Lemma shiftr_ge (ch : N) (k bound : N) :
  bound * 2 ^ k <= ch -> bound <= N.shiftr ch k.
Proof.
  intros Hle. rewrite N.shiftr_div_pow2.
  apply N.div_le_lower_bound; [apply N.pow_nonzero; lia | lia].
Qed.

Lemma land_3f_lt (x : N) : N.land x 0x3f < 64.
Proof.
  change 0x3f with (N.ones 6). rewrite N.land_ones.
  apply N.mod_lt. discriminate.
Qed.

Lemma land_3f_small (x : N) : x < 64 -> N.land x 0x3f = x.
Proof.
  intros Hx. change 0x3f with (N.ones 6). rewrite N.land_ones.
  apply N.mod_small. exact Hx.
Qed.

(** A continuation byte [0x80 | y]. *)
Lemma cont_byte (y : N) :
  y < 64 ->
  N.lor 0x80 y < 256 /\ is_cont (N.lor 0x80 y) = true
  /\ ((N.lor 0x80 y <? 0xA0) = true -> y < 32)
  /\ ((N.lor 0x80 y <? 0x90) = true -> y < 16)
  /\ ((0x8F <? N.lor 0x80 y) = true -> 16 <= y).
Proof.
  intros Hy.
  pose proof (all_below_spec 64
    (fun y => (N.lor 0x80 y <? 256) && is_cont (N.lor 0x80 y)
              && (negb (N.lor 0x80 y <? 0xA0) || (y <? 32))
              && (negb (N.lor 0x80 y <? 0x90) || (y <? 16))
              && (negb (0x8F <? N.lor 0x80 y) || (16 <=? y)))
    eq_refl y Hy) as Hall.
  simpl in Hall.
  repeat (apply andb_prop in Hall as [Hall ?]).
  repeat split.
  - by apply N.ltb_lt.
  - done.
  - intros E. rewrite E in *. by apply N.ltb_lt.
  - intros E. rewrite E in *. by apply N.ltb_lt.
  - intros E. rewrite E in *. by apply N.leb_le.
Qed.

Lemma lead2_byte (a : N) :
  2 <= a -> a < 32 ->
  N.lor 0xc0 a < 256 /\ (N.lor 0xc0 a <? 0x80) = false
  /\ utf8_code_length (N.lor 0xc0 a) = 2%nat.
Proof.
  intros Hlo Hhi.
  pose proof (all_below_spec 32
    (fun a => (a <? 2)
              || ((N.lor 0xc0 a <? 256) && negb (N.lor 0xc0 a <? 0x80)
                  && bool_decide (utf8_code_length (N.lor 0xc0 a) = 2%nat)))
    eq_refl a Hhi) as Hall.
  simpl in Hall.
  destruct (a <? 2) eqn:E; [apply N.ltb_lt in E; lia|]. simpl in Hall.
  repeat (apply andb_prop in Hall as [Hall ?]).
  split; [by apply N.ltb_lt|]. split; [by apply negb_true_iff|].
  eapply bool_decide_eq_true_1; eassumption.
Qed.

Lemma lead3_byte (a : N) :
  a < 16 ->
  N.lor 0xe0 a < 256 /\ (N.lor 0xe0 a <? 0x80) = false
  /\ utf8_code_length (N.lor 0xe0 a) = 3%nat
  /\ ((N.lor 0xe0 a =? 0xE0) = true -> a = 0).
Proof.
  intros Hhi.
  pose proof (all_below_spec 16
    (fun a => (N.lor 0xe0 a <? 256) && negb (N.lor 0xe0 a <? 0x80)
              && bool_decide (utf8_code_length (N.lor 0xe0 a) = 3%nat)
              && (negb (N.lor 0xe0 a =? 0xE0) || (a =? 0)))
    eq_refl a Hhi) as Hall.
  simpl in Hall.
  repeat (apply andb_prop in Hall as [Hall ?]).
  split; [by apply N.ltb_lt|]. split; [by apply negb_true_iff|].
  split; [eapply bool_decide_eq_true_1; eassumption|].
  intros E. rewrite E in *. by apply N.eqb_eq.
Qed.

Lemma lead4_byte (a : N) :
  a < 5 ->
  N.lor 0xf0 a < 256 /\ (N.lor 0xf0 a <? 0x80) = false
  /\ utf8_code_length (N.lor 0xf0 a) = 4%nat
  /\ ((N.lor 0xf0 a =? 0xF0) = true -> a = 0)
  /\ ((N.lor 0xf0 a =? 0xF4) = true -> a = 4).
Proof.
  intros Hhi.
  pose proof (all_below_spec 5
    (fun a => (N.lor 0xf0 a <? 256) && negb (N.lor 0xf0 a <? 0x80)
              && bool_decide (utf8_code_length (N.lor 0xf0 a) = 4%nat)
              && (negb (N.lor 0xf0 a =? 0xF0) || (a =? 0))
              && (negb (N.lor 0xf0 a =? 0xF4) || (a =? 4)))
    eq_refl a Hhi) as Hall.
  simpl in Hall.
  repeat (apply andb_prop in Hall as [Hall ?]).
  split; [by apply N.ltb_lt|]. split; [by apply negb_true_iff|].
  split; [eapply bool_decide_eq_true_1; eassumption|].
  split; intros E; rewrite E in *; by apply N.eqb_eq.
Qed.

(** The decoder on what the encoder writes for one code point. *)
Lemma decode_put1 (ch : N) (k : string) :
  ch < 0x80 -> utf8_decode (put1 ch k) = cons_opt (Some ch) (utf8_decode k).
Proof.
  intros Hch. unfold put1. simpl.
  rewrite ord_chr by lia.
  by apply N.ltb_lt in Hch as ->.
Qed.

Lemma decode_put2 (ch : N) (k : string) :
  0x80 <= ch -> ch < 0x800 ->
  utf8_decode (put2 ch k)
  = cons_opt (decode2 (N.lor 0xc0 (N.shiftr ch 6)) (N.lor 0x80 (N.land ch 0x3f)))
      (utf8_decode k)
  /\ decode2 (N.lor 0xc0 (N.shiftr ch 6)) (N.lor 0x80 (N.land ch 0x3f)) <> None.
Proof.
  intros Hlo Hhi.
  destruct (lead2_byte (N.shiftr ch 6)) as (L1 & L2 & L3).
  { apply shiftr_ge. simpl. lia. }
  { apply shiftr_lt. simpl. lia. }
  destruct (cont_byte (N.land ch 0x3f) (land_3f_lt ch)) as (C1 & C2 & _).
  split.
  - unfold put2. cbn [utf8_decode].
    rewrite !ord_chr by assumption. rewrite L2, L3. reflexivity.
  - unfold decode2. rewrite C2. discriminate.
Qed.

Lemma decode_put3 (ch : N) (k : string) :
  0x800 <= ch -> ch < 0x10000 ->
  exists c, utf8_decode (put3 ch k) = cons_opt (Some c) (utf8_decode k).
Proof.
  intros Hlo Hhi.
  destruct (lead3_byte (N.shiftr ch 12)) as (L1 & L2 & L3 & L4).
  { apply shiftr_lt. simpl. lia. }
  destruct (cont_byte (N.land (N.shiftr ch 6) 0x3f) (land_3f_lt _))
    as (C1 & C2 & C3 & _).
  destruct (cont_byte (N.land ch 0x3f) (land_3f_lt _)) as (D1 & D2 & _).
  unfold put3. cbn [utf8_decode].
  rewrite !ord_chr by assumption. rewrite L2, L3.
  unfold decode3. rewrite C2, D2. cbn [negb orb].
  destruct ((N.lor 0xe0 (N.shiftr ch 12) =? 0xE0)
            && (N.lor 0x80 (N.land (N.shiftr ch 6) 0x3f) <? 0xA0)) eqn:E.
  - exfalso. apply andb_prop in E as [E0 E1].
    specialize (L4 E0). specialize (C3 E1).
    assert (Hs : N.shiftr ch 6 < 64).
    { apply shiftr_lt.
      rewrite N.shiftr_div_pow2 in L4.
      assert (ch < 2 ^ 12); [|simpl in *; lia].
      apply N.div_small_iff in L4; [exact L4 | by simpl]. }
    rewrite land_3f_small in C3 by exact Hs.
    assert (32 <= N.shiftr ch 6); [|lia].
    apply shiftr_ge. simpl. lia.
  - eexists. reflexivity.
Qed.

Lemma decode_put4 (ch : N) (k : string) :
  0x10000 <= ch -> ch < 0x110000 ->
  exists c, utf8_decode (put4 ch k) = cons_opt (Some c) (utf8_decode k).
Proof.
  intros Hlo Hhi.
  destruct (lead4_byte (N.shiftr ch 18)) as (L1 & L2 & L3 & L4 & L5).
  { apply shiftr_lt. simpl. lia. }
  destruct (cont_byte (N.land (N.shiftr ch 12) 0x3f) (land_3f_lt _))
    as (C1 & C2 & _ & C3 & C4).
  destruct (cont_byte (N.land (N.shiftr ch 6) 0x3f) (land_3f_lt _))
    as (D1 & D2 & _).
  destruct (cont_byte (N.land ch 0x3f) (land_3f_lt _)) as (E1 & E2 & _).
  unfold put4. cbn [utf8_decode].
  rewrite !ord_chr by assumption. rewrite L2, L3.
  unfold decode4. rewrite C2, D2, E2. cbn [negb orb].
  assert (Hdiv : N.shiftr ch 12 = N.shiftr ch 18 * 64 + N.land (N.shiftr ch 12) 0x3f).
  { change 0x3f with (N.ones 6). rewrite N.land_ones.
    replace (N.shiftr ch 18) with (N.shiftr (N.shiftr ch 12) 6)
      by (rewrite N.shiftr_shiftr; reflexivity).
    rewrite (N.shiftr_div_pow2 _ 6).
    rewrite N.mul_comm. apply N.div_mod. by simpl. }
  assert (H12lo : 16 <= N.shiftr ch 12) by (apply shiftr_ge; simpl; lia).
  assert (H12hi : N.shiftr ch 12 < 272) by (apply shiftr_lt; simpl; lia).
  destruct ((N.lor 0xf0 (N.shiftr ch 18) =? 0xF0)
            && (N.lor 0x80 (N.land (N.shiftr ch 12) 0x3f) <? 0x90)) eqn:EA.
  { exfalso. apply andb_prop in EA as [EA0 EA1].
    specialize (L4 EA0). specialize (C3 EA1). lia. }
  destruct ((N.lor 0xf0 (N.shiftr ch 18) =? 0xF4)
            && (0x8F <? N.lor 0x80 (N.land (N.shiftr ch 12) 0x3f))) eqn:EB.
  { exfalso. apply andb_prop in EB as [EB0 EB1].
    specialize (L5 EB0). specialize (C4 EB1). lia. }
  eexists. reflexivity.
Qed.

Lemma join_surrogates_range (ch ch2 : N) :
  is_high_surrogate ch = true -> is_low_surrogate ch2 = true ->
  0x10000 <= join_surrogates ch ch2 /\ join_surrogates ch ch2 < 0x110000.
Proof.
  unfold is_high_surrogate, is_low_surrogate, join_surrogates.
  intros [H1 H2]%andb_prop [H3 H4]%andb_prop.
  apply N.leb_le in H1, H2, H3, H4.
  split; [lia|].
  assert (N.lor (N.shiftl (ch - 0xD800) 10) (ch2 - 0xDC00) < 2 ^ 20); [|simpl in *; lia].
  destruct (N.eq_dec (N.lor (N.shiftl (ch - 0xD800) 10) (ch2 - 0xDC00)) 0) as [->|Hnz];
    [by simpl|].
  apply N.log2_lt_pow2; [lia|].
  rewrite N.log2_lor.
  apply N.max_lub_lt.
  - destruct (N.eq_dec (N.shiftl (ch - 0xD800) 10) 0) as [->|Hnz1]; [by simpl|].
    apply N.log2_lt_pow2; [lia|].
    rewrite N.shiftl_mul_pow2. simpl. lia.
  - destruct (N.eq_dec (ch2 - 0xDC00) 0) as [->|Hnz2]; [by simpl|].
    apply N.log2_lt_pow2; [lia|]. simpl. lia.
Qed.

(** Whatever the encoder writes, the decoder accepts. *)
Lemma utf8_encode_decodes (u : list N) :
  Forall valid_code_point u -> utf8_decode (utf8_encode u) <> None.
Proof.
  assert (Hcons : forall c k, k <> None -> cons_opt (Some c) k <> None).
  { intros c [l|] Hk; [discriminate | congruence]. }
  remember (length u) as n eqn:Hn.
  revert u Hn. induction n as [n IH] using lt_wf_ind. intros u Hn Hu.
  destruct u as [|ch rest]; [discriminate|].
  inversion Hu as [|? ? Hch Hrest]; subst. unfold valid_code_point in Hch.
  assert (IHrest : utf8_decode (utf8_encode rest) <> None).
  { eapply IH; [|reflexivity|exact Hrest]. simpl. lia. }
  cbn [utf8_encode].
  destruct (ch <? 0x80) eqn:E1.
  { apply N.ltb_lt in E1. rewrite decode_put1 by exact E1. by apply Hcons. }
  apply N.ltb_ge in E1.
  destruct (ch <? 0x800) eqn:E2.
  { apply N.ltb_lt in E2.
    destruct (decode_put2 ch (utf8_encode rest) E1 E2) as [-> Hd].
    destruct (decode2 _ _) as [c|]; [by apply Hcons | done]. }
  apply N.ltb_ge in E2.
  destruct (ch <? 0x10000) eqn:E3.
  - apply N.ltb_lt in E3.
    assert (H3 : utf8_decode (put3 ch (utf8_encode rest)) <> None).
    { destruct (decode_put3 ch (utf8_encode rest) E2 E3) as [c ->].
      by apply Hcons. }
    destruct rest as [|ch2 rest']; [exact H3|].
    destruct (is_high_surrogate ch && is_low_surrogate ch2) eqn:ES; [|exact H3].
    apply andb_prop in ES as [ES1 ES2].
    destruct (join_surrogates_range ch ch2 ES1 ES2) as [J1 J2].
    destruct (decode_put4 _ (utf8_encode rest') J1 J2) as [c ->].
    apply Hcons. inversion Hrest; subst.
    eapply IH; [|reflexivity|eassumption]. simpl. lia.
  - apply N.ltb_ge in E3.
    destruct (decode_put4 ch (utf8_encode rest) E3 Hch) as [c ->].
    by apply Hcons.
Qed.

(** Latin-1 text re-encoded as UTF-8 reads back as the same characters. *)
Lemma decode2_latin1 (ch : N) :
  0x80 <= ch -> ch < 256 ->
  decode2 (N.lor 0xc0 (N.shiftr ch 6)) (N.lor 0x80 (N.land ch 0x3f)) = Some ch.
Proof.
  intros Hlo Hhi.
  pose proof (all_below_spec 256
    (fun ch => (ch <? 0x80)
               || bool_decide (decode2 (N.lor 0xc0 (N.shiftr ch 6))
                                 (N.lor 0x80 (N.land ch 0x3f)) = Some ch))
    eq_refl ch Hhi) as Hall.
  simpl in Hall.
  destruct (ch <? 0x80) eqn:E; [apply N.ltb_lt in E; lia|].
  eapply bool_decide_eq_true_1. exact Hall.
Qed.

Lemma utf8_latin1_roundtrip (s : string) :
  utf8_decode (utf8_encode (latin1_decode s)) = Some (latin1_decode s).
Proof.
  induction s as [|c s IH]; [reflexivity|].
  cbn [latin1_decode utf8_encode].
  pose proof (ord_lt_256 c) as Hc.
  destruct (ord c <? 0x80) eqn:E1.
  { apply N.ltb_lt in E1. rewrite decode_put1 by exact E1. by rewrite IH. }
  apply N.ltb_ge in E1.
  assert ((ord c <? 0x800) = true) as -> by (apply N.ltb_lt; lia).
  destruct (decode_put2 (ord c) (utf8_encode (latin1_decode s))) as [-> _];
    [lia | lia |].
  rewrite decode2_latin1 by lia. by rewrite IH.
Qed.
End CodecFacts.

(** * [to_utf_8_dict] *)

Section EncodingFacts.
Import PyStr Utf8 Encoding.
Context {scalar : Type} (scalar_eqb : scalar -> scalar -> bool).

Local Abbreviation conv := (to_utf_8_dict scalar_eqb).
Local Abbreviation conv_item := (fun kv : pyval scalar * pyval scalar => (conv (fst kv), conv (snd kv))).

(** Induction on a value, with the property in hand for every item of a
    list, tuple or mapping. *)
Lemma pyval_nested_ind (P : pyval scalar -> Prop) :
  (forall u, P (PUnicode u)) ->
  (forall s, P (PStr s)) ->
  (forall items, Forall (fun kv => P (fst kv) /\ P (snd kv)) items -> P (PDict items)) ->
  (forall l, Forall P l -> P (PList l)) ->
  (forall l, Forall P l -> P (PTuple l)) ->
  (forall a, P (PScalar a)) ->
  forall v, P v.
Proof.
  intros HU HS HD HL HT HSc.
  fix IH 1. intros [u|s|items|l|l|a].
  - apply HU.
  - apply HS.
  - apply HD. induction items as [|[k v] items IHi]; constructor.
    + split; apply IH.
    + exact IHi.
  - apply HL. induction l as [|x l IHl]; constructor; [apply IH | exact IHl].
  - apply HT. induction l as [|x l IHl]; constructor; [apply IH | exact IHl].
  - apply HSc.
Qed.

Lemma wf_PList (l : list (pyval scalar)) : wf_pyval (PList l) <-> Forall wf_pyval l.
Proof.
  induction l as [|x l IH]; simpl; [by split; [constructor|]|].
  rewrite Forall_cons. simpl in IH. by rewrite IH.
Qed.

Lemma wf_PTuple (l : list (pyval scalar)) : wf_pyval (PTuple l) <-> Forall wf_pyval l.
Proof.
  induction l as [|x l IH]; simpl; [by split; [constructor|]|].
  rewrite Forall_cons. simpl in IH. by rewrite IH.
Qed.

Lemma wf_PDict (items : list (pyval scalar * pyval scalar)) :
  wf_pyval (PDict items)
  <-> Forall (fun kv => wf_pyval (fst kv) /\ wf_pyval (snd kv)) items.
Proof.
  induction items as [|kv items IH]; simpl; [by split; [constructor|]|].
  rewrite Forall_cons. simpl in IH. rewrite IH. tauto.
Qed.

Lemma clean_PList (l : list (pyval scalar)) : utf8_clean (PList l) <-> Forall utf8_clean l.
Proof.
  induction l as [|x l IH]; simpl; [by split; [constructor|]|].
  rewrite Forall_cons. simpl in IH. by rewrite IH.
Qed.

Lemma clean_PTuple (l : list (pyval scalar)) : utf8_clean (PTuple l) <-> Forall utf8_clean l.
Proof.
  induction l as [|x l IH]; simpl; [by split; [constructor|]|].
  rewrite Forall_cons. simpl in IH. by rewrite IH.
Qed.

Lemma clean_PDict (items : list (pyval scalar * pyval scalar)) :
  utf8_clean (PDict items)
  <-> Forall (fun kv => utf8_clean (fst kv) /\ utf8_clean (snd kv)) items.
Proof.
  induction items as [|kv items IH]; simpl; [by split; [constructor|]|].
  rewrite Forall_cons. simpl in IH. rewrite IH. tauto.
Qed.

(** [dict(...)] stores keys and values it was given, and no others. *)
Lemma dict_setitem_Forall (Pk Pv : pyval scalar -> Prop)
  (d : list (pyval scalar * pyval scalar)) (k v : pyval scalar) :
  Forall (fun kv => Pk (fst kv) /\ Pv (snd kv)) d -> Pk k -> Pv v ->
  Forall (fun kv => Pk (fst kv) /\ Pv (snd kv)) (dict_setitem scalar_eqb d k v).
Proof.
  intros Hd Hk Hv. induction Hd as [|[k' v'] d [Hk' Hv'] Hd IH]; simpl.
  - by repeat constructor.
  - destruct (key_eqb scalar_eqb k' k); constructor; auto.
Qed.

Lemma py_dict_Forall (Pk Pv : pyval scalar -> Prop)
  (pairs : list (pyval scalar * pyval scalar)) :
  Forall (fun kv => Pk (fst kv) /\ Pv (snd kv)) pairs ->
  Forall (fun kv => Pk (fst kv) /\ Pv (snd kv)) (py_dict scalar_eqb pairs).
Proof.
  unfold py_dict. intros Hp.
  assert (Hgen : forall acc,
    Forall (fun kv => Pk (fst kv) /\ Pv (snd kv)) acc ->
    Forall (fun kv => Pk (fst kv) /\ Pv (snd kv))
      (fold_left (fun d kv => dict_setitem scalar_eqb d (fst kv) (snd kv)) pairs acc)).
  { induction Hp as [|[k v] pairs [Hk Hv] Hp IH]; intros acc Hacc; simpl; [exact Hacc|].
    apply IH. by apply dict_setitem_Forall. }
  apply Hgen. constructor.
Qed.

(** [dict(...)] never stores two equal keys. *)
Lemma dict_setitem_keys (d : list (pyval scalar * pyval scalar)) (k v k0 : pyval scalar) :
  Forall (fun kv' => key_eqb scalar_eqb k0 (fst kv') = false) d ->
  key_eqb scalar_eqb k0 k = false ->
  Forall (fun kv' => key_eqb scalar_eqb k0 (fst kv') = false)
    (dict_setitem scalar_eqb d k v).
Proof.
  intros Hd Hk. induction Hd as [|[k' v'] d Hk' Hd IH]; simpl.
  - by repeat constructor.
  - destruct (key_eqb scalar_eqb k' k); constructor; auto.
Qed.

Lemma dict_setitem_keys_distinct (d : list (pyval scalar * pyval scalar))
  (k v : pyval scalar) :
  keys_distinct scalar_eqb d -> keys_distinct scalar_eqb (dict_setitem scalar_eqb d k v).
Proof.
  induction d as [|[k' v'] d IH]; simpl.
  - intros _. split; [constructor | exact I].
  - intros [Hhd Htl]. destruct (key_eqb scalar_eqb k' k) eqn:E; simpl.
    + split; assumption.
    + split; [by apply dict_setitem_keys | by apply IH].
Qed.

Lemma py_dict_keys_distinct (pairs : list (pyval scalar * pyval scalar)) :
  keys_distinct scalar_eqb (py_dict scalar_eqb pairs).
Proof.
  unfold py_dict.
  assert (Hgen : forall acc, keys_distinct scalar_eqb acc ->
    keys_distinct scalar_eqb
      (fold_left (fun d kv => dict_setitem scalar_eqb d (fst kv) (snd kv)) pairs acc)).
  { induction pairs as [|[k v] pairs IH]; intros acc Hacc; simpl; [exact Hacc|].
    apply IH. by apply dict_setitem_keys_distinct. }
  apply Hgen. exact I.
Qed.

Lemma dict_setitem_new (d : list (pyval scalar * pyval scalar)) (k v : pyval scalar) :
  Forall (fun kv' => key_eqb scalar_eqb (fst kv') k = false) d ->
  dict_setitem scalar_eqb d k v = d ++ [(k, v)].
Proof.
  induction 1 as [|[k' v'] d Hk' Hd IH]; simpl; [reflexivity|].
  simpl in Hk'. rewrite Hk'. by rewrite IH.
Qed.

Lemma keys_distinct_snoc (d1 : list (pyval scalar * pyval scalar))
  (kv : pyval scalar * pyval scalar) (d2 : list (pyval scalar * pyval scalar)) :
  keys_distinct scalar_eqb (d1 ++ kv :: d2) ->
  Forall (fun kv' => key_eqb scalar_eqb (fst kv') (fst kv) = false) d1.
Proof.
  induction d1 as [|kv1 d1 IH]; simpl; [constructor|].
  intros [Hhd Htl]. constructor; [|by apply IH].
  rewrite Forall_app, Forall_cons in Hhd. tauto.
Qed.

(** A dictionary rebuilt from its own items is itself. *)
Lemma py_dict_of_distinct (d : list (pyval scalar * pyval scalar)) :
  keys_distinct scalar_eqb d -> py_dict scalar_eqb d = d.
Proof.
  unfold py_dict.
  assert (Hgen : forall d2 d1, keys_distinct scalar_eqb (d1 ++ d2) ->
    fold_left (fun d kv => dict_setitem scalar_eqb d (fst kv) (snd kv)) d2 d1 = d1 ++ d2).
  { induction d2 as [|[k v] d2 IH]; intros d1 Hd; simpl; [by rewrite app_nil_r|].
    rewrite dict_setitem_new by (by apply (keys_distinct_snoc d1 (k, v) d2)).
    rewrite IH; rewrite <- app_assoc; [reflexivity | exact Hd]. }
  intros Hd. by apply (Hgen d []).
Qed.

(** After the conversion every string is a [str] that decodes as UTF-8. *)
Lemma to_utf_8_dict_clean (v : pyval scalar) :
  wf_pyval v -> utf8_clean (conv v).
Proof.
  induction v as [u|s|items IH|l IH|l IH|a] using pyval_nested_ind; intros Hwf.
  - simpl. by apply utf8_encode_decodes.
  - simpl. destruct (utf8_decode s) eqn:E; simpl.
    + congruence.
    + rewrite utf8_latin1_roundtrip. discriminate.
  - cbn [to_utf_8_dict]. apply clean_PDict. apply wf_PDict in Hwf.
    apply (py_dict_Forall utf8_clean utf8_clean).
    apply Forall_map. simpl.
    pose proof (conj IH Hwf) as Hboth. apply Forall_and in Hboth.
    eapply Forall_impl; [exact Hboth|].
    intros kv [[IHk IHv] [Hk Hv]]. auto.
  - cbn [to_utf_8_dict]. apply clean_PList. apply wf_PList in Hwf.
    apply Forall_map.
    pose proof (conj IH Hwf) as Hboth. apply Forall_and in Hboth.
    eapply Forall_impl; [exact Hboth|].
    intros x [IHx Hx]. auto.
  - cbn [to_utf_8_dict]. apply clean_PTuple. apply wf_PTuple in Hwf.
    apply Forall_map.
    pose proof (conj IH Hwf) as Hboth. apply Forall_and in Hboth.
    eapply Forall_impl; [exact Hboth|].
    intros x [IHx Hx]. auto.
  - exact I.
Qed.
Lemma map_fixed {A : Type} (f : A -> A) (l : list A) :
  Forall (fun x => f x = x) l -> map f l = l.
Proof. induction 1 as [|x l Hx Hl IH]; simpl; congruence. Qed.

(** [dict(...)] of pairs: a pair either takes the place of an equal key or
    is added at the end. *)
Lemma dict_setitem_length_le (d : list (pyval scalar * pyval scalar))
  (k v : pyval scalar) :
  (length (dict_setitem scalar_eqb d k v) <= S (length d))%nat.
Proof.
  induction d as [|[k' v'] d IH]; simpl; [lia|].
  destruct (key_eqb scalar_eqb k' k); simpl; lia.
Qed.

Lemma dict_setitem_grows (d : list (pyval scalar * pyval scalar)) (k v : pyval scalar) :
  length (dict_setitem scalar_eqb d k v) = S (length d) ->
  dict_setitem scalar_eqb d k v = d ++ [(k, v)].
Proof.
  induction d as [|[k' v'] d IH]; simpl; [reflexivity|].
  destruct (key_eqb scalar_eqb k' k); simpl; intros Hlen; [lia|].
  rewrite IH; [reflexivity | lia].
Qed.

(** [dict(pairs)] has as many items as [pairs] only when it is [pairs]. *)
Lemma py_dict_full (pairs : list (pyval scalar * pyval scalar)) :
  length (py_dict scalar_eqb pairs) = length pairs ->
  py_dict scalar_eqb pairs = pairs.
Proof.
  unfold py_dict.
  assert (Hle : forall l acc,
    (length (fold_left (fun d kv => dict_setitem scalar_eqb d (fst kv) (snd kv)) l acc)
     <= length acc + length l)%nat).
  { induction l as [|[k v] l IH]; intros acc; simpl; [lia|].
    specialize (IH (dict_setitem scalar_eqb acc k v)).
    pose proof (dict_setitem_length_le acc k v). lia. }
  assert (Hgen : forall l acc,
    length (fold_left (fun d kv => dict_setitem scalar_eqb d (fst kv) (snd kv)) l acc)
    = (length acc + length l)%nat ->
    fold_left (fun d kv => dict_setitem scalar_eqb d (fst kv) (snd kv)) l acc
    = acc ++ l).
  { induction l as [|[k v] l IH]; intros acc Hlen; simpl in *; [by rewrite app_nil_r|].
    pose proof (Hle l (dict_setitem scalar_eqb acc k v)) as H1.
    pose proof (dict_setitem_length_le acc k v) as H2.
    assert (Hg : dict_setitem scalar_eqb acc k v = acc ++ [(k, v)])
      by (apply dict_setitem_grows; lia).
    rewrite Hg in *. rewrite IH; [by rewrite <- app_assoc|].
    rewrite Hlen, length_app. simpl. lia. }
  intros Hlen. apply (Hgen pairs []). exact Hlen.
Qed.

Lemma map_eq_Forall {A B : Type} (f g : A -> B) (l : list A) :
  map f l = map g l -> Forall (fun x => f x = g x) l.
Proof.
  induction l as [|x l IH]; simpl; intros Heq; constructor.
  - by injection Heq.
  - apply IH. by injection Heq.
Qed.

Section SpecFacts.
Import EncodingSpec.

Local Abbreviation norm_item :=
  (fun kv : pyval scalar * pyval scalar => (normalise (fst kv), normalise (snd kv))).
Local Abbreviation free := (collision_free scalar_eqb).

Lemma free_PList (l : list (pyval scalar)) : free (PList l) <-> Forall free l.
Proof.
  induction l as [|x l IH]; simpl; [by split; [constructor|]|].
  rewrite Forall_cons. simpl in IH. by rewrite IH.
Qed.

Lemma free_PTuple (l : list (pyval scalar)) : free (PTuple l) <-> Forall free l.
Proof.
  induction l as [|x l IH]; simpl; [by split; [constructor|]|].
  rewrite Forall_cons. simpl in IH. by rewrite IH.
Qed.

Lemma free_PDict (items : list (pyval scalar * pyval scalar)) :
  free (PDict items)
  <-> keys_distinct scalar_eqb (map conv_item items)
      /\ Forall (fun kv => free (fst kv) /\ free (snd kv)) items.
Proof.
  cbn [collision_free].
  assert (Hitems :
    (fix free_items (l : list (pyval scalar * pyval scalar)) : Prop :=
       match l with
       | [] => True
       | kv :: l' => free (fst kv) /\ free (snd kv) /\ free_items l'
       end) items
    <-> Forall (fun kv => free (fst kv) /\ free (snd kv)) items).
  { induction items as [|kv items IH]; [by split; [constructor|]|].
    rewrite Forall_cons, <- IH. tauto. }
  by rewrite Hitems.
Qed.

(** Without colliding keys the function is the item-by-item conversion. *)
Lemma to_utf_8_dict_normalise (v : pyval scalar) : free v -> conv v = normalise v.
Proof.
  induction v as [u|s|items IH|l IH|l IH|a] using pyval_nested_ind; intros Hfree.
  - reflexivity.
  - simpl. unfold normalise_text. by destruct (utf8_decode s).
  - apply free_PDict in Hfree as [Hkeys Hitems].
    cbn [to_utf_8_dict normalise]. f_equal.
    rewrite py_dict_of_distinct by exact Hkeys.
    apply map_ext_Forall.
    pose proof (conj IH Hitems) as Hboth. apply Forall_and in Hboth.
    eapply Forall_impl; [exact Hboth|].
    intros kv [[IHk IHv] [Hk Hv]]. by rewrite IHk, IHv.
  - apply free_PList in Hfree. cbn [to_utf_8_dict normalise]. f_equal.
    apply map_ext_Forall.
    pose proof (conj IH Hfree) as Hboth. apply Forall_and in Hboth.
    eapply Forall_impl; [exact Hboth|]. intros x [IHx Hx]. auto.
  - apply free_PTuple in Hfree. cbn [to_utf_8_dict normalise]. f_equal.
    apply map_ext_Forall.
    pose proof (conj IH Hfree) as Hboth. apply Forall_and in Hboth.
    eapply Forall_impl; [exact Hboth|]. intros x [IHx Hx]. auto.
  - reflexivity.
Qed.

(** It is the item-by-item conversion only without colliding keys. *)
Lemma normalise_collision_free (v : pyval scalar) : conv v = normalise v -> free v.
Proof.
  induction v as [u|s|items IH|l IH|l IH|a] using pyval_nested_ind; intros Heq;
    try exact I.
  - cbn [to_utf_8_dict normalise] in Heq. injection Heq as Heq.
    assert (Hfull : py_dict scalar_eqb (map conv_item items) = map conv_item items).
    { apply py_dict_full. by rewrite Heq, !length_map. }
    apply free_PDict. split.
    + rewrite <- Hfull. apply py_dict_keys_distinct.
    + rewrite Hfull in Heq. apply map_eq_Forall in Heq.
      pose proof (conj IH Heq) as Hboth. apply Forall_and in Hboth.
      eapply Forall_impl; [exact Hboth|].
      intros kv [[IHk IHv] Hkv]. injection Hkv as Hk Hv. auto.
  - cbn [to_utf_8_dict normalise] in Heq. injection Heq as Heq.
    apply free_PList. apply map_eq_Forall in Heq.
    pose proof (conj IH Heq) as Hboth. apply Forall_and in Hboth.
    eapply Forall_impl; [exact Hboth|]. intros x [IHx Hx]. auto.
  - cbn [to_utf_8_dict normalise] in Heq. injection Heq as Heq.
    apply free_PTuple. apply map_eq_Forall in Heq.
    pose proof (conj IH Heq) as Hboth. apply Forall_and in Hboth.
    eapply Forall_impl; [exact Hboth|]. intros x [IHx Hx]. auto.
Qed.

(** The leaves of the item-by-item conversion are the converted leaves. *)
Lemma leaves_normalise (v : pyval scalar) :
  leaves (normalise v) = map normalise_leaf (leaves v).
Proof.
  induction v as [u|s|items IH|l IH|l IH|a] using pyval_nested_ind;
    try reflexivity; cbn [normalise leaves].
  - induction IH as [|kv items [Hk Hv] _ IHi]; [reflexivity|].
    cbn [map flat_map fst snd]. rewrite !map_app, Hk, Hv, IHi. reflexivity.
  - induction IH as [|x l Hx _ IHl]; [reflexivity|].
    cbn [map flat_map]. rewrite map_app, Hx, IHl. reflexivity.
  - induction IH as [|x l Hx _ IHl]; [reflexivity|].
    cbn [map flat_map]. rewrite map_app, Hx, IHl. reflexivity.
Qed.

Lemma Forall_flat_map {A B : Type} (P : B -> Prop) (f : A -> list B) (l : list A) :
  Forall P (flat_map f l) <-> Forall (fun x => Forall P (f x)) l.
Proof.
  induction l as [|x l IH]; simpl; [by split; constructor|].
  rewrite Forall_app, Forall_cons, IH. reflexivity.
Qed.

Lemma elem_of_flat_map {A B : Type} (f : A -> list B) (l : list A) (y : B) :
  y ∈ flat_map f l <-> exists x, x ∈ l /\ y ∈ f x.
Proof.
  rewrite list_elem_of_In, in_flat_map. split.
  - intros (x & Hx & Hy). exists x. by rewrite !list_elem_of_In.
  - intros (x & Hx & Hy). exists x. by rewrite <- !list_elem_of_In.
Qed.

(** Whatever the keys, every leaf of the result is the conversion of a leaf
    of the argument. *)
Lemma leaves_to_utf_8_dict (v : pyval scalar) :
  Forall (fun x => x ∈ map normalise_leaf (leaves v)) (leaves (conv v)).
Proof.
  induction v as [u|s|items IH|l IH|l IH|a] using pyval_nested_ind.
  - repeat constructor.
  - simpl. unfold normalise_text. destruct (utf8_decode s); repeat constructor.
  - cbn [to_utf_8_dict leaves].
    set (P := fun x : pyval scalar =>
                Forall (fun y => y ∈ map normalise_leaf
                                   (flat_map (fun kv => leaves (fst kv) ++ leaves (snd kv))
                                      items))
                  (leaves x)).
    assert (HD : Forall (fun kv => P (fst kv) /\ P (snd kv))
                   (py_dict scalar_eqb (map conv_item items))).
    { apply (py_dict_Forall P P). apply Forall_map.
      apply Forall_forall. intros kv Hkv.
      rewrite Forall_forall in IH. destruct (IH kv Hkv) as [IHk IHv].
      unfold P. cbn [fst snd]. split.
      - eapply Forall_impl; [exact IHk|]. intros y Hy. cbv beta in Hy.
        apply list_elem_of_fmap in Hy as (z & -> & Hz).
        apply list_elem_of_fmap. exists z. split; [reflexivity|].
        apply elem_of_flat_map. exists kv. split; [exact Hkv|].
        apply elem_of_app. by left.
      - eapply Forall_impl; [exact IHv|]. intros y Hy. cbv beta in Hy.
        apply list_elem_of_fmap in Hy as (z & -> & Hz).
        apply list_elem_of_fmap. exists z. split; [reflexivity|].
        apply elem_of_flat_map. exists kv. split; [exact Hkv|].
        apply elem_of_app. by right. }
    apply Forall_flat_map. eapply Forall_impl; [exact HD|].
    intros kv [Hk Hv]. apply Forall_app. by split.
  - cbn [to_utf_8_dict leaves]. apply Forall_flat_map, Forall_map.
    apply Forall_forall. intros x Hx. rewrite Forall_forall in IH.
    eapply Forall_impl; [exact (IH x Hx)|]. intros y Hy. cbv beta in Hy.
    apply list_elem_of_fmap in Hy as (z & -> & Hz).
    apply list_elem_of_fmap. exists z. split; [reflexivity|].
    apply elem_of_flat_map. by exists x.
  - cbn [to_utf_8_dict leaves]. apply Forall_flat_map, Forall_map.
    apply Forall_forall. intros x Hx. rewrite Forall_forall in IH.
    eapply Forall_impl; [exact (IH x Hx)|]. intros y Hy. cbv beta in Hy.
    apply list_elem_of_fmap in Hy as (z & -> & Hz).
    apply list_elem_of_fmap. exists z. split; [reflexivity|].
    apply elem_of_flat_map. by exists x.
  - repeat constructor.
Qed.


End SpecFacts.

(** C9. [to_utf_8_dict] is idempotent on every value the interpreter can
    hold. *)
Theorem to_utf_8_dict_idempotent (v : pyval scalar) :
  wf_pyval v -> conv (conv v) = conv v.
Proof.
  induction v as [u|s|items IH|l IH|l IH|a] using pyval_nested_ind; intros Hwf.
  - simpl. destruct (utf8_decode (utf8_encode u)) eqn:E; [reflexivity|].
    by apply utf8_encode_decodes in E.
  - simpl. destruct (utf8_decode s) eqn:E; simpl.
    + by rewrite E.
    + by rewrite utf8_latin1_roundtrip.
  - cbn [to_utf_8_dict]. f_equal. apply wf_PDict in Hwf.
    set (D := py_dict scalar_eqb (map conv_item items)).
    assert (HD : Forall (fun kv => conv (fst kv) = fst kv /\ conv (snd kv) = snd kv) D).
    { apply (py_dict_Forall (fun x => conv x = x) (fun x => conv x = x)).
      apply Forall_map. simpl.
      pose proof (conj IH Hwf) as Hboth. apply Forall_and in Hboth.
      eapply Forall_impl; [exact Hboth|].
      intros kv [[IHk IHv] [Hk Hv]]. auto. }
    rewrite (map_fixed conv_item D).
    + apply py_dict_of_distinct. apply py_dict_keys_distinct.
    + eapply Forall_impl; [exact HD|].
      intros [k v] [Hk Hv]. simpl in *. congruence.
  - cbn [to_utf_8_dict]. f_equal. apply wf_PList in Hwf.
    rewrite map_map. apply map_ext_Forall.
    pose proof (conj IH Hwf) as Hboth. apply Forall_and in Hboth.
    eapply Forall_impl; [exact Hboth|]. intros x [IHx Hx]. auto.
  - cbn [to_utf_8_dict]. f_equal. apply wf_PTuple in Hwf.
    rewrite map_map. apply map_ext_Forall.
    pose proof (conj IH Hwf) as Hboth. apply Forall_and in Hboth.
    eapply Forall_impl; [exact Hboth|]. intros x [IHx Hx]. auto.
  - reflexivity.
Qed.

End EncodingFacts.

Section EncodingExamples.
Import PyStr Utf8 Encoding.

(** The theorem at a mapping whose two keys, a latin-1 [str] and a [unicode],
    both become the UTF-8 [str] "\xc3\xa9". *)
Lemma to_utf_8_dict_idempotent_witness :
  to_utf_8_dict Z.eqb
    (to_utf_8_dict Z.eqb
       (PDict [(PStr (String (chr 0xe9) EmptyString), PScalar 1%Z);
               (PUnicode [0xe9], PList [PStr "abc"; PUnicode [0x20AC; 0x1F600]])]))
  = to_utf_8_dict Z.eqb
      (PDict [(PStr (String (chr 0xe9) EmptyString), PScalar 1%Z);
              (PUnicode [0xe9], PList [PStr "abc"; PUnicode [0x20AC; 0x1F600]])]).
Proof.
  apply (to_utf_8_dict_idempotent Z.eqb).
  simpl. unfold valid_code_point.
  repeat first [split | constructor | lia].
Defined.



(** The conversion evaluated: the second item replaces the value of the
    first, whose key it equals after conversion. *)
Example to_utf_8_dict_example :
  to_utf_8_dict Z.eqb
    (PDict [(PStr (String (chr 0xe9) EmptyString), PScalar 1%Z);
            (PUnicode [0xe9], PList [PStr "abc"; PUnicode [0x20AC]])])
  = PDict [(PStr (String (chr 0xc3) (String (chr 0xa9) EmptyString)),
            PList [PStr "abc";
                   PStr (String (chr 0xe2) (String (chr 0x82) (String (chr 0xac) EmptyString)))])].
Proof. reflexivity. Qed.

End EncodingExamples.

(** * The effect monad of the stages *)

Section MonadFacts.
Import Pipeline.
Context {W : Type}.

Lemma mbind_unfold {A B : Type} (m : M W A) (f : A -> M W B) :
  mbind f m = bind m f.
Proof. reflexivity. Qed.

Lemma mret_unfold {A : Type} (a : A) : (mret a : M W A) = ([], Ok a).
Proof. reflexivity. Qed.

Lemma bind_ok_inv {A B : Type} (m : M W A) (f : A -> M W B) (t : list (event W)) (b : B) :
  bind m f = (t, Ok b) ->
  exists t1 a t2, m = (t1, Ok a) /\ f a = (t2, Ok b) /\ t = t1 ++ t2.
Proof.
  unfold bind. destruct m as [t1 [a|e]]; [|discriminate].
  destruct (f a) as [t2 r] eqn:E. simpl. intros [= <- ->].
  by exists t1, a, t2.
Qed.

Lemma bind_event {A B : Type} (m : M W A) (f : A -> M W B) (e : event W) :
  e ∈ fst (bind m f) ->
  e ∈ fst m \/ exists a, snd m = Ok a /\ e ∈ fst (f a).
Proof.
  unfold bind. destruct m as [t1 [a|x]]; simpl; [|by left].
  rewrite elem_of_app. intros [?|?]; [by left | right; eauto].
Qed.

Lemma bind_ok_l {A B : Type} (m : M W A) (f : A -> M W B) (t : list (event W)) (a : A) :
  m = (t, Ok a) -> bind m f = (t ++ fst (f a), snd (f a)).
Proof. by intros ->. Qed.

Lemma bind_raise_l {A B : Type} (m : M W A) (f : A -> M W B) (t : list (event W)) (x : exn) :
  m = (t, Raise x) -> bind m f = (t, Raise x).
Proof. by intros ->. Qed.

(** A loop that ends normally keeps an invariant that each round keeps; the
    invariant may mention the items already visited. *)
Lemma for_each_ok_inv {A S : Type} (Inv : list A -> S -> Prop)
  (body : S -> A -> M W S) (l : list A) :
  (forall p s x t1 s1, Inv p s -> body s x = (t1, Ok s1) -> Inv (p ++ [x]) s1) ->
  forall p s t s', Inv p s -> for_each l body s = (t, Ok s') -> Inv (p ++ l) s'.
Proof.
  intros Hstep. induction l as [|x l IH]; intros p s t s' Hinv Hrun.
  - simpl in Hrun. injection Hrun as <- <-. by rewrite app_nil_r.
  - simpl in Hrun. rewrite mbind_unfold in Hrun.
    apply bind_ok_inv in Hrun as (t1 & s1 & t2 & Hb & Hrest & ->).
    replace (p ++ x :: l) with ((p ++ [x]) ++ l) by (by rewrite <- app_assoc).
    eapply IH; [|exact Hrest]. eapply Hstep; eauto.
Qed.

(** Every event of a loop is an event of one of its rounds. *)
Lemma for_each_event {A S : Type} (body : S -> A -> M W S) (l : list A) (e : event W) :
  forall s, e ∈ fst (for_each l body s) -> exists s0 x, x ∈ l /\ e ∈ fst (body s0 x).
Proof.
  induction l as [|x l IH]; intros s He.
  - simpl in He. by apply elem_of_nil in He.
  - simpl in He. rewrite mbind_unfold in He.
    apply bind_event in He as [He | (s1 & _ & He)].
    + exists s, x. split; [left | exact He].
    + destruct (IH _ He) as (s0 & y & Hy & Hey).
      exists s0, y. split; [by right | exact Hey].
Qed.

(** A loop whose rounds all end normally ends normally, and its trace is
    made of theirs. *)
Lemma for_each_total {A S : Type} (body : S -> A -> M W S) (l : list A) :
  (forall s x, x ∈ l -> exists t s1, body s x = (t, Ok s1)) ->
  forall s, exists t s', for_each l body s = (t, Ok s').
Proof.
  induction l as [|x l IH]; intros Hbody s.
  - by exists [], s.
  - destruct (Hbody s x) as (t1 & s1 & Hb); [left|].
    destruct IH with (s := s1) as (t2 & s2 & Hrest).
    { intros s0 y Hy. apply Hbody. by right. }
    exists (t1 ++ t2), s2. simpl. rewrite mbind_unfold.
    rewrite (bind_ok_l _ _ _ _ Hb), Hrest. reflexivity.
Qed.

(** An exception in one round ends the loop: later items are not visited. *)
Lemma for_each_raise {A S : Type} (body : S -> A -> M W S) (l1 l2 : list A) (x : A) :
  forall s t1 s1 t2 err,
    for_each l1 body s = (t1, Ok s1) ->
    body s1 x = (t2, Raise err) ->
    for_each (l1 ++ x :: l2) body s = (t1 ++ t2, Raise err).
Proof.
  induction l1 as [|y l1 IH]; intros s t1 s1 t2 err Hpre Hx.
  - simpl in Hpre. injection Hpre as <- <-. simpl. rewrite mbind_unfold.
    by rewrite (bind_raise_l _ _ _ _ Hx).
  - simpl in Hpre. rewrite mbind_unfold in Hpre.
    apply bind_ok_inv in Hpre as (ta & sa & tb & Hy & Hrest & ->).
    simpl. rewrite mbind_unfold, (bind_ok_l _ _ _ _ Hy).
    rewrite (IH _ _ _ _ _ Hrest Hx). simpl. by rewrite app_assoc.
Qed.

End MonadFacts.

(** * Step 6: discovery and deduplication *)

Section DiscoveryFacts.
Import PyStr Pipeline.
Context {gse_item pattern : Type}.
Variable item_link : gse_item -> string.
Variable black_domains : string -> bool.
Variable text_util : TextUtil pattern.

Local Abbreviation items_for' := (items_for item_link).

Local Abbreviation discovered := (discovered item_link black_domains).

Lemma items_for_snoc (u seg : string) (it : gse_item) (found : list (string * gse_item)) :
  items_for' u (found ++ [(seg, it)])
  = items_for' u found ++ (if decide (item_link it = u) then [(seg, it)] else []).
Proof.
  unfold items_for. rewrite filter_app. by f_equal.
Qed.

Lemma discovered_add_found_item (found : list (string * gse_item)) (st : discovery)
  (seg : string) (it : gse_item) :
  discovered found st ->
  discovered (found ++ [(seg, it)]) (add_found_item item_link black_domains seg st it).
Proof.
  intros (Hg & Hs & Hh). unfold add_found_item.
  destruct (black_domains (item_link it)) eqn:Hb.
  - (* blacklisted: nothing is stored *)
    unfold discovered.
    split; [|split]; intros u; rewrite items_for_snoc;
      (destruct (decide (item_link it = u)) as [<-|Hne];
       [ rewrite ?Hg, ?Hs, ?Hh, Hb; reflexivity
       | rewrite app_nil_r; auto ]).
  - unfold discovered. simpl.
    specialize (Hg (item_link it)) as Hg0.
    specialize (Hs (item_link it)) as Hs0.
    specialize (Hh (item_link it)) as Hh0.
    rewrite Hb in Hg0, Hs0, Hh0.
    split; [|split]; intros u; rewrite items_for_snoc;
      destruct (decide (item_link it = u)) as [<-|Hne].
    + rewrite Hb, Hg0.
      destruct (items_for' (item_link it) found) as [|p l] eqn:E; simpl.
      * by rewrite lookup_insert_eq.
      * rewrite Hg0. done.
    + rewrite app_nil_r, <- Hg.
      destruct (related_url2gse st !! item_link it); [done|].
      by rewrite lookup_insert_ne.
    + rewrite Hb, Hs0.
      destruct (items_for' (item_link it) found) as [|p l] eqn:E.
      * rewrite lookup_insert_eq. simpl. f_equal.
        by rewrite union_empty_r_L.
      * rewrite lookup_insert_eq. simpl. f_equal.
        rewrite map_app, list_to_set_app_L. simpl.
        by rewrite union_empty_r_L, (assoc_L (∪)).
    + rewrite app_nil_r, <- Hs.
      destruct (related_url2segm st !! item_link it); by rewrite lookup_insert_ne.
    + rewrite Hb, Hh0.
      destruct (items_for' (item_link it) found) as [|p l] eqn:E; simpl.
      * by rewrite lookup_insert_eq.
      * rewrite Hh0. done.
    + rewrite app_nil_r, <- Hh.
      destruct (related_url2html st !! item_link it); [done|].
      by rewrite lookup_insert_ne.
Qed.

Lemma discovered_fold_items (seg : string) (items : list gse_item) :
  forall (found : list (string * gse_item)) (st : discovery),
    discovered found st ->
    discovered (found ++ map (fun it => (seg, it)) items)
      (fold_left (add_found_item item_link black_domains seg) items st).
Proof.
  induction items as [|it items IH]; intros found st Hd; simpl.
  - by rewrite app_nil_r.
  - replace (found ++ (seg, it) :: map (fun it0 => (seg, it0)) items)
      with ((found ++ [(seg, it)]) ++ map (fun it0 => (seg, it0)) items)
      by (by rewrite <- app_assoc).
    apply IH. by apply discovered_add_found_item.
Qed.

Lemma discovered_fold_entries (gse : list (segment_entry gse_item)) :
  forall (found : list (string * gse_item)) (st : discovery),
    discovered found st ->
    discovered (found ++ found_in_order text_util gse)
      (fold_left (add_segment_entry item_link black_domains text_util) gse st).
Proof.
  induction gse as [|entry gse IH]; intros found st Hd; simpl.
  - by rewrite app_nil_r.
  - rewrite app_assoc. apply IH. unfold add_segment_entry.
    apply discovered_fold_items. exact Hd.
Qed.

(** The dictionaries after the first loop of an origin. *)
Lemma discover_discovered (gse : list (segment_entry gse_item)) :
  discovered (found_in_order text_util gse)
    (discover item_link black_domains text_util gse).
Proof.
  apply (discovered_fold_entries gse [] discovery_init).
  unfold discovered, discovery_init. simpl.
  split; [|split]; intros u; rewrite lookup_empty; by destruct (black_domains u).
Qed.

End DiscoveryFacts.

(** * Step 6: fuzzy verification *)

Section VerifyFacts.
Import PyStr Pipeline.
Context {gse_item pattern : Type}.
Context `{SetOrder}.
Variable item_link : gse_item -> string.
Variable black_domains : string -> bool.
Variable text_util : TextUtil pattern.
Variable fetch_urls : gmap string (option string) -> gmap string (option string).

Lemma Qgtb_true (a b : Q) : Qgtb a b = true <-> (b < a)%Q.
Proof.
  unfold Qgtb. rewrite negb_true_iff. split.
  - intros Hf. apply Qnot_le_lt. intros Hle.
    apply Qle_bool_iff in Hle. congruence.
  - intros Hlt. destruct (Qle_bool a b) eqn:E; [|reflexivity].
    apply Qle_bool_iff in E. exfalso. by apply (Qlt_not_le b a).
Qed.

Lemma Qgtb_false (a b : Q) : Qgtb a b = false <-> (a <= b)%Q.
Proof.
  unfold Qgtb. rewrite negb_false_iff. apply Qle_bool_iff.
Qed.

(** One round of the loop over the segments: it logs nothing, and when it
    ends normally it has looked up the pattern, called the matcher and added
    one match. *)
Lemma match_segment_ok (fuzzy_patterns : gmap string pattern) (body : string)
  (acc : Q * list found_match) (segment : string)
  (t : list (event (list (candidate gse_item)))) (acc' : Q * list found_match) :
  match_segment text_util fuzzy_patterns body acc segment = (t, Ok acc') ->
  exists pat ratio mt,
    fuzzy_patterns !! segment = Some pat
    /\ fuzzy_search text_util body segment pat = Ok (ratio, mt)
    /\ snd acc' = snd acc ++ [{| fm_match := mt; fm_ratio := ratio |}]
    /\ fst acc' = (if Qgtb ratio (fst acc) then ratio else fst acc).
Proof.
  unfold match_segment, getitem. rewrite !mbind_unfold.
  destruct (fuzzy_patterns !! segment) as [pat|] eqn:Ep; [|discriminate].
  simpl. unfold lift.
  destruct (fuzzy_search text_util body segment pat) as [[ratio mt]|e] eqn:Ef;
    [|discriminate].
  simpl. intros Hrun. exists pat, ratio, mt.
  split; [reflexivity|]. split; [exact Ef|].
  destruct (Qgtb ratio (fst acc)); simpl in Hrun; injection Hrun as _ <-; by simpl.
Qed.

Lemma match_segment_trace (fuzzy_patterns : gmap string pattern) (body : string)
  (acc : Q * list found_match) (segment : string) :
  fst (match_segment (gse_item := gse_item) text_util fuzzy_patterns body acc segment)
  = [].
Proof.
  unfold match_segment, getitem. rewrite !mbind_unfold.
  destruct (fuzzy_patterns !! segment) as [pat|]; [|reflexivity].
  simpl. unfold lift.
  destruct (fuzzy_search text_util body segment pat) as [[ratio mt]|e]; [|reflexivity].
  simpl. by destruct (Qgtb ratio (fst acc)).
Qed.

Lemma best_of_step (best : Q) (matches : list found_match) (ratio : Q) (mt : string) :
  (0 <= best)%Q -> best_of best matches ->
  best_of (if Qgtb ratio best then ratio else best)
    (matches ++ [{| fm_match := mt; fm_ratio := ratio |}])
  /\ (0 <= (if Qgtb ratio best then ratio else best))%Q.
Proof.
  intros Hpos [Hub Hmax].
  destruct (Qgtb ratio best) eqn:E.
  - apply Qgtb_true in E. split; [|apply Qlt_le_weak; by eapply Qle_lt_trans].
    split.
    + intros m [Hm | ->%list_elem_of_singleton]%elem_of_app; simpl.
      * apply Qlt_le_weak. eapply Qle_lt_trans; [by apply Hub | exact E].
      * apply Qle_refl.
    + right. eexists. split; [apply elem_of_app; right; by left|].
      simpl. split; [reflexivity|]. by eapply Qle_lt_trans.
  - apply Qgtb_false in E. split; [|exact Hpos].
    split.
    + intros m [Hm | ->%list_elem_of_singleton]%elem_of_app; simpl; auto.
    + destruct Hmax as [[-> Hall] | (m & Hm & -> & Hlt)].
      * left. split; [reflexivity|].
        intros m [Hm | ->%list_elem_of_singleton]%elem_of_app; simpl; auto.
      * right. exists m. split; [apply elem_of_app; by left | by split].
Qed.

(** The loop over the segments of one URL. *)
Lemma match_loop_ok (fuzzy_patterns : gmap string pattern) (body : string)
  (segments : list string) (t : list (event (list (candidate gse_item))))
  (best : Q) (matches : list found_match) :
  for_each segments (match_segment text_util fuzzy_patterns body) (0%Q, [])
  = (t, Ok (best, matches)) ->
  Forall2 (fun seg m =>
             exists pat, fuzzy_patterns !! seg = Some pat
                         /\ fuzzy_search text_util body seg pat
                            = Ok (fm_ratio m, fm_match m))
    segments matches
  /\ best_of best matches.
Proof.
  intros Hrun.
  pose (Inv := fun (p : list string) (acc : Q * list found_match) =>
    Forall2 (fun seg m =>
               exists pat, fuzzy_patterns !! seg = Some pat
                           /\ fuzzy_search text_util body seg pat
                              = Ok (fm_ratio m, fm_match m)) p (snd acc)
    /\ best_of (fst acc) (snd acc) /\ (0 <= fst acc)%Q).
  assert (Hfinal : Inv ([] ++ segments) (best, matches)).
  { eapply (for_each_ok_inv Inv); [| |exact Hrun].
    - intros p acc seg t1 acc1 (HF & Hbest & Hpos) Hstep.
      apply match_segment_ok in Hstep as (pat & ratio & mt & Hp & Hs & Hm & Hb).
      unfold Inv. rewrite Hm, Hb.
      destruct (best_of_step (fst acc) (snd acc) ratio mt Hpos Hbest) as [Hb1 Hb2].
      split; [|by split].
      apply Forall2_app; [exact HF|].
      constructor; [|constructor]. exists pat. by split.
    - unfold Inv. simpl. split; [constructor|]. split; [|apply Qle_refl].
      split; [intros m Hm; by apply elem_of_nil in Hm|].
      left. split; [reflexivity|]. intros m Hm. by apply elem_of_nil in Hm. }
  destruct Hfinal as (HF & Hbest & _). by split.
Qed.

Lemma getitem_ok {W V : Type} (d : gmap string V) (k : string)
  (t : list (event W)) (v : V) :
  getitem d k = (t, Ok v) -> d !! k = Some v.
Proof. unfold getitem. destruct (d !! k); [by intros [= _ ->] | discriminate]. Qed.

Lemma getitem_trace {W V : Type} (d : gmap string V) (k : string) :
  fst (getitem (W := W) d k) = [].
Proof. unfold getitem. by destruct (d !! k). Qed.

Lemma read_file_ok {W V : Type} (d : gmap nat V) (i : nat)
  (t : list (event W)) (v : V) :
  read_file d i = (t, Ok v) -> d !! i = Some v /\ t = [].
Proof. unfold read_file. destruct (d !! i); [by intros [= <- ->] | discriminate]. Qed.

Lemma read_file_trace {W V : Type} (d : gmap nat V) (i : nat) :
  fst (read_file (W := W) d i) = [].
Proof. unfold read_file. by destruct (d !! i). Qed.

Lemma lift_ok {W A : Type} (r : result A) (t : list (event W)) (a : A) :
  lift r = (t, Ok a) -> r = Ok a.
Proof. unfold lift. by intros [= _ ->]. Qed.

Lemma map_snd_enumerate {A : Type} (l : list A) : map snd (enumerate l) = l.
Proof.
  unfold enumerate. generalize 0%nat.
  induction l as [|x l IH]; intros n; simpl; [reflexivity|]. by rewrite IH.
Qed.

Lemma map_fst_enumerate {A : Type} (l : list A) :
  map fst (enumerate l) = seq 0 (length l).
Proof.
  unfold enumerate. generalize 0%nat.
  induction l as [|x l IH]; intros n; simpl; [reflexivity|]. by rewrite IH.
Qed.

(** One round of the loop over the URLs of an origin. *)
Lemma verify_url_ok (st : discovery) (html_of : gmap string (option string))
  (fuzzy_patterns : gmap string pattern) (n : nat)
  (acc : list (candidate gse_item)) (j : nat) (u : string)
  (t : list (event (list (candidate gse_item)))) (acc' : list (candidate gse_item)) :
  verify_url text_util st html_of fuzzy_patterns n acc (j, u) = (t, Ok acc') ->
  exists r, acc' = acc ++ [r]
            /\ verified text_util st html_of fuzzy_patterns u r.
Proof.
  unfold verify_url. cbn [fst snd]. intros Hrun.
  rewrite mbind_unfold in Hrun.
  apply bind_ok_inv in Hrun as (t0 & u0 & t0' & _ & Hrun & ->).
  rewrite mbind_unfold in Hrun.
  apply bind_ok_inv in Hrun as (t1 & html & t1' & Hhtml & Hrun & ->).
  apply getitem_ok in Hhtml.
  rewrite mbind_unfold in Hrun.
  apply bind_ok_inv in Hrun as (t2 & body_lang & t2' & Hbody & Hrun & ->).
  apply lift_ok in Hbody.
  rewrite mbind_unfold in Hrun.
  apply bind_ok_inv in Hrun as (t3 & segments & t3' & Hsegm & Hrun & ->).
  apply getitem_ok in Hsegm.
  rewrite mbind_unfold in Hrun.
  apply bind_ok_inv in Hrun as (t4 & [best matches] & t4' & Hloop & Hrun & ->).
  apply match_loop_ok in Hloop as [HF Hbest].
  rewrite mbind_unfold in Hrun.
  apply bind_ok_inv in Hrun as (t5 & gse_data & t5' & Hgse & Hrun & ->).
  apply getitem_ok in Hgse.
  rewrite mret_unfold in Hrun. injection Hrun as _ <-.
  eexists. split; [reflexivity|].
  unfold verified. simpl.
  split; [reflexivity|]. split; [exact Hhtml|]. split; [exact Hgse|].
  split; [by exists segments|]. split; [reflexivity|].
  split; [by exists body_lang|]. by split.
Qed.

(** The loop over the URLs only logs. *)
Lemma verify_url_events (st : discovery) (html_of : gmap string (option string))
  (fuzzy_patterns : gmap string pattern) (n : nat)
  (acc : list (candidate gse_item)) (ju : nat * string)
  (e : event (list (candidate gse_item))) :
  e ∈ fst (verify_url text_util st html_of fuzzy_patterns n acc ju) ->
  exists m, e = Log m.
Proof.
  unfold verify_url. intros He.
  rewrite mbind_unfold in He. apply bind_event in He as [He | (u0 & _ & He)].
  { destruct (fst ju mod 10 =? 0)%nat; simpl in He.
    - apply list_elem_of_singleton in He. eauto.
    - by apply elem_of_nil in He. }
  rewrite mbind_unfold in He. apply bind_event in He as [He | (html & _ & He)].
  { rewrite getitem_trace in He. by apply elem_of_nil in He. }
  rewrite mbind_unfold in He. apply bind_event in He as [He | (bl & _ & He)].
  { by apply elem_of_nil in He. }
  rewrite mbind_unfold in He. apply bind_event in He as [He | (segments & _ & He)].
  { rewrite getitem_trace in He. by apply elem_of_nil in He. }
  rewrite mbind_unfold in He. apply bind_event in He as [He | (bm & _ & He)].
  { apply for_each_event in He as (s0 & x & _ & He).
    rewrite match_segment_trace in He. by apply elem_of_nil in He. }
  rewrite mbind_unfold in He. apply bind_event in He as [He | (gd & _ & He)].
  { rewrite getitem_trace in He. by apply elem_of_nil in He. }
  by apply elem_of_nil in He.
Qed.

Lemma verify_loop_ok (st : discovery) (html_of : gmap string (option string))
  (fuzzy_patterns : gmap string pattern) (n : nat) (urls : list string)
  (t : list (event (list (candidate gse_item)))) (recs : list (candidate gse_item)) :
  for_each (enumerate urls) (verify_url text_util st html_of fuzzy_patterns n) []
  = (t, Ok recs) ->
  Forall2 (verified text_util st html_of fuzzy_patterns) urls recs.
Proof.
  intros Hrun.
  pose (Inv := fun (p : list (nat * string)) (acc : list (candidate gse_item)) =>
    Forall2 (verified text_util st html_of fuzzy_patterns) (map snd p) acc).
  assert (Hfinal : Inv ([] ++ enumerate urls) recs).
  { eapply (for_each_ok_inv Inv); [| |exact Hrun].
    - intros p acc [j u] t1 acc1 HF Hstep.
      apply verify_url_ok in Hstep as (r & -> & Hr).
      unfold Inv. rewrite map_app. apply Forall2_app; [exact HF|].
      constructor; [exact Hr | constructor].
    - constructor. }
  unfold Inv in Hfinal. simpl in Hfinal. by rewrite map_snd_enumerate in Hfinal.
Qed.

(** What an origin writes: one file, under its own index, holding the
    verified records of the URLs in the order of the set. *)
Lemma step_6_origin_write (dir : gmap nat (list (segment_entry gse_item)))
  (i0 i : nat) (recs : list (candidate gse_item)) :
  Write i recs ∈ fst (step_6_origin item_link black_domains text_util fetch_urls dir i0) ->
  i = i0
  /\ exists gse, dir !! i0 = Some gse
     /\ Forall2 (verified text_util
                   (discover item_link black_domains text_util gse)
                   (fetch_urls (related_url2html
                                  (discover item_link black_domains text_util gse)))
                   (compile_fuzzy_patterns text_util
                      (uniq_segments (discover item_link black_domains text_util gse))))
          (set_iter (dom (fetch_urls (related_url2html
                                        (discover item_link black_domains text_util gse)))))
          recs.
Proof.
  unfold step_6_origin. intros He.
  rewrite mbind_unfold in He. apply bind_event in He as [He | (gse & Hgse & He)].
  { rewrite read_file_trace in He. by apply elem_of_nil in He. }
  assert (Hdir : dir !! i0 = Some gse).
  { destruct (read_file dir i0) as [tr r] eqn:E. simpl in Hgse. subst r.
    by apply read_file_ok in E as [? _]. }
  cbn zeta in He.
  rewrite mbind_unfold in He. apply bind_event in He as [He | (filtered & Hloop & He)].
  { apply for_each_event in He as (s0 & x & _ & He).
    apply verify_url_events in He as [m Hm]. discriminate. }
  unfold write_file in He. simpl in He.
  apply list_elem_of_singleton in He. injection He as -> ->.
  split; [reflexivity|]. exists gse. split; [exact Hdir|].
  match type of Hloop with snd ?run = _ => destruct run as [tl rl] eqn:E end.
  simpl in Hloop. subst rl. by apply verify_loop_ok in E.
Qed.

Lemma step_6_write (origins : list string)
  (dir : gmap nat (list (segment_entry gse_item)))
  (i : nat) (recs : list (candidate gse_item)) :
  Write i recs
    ∈ fst (step_6_filter_out_unrelated item_link black_domains text_util fetch_urls
             origins dir) ->
  (i < length origins)%nat
  /\ Write i recs ∈ fst (step_6_origin item_link black_domains text_util fetch_urls dir i).
Proof.
  unfold step_6_filter_out_unrelated. intros He.
  apply for_each_event in He as (s0 & [i0 url] & Hin & He). simpl in He.
  pose proof (step_6_origin_write _ _ _ _ He) as [-> _].
  split; [|exact He].
  assert (Hi : i0 ∈ map fst (enumerate origins)).
  { apply list_elem_of_fmap. by exists (i0, url). }
  rewrite map_fst_enumerate in Hi. apply list_elem_of_In, in_seq in Hi. lia.
Qed.

End VerifyFacts.

(** * Step 6: what the stage writes *)

Section Step6Theorems.
Import PyStr Pipeline.
Context {gse_item pattern : Type}.
Context `{SetOrder}.
Variable item_link : gse_item -> string.
Variable black_domains : string -> bool.
Variable text_util : TextUtil pattern.
Variable fetch_urls : gmap string (option string) -> gmap string (option string).

Local Abbreviation step_6 :=
  (step_6_filter_out_unrelated item_link black_domains text_util fetch_urls).

Lemma set_iter_NoDup (s : gset string) : NoDup (set_iter s).
Proof. rewrite set_iter_perm. apply NoDup_elements. Qed.

Lemma elem_of_set_iter (s : gset string) (x : string) : x ∈ set_iter s <-> x ∈ s.
Proof. rewrite set_iter_perm. apply elem_of_elements. Qed.

Lemma elem_of_found_in_order (gse : list (segment_entry gse_item))
  (seg : string) (it : gse_item) :
  (seg, it) ∈ found_in_order text_util gse
  <-> exists entry, entry ∈ gse /\ it ∈ foundItems entry
                    /\ seg = simplified_text text_util (segment entry).
Proof.
  unfold found_in_order. rewrite list_elem_of_In, in_flat_map. split.
  - intros (entry & Hentry & Hit). apply in_map_iff in Hit as (it' & [= <- <-] & Hit').
    exists entry. by rewrite !list_elem_of_In.
  - intros (entry & Hentry & Hit & ->). exists entry.
    rewrite <- list_elem_of_In. split; [exact Hentry|].
    apply in_map_iff. exists it. by rewrite <- list_elem_of_In.
Qed.

(** A record written by step 6, read against the search results of its
    origin. *)
Lemma verified_discovered (gse : list (segment_entry gse_item))
  (html_of : gmap string (option string)) (fuzzy_patterns : gmap string pattern)
  (u : string) (r : candidate gse_item) :
  verified text_util (discover item_link black_domains text_util gse)
    html_of fuzzy_patterns u r ->
  black_domains (c_url r) = false
  /\ NoDup (c_segments r)
  /\ (forall seg, seg ∈ c_segments r
                  <-> exists it, (seg, it) ∈ found_in_order text_util gse
                                 /\ item_link it = c_url r)
  /\ snd <$> head (items_for item_link (c_url r) (found_in_order text_util gse))
     = Some (gseData r).
Proof.
  intros (Hu & _ & Hgse & (segments & Hsegm & Hsegs) & _).
  destruct (discover_discovered item_link black_domains text_util gse)
    as (Dg & Ds & _).
  rewrite Ds in Hsegm. rewrite Dg in Hgse. subst u.
  destruct (black_domains (c_url r)); [discriminate|].
  split; [reflexivity|]. rewrite Hsegs.
  split; [apply set_iter_NoDup|]. split; [|by symmetry].
  intros seg. rewrite elem_of_set_iter.
  assert (Hset : segments
                 = list_to_set (map fst (items_for item_link (c_url r)
                                           (found_in_order text_util gse)))).
  { destruct (items_for item_link (c_url r) (found_in_order text_util gse))
      as [|p l]; [discriminate|].
    by injection Hsegm as <-. }
  rewrite Hset, elem_of_list_to_set.
  rewrite list_elem_of_fmap. unfold items_for. split.
  - intros ([seg' it] & -> & Hin). apply list_elem_of_filter in Hin as [Hl Hin].
    by exists it.
  - intros (it & Hin & Hl). exists (seg, it). split; [reflexivity|].
    by apply list_elem_of_filter.
Qed.

(** C1. In every candidate record step 6 writes, [highRatio] holds exactly
    when [bestRatio > 0.5]; there is one recorded ratio per segment;
    [bestRatio] is the largest of the recorded ratios and of [0.0] (it is
    [0.0] when no ratio is positive); and if the matcher only returns ratios
    in [[0,1]], every recorded ratio and [bestRatio] are in [[0,1]]. *)
Theorem step_6_best_ratio_threshold (origins : list string)
  (dir : gmap nat (list (segment_entry gse_item)))
  (i : nat) (recs : list (candidate gse_item)) (r : candidate gse_item) :
  Write i recs ∈ fst (step_6 origins dir) ->
  r ∈ recs ->
  (highRatio r = true <-> (1 # 2 < bestRatio r)%Q)
  /\ length (foundMatches r) = length (c_segments r)
  /\ (forall m, m ∈ foundMatches r -> (fm_ratio m <= bestRatio r)%Q)
  /\ ((bestRatio r = 0%Q /\ forall m, m ∈ foundMatches r -> (fm_ratio m <= 0)%Q)
      \/ (exists m, m ∈ foundMatches r /\ bestRatio r = fm_ratio m
                    /\ (0 < fm_ratio m)%Q))
  /\ ((forall body seg pat ratio mt,
          fuzzy_search text_util body seg pat = Ok (ratio, mt) ->
          (0 <= ratio <= 1)%Q) ->
      (forall m, m ∈ foundMatches r -> (0 <= fm_ratio m <= 1)%Q)
      /\ (0 <= bestRatio r <= 1)%Q).
Proof.
  intros Hw Hr.
  apply step_6_write in Hw as [_ Hw].
  apply step_6_origin_write in Hw as (_ & gse & _ & HF).
  apply list_elem_of_lookup in Hr as [k Hk].
  destruct (Forall2_lookup_r _ _ _ _ _ HF Hk) as (u & _ & Hv).
  destruct Hv as (_ & _ & _ & _ & Hhigh & _ & Hms & Hub & Hmax).
  split. { rewrite Hhigh. apply Qgtb_true. }
  split. { symmetry. by eapply Forall2_length. }
  split; [exact Hub|]. split; [exact Hmax|].
  intros Hrange.
  assert (Hall : forall m, m ∈ foundMatches r -> (0 <= fm_ratio m <= 1)%Q).
  { intros m Hm. apply list_elem_of_lookup in Hm as [j Hj].
    destruct (Forall2_lookup_r _ _ _ _ _ Hms Hj) as (seg & _ & pat & _ & Hs).
    by eapply Hrange. }
  split; [exact Hall|].
  destruct Hmax as [[-> _] | (m & Hm & -> & _)]; [|by apply Hall].
  split; [apply Qle_refl | discriminate].
Qed.

(** C2. In the file step 6 writes for an origin no URL comes twice; the
    segments of a record are, each once, the simplified texts of exactly the
    segments whose search returned the record's URL; and its annotation is
    the first found item with that link, in the order the segments and their
    items are visited. *)
Theorem step_6_dedup_union_first (origins : list string)
  (dir : gmap nat (list (segment_entry gse_item)))
  (i : nat) (recs : list (candidate gse_item)) :
  Write i recs ∈ fst (step_6 origins dir) ->
  exists gse, dir !! i = Some gse
    /\ NoDup (map c_url recs)
    /\ forall r, r ∈ recs ->
         NoDup (c_segments r)
         /\ (forall seg, seg ∈ c_segments r
               <-> exists entry it,
                     entry ∈ gse /\ it ∈ foundItems entry
                     /\ item_link it = c_url r
                     /\ seg = simplified_text text_util (segment entry))
         /\ snd <$> head (items_for item_link (c_url r)
                            (found_in_order text_util gse))
            = Some (gseData r).
Proof.
  intros Hw.
  apply step_6_write in Hw as [_ Hw].
  apply step_6_origin_write in Hw as (_ & gse & Hdir & HF).
  exists gse. split; [exact Hdir|]. split.
  - assert (Hurls : map c_url recs
                    = set_iter (dom (fetch_urls (related_url2html
                        (discover item_link black_domains text_util gse))))).
    { clear Hdir. induction HF as [|u r urls recs' Hv HF IH]; [reflexivity|].
      simpl. rewrite IH. by destruct Hv as [-> _]. }
    rewrite Hurls. apply set_iter_NoDup.
  - intros r Hr. apply list_elem_of_lookup in Hr as [k Hk].
    destruct (Forall2_lookup_r _ _ _ _ _ HF Hk) as (u & _ & Hv).
    apply verified_discovered in Hv as (_ & Hnd & Hsegs & Hfirst).
    split; [exact Hnd|]. split; [|exact Hfirst].
    intros seg. rewrite Hsegs. split.
    + intros (it & Hin & Hl).
      apply elem_of_found_in_order in Hin as (entry & He & Hit & ->).
      by exists entry, it.
    + intros (entry & it & He & Hit & Hl & ->). exists it.
      split; [|exact Hl]. apply elem_of_found_in_order. by exists entry.
Qed.

End Step6Theorems.

(** * Step 7: the earliest date *)

Section MinFacts.
Import PyStr Pipeline.

Lemma str_lt_irrefl (a : string) : str_lt a a = false.
Proof.
  induction a as [|c a IH]; [reflexivity|].
  simpl. by rewrite N.ltb_irrefl.
Qed.

Lemma str_lt_trans (a : string) :
  forall b c, str_lt a b = true -> str_lt b c = true -> str_lt a c = true.
Proof.
  induction a as [|x a IH]; intros [|y b] [|z c] Hab Hbc; simpl in *;
    try discriminate; try reflexivity.
  destruct (ord x <? ord y) eqn:Exy.
  - apply N.ltb_lt in Exy.
    destruct (ord y <? ord z) eqn:Eyz.
    + apply N.ltb_lt in Eyz.
      assert ((ord x <? ord z) = true) as -> by (apply N.ltb_lt; lia). reflexivity.
    + destruct (ord z <? ord y) eqn:Ezy; [discriminate|].
      apply N.ltb_ge in Eyz, Ezy.
      assert ((ord x <? ord z) = true) as -> by (apply N.ltb_lt; lia). reflexivity.
  - destruct (ord y <? ord x) eqn:Eyx; [discriminate|].
    apply N.ltb_ge in Exy, Eyx.
    destruct (ord y <? ord z) eqn:Eyz.
    + apply N.ltb_lt in Eyz.
      assert ((ord x <? ord z) = true) as -> by (apply N.ltb_lt; lia). reflexivity.
    + destruct (ord z <? ord y) eqn:Ezy; [discriminate|].
      apply N.ltb_ge in Eyz, Ezy.
      assert ((ord x <? ord z) = false) as -> by (apply N.ltb_ge; lia).
      assert ((ord z <? ord x) = false) as -> by (apply N.ltb_ge; lia).
      by eapply IH.
Qed.

(** [min] returns an item of the sequence that no item is below. *)
Lemma py_min_least (d : string) (ds : list string) :
  py_min d ds ∈ d :: ds
  /\ forall x, x ∈ d :: ds -> str_lt x (py_min d ds) = false.
Proof.
  unfold py_min.
  assert (Hgen : forall (ds seen : list string) (m : string),
    m ∈ seen -> (forall x, x ∈ seen -> str_lt x m = false) ->
    fold_left (fun m d => if str_lt d m then d else m) ds m ∈ seen ++ ds
    /\ forall x, x ∈ seen ++ ds ->
         str_lt x (fold_left (fun m d => if str_lt d m then d else m) ds m) = false).
  { clear. intros ds. induction ds as [|d' ds IH]; intros seen m Hm Hleast; simpl.
    - rewrite app_nil_r. by split.
    - replace (seen ++ d' :: ds) with ((seen ++ [d']) ++ ds)
        by (by rewrite <- app_assoc).
      apply IH.
      + destruct (str_lt d' m); apply elem_of_app; [right; by left | by left].
      + intros x [Hx | ->%list_elem_of_singleton]%elem_of_app.
        * destruct (str_lt d' m) eqn:E; [|by apply Hleast].
          destruct (str_lt x d') eqn:E'; [|reflexivity].
          rewrite <- (Hleast x Hx). symmetry. by eapply str_lt_trans.
        * destruct (str_lt d' m) eqn:E; [apply str_lt_irrefl | exact E]. }
  apply (Hgen ds [d] d).
  - by left.
  - intros x ->%list_elem_of_singleton. apply str_lt_irrefl.
Qed.

(** On dates written as [%Y.%m.%d] the order of [str] is the order of the
    calendar, so the least date string is the earliest date. *)
Lemma two_digits_lt (n n' : N) (k k' : string) :
  n < 100 -> n' < 100 ->
  str_lt (two_digits n k) (two_digits n' k')
  = if n <? n' then true else if n' <? n then false else str_lt k k'.
Proof.
  intros Hn Hn'. unfold two_digits. cbn [str_lt].
  pose proof (N.div_mod n 10 ltac:(lia)) as Hd.
  pose proof (N.mod_lt n 10 ltac:(lia)) as Hm.
  pose proof (N.div_mod n' 10 ltac:(lia)) as Hd'.
  pose proof (N.mod_lt n' 10 ltac:(lia)) as Hm'.
  assert (Ha : n / 10 < 10) by (apply N.Div0.div_lt_upper_bound; lia).
  assert (Ha' : n' / 10 < 10) by (apply N.Div0.div_lt_upper_bound; lia).
  set (a := n / 10) in *. set (b := n mod 10) in *.
  set (a' := n' / 10) in *. set (b' := n' mod 10) in *.
  clearbody a b a' b'.
  unfold ord, chr. rewrite !N_ascii_embedding by lia.
  repeat match goal with
         | |- context [?x <? ?y] => destruct (N.ltb_spec x y)
         end; try reflexivity; lia.
Qed.

Lemma str_lt_date_string (y m d y' m' d' : N) :
  y < 10000 -> m < 100 -> d < 100 -> y' < 10000 -> m' < 100 -> d' < 100 ->
  str_lt (date_string y m d) (date_string y' m' d') = true
  <-> y < y' \/ (y = y' /\ (m < m' \/ (m = m' /\ d < d'))).
Proof.
  intros Hy Hm Hd Hy' Hm' Hd'. unfold date_string.
  pose proof (N.div_mod y 100 ltac:(lia)) as Ey.
  pose proof (N.mod_lt y 100 ltac:(lia)) as My.
  pose proof (N.div_mod y' 100 ltac:(lia)) as Ey'.
  pose proof (N.mod_lt y' 100 ltac:(lia)) as My'.
  assert (Hc : y / 100 < 100) by (apply N.Div0.div_lt_upper_bound; lia).
  assert (Hc' : y' / 100 < 100) by (apply N.Div0.div_lt_upper_bound; lia).
  set (c := y / 100) in *. set (r := y mod 100) in *.
  set (c' := y' / 100) in *. set (r' := y' mod 100) in *.
  clearbody c r c' r'.
  rewrite !two_digits_lt by lia. cbn [str_lt].
  rewrite !two_digits_lt by lia. cbn [str_lt].
  rewrite !two_digits_lt by lia. cbn [str_lt].
  change (ord "." <? ord ".") with false. cbv iota.
  repeat match goal with
         | |- context [?x <? ?y] => destruct (N.ltb_spec x y)
         end; split; try discriminate; try reflexivity; try lia.
Qed.

End MinFacts.

(** * Step 7: one candidate *)

Section Step7Facts.
Import PyStr Pipeline.
Context {gse_item article raw_date raw_author : Type}.
Context `{SetOrder}.
Variable blacklist : string -> bool.
Variable extractor : EntityExtractor gse_item article raw_date raw_author.
Variable normalizer : EntityNormalizer article raw_date raw_author.

Local Abbreviation gen := (gen_cr_entry blacklist extractor normalizer).
Local Abbreviation annotate' := (annotate extractor normalizer).

Lemma try_except_event {W A : Type} (m h : M W A) (e : event W) :
  e ∈ fst (try_except m h) -> e ∈ fst m \/ e ∈ fst h.
Proof.
  unfold try_except. destruct m as [t [a|x]]; simpl; [by left|].
  by rewrite elem_of_app.
Qed.

Lemma extract_pub_date_trace (gse_data : gse_item) :
  fst (extract_pub_date extractor normalizer gse_data) = [].
Proof.
  unfold extract_pub_date. rewrite !mbind_unfold. unfold lift.
  destruct (extract_dates extractor gse_data) as [raw|]; [|reflexivity]. simpl.
  destruct (normalize_dates normalizer raw) as [[|d ds]|]; reflexivity.
Qed.

Lemma extract_author_names_trace (art : article) (gse_data : gse_item) :
  fst (extract_author_names extractor normalizer art gse_data) = [].
Proof.
  unfold extract_author_names. rewrite !mbind_unfold. unfold lift.
  destruct (extract_authors extractor art gse_data) as [raw|]; [|reflexivity]. simpl.
  destruct (normalize_authors normalizer raw art); reflexivity.
Qed.

(** The date block with its handler always yields a date or [None]. *)
Lemma pub_date_caught (gse_data : gse_item) (url : string) :
  exists t pd,
    try_except (extract_pub_date extractor normalizer gse_data)
      (_ ← logging (ErrorExtractingDates url); mret None)
    = ((t, Ok pd) : M (list cr_entry) (option string))
    /\ match extract_dates extractor gse_data with
       | Raise _ => pd = None /\ t = [Log (ErrorExtractingDates url)]
       | Ok raw_dates =>
           match normalize_dates normalizer raw_dates with
           | Raise _ => pd = None /\ t = [Log (ErrorExtractingDates url)]
           | Ok [] => pd = None /\ t = []
           | Ok (d :: ds) => pd = Some (py_min d ds) /\ t = []
           end
       end.
Proof.
  unfold extract_pub_date. rewrite !mbind_unfold. unfold lift.
  destruct (extract_dates extractor gse_data) as [raw|x].
  - simpl. destruct (normalize_dates normalizer raw) as [[|d ds]|x]; simpl;
      eexists _, _; (split; [reflexivity|]); by split.
  - simpl. eexists _, _. split; [reflexivity|]. by split.
Qed.

(** The author block with its handler always yields a list of names. *)
Lemma authors_caught (art : article) (gse_data : gse_item) (url : string) :
  exists t au,
    try_except (extract_author_names extractor normalizer art gse_data)
      (_ ← logging (ErrorExtractingAuthors url); mret [])
    = ((t, Ok au) : M (list cr_entry) (list string))
    /\ (t = [] \/ (t = [Log (ErrorExtractingAuthors url)] /\ au = [])).
Proof.
  unfold extract_author_names. rewrite !mbind_unfold. unfold lift.
  destruct (extract_authors extractor art gse_data) as [raw|x].
  - simpl. destruct (normalize_authors normalizer raw art) as [names|x]; simpl;
      eexists _, _; (split; [reflexivity|]); auto.
  - simpl. eexists _, _. split; [reflexivity|]. auto.
Qed.

(** A candidate with a title and sources gets the next id, whatever happens
    to its dates and authors. *)
Lemma annotate_appends (st : Z * list cr_entry) (c : candidate gse_item)
  (art : article) (title : string) (titles srcs : list string) :
  extract_titles extractor art = Ok (title :: titles) ->
  extract_sources extractor (gseData c) = Ok srcs ->
  exists t e,
    annotate' st c art = (t, Ok ((fst st + 1)%Z, snd st ++ [e]))
    /\ (forall ev, ev ∈ t -> exists m, ev = Log m)
    /\ e_id e = fst st /\ e_url e = c_url c /\ e_title e = title
    /\ e_body e = c_body c /\ e_text e = article_text extractor art
    /\ match extract_dates extractor (gseData c) with
       | Raise _ => e_pub_date e = None
       | Ok raw_dates =>
           match normalize_dates normalizer raw_dates with
           | Raise _ => e_pub_date e = None
           | Ok [] => e_pub_date e = None
           | Ok (d :: ds) => e_pub_date e = Some (py_min d ds)
           end
       end.
Proof.
  intros Ht Hs. unfold annotate. cbn zeta.
  assert (Ht' : lift (extract_titles extractor art)
                = (([], Ok (title :: titles)) : M (list cr_entry) (list string)))
    by (by rewrite Ht).
  assert (Hs' : lift (extract_sources extractor (gseData c))
                = (([], Ok srcs) : M (list cr_entry) (list string)))
    by (by rewrite Hs).
  destruct (pub_date_caught (gseData c) (c_url c)) as (t1 & pd & Hpd & Hspec).
  destruct (authors_caught art (gseData c) (c_url c)) as (t2 & au & Hau & Hlog).
  rewrite mbind_unfold, (bind_ok_l _ _ _ _ Ht'). cbn beta iota.
  rewrite mbind_unfold, (bind_ok_l _ _ _ _ Hs'). cbn beta iota.
  rewrite mbind_unfold, (bind_ok_l _ _ _ _ Hpd). cbn beta iota.
  rewrite mbind_unfold, (bind_ok_l _ _ _ _ Hau). cbn beta iota.
  eexists _, _. split; [reflexivity|]. simpl.
  split.
  { rewrite !app_nil_r. intros ev [Hev|Hev]%elem_of_app.
    - destruct (extract_dates extractor (gseData c)) as [raw|x];
        [destruct (normalize_dates normalizer raw) as [[|d ds]|x]|];
        destruct Hspec as [_ ->];
        first [by apply elem_of_nil in Hev
              | apply list_elem_of_singleton in Hev; eauto].
    - destruct Hlog as [-> | [-> _]];
        first [by apply elem_of_nil in Hev
              | apply list_elem_of_singleton in Hev; eauto]. }
  repeat (split; [reflexivity|]).
  destruct (extract_dates extractor (gseData c)) as [raw|x];
    [destruct (normalize_dates normalizer raw) as [[|d ds]|x]|];
    by destruct Hspec as [-> _].
Qed.

(** A round of the loop over the candidates that ends normally either leaves
    the state as it was or appends one entry under the next id. *)
Lemma gen_cr_entry_ok (st : Z * list cr_entry) (c : candidate gse_item)
  (t : list (event (list cr_entry))) (st' : Z * list cr_entry) :
  gen st c = (t, Ok st') ->
  st' = st
  \/ exists e, st' = ((fst st + 1)%Z, snd st ++ [e])
               /\ e_id e = fst st /\ e_url e = c_url c
               /\ highRatio c = true /\ blacklist (c_url c) = false.
Proof.
  unfold gen_cr_entry.
  destruct (highRatio c) eqn:Hh; simpl; [|intros [= _ <-]; by left].
  destruct (blacklist (c_url c)) eqn:Hb; [intros [= _ <-]; by left|].
  destruct (parse_article extractor (c_url c) (c_html c)) as [art|x];
    [|intros [= _ <-]; by left].
  unfold annotate. cbn zeta. intros Hrun.
  rewrite mbind_unfold in Hrun.
  apply bind_ok_inv in Hrun as (t1 & titles & t1' & Ht & Hrun & ->).
  destruct titles as [|title titles].
  { injection Hrun as _ <-. by left. }
  rewrite mbind_unfold in Hrun.
  apply bind_ok_inv in Hrun as (t2 & srcs & t2' & Hs & Hrun & ->).
  rewrite mbind_unfold in Hrun.
  apply bind_ok_inv in Hrun as (t3 & pd & t3' & Hpd & Hrun & ->).
  rewrite mbind_unfold in Hrun.
  apply bind_ok_inv in Hrun as (t4 & au & t4' & Hau & Hrun & ->).
  rewrite mret_unfold in Hrun. injection Hrun as _ <-.
  right. eexists. split; [reflexivity|]. by simpl.
Qed.

(** The loop over the candidates only logs. *)
Lemma gen_cr_entry_events (st : Z * list cr_entry) (c : candidate gse_item)
  (ev : event (list cr_entry)) :
  ev ∈ fst (gen st c) -> exists m, ev = Log m.
Proof.
  unfold gen_cr_entry.
  destruct (highRatio c); simpl; [|intros Hev; by apply elem_of_nil in Hev].
  destruct (blacklist (c_url c)); [intros Hev; by apply elem_of_nil in Hev|].
  destruct (parse_article extractor (c_url c) (c_html c)) as [art|x].
  2:{ simpl. intros Hev%list_elem_of_singleton. eauto. }
  unfold annotate. cbn zeta. intros Hev.
  rewrite mbind_unfold in Hev. apply bind_event in Hev as [Hev | (titles & _ & Hev)].
  { by apply elem_of_nil in Hev. }
  destruct titles as [|title titles].
  { simpl in Hev. apply list_elem_of_singleton in Hev. eauto. }
  rewrite mbind_unfold in Hev. apply bind_event in Hev as [Hev | (srcs & _ & Hev)].
  { by apply elem_of_nil in Hev. }
  rewrite mbind_unfold in Hev. apply bind_event in Hev as [Hev | (pd & _ & Hev)].
  { apply try_except_event in Hev as [Hev|Hev].
    - rewrite extract_pub_date_trace in Hev. by apply elem_of_nil in Hev.
    - simpl in Hev. apply list_elem_of_singleton in Hev. eauto. }
  rewrite mbind_unfold in Hev. apply bind_event in Hev as [Hev | (au & _ & Hev)].
  { apply try_except_event in Hev as [Hev|Hev].
    - rewrite extract_author_names_trace in Hev. by apply elem_of_nil in Hev.
    - simpl in Hev. apply list_elem_of_singleton in Hev. eauto. }
  by apply elem_of_nil in Hev.
Qed.

(** The entries collected for an origin: the [k]-th has id [k + 1], and each
    comes from a candidate with [highRatio] whose URL is not blacklisted. *)
Lemma gen_loop_ok (link_entries : list (candidate gse_item))
  (t : list (event (list cr_entry))) (st : Z * list cr_entry) :
  for_each link_entries gen (1%Z, []) = (t, Ok st) ->
  fst st = (1 + Z.of_nat (length (snd st)))%Z
  /\ forall k e, snd st !! k = Some e ->
       e_id e = (Z.of_nat k + 1)%Z
       /\ blacklist (e_url e) = false
       /\ exists c, c ∈ link_entries /\ e_url e = c_url c /\ highRatio c = true.
Proof.
  intros Hrun.
  pose (Inv := fun (p : list (candidate gse_item)) (st : Z * list cr_entry) =>
    fst st = (1 + Z.of_nat (length (snd st)))%Z
    /\ forall k e, snd st !! k = Some e ->
         e_id e = (Z.of_nat k + 1)%Z
         /\ blacklist (e_url e) = false
         /\ exists c, c ∈ p /\ e_url e = c_url c /\ highRatio c = true).
  apply (for_each_ok_inv Inv gen link_entries) with (p := []) (s := (1%Z, [])) (t := t);
    [| |exact Hrun].
  - intros p s c t1 s1 [Hid Hall] Hstep.
    apply gen_cr_entry_ok in Hstep as [-> | (e & -> & He & Hu & Hh & Hb)].
    + split; [exact Hid|]. intros k e Hk.
      destruct (Hall k e Hk) as (? & ? & c0 & ? & ? & ?).
      split; [done|]. split; [done|]. exists c0. split; [|done].
      apply elem_of_app. by left.
    + split; [simpl; rewrite length_app; simpl; lia|].
      intros k e' Hk. simpl in Hk.
      apply lookup_app_Some in Hk as [Hk | [Hlen Hk]].
      * destruct (Hall k e' Hk) as (? & ? & c0 & ? & ? & ?).
        split; [done|]. split; [done|]. exists c0. split; [|done].
        apply elem_of_app. by left.
      * apply list_lookup_singleton_Some in Hk as [Hk0 <-].
        split; [lia|]. split; [by rewrite Hu|].
        exists c. split; [|by split]. apply elem_of_app. right. by left.
  - split; [reflexivity|]. intros k e Hk. simpl in Hk. by destruct k.
Qed.

Local Abbreviation step_7_origin' := (step_7_origin blacklist extractor normalizer).
Local Abbreviation step_7 := (step_7_gen_cr_data blacklist extractor normalizer).

Lemma step_7_origin_write (dir : gmap nat (list (candidate gse_item)))
  (i0 i : nat) (es : list cr_entry) :
  Write i es ∈ fst (step_7_origin' dir i0) ->
  i = i0
  /\ exists link_entries t st,
       dir !! i0 = Some link_entries
       /\ for_each link_entries gen (1%Z, []) = (t, Ok st)
       /\ es = snd st.
Proof.
  unfold step_7_origin. intros He.
  rewrite mbind_unfold in He. apply bind_event in He as [He | (cands & Hc & He)].
  { rewrite read_file_trace in He. by apply elem_of_nil in He. }
  assert (Hdir : dir !! i0 = Some cands).
  { destruct (read_file dir i0) as [tr r] eqn:E. simpl in Hc. subst r.
    by apply read_file_ok in E as [? _]. }
  rewrite mbind_unfold in He. apply bind_event in He as [He | (st & Hloop & He)].
  { apply for_each_event in He as (s0 & x & _ & He).
    apply gen_cr_entry_events in He as [m Hm]. discriminate. }
  rewrite mbind_unfold in He. apply bind_event in He as [He | (u & _ & He)].
  { simpl in He. apply list_elem_of_singleton in He. discriminate. }
  simpl in He. apply list_elem_of_singleton in He. injection He as -> ->.
  split; [reflexivity|].
  match type of Hloop with snd ?run = _ => destruct run as [tl rl] eqn:E end.
  simpl in Hloop. subst rl. by exists cands, tl, st.
Qed.

Lemma step_7_write (origins : list string)
  (dir : gmap nat (list (candidate gse_item))) (i : nat) (es : list cr_entry) :
  Write i es ∈ fst (step_7 origins dir) ->
  Write i es ∈ fst (step_7_origin' dir i).
Proof.
  unfold step_7_gen_cr_data. intros He.
  apply for_each_event in He as (s0 & [i0 url] & Hin & He). simpl in He.
  by pose proof (step_7_origin_write _ _ _ _ He) as [-> _].
Qed.

End Step7Facts.

(** * Step 7: what the stage writes *)

Section Step7Theorems.
Import PyStr Pipeline.
Context {gse_item article raw_date raw_author : Type}.
Context `{SetOrder}.
Variable blacklist : string -> bool.
Variable extractor : EntityExtractor gse_item article raw_date raw_author.
Variable normalizer : EntityNormalizer article raw_date raw_author.

Local Abbreviation gen := (gen_cr_entry blacklist extractor normalizer).
Local Abbreviation step_7 := (step_7_gen_cr_data blacklist extractor normalizer).

(** C4, as the code has it. In the file step 7 writes for an origin the
    entries carry the ids 1, 2, 3, ... in order: the id is taken and
    incremented only when a candidate is extracted, so a skipped candidate
    uses no id and leaves no gap. *)
Theorem step_7_ref_ids_consecutive (origins : list string)
  (dir : gmap nat (list (candidate gse_item))) (i : nat) (es : list cr_entry) :
  Write i es ∈ fst (step_7 origins dir) ->
  forall k e, es !! k = Some e -> e_id e = (Z.of_nat k + 1)%Z.
Proof.
  intros Hw k e Hk.
  apply step_7_write, step_7_origin_write in Hw
    as (_ & link_entries & t & st & _ & Hloop & ->).
  apply gen_loop_ok in Hloop as [_ Hall].
  by destruct (Hall k e Hk) as [? _].
Qed.

(** C5. A candidate that reaches the date block is always extracted: if
    extracting or normalising its dates raises, or no date comes back,
    [pub_date] is [None]; otherwise [pub_date] is one of the normalised dates
    and none of them is below it. Dates 2020.05.02, 2020.03.11, 2020.04.01
    give 2020.03.11. *)
Theorem step_7_pub_date_earliest_or_absent (st : Z * list cr_entry)
  (c : candidate gse_item) (art : article) (title : string)
  (titles srcs : list string) :
  highRatio c = true ->
  blacklist (c_url c) = false ->
  parse_article extractor (c_url c) (c_html c) = Ok art ->
  extract_titles extractor art = Ok (title :: titles) ->
  extract_sources extractor (gseData c) = Ok srcs ->
  exists t e,
    gen st c = (t, Ok ((fst st + 1)%Z, snd st ++ [e]))
    /\ match extract_dates extractor (gseData c) with
       | Raise _ => e_pub_date e = None
       | Ok raw_dates =>
           match normalize_dates normalizer raw_dates with
           | Raise _ => e_pub_date e = None
           | Ok [] => e_pub_date e = None
           | Ok (d :: ds) =>
               exists m, e_pub_date e = Some m
                         /\ m ∈ d :: ds
                         /\ (forall x, x ∈ d :: ds -> str_lt x m = false)
                         /\ (d :: ds = ["2020.05.02"; "2020.03.11"; "2020.04.01"]
                             -> m = "2020.03.11")
           end
       end.
Proof.
  intros Hh Hb Hp Ht Hs.
  destruct (annotate_appends extractor normalizer st c art title titles srcs Ht Hs)
    as (t & e & Hrun & _ & _ & _ & _ & _ & _ & Hdate).
  exists t, e. split.
  { unfold gen_cr_entry. rewrite Hh, Hb, Hp. exact Hrun. }
  destruct (extract_dates extractor (gseData c)) as [raw|x]; [|exact Hdate].
  destruct (normalize_dates normalizer raw) as [[|d ds]|x]; try exact Hdate.
  exists (py_min d ds). split; [exact Hdate|].
  destruct (py_min_least d ds) as [Hin Hleast].
  split; [exact Hin|]. split; [exact Hleast|].
  intros [= -> ->]. reflexivity.
Qed.

End Step7Theorems.

(** * Blacklist, and where exceptions go *)

Section StageTheorems.
Import PyStr Pipeline.
Context {gse_item pattern article raw_date raw_author : Type}.
Context `{SetOrder}.
Variable item_link : gse_item -> string.
Variable blacklist : string -> bool.
Variable text_util : TextUtil pattern.
Variable fetch_urls : gmap string (option string) -> gmap string (option string).
Variable extractor : EntityExtractor gse_item article raw_date raw_author.
Variable normalizer : EntityNormalizer article raw_date raw_author.

Local Abbreviation step_6 :=
  (step_6_filter_out_unrelated item_link blacklist text_util fetch_urls).
Local Abbreviation step_6_origin' :=
  (step_6_origin item_link blacklist text_util fetch_urls).
Local Abbreviation discover' := (discover item_link blacklist text_util).
Local Abbreviation gen := (gen_cr_entry blacklist extractor normalizer).
Local Abbreviation step_7 := (step_7_gen_cr_data blacklist extractor normalizer).

(** C6. No record step 6 writes and no entry step 7 writes has a
    blacklisted URL, and no blacklisted URL is among those handed to the
    fetcher. *)
Theorem blacklisted_urls_never_written :
  (forall gse u, u ∈ dom (related_url2html (discover' gse)) -> blacklist u = false)
  /\ (forall origins dir i recs r,
        Write i recs ∈ fst (step_6 origins dir) -> r ∈ recs ->
        blacklist (c_url r) = false)
  /\ (forall origins dir i es e,
        Write i es ∈ fst (step_7 origins dir) -> e ∈ es ->
        blacklist (e_url e) = false).
Proof.
  split; [|split].
  - intros gse u Hu. apply elem_of_dom in Hu as [v Hv].
    destruct (discover_discovered item_link blacklist text_util gse) as (_ & _ & Dh).
    rewrite Dh in Hv. by destruct (blacklist u).
  - intros origins dir i recs r Hw Hr.
    apply step_6_write in Hw as [_ Hw].
    apply step_6_origin_write in Hw as (_ & gse & _ & HF).
    apply list_elem_of_lookup in Hr as [k Hk].
    destruct (Forall2_lookup_r _ _ _ _ _ HF Hk) as (u & _ & Hv).
    by apply verified_discovered in Hv as [? _].
  - intros origins dir i es e Hw He.
    apply step_7_write, step_7_origin_write in Hw
      as (_ & link_entries & t & st & _ & Hloop & ->).
    apply gen_loop_ok in Hloop as [_ Hall].
    apply list_elem_of_lookup in He as [k Hk].
    by destruct (Hall k e Hk) as (_ & ? & _).
Qed.

Lemma combine_seq_app {A : Type} (l1 l2 : list A) (n : nat) :
  combine (seq n (length (l1 ++ l2))) (l1 ++ l2)
  = combine (seq n (length l1)) l1 ++ combine (seq (n + length l1) (length l2)) l2.
Proof.
  revert n. induction l1 as [|x l1 IH]; intros n; simpl.
  - by rewrite Nat.add_0_r.
  - replace (n + S (length l1))%nat with (S n + length l1)%nat by lia.
    by rewrite IH.
Qed.

Lemma enumerate_split {A : Type} (l : list A) (k : nat) (x : A) :
  l !! k = Some x ->
  exists rest, enumerate l = enumerate (take k l) ++ (k, x) :: rest
               /\ forall iy, iy ∈ enumerate (take k l) -> (fst iy < k)%nat.
Proof.
  intros Hk. pose proof (lookup_lt_Some _ _ _ Hk) as Hlt.
  pose proof (take_drop_middle l k x Hk) as Hl.
  assert (Hlen : length (take k l) = k) by (rewrite length_take; lia).
  exists (combine (seq (S k) (length (drop (S k) l))) (drop (S k) l)).
  split.
  - rewrite <- Hl at 1. unfold enumerate. rewrite combine_seq_app. simpl.
    rewrite Hlen. reflexivity.
  - intros [i y] Hin. simpl.
    assert (Hi : i ∈ map fst (enumerate (take k l))).
    { apply list_elem_of_fmap. by exists (i, y). }
    rewrite map_fst_enumerate, Hlen in Hi.
    apply list_elem_of_In, in_seq in Hi. lia.
Qed.

(** An origin writes its file only when everything before went well. *)
Lemma step_6_origin_write_ok (dir : gmap nat (list (segment_entry gse_item)))
  (i0 i : nat) (recs : list (candidate gse_item)) :
  Write i recs ∈ fst (step_6_origin' dir i0) ->
  snd (step_6_origin' dir i0) = Ok tt.
Proof.
  unfold step_6_origin. intros He.
  rewrite mbind_unfold in He |- *.
  destruct (read_file dir i0) as [tr [gse|x]] eqn:Er.
  2:{ simpl in He. pose proof (read_file_trace (W := list (candidate gse_item)) dir i0) as Ht.
      rewrite Er in Ht. simpl in Ht. subst tr. by apply elem_of_nil in He. }
  apply read_file_ok in Er as [_ ->].
  unfold bind at 1. unfold bind at 1 in He. cbn [fst snd app] in He |- *.
  cbn zeta in He |- *.
  rewrite mbind_unfold in He |- *.
  match goal with |- snd (bind ?loop _) = _ => destruct loop as [tl [filtered|x]] eqn:El end.
  - reflexivity.
  - simpl in He. exfalso.
    assert (Hev : Write i recs
                  ∈ fst (for_each
                           (enumerate (set_iter (dom (fetch_urls (related_url2html (discover' gse))))))
                           (verify_url text_util (discover' gse)
                              (fetch_urls (related_url2html (discover' gse)))
                              (compile_fuzzy_patterns text_util (uniq_segments (discover' gse)))
                              (length (set_iter (dom (fetch_urls (related_url2html (discover' gse)))))))
                           [])).
    { by rewrite El. }
    apply for_each_event in Hev as (s0 & y & _ & Hev).
    apply verify_url_events in Hev as [m Hm]. discriminate.
Qed.

(** When [step_6_origin] ends normally, every URL of the set was verified. *)
Lemma step_6_origin_ok (dir : gmap nat (list (segment_entry gse_item)))
  (i : nat) (t : list (event (list (candidate gse_item)))) :
  step_6_origin' dir i = (t, Ok tt) ->
  exists gse recs,
    dir !! i = Some gse
    /\ Write i recs ∈ t
    /\ Forall2 (verified text_util (discover' gse)
                  (fetch_urls (related_url2html (discover' gse)))
                  (compile_fuzzy_patterns text_util (uniq_segments (discover' gse))))
         (set_iter (dom (fetch_urls (related_url2html (discover' gse)))))
         recs.
Proof.
  intros Hrun.
  assert (Hw : exists recs, Write i recs ∈ t).
  { unfold step_6_origin in Hrun. rewrite mbind_unfold in Hrun.
    apply bind_ok_inv in Hrun as (t1 & gse & t1' & _ & Hrun & ->).
    cbn zeta in Hrun. rewrite mbind_unfold in Hrun.
    apply bind_ok_inv in Hrun as (t2 & recs & t2' & _ & Hrun & ->).
    unfold write_file in Hrun. injection Hrun as <-.
    exists recs. rewrite !elem_of_app. right. right. by left. }
  destruct Hw as [recs Hw]. pose proof Hw as Hw'.
  replace t with (fst (step_6_origin' dir i)) in Hw' by (by rewrite Hrun).
  apply step_6_origin_write in Hw' as (_ & gse & Hdir & HF).
  by exists gse, recs.
Qed.

(** C3, as the code has it. Only step 7 has handlers, and per candidate: a
    parse failure is caught, logged with the candidate's URL, and the loop
    goes on with the next candidate, the state unchanged. Step 6 has none: if
    body extraction or fuzzy matching raises for one URL of an origin, the
    origin ends with an exception and writes no file; and when an origin ends
    with an exception, so does the stage, and no file is written for that
    origin or any later one. *)
Theorem failures_caught_per_candidate_in_step_7_only :
  (forall st c rest x,
      highRatio c = true -> blacklist (c_url c) = false ->
      parse_article extractor (c_url c) (c_html c) = Raise x ->
      gen st c = ([Log (HtmlCannotBeParsed (c_url c))], Ok st)
      /\ for_each (c :: rest) gen st
         = (Log (HtmlCannotBeParsed (c_url c)) :: fst (for_each rest gen st),
            snd (for_each rest gen st)))
  /\ (forall dir i gse u html x,
        dir !! i = Some gse ->
        fetch_urls (related_url2html (discover' gse)) !! u = Some html ->
        extract_body text_util u html = Raise x ->
        exists t x', step_6_origin' dir i = (t, Raise x')
                     /\ forall j recs, Write j recs ∉ t)
  /\ (forall dir i gse u html body_lang segments seg pat x,
        dir !! i = Some gse ->
        fetch_urls (related_url2html (discover' gse)) !! u = Some html ->
        extract_body text_util u html = Ok body_lang ->
        related_url2segm (discover' gse) !! u = Some segments ->
        seg ∈ segments ->
        compile_fuzzy_patterns text_util (uniq_segments (discover' gse)) !! seg
        = Some pat ->
        fuzzy_search text_util (simplified_text text_util (fst body_lang)) seg pat
        = Raise x ->
        exists t x', step_6_origin' dir i = (t, Raise x')
                     /\ forall j recs, Write j recs ∉ t)
  /\ (forall origins dir k t x,
        (k < length origins)%nat ->
        (forall j, (j < k)%nat -> snd (step_6_origin' dir j) = Ok tt) ->
        step_6_origin' dir k = (t, Raise x) ->
        snd (step_6 origins dir) = Raise x
        /\ forall j recs, (k <= j)%nat -> Write j recs ∉ fst (step_6 origins dir)).
Proof.
  assert (Hraise_no_write : forall dir i t x,
    step_6_origin' dir i = (t, Raise x) -> forall j recs, Write j recs ∉ t).
  { intros dir i t x E j recs Hw.
    replace t with (fst (step_6_origin' dir i)) in Hw by (by rewrite E).
    apply step_6_origin_write_ok in Hw. rewrite E in Hw. discriminate. }
  assert (Hverified : forall dir i gse u html t,
    dir !! i = Some gse ->
    fetch_urls (related_url2html (discover' gse)) !! u = Some html ->
    step_6_origin' dir i = (t, Ok tt) ->
    exists r, c_html r = html
      /\ verified text_util (discover' gse)
           (fetch_urls (related_url2html (discover' gse)))
           (compile_fuzzy_patterns text_util (uniq_segments (discover' gse))) u r).
  { intros dir i gse u html t Hdir Hhtml E.
    apply step_6_origin_ok in E as (gse' & recs & Hdir' & _ & HF).
    rewrite Hdir in Hdir'. injection Hdir' as <-.
    assert (Hu : u ∈ set_iter (dom (fetch_urls (related_url2html (discover' gse))))).
    { apply elem_of_set_iter, elem_of_dom. by exists html. }
    apply list_elem_of_lookup in Hu as [k Hk].
    destruct (Forall2_lookup_l _ _ _ _ _ HF Hk) as (r & _ & Hv).
    exists r. split; [|exact Hv].
    destruct Hv as (_ & Hh & _). rewrite Hhtml in Hh. by injection Hh. }
  split; [|split; [|split]].
  - intros st c rest x Hh Hb Hp.
    assert (HA : gen st c = ([Log (HtmlCannotBeParsed (c_url c))], Ok st)).
    { unfold gen_cr_entry. by rewrite Hh, Hb, Hp. }
    split; [exact HA|].
    simpl. by rewrite mbind_unfold, (bind_ok_l _ _ _ _ HA).
  - intros dir i gse u html x Hdir Hhtml Hbody.
    destruct (step_6_origin' dir i) as [t [[]|x']] eqn:E.
    + exfalso.
      destruct (Hverified _ _ _ _ _ _ Hdir Hhtml E) as (r & <- & Hv).
      destruct Hv as (_ & _ & _ & _ & _ & (bl & Hbl & _) & _). congruence.
    + exists t, x'. split; [reflexivity|]. by eapply Hraise_no_write.
  - intros dir i gse u html bl segments seg pat x Hdir Hhtml Hbody Hsegm Hseg Hpat Hfs.
    destruct (step_6_origin' dir i) as [t [[]|x']] eqn:E.
    + exfalso.
      destruct (Hverified _ _ _ _ _ _ Hdir Hhtml E) as (r & <- & Hv).
      destruct Hv as (_ & _ & _ & (segs & Hsegs & Hcs) & _ & (bl' & Hbl & Hcb) & HF & _).
      rewrite Hsegm in Hsegs. injection Hsegs as <-.
      rewrite Hbody in Hbl. injection Hbl as <-.
      assert (Hin : seg ∈ c_segments r) by (rewrite Hcs; by apply elem_of_set_iter).
      apply list_elem_of_lookup in Hin as [k Hk].
      destruct (Forall2_lookup_l _ _ _ _ _ HF Hk) as (m & _ & pat' & Hpat' & Hok).
      rewrite Hpat in Hpat'. injection Hpat' as <-.
      rewrite Hcb in Hok. congruence.
    + exists t, x'. split; [reflexivity|]. by eapply Hraise_no_write.
  - intros origins dir k t x Hk Hpre E.
    destruct (lookup_lt_is_Some_2 origins k Hk) as [url Hurl].
    destruct (enumerate_split origins k url Hurl) as (rest & Hsplit & Hlt).
    destruct (for_each_total (W := list (candidate gse_item))
                (fun _ i_url => step_6_origin' dir (fst i_url))
                (enumerate (take k origins))) with (s := tt) as (t1 & s1 & Hfirst).
    { intros s [j y] Hin. specialize (Hlt _ Hin). simpl in *.
      specialize (Hpre j Hlt).
      destruct (step_6_origin' dir j) as [tj rj]. simpl in Hpre. subst rj.
      by exists tj, tt. }
    assert (Hstage : step_6 origins dir = (t1 ++ t, Raise x)).
    { unfold step_6_filter_out_unrelated. rewrite Hsplit.
      eapply for_each_raise; [exact Hfirst|]. simpl. by destruct s1. }
    rewrite Hstage. split; [reflexivity|].
    intros j recs Hj [Hw|Hw]%elem_of_app.
    + replace t1 with (fst (for_each (enumerate (take k origins))
                              (fun _ i_url => step_6_origin' dir (fst i_url)) tt))
        in Hw by (by rewrite Hfirst).
      apply for_each_event in Hw as (s0 & [j' y] & Hin & Hw). simpl in Hw.
      apply step_6_origin_write in Hw as [-> _].
      specialize (Hlt _ Hin). simpl in Hlt. lia.
    + by eapply Hraise_no_write.
Qed.

End StageTheorems.

(** * Step 8: the graph *)

Section Step8Facts.
Import PyStr Pipeline.
Context {datetime : Type}.
Variable strptime : string -> result datetime.
Variable strftime : datetime -> result string.
Variable RI : ReferenceIndex (datetime := datetime).

Local Abbreviation entry := (ReferenceEntry (datetime := datetime)).
Local Abbreviation build := (build_graph strftime).
Local Abbreviation node_of' := (node_of strftime).
Local Abbreviation nodes_loop :=
  (fun (entries : list entry) (acc : gmap Z graph_node) =>
     for_each (W := graph) entries
       (fun acc entry => n ← node_of' entry; mret (<[ref_id entry := n]> acc)) acc).

Lemma read_ref_entry_ok (a : cr_entry) (t : list (event graph)) (e : entry) :
  read_ref_entry strptime a = (t, Ok e) -> mirrors a e.
Proof.
  unfold read_ref_entry. rewrite mbind_unfold. intros Hrun.
  apply bind_ok_inv in Hrun as (t1 & pd & t2 & _ & Hrun & ->).
  rewrite mret_unfold in Hrun. injection Hrun as _ <-.
  by repeat split.
Qed.

Lemma read_ref_entry_trace (a : cr_entry) : fst (read_ref_entry strptime a) = [].
Proof.
  unfold read_ref_entry. rewrite mbind_unfold.
  destruct (e_pub_date a) as [[|c s]|]; try reflexivity.
  rewrite mbind_unfold. unfold lift.
  by destruct (strptime (String c s)).
Qed.

Lemma read_entries_ok (articles : list cr_entry) (t : list (event graph))
  (entries : list entry) :
  for_each articles
    (fun acc article => e ← read_ref_entry strptime article; mret (acc ++ [e])) []
  = (t, Ok entries) ->
  Forall2 mirrors articles entries.
Proof.
  intros Hrun.
  assert (Hfinal : (fun p acc => Forall2 mirrors p acc) ([] ++ articles) entries).
  { eapply (for_each_ok_inv (fun p acc => Forall2 mirrors p acc));
      [| |exact Hrun]; [|constructor].
    intros p acc a t1 acc1 HF Hstep. cbv beta in Hstep.
    rewrite mbind_unfold in Hstep.
    apply bind_ok_inv in Hstep as (ta & e & tb & He & Hret & ->).
    rewrite mret_unfold in Hret. injection Hret as _ <-.
    apply Forall2_app; [exact HF|].
    constructor; [by eapply read_ref_entry_ok | constructor]. }
  exact Hfinal.
Qed.

(** A trace without events is the empty trace. *)
Lemma no_event_nil {W : Type} (t : list (event W)) : (forall ev, ev ∉ t) -> t = [].
Proof.
  destruct t as [|ev t]; [reflexivity|]. intros Hno. exfalso. apply (Hno ev). left.
Qed.

(** The node of an entry: its fields, and its date as [strftime] writes it;
    the exception of [strftime] when it rejects the date. *)
Lemma node_of_cases (e : entry) :
  match re_pub_date e with
  | None =>
      exists n, node_of' e = ([], Ok n) /\ n_pubDate n = None
  | Some d =>
      match strftime d with
      | Ok s => exists n, node_of' e = ([], Ok n) /\ n_pubDate n = Some s
      | Raise x => node_of' e = ([], Raise x)
      end
  end.
Proof.
  unfold node_of. rewrite !mbind_unfold. unfold lift.
  destruct (re_pub_date e) as [d|]; [destruct (strftime d) as [s|x]|];
    try (eexists; split; reflexivity); reflexivity.
Qed.

Lemma node_of_trace (e : entry) : fst (node_of' e) = [].
Proof.
  pose proof (node_of_cases e) as Hc.
  destruct (re_pub_date e) as [d|]; [destruct (strftime d) as [s|x]|].
  - by destruct Hc as (n & -> & _).
  - by rewrite Hc.
  - by destruct Hc as (n & -> & _).
Qed.

Lemma node_of_ok (e : entry) (t : list (event graph)) (n : graph_node) :
  node_of' e = (t, Ok n) ->
  t = []
  /\ n_refId n = ref_id e /\ n_url n = re_url e /\ n_text n = re_text e
  /\ n_title n = re_title e /\ n_sources n = re_sources e
  /\ n_authors n = re_authors e /\ n_body n = re_body e
  /\ match re_pub_date e with
     | None => n_pubDate n = None
     | Some d => strftime d = Ok (default EmptyString (n_pubDate n))
                 /\ is_Some (n_pubDate n)
     end.
Proof.
  unfold node_of. rewrite !mbind_unfold. unfold lift.
  destruct (re_pub_date e) as [d|]; [destruct (strftime d) as [s|x]|]; simpl;
    intros [= <- <-]; simpl; repeat split; by eexists.
Qed.

Lemma nodes_loop_trace (entries : list entry) (acc : gmap Z graph_node) :
  fst (nodes_loop entries acc) = [].
Proof.
  apply no_event_nil. intros ev Hev.
  apply for_each_event in Hev as (s0 & e & _ & Hev). cbv beta in Hev.
  rewrite mbind_unfold in Hev. apply bind_event in Hev as [Hev | (n & _ & Hev)].
  - rewrite node_of_trace in Hev. by apply elem_of_nil in Hev.
  - by apply elem_of_nil in Hev.
Qed.

(** The node dictionary of a loop that ends normally has a node under the id
    of every entry, and under no other key; the node is that of the last
    entry with this id; and [strftime] accepted the date of every entry. *)
Lemma nodes_loop_ok (entries : list entry) (t : list (event graph))
  (m : gmap Z graph_node) :
  nodes_loop entries ∅ = (t, Ok m) ->
  (forall k, match m !! k with
             | Some n => exists e, e ∈ entries /\ ref_id e = k
                                   /\ node_of' e = ([], Ok n)
             | None => forall e, e ∈ entries -> ref_id e <> k
             end)
  /\ Forall (fun e => exists n, node_of' e = ([], Ok n)) entries.
Proof.
  intros Hrun.
  pose (Inv := fun (p : list entry) (m : gmap Z graph_node) =>
    (forall k, match m !! k with
               | Some n => exists e, e ∈ p /\ ref_id e = k /\ node_of' e = ([], Ok n)
               | None => forall e, e ∈ p -> ref_id e <> k
               end)
    /\ Forall (fun e => exists n, node_of' e = ([], Ok n)) p).
  assert (Hfinal : Inv ([] ++ entries) m).
  { eapply (for_each_ok_inv Inv); [| |exact Hrun].
    - intros p s x t1 s1 [Hk Hall] Hstep. cbv beta in Hstep.
      rewrite mbind_unfold in Hstep.
      apply bind_ok_inv in Hstep as (ta & n & tb & Hn & Hret & ->).
      rewrite mret_unfold in Hret. injection Hret as _ <-.
      assert (Hn' : node_of' x = ([], Ok n)).
      { pose proof (node_of_trace x) as Ht. rewrite Hn in Ht. simpl in Ht.
        by rewrite Hn, Ht. }
      split.
      + intros k. destruct (decide (ref_id x = k)) as [<-|Hne].
        * rewrite lookup_insert_eq. exists x. split; [|by split].
          apply elem_of_app. right. left.
        * rewrite lookup_insert_ne by exact Hne. specialize (Hk k).
          destruct (s !! k) as [n0|].
          -- destruct Hk as (e & He & Hid & Hnode). exists e.
             split; [apply elem_of_app; by left | by split].
          -- intros e [He | ->%list_elem_of_singleton]%elem_of_app;
               [by apply Hk | exact Hne].
      + apply Forall_app. split; [exact Hall|]. constructor; [by exists n | constructor].
    - split; [|constructor]. intros k. rewrite lookup_empty.
      intros e He. by apply elem_of_nil in He. }
  exact Hfinal.
Qed.

(** The edge list is the list of the found pairs, each as a two-item list. *)
Lemma edges_loop (found_links : list (Z * Z)) :
  fold_left (fun acc pair => acc ++ [list_of_pair pair]) found_links []
  = map list_of_pair found_links.
Proof.
  assert (Hgen : forall acc,
    fold_left (fun acc pair => acc ++ [list_of_pair pair]) found_links acc
    = acc ++ map list_of_pair found_links).
  { induction found_links as [|p l IH]; intros acc; simpl.
    - by rewrite app_nil_r.
    - by rewrite IH, <- app_assoc. }
  apply Hgen.
Qed.

Lemma build_graph_trace (found_links : list (Z * Z)) (entries : list entry) :
  fst (build found_links entries) = [].
Proof.
  apply no_event_nil. intros ev Hev. unfold build_graph in Hev.
  cbv zeta in Hev. rewrite mbind_unfold in Hev.
  apply bind_event in Hev as [Hev | (m & _ & Hev)].
  - rewrite nodes_loop_trace in Hev. by apply elem_of_nil in Hev.
  - by apply elem_of_nil in Hev.
Qed.

(** A graph that is built has the found pairs as edges, in order, and a
    node under the id of every entry and under no other key. *)
Lemma build_graph_ok (found_links : list (Z * Z)) (entries : list entry)
  (t : list (event graph)) (g : graph) :
  build found_links entries = (t, Ok g) ->
  t = []
  /\ edges g = map list_of_pair found_links
  /\ (forall k, match nodes g !! k with
                | Some n => exists e, e ∈ entries /\ ref_id e = k
                                      /\ node_of' e = ([], Ok n)
                | None => forall e, e ∈ entries -> ref_id e <> k
                end)
  /\ Forall (fun e => exists n, node_of' e = ([], Ok n)) entries.
Proof.
  intros Hrun.
  pose proof (build_graph_trace found_links entries) as Ht.
  rewrite Hrun in Ht. simpl in Ht. subst t. split; [reflexivity|].
  unfold build_graph in Hrun. cbv zeta in Hrun. rewrite mbind_unfold in Hrun.
  apply bind_ok_inv in Hrun as (t1 & m & t2 & Hloop & Hret & _).
  rewrite mret_unfold in Hret. injection Hret as _ <-. simpl.
  split; [apply edges_loop|]. by apply nodes_loop_ok in Hloop.
Qed.

(** The graph is built when [strftime] accepts the date of every entry. *)
Lemma build_graph_total (found_links : list (Z * Z)) (entries : list entry) :
  Forall (fun e => exists n, node_of' e = ([], Ok n)) entries ->
  exists g, build found_links entries = ([], Ok g).
Proof.
  intros Hall.
  destruct (for_each_total
              (fun (acc : gmap Z graph_node) (e : entry) =>
                 n ← node_of' e; mret (M := M graph) (<[ref_id e := n]> acc))
              entries) with (s := (∅ : gmap Z graph_node)) as (t & m & Hloop).
  { intros s e He. rewrite Forall_forall in Hall.
    destruct (Hall e He) as [n Hn].
    exists [], (<[ref_id e := n]> s). rewrite mbind_unfold.
    by rewrite (bind_ok_l _ _ _ _ Hn). }
  pose proof (build_graph_trace found_links entries) as Ht.
  unfold build_graph in *. cbv zeta in *. rewrite mbind_unfold in *.
  rewrite (bind_ok_l _ _ _ _ Hloop) in *. simpl in Ht.
  eexists. rewrite mret_unfold. simpl. rewrite Ht. reflexivity.
Qed.

(** No graph is built when [strftime] rejects the date of an entry. *)
Lemma build_graph_raises (found_links : list (Z * Z)) (entries : list entry)
  (e : entry) (x : exn) :
  e ∈ entries -> node_of' e = ([], Raise x) ->
  exists x', build found_links entries = ([], Raise x').
Proof.
  intros He Hx.
  pose proof (build_graph_trace found_links entries) as Ht.
  destruct (build found_links entries) as [t [g|x']] eqn:Hrun; simpl in Ht; subst t.
  - apply build_graph_ok in Hrun as (_ & _ & _ & Hall).
    rewrite Forall_forall in Hall. destruct (Hall e He) as [n Hn]. congruence.
  - by exists x'.
Qed.

Lemma build_graph_node_unique (found_links : list (Z * Z)) (entries : list entry)
  (t : list (event graph)) (g : graph) (e : entry) :
  build found_links entries = (t, Ok g) ->
  e ∈ entries -> NoDup (map ref_id entries) ->
  exists n, nodes g !! ref_id e = Some n /\ node_of' e = ([], Ok n).
Proof.
  intros Hrun He Hnd.
  apply build_graph_ok in Hrun as (_ & _ & Hn & _). specialize (Hn (ref_id e)).
  destruct (nodes g !! ref_id e) as [n|].
  - destruct Hn as (e' & He' & Hk & Hnode). exists n. split; [reflexivity|].
    apply list_elem_of_lookup in He as [i Hi], He' as [j Hj].
    assert (i = j).
    { eapply NoDup_lookup; [exact Hnd | |].
      - rewrite list_lookup_fmap, Hi. reflexivity.
      - rewrite list_lookup_fmap, Hj. simpl. by rewrite Hk. }
    subst j. congruence.
  - exfalso. by apply (Hn e He).
Qed.

Local Abbreviation step_8_origin' := (step_8_origin strptime strftime RI).
Local Abbreviation step_8 := (step_8_find_cross_references strptime strftime RI).

Lemma step_8_origin_write (dir : gmap nat (list cr_entry)) (i0 i : nat) (g : graph) :
  Write i g ∈ fst (step_8_origin' dir i0) ->
  i = i0
  /\ exists articles entries,
       dir !! i0 = Some articles
       /\ Forall2 mirrors articles entries
       /\ build (find_cross_references RI (new_index RI entries) 3)
            (iterentries RI (new_index RI entries)) = ([], Ok g).
Proof.
  unfold step_8_origin. intros He.
  rewrite mbind_unfold in He. apply bind_event in He as [He | (articles & Ha & He)].
  { rewrite read_file_trace in He. by apply elem_of_nil in He. }
  assert (Hdir : dir !! i0 = Some articles).
  { destruct (read_file dir i0) as [tr r] eqn:E. simpl in Ha. subst r.
    by apply read_file_ok in E as [? _]. }
  rewrite mbind_unfold in He. apply bind_event in He as [He | (entries & Hloop & He)].
  { apply for_each_event in He as (s0 & x & _ & He). cbv beta in He.
    rewrite mbind_unfold in He. apply bind_event in He as [He | (e & _ & He)].
    - rewrite read_ref_entry_trace in He. by apply elem_of_nil in He.
    - by apply elem_of_nil in He. }
  cbv zeta in He. rewrite mbind_unfold in He.
  apply bind_event in He as [He | (g' & Hg & He)].
  { rewrite build_graph_trace in He. by apply elem_of_nil in He. }
  simpl in He. apply list_elem_of_singleton in He. injection He as -> ->.
  split; [reflexivity|]. exists articles, entries.
  split; [exact Hdir|]. split.
  - match type of Hloop with snd ?run = _ => destruct run as [tl rl] eqn:E end.
    simpl in Hloop. subst rl. by apply read_entries_ok in E.
  - pose proof (build_graph_trace (find_cross_references RI (new_index RI entries) 3)
                  (iterentries RI (new_index RI entries))) as Ht.
    destruct (build _ _) as [tb rb]. simpl in Ht, Hg. by subst.
Qed.


End Step8Facts.

(** * The stages run in the small world *)

Section Runs.
Import PyStr Pipeline Demo.

Local Abbreviation step_6 :=
  (step_6_filter_out_unrelated item_link blacklist text_util fetch_urls).
Local Abbreviation step_7 := (step_7_gen_cr_data blacklist extractor normalizer).
Local Abbreviation step_8 :=
  (step_8_find_cross_references strptime strftime reference_index).

(** Step 6 on the origin: the blacklisted URL is gone, the URL found twice
    comes once with both segments and its first annotation. *)
Example step_6_run :
  step_6 origins origin_gse_dir
  = ([Log (FuzzyMatching 0 2); Write 0%nat [cand_a; cand_b]], Ok tt).
Proof. vm_compute. reflexivity. Qed.

(** Step 6 on the two origins: the exception of the first leaves the stage. *)
Example step_6_broken_run :
  step_6 two_origins broken_gse_dir
  = ([Log (FuzzyMatching 0 1)], Raise (Failure "malformed HTML")).
Proof. vm_compute. reflexivity. Qed.

(** Step 7: the candidate with the low ratio takes no id; the dates of the
    first give 2020.03.11. *)
Example step_7_run :
  step_7 origins related_links_dir
  = ([Log (SavingEntries 2); Write 0%nat [entry_a; entry_c]], Ok tt).
Proof. vm_compute. reflexivity. Qed.

(** Step 7 with a candidate that cannot be parsed: the failure is logged and
    the next candidate is extracted, under id 1. *)
Example step_7_unparsable_run :
  step_7 origins unparsable_links_dir
  = ([Log (HtmlCannotBeParsed "http://n.example/4"); Log (SavingEntries 1);
      Write 0%nat [{| e_id := 1; e_url := "http://c.example/3";
                      e_text := "The Quote In Full";
                      e_title := "The Quote In Full";
                      e_sources := ["reuters"]; e_pub_date := None;
                      e_authors := ["jane doe"];
                      e_body := "the quote in full" |}]],
     Ok tt).
Proof. vm_compute. reflexivity. Qed.

Example step_8_run :
  step_8 origins crossref_in_dir = ([Write 0%nat graph_0], Ok tt).
Proof. vm_compute. reflexivity. Qed.

Lemma step_6_writes_cands : Write 0%nat [cand_a; cand_b] ∈ fst (step_6 origins origin_gse_dir).
Proof. rewrite step_6_run. right. left. Qed.

(** The threshold law at the record of the first URL. *)
Lemma step_6_best_ratio_threshold_witness :
  (highRatio cand_a = true <-> (1 # 2 < bestRatio cand_a)%Q)
  /\ length (foundMatches cand_a) = length (c_segments cand_a)
  /\ (forall m, m ∈ foundMatches cand_a -> (fm_ratio m <= bestRatio cand_a)%Q)
  /\ ((bestRatio cand_a = 0%Q
       /\ forall m, m ∈ foundMatches cand_a -> (fm_ratio m <= 0)%Q)
      \/ (exists m, m ∈ foundMatches cand_a /\ bestRatio cand_a = fm_ratio m
                    /\ (0 < fm_ratio m)%Q))
  /\ ((forall body seg pat ratio mt,
          fuzzy_search text_util body seg pat = Ok (ratio, mt) ->
          (0 <= ratio <= 1)%Q) ->
      (forall m, m ∈ foundMatches cand_a -> (0 <= fm_ratio m <= 1)%Q)
      /\ (0 <= bestRatio cand_a <= 1)%Q).
Proof.
  apply (step_6_best_ratio_threshold item_link blacklist text_util fetch_urls
           origins origin_gse_dir 0%nat [cand_a; cand_b] cand_a).
  - exact step_6_writes_cands.
  - left.
Defined.

(** Deduplication at the file of the origin. *)
Lemma step_6_dedup_union_first_witness :
  exists gse, origin_gse_dir !! 0%nat = Some gse
    /\ NoDup (map c_url [cand_a; cand_b])
    /\ forall r, r ∈ [cand_a; cand_b] ->
         NoDup (c_segments r)
         /\ (forall seg, seg ∈ c_segments r
               <-> exists entry it,
                     entry ∈ gse /\ it ∈ foundItems entry
                     /\ item_link it = c_url r
                     /\ seg = simplified_text text_util (segment entry))
         /\ snd <$> head (items_for item_link (c_url r)
                            (found_in_order text_util gse))
            = Some (gseData r).
Proof.
  apply (step_6_dedup_union_first item_link blacklist text_util fetch_urls
           origins origin_gse_dir 0%nat [cand_a; cand_b]).
  exact step_6_writes_cands.
Defined.

Lemma step_7_writes_entries :
  Write 0%nat [entry_a; entry_c] ∈ fst (step_7 origins related_links_dir).
Proof. rewrite step_7_run. right. left. Qed.

(** C3, as stated, fails: the page of the first origin cannot be read, the
    exception is neither caught nor logged, the stage ends with it, and the
    second origin, which alone is processed without error, gets no file. *)
Lemma step_6_failure_aborts_stage_counterexample :
  extract_body text_util "http://broken.example/p" (Some "Other text")
  = Raise (Failure "malformed HTML")
  /\ step_6_origin item_link blacklist text_util fetch_urls broken_gse_dir 1%nat
     = ([Log (FuzzyMatching 0 1); Write 1%nat [cand_b]], Ok tt)
  /\ step_6 two_origins broken_gse_dir
     = ([Log (FuzzyMatching 0 1)], Raise (Failure "malformed HTML"))
  /\ ~ (exists t recs, step_6 two_origins broken_gse_dir = (t, Ok tt)
                       /\ Write 1%nat recs ∈ t).
Proof.
  split; [reflexivity|]. split; [vm_compute; reflexivity|].
  split; [exact step_6_broken_run|].
  intros (t & recs & Hrun & _). rewrite step_6_broken_run in Hrun. discriminate.
Qed.

(** C4, as stated, fails: the candidate between the two extracted ones is
    skipped, and the ids written are 1 and 2, with no id left out. *)
Lemma step_7_skipped_candidate_no_gap_counterexample :
  highRatio cand_b = false
  /\ step_7 origins related_links_dir
     = ([Log (SavingEntries 2); Write 0%nat [entry_a; entry_c]], Ok tt)
  /\ e_url entry_a = c_url cand_a /\ e_url entry_c = c_url cand_c
  /\ map e_id [entry_a; entry_c] = [1%Z; 2%Z]
  /\ ~ (exists gap : Z, (e_id entry_a < gap < e_id entry_c)%Z).
Proof.
  split; [reflexivity|]. split; [exact step_7_run|].
  split; [reflexivity|]. split; [reflexivity|]. split; [reflexivity|].
  intros [gap Hgap]. simpl in Hgap. lia.
Qed.

(** The ids of the file step 7 writes in the small world. *)
Lemma step_7_ref_ids_consecutive_witness :
  e_id entry_a = (Z.of_nat 0 + 1)%Z /\ e_id entry_c = (Z.of_nat 1 + 1)%Z.
Proof.
  split.
  - apply (step_7_ref_ids_consecutive blacklist extractor normalizer
             origins related_links_dir 0%nat [entry_a; entry_c]
             step_7_writes_entries 0%nat entry_a).
    reflexivity.
  - apply (step_7_ref_ids_consecutive blacklist extractor normalizer
             origins related_links_dir 0%nat [entry_a; entry_c]
             step_7_writes_entries 1%nat entry_c).
    reflexivity.
Defined.

(** The dates of the specification's example: the entry gets 2020.03.11. *)
Lemma step_7_pub_date_earliest_or_absent_witness :
  exists t e,
    gen_cr_entry blacklist extractor normalizer (1%Z, []) cand_a
    = (t, Ok ((1 + 1)%Z, [] ++ [e]))
    /\ exists m, e_pub_date e = Some m
                 /\ m ∈ ["2020.05.02"; "2020.03.11"; "2020.04.01"]
                 /\ (forall x, x ∈ ["2020.05.02"; "2020.03.11"; "2020.04.01"] ->
                               str_lt x m = false)
                 /\ (["2020.05.02"; "2020.03.11"; "2020.04.01"]
                     = ["2020.05.02"; "2020.03.11"; "2020.04.01"]
                     -> m = "2020.03.11").
Proof.
  exact (step_7_pub_date_earliest_or_absent blacklist extractor normalizer
           (1%Z, []) cand_a "He said: The Quote In Full"
           "He said: The Quote In Full" [] ["Reuters"; "reuters"]
           eq_refl eq_refl eq_refl eq_refl eq_refl).
Defined.

(** The index of the small world links two different entries, and only
    these. *)
Lemma demo_pairs_join_entries (es : list (ReferenceEntry (datetime := string)))
  (p : Z * Z) :
  p ∈ find_cross_references reference_index (new_index reference_index es) 3 ->
  fst p <> snd p
  /\ (exists e, e ∈ es /\ ref_id e = fst p)
  /\ (exists e, e ∈ es /\ ref_id e = snd p).
Proof.
  intros Hp. simpl in Hp.
  destruct es as [|e1 [|e2 es]]; try (by apply elem_of_nil in Hp).
  destruct (bool_decide (ref_id e1 = ref_id e2)) eqn:E;
    [by apply elem_of_nil in Hp|].
  apply bool_decide_eq_false in E.
  apply list_elem_of_singleton in Hp. subst p. simpl.
  split; [exact E|]. split.
  - exists e1. split; [left | reflexivity].
  - exists e2. split; [right; left | reflexivity].
Qed.



(** Where exceptions go, in the small world: the candidate without HTML is
    logged and passed over; the origin whose page cannot be read ends with an
    exception, and the stage with it. *)
Lemma failures_caught_per_candidate_in_step_7_only_witness :
  (gen_cr_entry blacklist extractor normalizer (1%Z, []) cand_n
   = ([Log (HtmlCannotBeParsed (c_url cand_n))], Ok (1%Z, []))
   /\ for_each [cand_n; cand_c] (gen_cr_entry blacklist extractor normalizer) (1%Z, [])
      = (Log (HtmlCannotBeParsed (c_url cand_n))
           :: fst (for_each [cand_c] (gen_cr_entry blacklist extractor normalizer)
                     (1%Z, [])),
         snd (for_each [cand_c] (gen_cr_entry blacklist extractor normalizer)
                (1%Z, []))))
  /\ (exists t x',
        step_6_origin item_link blacklist text_util fetch_urls broken_gse_dir 0%nat
        = (t, Raise x')
        /\ forall j recs, Write j recs ∉ t)
  /\ (snd (step_6 two_origins broken_gse_dir) = Raise (Failure "malformed HTML")
      /\ forall j recs, (0 <= j)%nat ->
           Write j recs ∉ fst (step_6 two_origins broken_gse_dir)).
Proof.
  destruct (failures_caught_per_candidate_in_step_7_only
              item_link blacklist text_util fetch_urls extractor normalizer)
    as (Hparse & Hbody & _ & Hstage).
  split; [|split].
  - apply (Hparse (1%Z, []) cand_n [cand_c] (Failure "no html")); reflexivity.
  - apply (Hbody broken_gse_dir 0%nat
             [ {| segment := "The Quote In Full"; foundItems := [broken] |} ]
             "http://broken.example/p" (Some "Other text")
             (Failure "malformed HTML")).
    + reflexivity.
    + vm_compute. reflexivity.
    + reflexivity.
  - apply (Hstage two_origins broken_gse_dir 0%nat [Log (FuzzyMatching 0 1)]
             (Failure "malformed HTML")).
    + simpl. lia.
    + intros j Hj. lia.
    + vm_compute. reflexivity.
Defined.

(** The blacklist in the small world. *)
Lemma blacklisted_urls_never_written_witness :
  blacklist (c_url cand_a) = false /\ blacklist (c_url cand_b) = false
  /\ blacklist (e_url entry_a) = false /\ blacklist (e_url entry_c) = false.
Proof.
  destruct (blacklisted_urls_never_written
              item_link blacklist text_util fetch_urls extractor normalizer)
    as (_ & H6 & H7).
  split; [|split; [|split]].
  - apply (H6 origins origin_gse_dir 0%nat [cand_a; cand_b] cand_a
             step_6_writes_cands). left.
  - apply (H6 origins origin_gse_dir 0%nat [cand_a; cand_b] cand_b
             step_6_writes_cands). right. left.
  - apply (H7 origins related_links_dir 0%nat [entry_a; entry_c] entry_a
             step_7_writes_entries). left.
  - apply (H7 origins related_links_dir 0%nat [entry_a; entry_c] entry_c
             step_7_writes_entries). right. left.
Defined.

End Runs.

(** * The origins file *)

Section OriginsFacts.
Import PyStr Origins.

Lemma split_lines_nonempty (s : string) : split_lines s <> [].
Proof.
  induction s as [|c s IH]; simpl; [discriminate|].
  destruct (is_newline c); [discriminate|].
  destruct (split_lines s); discriminate.
Qed.

Lemma length_split_lines (s : string) :
  length (split_lines s) = S (count_newlines s).
Proof.
  induction s as [|c s IH]; simpl; [reflexivity|].
  destruct (is_newline c); simpl; [by rewrite IH|].
  destruct (split_lines s) as [|line lines] eqn:E; simpl in *; lia.
Qed.

Lemma join_split_lines (s : string) : join_lines (split_lines s) = s.
Proof.
  induction s as [|c s IH]; [reflexivity|].
  cbn [split_lines]. destruct (is_newline c) eqn:Ec.
  - apply bool_decide_eq_true in Ec. subst c.
    pose proof (split_lines_nonempty s) as Hne.
    destruct (split_lines s) as [|line lines] eqn:E; [done|].
    cbn [join_lines]. simpl. by rewrite <- IH.
  - pose proof (split_lines_nonempty s) as Hne.
    destruct (split_lines s) as [|line lines] eqn:E; [done|].
    rewrite <- IH. destruct lines as [|l2 lines]; reflexivity.
Qed.

Lemma split_lines_no_newline (s : string) :
  Forall (fun line => count_newlines line = 0%nat) (split_lines s).
Proof.
  induction s as [|c s IH]; simpl; [by repeat constructor|].
  destruct (is_newline c) eqn:Ec; [by constructor|].
  pose proof (split_lines_nonempty s) as Hne.
  destruct (split_lines s) as [|line lines]; [done|].
  inversion IH; subst. constructor; [|done]. simpl. by rewrite Ec.
Qed.

Lemma count_newlines_app (s t : string) :
  count_newlines (s +:+ t) = (count_newlines s + count_newlines t)%nat.
Proof. induction s as [|c s IH]; simpl; [reflexivity|]. rewrite IH. lia. Qed.

Lemma split_lines_app_newline (line rest : string) :
  count_newlines line = 0%nat ->
  split_lines (line +:+ String newline rest) = line :: split_lines rest.
Proof.
  induction line as [|c line IH]; simpl; intros Hc.
  - reflexivity.
  - destruct (is_newline c); [discriminate|]. by rewrite IH.
Qed.

Lemma split_lines_one (line : string) :
  count_newlines line = 0%nat -> split_lines line = [line].
Proof.
  induction line as [|c line IH]; simpl; intros Hc; [reflexivity|].
  destruct (is_newline c); [discriminate|]. by rewrite IH.
Qed.

(** Lines without newlines, joined and split again, are the same lines. *)
Lemma split_join_lines (lines : list string) :
  lines <> [] -> Forall (fun line => count_newlines line = 0%nat) lines ->
  split_lines (join_lines lines) = lines.
Proof.
  intros Hne Hall. induction Hall as [|line lines Hl Hall IH]; [done|].
  destruct lines as [|l2 lines].
  - simpl. by apply split_lines_one.
  - cbn [join_lines]. rewrite split_lines_app_newline by exact Hl.
    f_equal. by apply IH.
Qed.

(** What [rstrip] removes is a tail of characters of the set. *)
Lemma rstrip_tail (p : ascii -> bool) (s : string) :
  exists t, s = rstrip p s +:+ t
            /\ Forall (fun c => p c = true) (list_ascii_of_string t).
Proof.
  induction s as [|c s (t & Hs & Ht)]; simpl.
  - exists EmptyString. by split.
  - destruct (rstrip p s) as [|c' r] eqn:E.
    + destruct (p c) eqn:Ep.
      * exists (String c t). change (s = t) in Hs. split; [by rewrite Hs|].
        simpl. by constructor.
      * exists t. change (s = t) in Hs. simpl. split; [by rewrite Hs|exact Ht].
    + exists t. split; [|exact Ht]. simpl. by rewrite Hs at 1.
Qed.

Lemma last_char_rstrip (p : ascii -> bool) (s : string) (c : ascii) :
  last_char (rstrip p s) = Some c -> p c = false.
Proof.
  revert c. induction s as [|a s IH]; intros c; simpl; [discriminate|].
  destruct (rstrip p s) as [|c' r] eqn:E.
  - destruct (p a) eqn:Ep; simpl; [discriminate|]. by intros [= <-].
  - intros Hl. apply IH. destruct r; exact Hl.
Qed.

Lemma rstrip_fixed (p : ascii -> bool) (s : string) :
  (forall c, last_char s = Some c -> p c = false) -> rstrip p s = s.
Proof.
  induction s as [|a s IH]; intros Hl; [reflexivity|].
  simpl. destruct s as [|b s].
  - simpl. specialize (Hl a eq_refl). by rewrite Hl.
  - rewrite IH by (intros c Hc; apply Hl; exact Hc).
    reflexivity.
Qed.

Lemma lstrip_fixed (p : ascii -> bool) (s : string) :
  (forall c s', s = String c s' -> p c = false) -> lstrip p s = s.
Proof.
  destruct s as [|c s']; intros Hf; [reflexivity|].
  simpl. by rewrite (Hf c s' eq_refl).
Qed.

Lemma lstrip_head (p : ascii -> bool) (s : string) (c : ascii) (s' : string) :
  lstrip p s = String c s' -> p c = false.
Proof.
  induction s as [|a s IH]; simpl; [discriminate|].
  destruct (p a) eqn:Ep; [exact IH|]. by intros [= <- <-].
Qed.

(** A stripped string neither starts nor ends with a newline. *)
Lemma strip_newlines_ends (s : string) :
  (forall c s', strip_newlines s = String c s' -> is_newline c = false)
  /\ (forall c, last_char (strip_newlines s) = Some c -> is_newline c = false).
Proof.
  unfold strip_newlines. split.
  - intros c s' Hs.
    destruct (lstrip is_newline s) as [|a t] eqn:E; [discriminate|].
    pose proof (lstrip_head _ _ _ _ E) as Ha.
    simpl in Hs. rewrite Ha in Hs.
    destruct (rstrip is_newline t); injection Hs as <- _; exact Ha.
  - intros c. apply last_char_rstrip.
Qed.

Lemma strip_newlines_idem (s : string) :
  strip_newlines (strip_newlines s) = strip_newlines s.
Proof.
  destruct (strip_newlines_ends s) as [Hfirst Hlast].
  unfold strip_newlines at 1.
  rewrite lstrip_fixed by exact Hfirst.
  by apply rstrip_fixed.
Qed.

Lemma lstrip_all (p : ascii -> bool) (s : string) :
  Forall (fun c => p c = true) (list_ascii_of_string s) -> lstrip p s = EmptyString.
Proof.
  induction s as [|c s IH]; simpl; [reflexivity|].
  intros Hall. inversion Hall as [|? ? Hc Hs]; subst. rewrite Hc. by apply IH.
Qed.

Lemma split_lines_head (s : string) (c : ascii) (s' : string) :
  s = String c s' -> is_newline c = false ->
  exists line lines, split_lines s = line :: lines /\ line <> EmptyString.
Proof.
  intros -> Hc. simpl. rewrite Hc.
  destruct (split_lines s') as [|line lines]; eexists _, _; by split.
Qed.

Lemma split_lines_last (s : string) (c : ascii) :
  last_char s = Some c -> is_newline c = false ->
  List.last (split_lines s) EmptyString <> EmptyString.
Proof.
  induction s as [|a s IH]; [discriminate|].
  intros Hl Hc. destruct s as [|b s].
  - simpl in Hl. injection Hl as ->. simpl. by rewrite Hc.
  - specialize (IH Hl Hc).
    pose proof (split_lines_nonempty (String b s)) as Hne.
    cbn [split_lines]. cbn [split_lines] in IH, Hne.
    destruct (is_newline a).
    + destruct (if is_newline b then _ else _) as [|l ls] eqn:E; [done|].
      exact IH.
    + destruct (if is_newline b then _ else _) as [|l ls] eqn:E; [done|].
      destruct ls as [|l2 ls]; [discriminate | exact IH].
Qed.

(** X1. Step 1 writes the origins file without its leading and trailing
    newlines, and logs one more than the number of newlines left. *)
Theorem step_1_writes_stripped_input (origins_file : string) :
  fst (step_1_init_work_dir origins_file) = strip_newlines origins_file
  /\ snd (step_1_init_work_dir origins_file)
     = S (count_newlines (strip_newlines origins_file))
  /\ (forall c s', fst (step_1_init_work_dir origins_file) = String c s' ->
                   c <> newline)
  /\ (forall c, last_char (fst (step_1_init_work_dir origins_file)) = Some c ->
                c <> newline).
Proof.
  unfold step_1_init_work_dir. cbn [fst snd].
  rewrite join_split_lines, length_split_lines.
  destruct (strip_newlines_ends origins_file) as [Hfirst Hlast].
  split; [reflexivity|]. split; [reflexivity|]. split.
  - intros c s' Hs. specialize (Hfirst c s' Hs).
    by apply bool_decide_eq_false in Hfirst.
  - intros c Hc. specialize (Hlast c Hc). by apply bool_decide_eq_false in Hlast.
Qed.

(** X2. The origins every later step reads from the file step 1 wrote are the
    origins of the file given on the command line, as many as step 1 logged. *)
Theorem read_origins_after_step_1 (origins_file : string) :
  read_origins (fst (step_1_init_work_dir origins_file)) = read_origins origins_file
  /\ length (read_origins (fst (step_1_init_work_dir origins_file)))
     = snd (step_1_init_work_dir origins_file).
Proof.
  unfold step_1_init_work_dir, read_origins. cbn [fst snd].
  rewrite join_split_lines, strip_newlines_idem. by split.
Qed.

(** X3. [read_origins] never returns an empty list and no origin holds a
    newline; a file of newlines only (the empty file too) gives one origin,
    the empty string; otherwise the first and the last origin are not
    empty. *)
Theorem read_origins_never_empty (content : string) :
  read_origins content <> []
  /\ Forall (fun url => count_newlines url = 0%nat) (read_origins content)
  /\ (Forall (fun c => c = newline) (list_ascii_of_string content) ->
      read_origins content = [EmptyString])
  /\ (strip_newlines content <> EmptyString ->
      (exists url urls, read_origins content = url :: urls /\ url <> EmptyString)
      /\ List.last (read_origins content) EmptyString <> EmptyString).
Proof.
  unfold read_origins.
  split; [apply split_lines_nonempty|]. split; [apply split_lines_no_newline|].
  split.
  - intros Hall. unfold strip_newlines. rewrite lstrip_all; [reflexivity|].
    eapply Forall_impl; [exact Hall|]. intros c ->. by apply bool_decide_eq_true.
  - intros Hne. destruct (strip_newlines_ends content) as [Hfirst Hlast].
    destruct (strip_newlines content) as [|c s'] eqn:E; [done|]. split.
    + eapply split_lines_head; [reflexivity|]. by eapply Hfirst.
    + destruct (last_char (String c s')) as [d|] eqn:El.
      * eapply split_lines_last; [exact El|]. by apply Hlast.
      * exfalso. clear -El. revert c El.
        induction s' as [|b s' IH]; intros c El; [discriminate|].
        by apply (IH b).
Qed.

(** X4. Step 8 strips all trailing white space where [read_origins] strips
    newlines: on the file step 1 wrote it reads at most as many origins as
    the other steps, the same list when the file does not end in white
    space, and fewer for some files. *)
Theorem step_8_reads_no_more_origins (origins_file : string) :
  (length (read_origins_step_8 (fst (step_1_init_work_dir origins_file)))
   <= length (read_origins (fst (step_1_init_work_dir origins_file))))%nat
  /\ ((forall c, last_char (fst (step_1_init_work_dir origins_file)) = Some c ->
                 c_isspace c = false) ->
      read_origins_step_8 (fst (step_1_init_work_dir origins_file))
      = read_origins (fst (step_1_init_work_dir origins_file)))
  /\ exists other_file,
       (length (read_origins_step_8 (fst (step_1_init_work_dir other_file)))
        < length (read_origins (fst (step_1_init_work_dir other_file))))%nat.
Proof.
  unfold step_1_init_work_dir, read_origins, read_origins_step_8. cbn [fst].
  rewrite join_split_lines, strip_newlines_idem.
  set (c := strip_newlines origins_file).
  split; [|split].
  - rewrite !length_split_lines.
    destruct (rstrip_tail c_isspace c) as (t & Hc & _).
    rewrite Hc at 2. rewrite count_newlines_app. lia.
  - intros Hlast. by rewrite rstrip_fixed.
  - exists (String "a" (String newline (String " " EmptyString))).
    vm_compute. lia.
Qed.

(** The file "a", newline, blank: two origins for steps 2 to 7. *)
Lemma step_8_reads_no_more_origins_witness :
  (length (read_origins_step_8
             (fst (step_1_init_work_dir
                     (String "a" (String newline (String "b" EmptyString))))))
   <= length (read_origins
                (fst (step_1_init_work_dir
                        (String "a" (String newline (String "b" EmptyString)))))))%nat
  /\ read_origins_step_8
       (fst (step_1_init_work_dir
               (String "a" (String newline (String "b" EmptyString)))))
     = read_origins
         (fst (step_1_init_work_dir
                 (String "a" (String newline (String "b" EmptyString))))).
Proof.
  destruct (step_8_reads_no_more_origins
              (String "a" (String newline (String "b" EmptyString))))
    as (Hle & Heq & _).
  split; [exact Hle|]. apply Heq.
  intros c [= <-]. reflexivity.
Defined.

End OriginsFacts.

(** * The driver *)

Section DriverFacts.
Import Pipeline Driver.
Context {world : Type}.

Lemma marked_cons (b : bool) (k : Z) (marks : list (bool * Z)) :
  marked ((b, k) :: marks) = if b then k :: marked marks else marked marks.
Proof.
  unfold marked. rewrite filter_cons. simpl.
  destruct b; simpl; [reflexivity|].
  by destruct (decide (false = true)).
Qed.

Lemma run_from_started (steps : list (world -> result world)) (first last : Z) :
  forall (i : nat) (w : world),
    started (fst (run_from i steps first last w))
      `prefix_of` marked (announce_from i steps first last)
    /\ (forall w', snd (run_from i steps first last w) = Ok w' ->
          started (fst (run_from i steps first last w))
          = marked (announce_from i steps first last)).
Proof.
  induction steps as [|f steps IH]; intros i w; simpl.
  - split; [done|]. intros w' _. reflexivity.
  - rewrite marked_cons.
    destruct (active first last (Z.of_nat i + 1)) eqn:Ea.
    + destruct (f w) as [w1|e] eqn:Ef; simpl.
      * destruct (IH (S i) w1) as [Hpre Heq]. split.
        -- by apply prefix_cons.
        -- intros w' Hok. f_equal. by eapply Heq.
      * split; [|discriminate]. apply prefix_cons, prefix_nil.
    + apply IH.
Qed.

Lemma elem_of_marked_announce_from (steps : list (world -> result world))
  (first last : Z) (k : Z) :
  forall i : nat,
    k ∈ marked (announce_from i steps first last)
    <-> (Z.of_nat i + 1 <= k <= Z.of_nat i + Z.of_nat (length steps))%Z
        /\ (first <= k <= last)%Z.
Proof.
  induction steps as [|f steps IH]; intros i; simpl.
  - split; [intros Hk; by apply elem_of_nil in Hk | lia].
  - rewrite marked_cons.
    destruct (active first last (Z.of_nat i + 1)) eqn:Ea; unfold active in Ea.
    + apply andb_prop in Ea as [E1 E2]. apply Z.leb_le in E1, E2.
      rewrite elem_of_cons, IH. lia.
    + rewrite IH. apply andb_false_iff in Ea as [E|E]; apply Z.leb_gt in E; lia.
Qed.

Lemma marked_announce_from_sorted (steps : list (world -> result world))
  (first last : Z) :
  forall i : nat, increasing (marked (announce_from i steps first last)).
Proof.
  induction steps as [|f steps IH]; intros i; simpl; [constructor|].
  rewrite marked_cons. destruct (active first last (Z.of_nat i + 1)); [|apply IH].
  split; [|apply IH].
  apply Forall_forall. intros k Hk.
  apply elem_of_marked_announce_from in Hk. lia.
Qed.

Lemma run_from_past (steps : list (world -> result world)) (first last : Z) :
  forall (i : nat) (w : world),
    (last < Z.of_nat i + 1)%Z -> run_from i steps first last w = ([], Ok w).
Proof.
  induction steps as [|f steps IH]; intros i w Hi; simpl; [reflexivity|].
  assert (active first last (Z.of_nat i + 1) = false) as ->.
  { unfold active. apply andb_false_iff. right. apply Z.leb_gt. lia. }
  apply IH. lia.
Qed.

Lemma run_from_later_start (steps : list (world -> result world))
  (first first' last : Z) :
  forall (i : nat) (w : world),
    (first <= Z.of_nat i + 1)%Z -> (first' <= Z.of_nat i + 1)%Z ->
    run_from i steps first last w = run_from i steps first' last w.
Proof.
  induction steps as [|f steps IH]; intros i w H1 H2; simpl; [reflexivity|].
  assert (active first last (Z.of_nat i + 1) = active first' last (Z.of_nat i + 1))
    as ->.
  { unfold active.
    assert ((first <=? Z.of_nat i + 1)%Z = true) as -> by (apply Z.leb_le; lia).
    assert ((first' <=? Z.of_nat i + 1)%Z = true) as -> by (apply Z.leb_le; lia).
    reflexivity. }
  destruct (active first' last (Z.of_nat i + 1)); [|apply IH; lia].
  destruct (f w); [|reflexivity]. rewrite (IH (S i)) by lia. reflexivity.
Qed.

Lemma run_from_resume (steps : list (world -> result world)) (first k last : Z) :
  (first <= k + 1)%Z -> (k <= last)%Z ->
  forall (i : nat) (w w1 : world) (t1 : list driver_log),
    run_from i steps first k w = (t1, Ok w1) ->
    run_from i steps first last w
    = (t1 ++ fst (run_from i steps (k + 1) last w1),
       snd (run_from i steps (k + 1) last w1)).
Proof.
  intros Hfk Hkl. induction steps as [|f steps IH]; intros i w w1 t1 Hrun.
  - simpl in *. by injection Hrun as <- <-.
  - destruct (Z_lt_le_dec k (Z.of_nat i + 1)) as [Hlate|Hearly].
    + rewrite run_from_past in Hrun by exact Hlate. injection Hrun as <- <-.
      rewrite (run_from_later_start (f :: steps) first (k + 1) last) by lia.
      by destruct (run_from i (f :: steps) (k + 1) last w).
    + simpl in Hrun |- *.
      assert (active (k + 1) last (Z.of_nat i + 1) = false) as ->.
      { unfold active. apply andb_false_iff. left. apply Z.leb_gt. lia. }
      assert (active first last (Z.of_nat i + 1) = active first k (Z.of_nat i + 1))
        as ->.
      { unfold active.
        assert ((Z.of_nat i + 1 <=? last)%Z = true) as -> by (apply Z.leb_le; lia).
        assert ((Z.of_nat i + 1 <=? k)%Z = true) as -> by (apply Z.leb_le; lia).
        reflexivity. }
      destruct (active first k (Z.of_nat i + 1)); [|by apply IH].
      destruct (f w) as [w'|e]; [|discriminate].
      destruct (run_from (S i) steps first k w') as [t r] eqn:E.
      simpl in Hrun. injection Hrun as <- ->.
      rewrite (IH (S i) w' w1 t E). reflexivity.
Qed.

(** X5. The driver starts steps in the order of [STEPS]; the steps started
    are the first of those marked "*" in the announcement, all of them when
    no step raises; the marked steps are, in increasing order, the numbers
    [k] of [STEPS] with [first_step <= k <= last_step]; and with
    [first_step > last_step] nothing is run. *)
Theorem driver_runs_the_marked_range (steps : list (world -> result world))
  (first_step last_step : Z) (w : world) :
  started (fst (run steps first_step last_step w))
    `prefix_of` marked (announce steps first_step last_step)
  /\ (forall w', snd (run steps first_step last_step w) = Ok w' ->
        started (fst (run steps first_step last_step w))
        = marked (announce steps first_step last_step))
  /\ (forall k, k ∈ marked (announce steps first_step last_step)
                <-> (1 <= k <= Z.of_nat (length steps))%Z
                    /\ (first_step <= k <= last_step)%Z)
  /\ increasing (marked (announce steps first_step last_step))
  /\ ((last_step < first_step)%Z ->
      run steps first_step last_step w = ([], Ok w)).
Proof.
  unfold run, announce.
  destruct (run_from_started steps first_step last_step 0 w) as [Hpre Heq].
  split; [exact Hpre|]. split; [exact Heq|]. split.
  { intros k. rewrite elem_of_marked_announce_from. simpl. lia. }
  split; [apply marked_announce_from_sorted|].
  intros Hinv. clear Hpre Heq. generalize 0%nat. revert w.
  induction steps as [|f steps IH]; intros w i; simpl; [reflexivity|].
  assert (active first_step last_step (Z.of_nat i + 1) = false) as ->.
  { unfold active. apply andb_false_iff.
    destruct (Z_lt_le_dec (Z.of_nat i + 1) first_step);
      [left | right]; apply Z.leb_gt; lia. }
  apply IH.
Qed.

(** X6. Running steps [first_step..k] and then, from the world they leave,
    steps [k+1..last_step] is running steps [first_step..last_step]. *)
Theorem driver_resumes_at_any_step (steps : list (world -> result world))
  (first_step k last_step : Z) (w w1 : world) (t1 : list driver_log) :
  (first_step <= k + 1)%Z -> (k <= last_step)%Z ->
  run steps first_step k w = (t1, Ok w1) ->
  run steps first_step last_step w
  = (t1 ++ fst (run steps (k + 1) last_step w1),
     snd (run steps (k + 1) last_step w1)).
Proof. intros H1 H2. apply run_from_resume; assumption. Qed.

End DriverFacts.

Lemma driver_resumes_at_any_step_witness :
  Driver.run DriverDemo.three_steps 1 1 []
  = ([Driver.StartingStep 1; Driver.BlankLine], Pipeline.Ok ["1.origins"])
  /\ Driver.run DriverDemo.three_steps 1 3 []
     = ([Driver.StartingStep 1; Driver.BlankLine]
          ++ fst (Driver.run DriverDemo.three_steps (1 + 1) 3 ["1.origins"]),
        snd (Driver.run DriverDemo.three_steps (1 + 1) 3 ["1.origins"])).
Proof.
  split; [reflexivity|].
  apply (driver_resumes_at_any_step DriverDemo.three_steps 1 1 3 []
           ["1.origins"] [Driver.StartingStep 1; Driver.BlankLine]);
    [lia | lia | reflexivity].
Defined.

(** * The codec read back: what [to_utf_8_dict] writes for a [unicode] *)

Section RoundTrip.
Import PyStr Utf8 Surrogates.

Lemma land_lor_cont (y : N) : y < 64 -> N.land (N.lor 0x80 y) 0x3f = y.
Proof.
  intros Hy.
  pose proof (all_below_spec 64
    (fun y => bool_decide (N.land (N.lor 0x80 y) 0x3f = y)) eq_refl y Hy) as Hall.
  simpl in Hall. eapply bool_decide_eq_true_1. exact Hall.
Qed.

Lemma land_lor_lead2 (a : N) : a < 32 -> N.land (N.lor 0xc0 a) 0x1f = a.
Proof.
  intros Ha.
  pose proof (all_below_spec 32
    (fun a => bool_decide (N.land (N.lor 0xc0 a) 0x1f = a)) eq_refl a Ha) as Hall.
  simpl in Hall. eapply bool_decide_eq_true_1. exact Hall.
Qed.

Lemma land_lor_lead3 (a : N) : a < 16 -> N.land (N.lor 0xe0 a) 0x0f = a.
Proof.
  intros Ha.
  pose proof (all_below_spec 16
    (fun a => bool_decide (N.land (N.lor 0xe0 a) 0x0f = a)) eq_refl a Ha) as Hall.
  simpl in Hall. eapply bool_decide_eq_true_1. exact Hall.
Qed.

Lemma land_lor_lead4 (a : N) : a < 8 -> N.land (N.lor 0xf0 a) 0x7 = a.
Proof.
  intros Ha.
  pose proof (all_below_spec 8
    (fun a => bool_decide (N.land (N.lor 0xf0 a) 0x7 = a)) eq_refl a Ha) as Hall.
  simpl in Hall. eapply bool_decide_eq_true_1. exact Hall.
Qed.

(** A number is its top bits and its low six bits. *)
Lemma split_low6 (x : N) : N.shiftl (N.shiftr x 6) 6 + N.land x 0x3f = x.
Proof.
  change 0x3f with (N.ones 6). rewrite N.land_ones.
  rewrite N.shiftl_mul_pow2, N.shiftr_div_pow2.
  rewrite N.mul_comm. symmetry. apply N.div_mod. by simpl.
Qed.

Lemma shiftl_add (a b k : N) : N.shiftl (a + b) k = N.shiftl a k + N.shiftl b k.
Proof. rewrite !N.shiftl_mul_pow2. lia. Qed.

Lemma decode2_exact (ch : N) :
  0x80 <= ch -> ch < 0x800 ->
  decode2 (N.lor 0xc0 (N.shiftr ch 6)) (N.lor 0x80 (N.land ch 0x3f)) = Some ch.
Proof.
  intros Hlo Hhi.
  destruct (cont_byte (N.land ch 0x3f) (land_3f_lt ch)) as (_ & C2 & _).
  unfold decode2. rewrite C2. cbn [negb]. f_equal.
  rewrite land_lor_lead2 by (apply shiftr_lt; simpl; lia).
  rewrite land_lor_cont by apply land_3f_lt.
  apply split_low6.
Qed.

Lemma decode_put2_exact (ch : N) (k : string) :
  0x80 <= ch -> ch < 0x800 ->
  utf8_decode (put2 ch k) = cons_opt (Some ch) (utf8_decode k).
Proof.
  intros Hlo Hhi.
  destruct (decode_put2 ch k Hlo Hhi) as [-> _].
  by rewrite decode2_exact.
Qed.

Lemma decode_put3_exact (ch : N) (k : string) :
  0x800 <= ch -> ch < 0x10000 ->
  utf8_decode (put3 ch k) = cons_opt (Some ch) (utf8_decode k).
Proof.
  intros Hlo Hhi.
  destruct (decode_put3 ch k Hlo Hhi) as [c Hc]. rewrite Hc.
  revert Hc.
  destruct (lead3_byte (N.shiftr ch 12)) as (L1 & L2 & L3 & L4).
  { apply shiftr_lt. simpl. lia. }
  destruct (cont_byte (N.land (N.shiftr ch 6) 0x3f) (land_3f_lt _))
    as (C1 & C2 & C3 & _).
  destruct (cont_byte (N.land ch 0x3f) (land_3f_lt _)) as (D1 & D2 & _).
  unfold put3. cbn [utf8_decode].
  rewrite !ord_chr by assumption. rewrite L2, L3.
  unfold decode3. rewrite C2, D2. cbn [negb orb].
  destruct ((N.lor 0xe0 (N.shiftr ch 12) =? 0xE0)
            && (N.lor 0x80 (N.land (N.shiftr ch 6) 0x3f) <? 0xA0)).
  { intros Hc. destruct (utf8_decode k); [discriminate | reflexivity]. }
  rewrite land_lor_lead3 by (apply shiftr_lt; simpl; lia).
  rewrite !land_lor_cont by apply land_3f_lt.
  replace (N.shiftr ch 12) with (N.shiftr (N.shiftr ch 6) 6)
    by (rewrite N.shiftr_shiftr; reflexivity).
  assert (N.shiftl (N.shiftr (N.shiftr ch 6) 6) 12
          + N.shiftl (N.land (N.shiftr ch 6) 0x3f) 6 + N.land ch 0x3f = ch) as ->.
  { replace (N.shiftl (N.shiftr (N.shiftr ch 6) 6) 12)
      with (N.shiftl (N.shiftl (N.shiftr (N.shiftr ch 6) 6) 6) 6)
      by (rewrite N.shiftl_shiftl; reflexivity).
    rewrite <- shiftl_add, split_low6. apply split_low6. }
  intros Hc. destruct (utf8_decode k); [|reflexivity].
  simpl in Hc. by injection Hc as ->.
Qed.

Lemma decode_put4_exact (ch : N) (k : string) :
  0x10000 <= ch -> ch < 0x110000 ->
  utf8_decode (put4 ch k) = cons_opt (Some ch) (utf8_decode k).
Proof.
  intros Hlo Hhi.
  destruct (decode_put4 ch k Hlo Hhi) as [c Hc]. rewrite Hc.
  revert Hc.
  destruct (lead4_byte (N.shiftr ch 18)) as (L1 & L2 & L3 & L4 & L5).
  { apply shiftr_lt. simpl. lia. }
  destruct (cont_byte (N.land (N.shiftr ch 12) 0x3f) (land_3f_lt _))
    as (C1 & C2 & _).
  destruct (cont_byte (N.land (N.shiftr ch 6) 0x3f) (land_3f_lt _))
    as (D1 & D2 & _).
  destruct (cont_byte (N.land ch 0x3f) (land_3f_lt _)) as (E1 & E2 & _).
  unfold put4. cbn [utf8_decode].
  rewrite !ord_chr by assumption. rewrite L2, L3.
  unfold decode4. rewrite C2, D2, E2. cbn [negb orb].
  destruct (((N.lor 0xf0 (N.shiftr ch 18) =? 0xF0)
             && (N.lor 0x80 (N.land (N.shiftr ch 12) 0x3f) <? 0x90))
            || ((N.lor 0xf0 (N.shiftr ch 18) =? 0xF4)
                && (0x8F <? N.lor 0x80 (N.land (N.shiftr ch 12) 0x3f)))).
  { intros Hc. destruct (utf8_decode k); [discriminate | reflexivity]. }
  rewrite land_lor_lead4 by (apply shiftr_lt; simpl; lia).
  rewrite !land_lor_cont by apply land_3f_lt.
  replace (N.shiftr ch 18) with (N.shiftr (N.shiftr (N.shiftr ch 6) 6) 6)
    by (rewrite !N.shiftr_shiftr; reflexivity).
  replace (N.shiftr ch 12) with (N.shiftr (N.shiftr ch 6) 6)
    by (rewrite N.shiftr_shiftr; reflexivity).
  assert (N.shiftl (N.shiftr (N.shiftr (N.shiftr ch 6) 6) 6) 18
          + N.shiftl (N.land (N.shiftr (N.shiftr ch 6) 6) 0x3f) 12
          + N.shiftl (N.land (N.shiftr ch 6) 0x3f) 6 + N.land ch 0x3f = ch) as ->.
  { replace (N.shiftl (N.shiftr (N.shiftr (N.shiftr ch 6) 6) 6) 18)
      with (N.shiftl (N.shiftl (N.shiftl (N.shiftr (N.shiftr (N.shiftr ch 6) 6) 6) 6) 6) 6)
      by (rewrite !N.shiftl_shiftl; reflexivity).
    replace (N.shiftl (N.land (N.shiftr (N.shiftr ch 6) 6) 0x3f) 12)
      with (N.shiftl (N.shiftl (N.land (N.shiftr (N.shiftr ch 6) 6) 0x3f) 6) 6)
      by (rewrite !N.shiftl_shiftl; reflexivity).
    rewrite <- !shiftl_add, !split_low6. reflexivity. }
  intros Hc. destruct (utf8_decode k); [|reflexivity].
  simpl in Hc. by injection Hc as ->.
Qed.

Lemma utf8_encode_join_pairs (u : list N) :
  Forall valid_code_point u -> utf8_decode (utf8_encode u) = Some (join_pairs u).
Proof.
  remember (length u) as n eqn:Hn.
  revert u Hn. induction n as [n IH] using lt_wf_ind. intros u Hn Hu.
  destruct u as [|ch rest]; [reflexivity|].
  inversion Hu as [|? ? Hch Hrest]; subst. unfold valid_code_point in Hch.
  assert (IHrest : utf8_decode (utf8_encode rest) = Some (join_pairs rest)).
  { eapply IH; [|reflexivity|exact Hrest]. simpl. lia. }
  assert (Hplain : forall put,
             utf8_decode (put ch (utf8_encode rest))
             = cons_opt (Some ch) (utf8_decode (utf8_encode rest)) ->
             utf8_decode (put ch (utf8_encode rest)) = Some (ch :: join_pairs rest)).
  { intros put ->. by rewrite IHrest. }
  assert (Hsmall : forall ch2 rest',
             rest = ch2 :: rest' ->
             (is_high_surrogate ch && is_low_surrogate ch2) = true ->
             0x800 <= ch /\ ch < 0x10000).
  { intros ch2 rest' _ [E _]%andb_prop. unfold is_high_surrogate in E.
    apply andb_prop in E as [E1 E2]. apply N.leb_le in E1, E2. lia. }
  cbn [utf8_encode join_pairs].
  destruct (ch <? 0x80) eqn:E1.
  { apply N.ltb_lt in E1.
    rewrite (Hplain put1) by (by apply decode_put1).
    destruct rest as [|ch2 rest']; [reflexivity|].
    destruct (is_high_surrogate ch && is_low_surrogate ch2) eqn:ES; [|reflexivity].
    destruct (Hsmall ch2 rest' eq_refl ES). lia. }
  apply N.ltb_ge in E1.
  destruct (ch <? 0x800) eqn:E2.
  { apply N.ltb_lt in E2.
    rewrite (Hplain put2) by (by apply decode_put2_exact).
    destruct rest as [|ch2 rest']; [reflexivity|].
    destruct (is_high_surrogate ch && is_low_surrogate ch2) eqn:ES; [|reflexivity].
    destruct (Hsmall ch2 rest' eq_refl ES). lia. }
  apply N.ltb_ge in E2.
  destruct (ch <? 0x10000) eqn:E3.
  - apply N.ltb_lt in E3.
    specialize (Hplain put3 (decode_put3_exact ch _ E2 E3)).
    destruct rest as [|ch2 rest']; [exact Hplain|].
    destruct (is_high_surrogate ch && is_low_surrogate ch2) eqn:ES; [|exact Hplain].
    apply andb_prop in ES as [ES1 ES2].
    destruct (join_surrogates_range ch ch2 ES1 ES2) as [J1 J2].
    rewrite decode_put4_exact by assumption.
    inversion Hrest; subst.
    rewrite (IH (length rest')) with (u := rest'); [reflexivity| |reflexivity|assumption].
    simpl. lia.
  - apply N.ltb_ge in E3.
    rewrite (Hplain put4) by (by apply decode_put4_exact).
    destruct rest as [|ch2 rest']; [reflexivity|].
    destruct (is_high_surrogate ch && is_low_surrogate ch2) eqn:ES; [|reflexivity].
    destruct (Hsmall ch2 rest' eq_refl ES). lia.
Qed.

Lemma join_pairs_pair_free (u : list N) : pair_free u = true -> join_pairs u = u.
Proof.
  induction u as [|ch rest IH]; [reflexivity|].
  cbn [pair_free join_pairs].
  destruct rest as [|ch2 rest']; [reflexivity|].
  intros [E1 E2]%andb_prop. apply negb_true_iff in E1. rewrite E1.
  by rewrite IH.
Qed.

Lemma length_join_pairs (u : list N) : (length (join_pairs u) <= length u)%nat.
Proof.
  remember (length u) as n eqn:Hn.
  revert u Hn. induction n as [n IH] using lt_wf_ind. intros u Hn.
  destruct u as [|ch rest]; [simpl; lia|].
  cbn [join_pairs]. destruct rest as [|ch2 rest']; [simpl in *; lia|].
  destruct (is_high_surrogate ch && is_low_surrogate ch2).
  - simpl in *. specialize (IH (length rest') ltac:(lia) rest' eq_refl). lia.
  - specialize (IH (length (ch2 :: rest')) ltac:(simpl in *; lia) (ch2 :: rest') eq_refl).
    simpl in *. lia.
Qed.

End RoundTrip.

(** * [to_utf_8_dict] on data that is already clean, and on dictionaries *)

Section EncodingMore.
Import PyStr Utf8 Encoding Surrogates Dicts.
Context {scalar : Type} (scalar_eqb : scalar -> scalar -> bool).

Local Abbreviation conv := (to_utf_8_dict scalar_eqb).
Local Abbreviation conv_item :=
  (fun kv : pyval scalar * pyval scalar => (conv (fst kv), conv (snd kv))).
Local Abbreviation setitem := (dict_setitem scalar_eqb).

Lemma distinct_PList (l : list (pyval scalar)) :
  dicts_distinct scalar_eqb (PList l) <-> Forall (dicts_distinct scalar_eqb) l.
Proof.
  induction l as [|x l IH]; simpl; [split; [constructor | done]|].
  rewrite Forall_cons. simpl in IH. tauto.
Qed.

Lemma distinct_PTuple (l : list (pyval scalar)) :
  dicts_distinct scalar_eqb (PTuple l) <-> Forall (dicts_distinct scalar_eqb) l.
Proof.
  induction l as [|x l IH]; simpl; [split; [constructor | done]|].
  rewrite Forall_cons. simpl in IH. tauto.
Qed.

Lemma distinct_PDict (items : list (pyval scalar * pyval scalar)) :
  dicts_distinct scalar_eqb (PDict items)
  <-> keys_distinct scalar_eqb items
      /\ Forall (fun kv => dicts_distinct scalar_eqb (fst kv)
                           /\ dicts_distinct scalar_eqb (snd kv)) items.
Proof.
  cbn [dicts_distinct]. apply and_iff_compat_l.
  induction items as [|kv items IH]; [split; [constructor | done]|].
  rewrite Forall_cons. tauto.
Qed.

Lemma length_dict_setitem (d : list (pyval scalar * pyval scalar)) (k v : pyval scalar) :
  (length (setitem d k v) <= S (length d))%nat.
Proof.
  induction d as [|[k' v'] d IH]; simpl; [lia|].
  destruct (key_eqb scalar_eqb k' k); simpl; lia.
Qed.

Lemma length_py_dict (pairs : list (pyval scalar * pyval scalar)) :
  (length (py_dict scalar_eqb pairs) <= length pairs)%nat.
Proof.
  unfold py_dict.
  assert (Hgen : forall acc,
    (length (fold_left (fun d kv => setitem d (fst kv) (snd kv)) pairs acc)
     <= length acc + length pairs)%nat).
  { induction pairs as [|[k v] pairs IH]; intros acc; simpl; [lia|].
    specialize (IH (setitem acc k v)).
    pose proof (length_dict_setitem acc k v). lia. }
  apply (Hgen []).
Qed.

(** A key that is stored stays, and the key assigned is stored or equals a
    stored one. *)
Lemma dict_setitem_stored (d : list (pyval scalar * pyval scalar)) (k v k0 : pyval scalar) :
  (exists kv, kv ∈ d /\ (fst kv = k0 \/ key_eqb scalar_eqb (fst kv) k0 = true)) ->
  exists kv, kv ∈ setitem d k v
             /\ (fst kv = k0 \/ key_eqb scalar_eqb (fst kv) k0 = true).
Proof.
  induction d as [|[k' v'] d IH]; intros (kv & Hin & Hk).
  - by apply elem_of_nil in Hin.
  - simpl. apply elem_of_cons in Hin as [->|Hin].
    + destruct (key_eqb scalar_eqb k' k).
      * exists (k', v). split; [left|exact Hk].
      * exists (k', v'). split; [left|exact Hk].
    + destruct (key_eqb scalar_eqb k' k).
      * exists kv. split; [by right|exact Hk].
      * destruct IH as (kv' & Hin' & Hk'); [by exists kv|].
        exists kv'. split; [by right|exact Hk'].
Qed.

Lemma dict_setitem_stores (d : list (pyval scalar * pyval scalar)) (k v : pyval scalar) :
  exists kv, kv ∈ setitem d k v
             /\ (fst kv = k \/ key_eqb scalar_eqb (fst kv) k = true).
Proof.
  induction d as [|[k' v'] d IH]; simpl.
  - exists (k, v). split; [left | by left].
  - destruct (key_eqb scalar_eqb k' k) eqn:E.
    + exists (k', v). split; [left | by right].
    + destruct IH as (kv & Hin & Hk). exists kv. split; [by right | exact Hk].
Qed.

Lemma py_dict_stores (pairs : list (pyval scalar * pyval scalar))
  (kv0 : pyval scalar * pyval scalar) :
  kv0 ∈ pairs ->
  exists kv, kv ∈ py_dict scalar_eqb pairs
             /\ (fst kv = fst kv0 \/ key_eqb scalar_eqb (fst kv) (fst kv0) = true).
Proof.
  unfold py_dict.
  assert (Hgen : forall acc,
    (kv0 ∈ pairs
     \/ exists kv, kv ∈ acc
                   /\ (fst kv = fst kv0 \/ key_eqb scalar_eqb (fst kv) (fst kv0) = true)) ->
    exists kv, kv ∈ fold_left (fun d kv => setitem d (fst kv) (snd kv)) pairs acc
               /\ (fst kv = fst kv0 \/ key_eqb scalar_eqb (fst kv) (fst kv0) = true)).
  { induction pairs as [|[k v] pairs IH]; intros acc [Hin|Hacc]; simpl.
    - by apply elem_of_nil in Hin.
    - exact Hacc.
    - apply elem_of_cons in Hin as [->|Hin].
      + apply IH. right. apply dict_setitem_stores.
      + apply IH. by left.
    - apply IH. right. by apply dict_setitem_stored. }
  intros Hin. apply Hgen. by left.
Qed.

(** X7. What [to_utf_8_dict] returns for a [unicode] decodes, as UTF-8, to
    the same code points, a surrogate pair read back as the one code point it
    stands for; so text without a surrogate pair reads back unchanged, and
    never longer. *)
Theorem to_utf_8_dict_unicode_reads_back (u : list N) :
  Forall valid_code_point u ->
  exists s, conv (PUnicode u) = PStr s
            /\ utf8_decode s = Some (join_pairs u)
            /\ (pair_free u = true -> utf8_decode s = Some u)
            /\ (length (join_pairs u) <= length u)%nat.
Proof.
  intros Hu. exists (utf8_encode u).
  split; [reflexivity|]. split; [by apply utf8_encode_join_pairs|].
  split; [|apply length_join_pairs].
  intros Hfree. rewrite utf8_encode_join_pairs by exact Hu.
  by rewrite join_pairs_pair_free.
Qed.

(** X8. Data that is already clean (every string a [str] that decodes as
    UTF-8, every mapping a dictionary with distinct keys) is returned as it
    is. *)
Theorem to_utf_8_dict_keeps_clean_data (v : pyval scalar) :
  utf8_clean v -> dicts_distinct scalar_eqb v -> conv v = v.
Proof.
  induction v as [u|s|items IH|l IH|l IH|a] using pyval_nested_ind;
    intros Hclean Hdist.
  - destruct Hclean.
  - simpl in *. by destruct (utf8_decode s).
  - cbn [to_utf_8_dict]. f_equal.
    apply clean_PDict in Hclean. apply distinct_PDict in Hdist as [Hkeys Hdist].
    rewrite (map_fixed conv_item items).
    + by apply py_dict_of_distinct.
    + pose proof (conj IH (conj Hclean Hdist)) as Hall.
      rewrite <- !Forall_and in Hall.
      eapply Forall_impl; [exact Hall|].
      intros [k v] ([IHk IHv] & [Ck Cv] & [Dk Dv]). simpl in *.
      by rewrite IHk, IHv.
  - cbn [to_utf_8_dict]. f_equal.
    apply clean_PList in Hclean. apply distinct_PList in Hdist.
    apply map_fixed.
    pose proof (conj IH (conj Hclean Hdist)) as Hall. rewrite <- !Forall_and in Hall.
    eapply Forall_impl; [exact Hall|]. intros x (IHx & Cx & Dx). auto.
  - cbn [to_utf_8_dict]. f_equal.
    apply clean_PTuple in Hclean. apply distinct_PTuple in Hdist.
    apply map_fixed.
    pose proof (conj IH (conj Hclean Hdist)) as Hall. rewrite <- !Forall_and in Hall.
    eapply Forall_impl; [exact Hall|]. intros x (IHx & Cx & Dx). auto.
  - reflexivity.
Qed.

(** X9. The conversion of a mapping is a dictionary with at most as many
    items; its keys and its values are converted keys and values of the
    mapping; every key of the mapping is stored converted, or equals a stored
    key; when the converted keys are distinct, it is the items converted one
    by one, in order. Items can be lost: a dictionary with the two distinct
    keys ['\xe9'] and [u'\xe9'] comes back with one item. *)
Theorem to_utf_8_dict_mapping_items :
  (forall items : list (pyval scalar * pyval scalar),
     exists items',
       conv (PDict items) = PDict items'
       /\ (length items' <= length items)%nat
       /\ keys_distinct scalar_eqb items'
       /\ (forall kv, kv ∈ items' ->
             (exists kv0, kv0 ∈ items /\ fst kv = conv (fst kv0))
             /\ (exists kv1, kv1 ∈ items /\ snd kv = conv (snd kv1)))
       /\ (forall kv0, kv0 ∈ items ->
             exists kv, kv ∈ items'
                        /\ (fst kv = conv (fst kv0)
                            \/ key_eqb scalar_eqb (fst kv) (conv (fst kv0)) = true))
       /\ (keys_distinct scalar_eqb (map conv_item items) ->
           items' = map conv_item items))
  /\ (exists items items' : list (pyval scalar * pyval scalar),
        keys_distinct scalar_eqb items
        /\ conv (PDict items) = PDict items'
        /\ (length items' < length items)%nat).
Proof.
  split.
  - intros items.
    exists (py_dict scalar_eqb (map conv_item items)).
    split; [reflexivity|]. split.
    { etransitivity; [apply length_py_dict|]. by rewrite length_map. }
    split; [apply py_dict_keys_distinct|]. split.
    { intros kv Hkv.
      pose proof (py_dict_Forall scalar_eqb
                    (fun k => exists kv0, kv0 ∈ items /\ k = conv (fst kv0))
                    (fun v => exists kv1, kv1 ∈ items /\ v = conv (snd kv1))
                    (map conv_item items)) as HF.
      assert (Hin : Forall (fun kv =>
                  (exists kv0, kv0 ∈ items /\ fst kv = conv (fst kv0))
                  /\ (exists kv1, kv1 ∈ items /\ snd kv = conv (snd kv1)))
                (map conv_item items)).
      { apply Forall_forall. intros kv' Hin.
        apply list_elem_of_fmap in Hin as (kv0 & -> & Hin). simpl.
        split; by exists kv0. }
      specialize (HF Hin). rewrite Forall_forall in HF. by apply HF. }
    split.
    { intros kv0 Hin.
      apply (py_dict_stores (map conv_item items) (conv_item kv0)).
      apply list_elem_of_fmap. by exists kv0. }
    apply py_dict_of_distinct.
  - exists [(PStr (String (chr 0xe9) EmptyString), PStr "a");
            (PUnicode [0xe9], PStr "b")].
    eexists. split; [|split; [reflexivity|]].
    + simpl. repeat first [split | constructor].
    + simpl. lia.
Qed.

End EncodingMore.

Lemma to_utf_8_dict_unicode_reads_back_witness :
  exists s, Encoding.to_utf_8_dict Z.eqb (Encoding.PUnicode [0x68; 0xe9; 0x20AC; 0x1F600])
            = Encoding.PStr s
            /\ Utf8.utf8_decode s = Some [0x68; 0xe9; 0x20AC; 0x1F600].
Proof.
  destruct (to_utf_8_dict_unicode_reads_back Z.eqb [0x68; 0xe9; 0x20AC; 0x1F600])
    as (s & Hs & _ & Hback & _).
  { unfold Utf8.valid_code_point. repeat constructor. }
  exists s. split; [exact Hs|]. apply Hback. reflexivity.
Defined.

Lemma to_utf_8_dict_keeps_clean_data_witness :
  Encoding.to_utf_8_dict Z.eqb
    (Encoding.PDict [(Encoding.PStr "title", Encoding.PList [Encoding.PStr "abc"]);
                     (Encoding.PStr "id", Encoding.PScalar 7%Z)])
  = Encoding.PDict [(Encoding.PStr "title", Encoding.PList [Encoding.PStr "abc"]);
                    (Encoding.PStr "id", Encoding.PScalar 7%Z)].
Proof.
  apply (to_utf_8_dict_keeps_clean_data Z.eqb).
  - simpl. repeat split; discriminate.
  - simpl. repeat first [split | constructor].
Defined.

(** * [NerExtractor.extract_entities] *)

Section EntitiesFacts.
Import PyStr Ner Entities.
Context `{PairOrder}.
Variable nltk : Nltk.

Lemma call_truecase_value (sent : list string) :
  call_truecase sent = Some (map truecased sent).
Proof.
  unfold call_truecase, truecase, copy_list.
  rewrite lookup_singleton_eq. simpl.
  set (h := ({[0%nat := sent]} : gmap nat (list string))).
  set (r := fresh (dom h)).
  rewrite lookup_insert_eq. simpl.
  destruct (for_range_truecase r (length sent) 0 (<[r := sent]> h) sent)
    as (l1 & Hrun & Hlen & Hin & _).
  { apply lookup_insert_eq. }
  { lia. }
  rewrite Hrun. simpl. rewrite lookup_insert_eq. f_equal.
  apply list_eq. intros i. rewrite list_lookup_fmap.
  destruct (decide (i < length sent)%nat) as [Hi|Hi].
  - apply Hin. lia.
  - rewrite !lookup_ge_None_2; [reflexivity | lia | lia].
Qed.

Lemma truecase_loop_value (done todo : list (list string)) :
  truecase_loop (map (map truecased) done ++ todo)
    (seq (length done) (length todo))
  = Some (map (map truecased) (done ++ todo)).
Proof.
  revert done. induction todo as [|sent todo IH]; intros done; simpl.
  - by rewrite !app_nil_r.
  - rewrite list_lookup_middle by (by rewrite length_map). simpl.
    rewrite call_truecase_value. simpl.
    rewrite insert_app_r_alt by (rewrite length_map; lia).
    rewrite length_map, Nat.sub_diag. simpl.
    specialize (IH (done ++ [sent])).
    rewrite map_app, <- app_assoc, length_app in IH. simpl in IH.
    rewrite Nat.add_1_r in IH. rewrite IH. by rewrite <- app_assoc.
Qed.

Lemma elem_of_add_chunks (chunks : list chunk) (entities : gset (string * string))
  (p : string * string) :
  p ∈ fold_left add_chunk chunks entities
  <-> p ∈ entities
      \/ exists node leaves, Tree node leaves ∈ chunks
                             /\ p = (node, join_words (map fst leaves)).
Proof.
  revert entities. induction chunks as [|ne chunks IH]; intros entities; simpl.
  - split; [by left|]. intros [Hp|(node & leaves & Hin & _)]; [exact Hp|].
    by apply elem_of_nil in Hin.
  - rewrite IH. split.
    + intros [Hp|(node & leaves & Hin & ->)].
      * destruct ne as [w t|node leaves]; simpl in Hp; [by left|].
        apply elem_of_union in Hp as [Hp|Hp]; [by left|].
        apply elem_of_singleton in Hp as ->. right. exists node, leaves.
        split; [left | reflexivity].
      * right. exists node, leaves. split; [by right | reflexivity].
    + intros [Hp|(node & leaves & Hin & ->)].
      * left. destruct ne; simpl; [exact Hp|]. apply elem_of_union. by left.
      * apply elem_of_cons in Hin as [<-|Hin].
        -- left. simpl. apply elem_of_union. right. by apply elem_of_singleton.
        -- right. by exists node, leaves.
Qed.

Lemma elem_of_add_sentences (sentences : list (list (string * string)))
  (entities : gset (string * string)) (p : string * string) :
  p ∈ fold_left (fun entities sent =>
                   fold_left add_chunk (ne_chunk nltk sent) entities)
        sentences entities
  <-> p ∈ entities
      \/ exists sent node leaves,
           sent ∈ sentences /\ Tree node leaves ∈ ne_chunk nltk sent
           /\ p = (node, join_words (map fst leaves)).
Proof.
  revert entities. induction sentences as [|s sentences IH]; intros entities; simpl.
  - split; [by left|]. intros [Hp|(sent & node & leaves & Hin & _)]; [exact Hp|].
    by apply elem_of_nil in Hin.
  - rewrite IH, elem_of_add_chunks. split.
    + intros [[Hp|(node & leaves & Hin & ->)]|(sent & node & leaves & Hs & Hin & ->)].
      * by left.
      * right. exists s, node, leaves. split; [left | by split].
      * right. exists sent, node, leaves. split; [by right | by split].
    + intros [Hp|(sent & node & leaves & Hs & Hin & ->)]; [by left; left|].
      apply elem_of_cons in Hs as [->|Hs].
      * left. right. by exists node, leaves.
      * right. by exists sent, node, leaves.
Qed.

Lemma add_text_value (truecase : bool) (entities : gset (string * string))
  (text : string) :
  exists entities',
    add_text nltk truecase entities text = Some entities'
    /\ forall p, p ∈ entities'
         <-> p ∈ entities \/ found nltk [text] truecase (fst p) (snd p).
Proof.
  unfold add_text.
  set (sentences := map (word_tokenize nltk) (sent_tokenize nltk text)).
  assert (Hprep : (if truecase
                   then truecase_loop sentences (seq 0 (length sentences))
                   else Some sentences)
                  = Some (map (fun toks => if truecase then map truecased toks
                                           else toks) sentences)).
  { destruct truecase.
    - apply (truecase_loop_value [] sentences).
    - by rewrite map_id. }
  rewrite Hprep. simpl. eexists. split; [reflexivity|].
  intros [node e]. rewrite elem_of_add_sentences. simpl.
  apply or_iff_compat_l. unfold found, sentences. split.
  - intros (sent & node' & leaves & Hs & Hin & Hp). injection Hp as -> ->.
    apply list_elem_of_fmap in Hs as (toks' & -> & Hs).
    apply list_elem_of_fmap in Hs as (toks & -> & Hs).
    apply list_elem_of_fmap in Hs as (s & -> & Hs).
    exists text, s, leaves.
    split; [left|]. split; [exact Hs|]. split; [exact Hin | reflexivity].
  - intros (text' & s & leaves & Ht & Hs & Hin & ->).
    apply list_elem_of_singleton in Ht as ->.
    eexists _, node, leaves. split; [|split; [exact Hin | reflexivity]].
    apply list_elem_of_fmap. eexists. split; [reflexivity|].
    apply list_elem_of_fmap. eexists. split; [reflexivity|].
    apply list_elem_of_fmap. by exists s.
Qed.

Lemma found_cons (text : string) (texts : list string) (truecase : bool)
  (node e : string) :
  found nltk (text :: texts) truecase node e
  <-> found nltk [text] truecase node e \/ found nltk texts truecase node e.
Proof.
  unfold found. split.
  - intros (t & s & leaves & Ht & Hrest).
    apply elem_of_cons in Ht as [->|Ht].
    + left. exists text, s, leaves. split; [left | exact Hrest].
    + right. by exists t, s, leaves.
  - intros [(t & s & leaves & Ht & Hrest)|(t & s & leaves & Ht & Hrest)].
    + apply list_elem_of_singleton in Ht as ->.
      exists text, s, leaves. split; [left | exact Hrest].
    + exists t, s, leaves. split; [by right | exact Hrest].
Qed.

Lemma for_texts_value (truecase : bool) (texts : list string) :
  forall entities,
  exists entities',
    for_texts nltk truecase texts entities = Some entities'
    /\ forall p, p ∈ entities'
         <-> p ∈ entities \/ found nltk texts truecase (fst p) (snd p).
Proof.
  induction texts as [|text texts IH]; intros entities; simpl.
  - exists entities. split; [reflexivity|]. intros p. split; [by left|].
    intros [Hp|(t & s & l & Ht & _)]; [exact Hp | by apply elem_of_nil in Ht].
  - destruct (add_text_value truecase entities text) as (e1 & -> & H1). simpl.
    destruct (IH e1) as (e2 & -> & H2).
    exists e2. split; [reflexivity|]. intros p.
    rewrite H2, H1, (found_cons text texts). tauto.
Qed.

Lemma pairs_iter_NoDup (s : gset (string * string)) : NoDup (pairs_iter s).
Proof. rewrite pairs_iter_perm. apply NoDup_elements. Qed.

Lemma elem_of_pairs_iter (s : gset (string * string)) (p : string * string) :
  p ∈ pairs_iter s <-> p ∈ s.
Proof. rewrite pairs_iter_perm. apply elem_of_elements. Qed.

Lemma NoDup_fmap_inj_on {A B : Type} (f : A -> B) (l : list A) :
  NoDup l ->
  (NoDup (map f l) <-> forall x y, x ∈ l -> y ∈ l -> f x = f y -> x = y).
Proof.
  intros Hl. split.
  - induction Hl as [|a l Ha Hl IH]; intros Hnd x y Hx Hy Hxy.
    + by apply elem_of_nil in Hx.
    + simpl in Hnd. apply NoDup_cons in Hnd as [Hfa Hnd].
      apply elem_of_cons in Hx as [->|Hx]; apply elem_of_cons in Hy as [->|Hy].
      * reflexivity.
      * exfalso. apply Hfa. rewrite Hxy. apply list_elem_of_fmap. by exists y.
      * exfalso. apply Hfa. rewrite <- Hxy. apply list_elem_of_fmap. by exists x.
      * by apply IH.
  - intros Hinj. by apply NoDup_fmap_2_strong.
Qed.

Lemma c_case_facts (c : ascii) :
  c_tolower (c_toupper c) = c_tolower c
  /\ c_tolower (c_tolower c) = c_tolower c
  /\ (c_islower c = true ->
      c_islower (c_toupper c) = false /\ c_isupper (c_toupper c) = true)
  /\ (c_isupper c = true -> c_islower (c_tolower c) = true).
Proof.
  destruct c as [[] [] [] [] [] [] [] []]; vm_compute;
    repeat split; intros; congruence.
Qed.

Lemma lower_title_loop (s : string) :
  forall b, lower (title_loop b s) = lower s.
Proof.
  induction s as [|c s IH]; intros b; [reflexivity|].
  destruct (c_case_facts c) as (Hup & Hlo & _).
  cbn [title_loop]. destruct (c_islower c); [|destruct (c_isupper c)];
    cbn [lower]; rewrite IH; [|destruct b; by rewrite ?Hlo|reflexivity].
  destruct b; by rewrite ?Hup.
Qed.

Lemma title_loop_idem (s : string) :
  forall b, title_loop b (title_loop b s) = title_loop b s.
Proof.
  induction s as [|c s IH]; intros b; [reflexivity|].
  destruct (c_case_facts c) as (_ & _ & Hlower & Hupper).
  cbn [title_loop]. destruct (c_islower c) eqn:El.
  - destruct (Hlower eq_refl) as [H1 H2]. destruct b; cbn [title_loop].
    + by rewrite El, IH.
    + by rewrite H1, H2, IH.
  - destruct (c_isupper c) eqn:Eu.
    + specialize (Hupper eq_refl). destruct b; cbn [title_loop].
      * by rewrite Hupper, IH.
      * by rewrite El, Eu, IH.
    + cbn [title_loop]. by rewrite El, Eu, IH.
Qed.

Lemma truecased_idem (tok : string) : truecased (truecased tok) = truecased tok.
Proof.
  unfold truecased. destruct (is_shouting tok) eqn:E; [|by rewrite E].
  destruct (is_shouting (title tok)); [apply title_loop_idem | reflexivity].
Qed.

Lemma lower_truecased (tok : string) : lower (truecased tok) = lower tok.
Proof.
  unfold truecased. destruct (is_shouting tok); [apply lower_title_loop | reflexivity].
Qed.

(** X12. [truecase] changes nothing but the case of letters, and applied to
    its own result it changes nothing. *)
Theorem truecase_only_changes_case (sent : list string) :
  exists out,
    call_truecase sent = Some out
    /\ length out = length sent
    /\ map lower out = map lower sent
    /\ call_truecase out = Some out.
Proof.
  exists (map truecased sent). split; [apply call_truecase_value|].
  split; [apply length_map|]. split.
  - rewrite map_map. apply map_ext. intros tok. apply lower_truecased.
  - rewrite call_truecase_value. f_equal. rewrite map_map.
    apply map_ext. intros tok. apply truecased_idem.
Qed.

(** X10. Without [set_label], [extract_entities] returns each pair of a
    label and an entity once, and a pair is returned exactly when the chunker
    finds a subtree with that node and these words in a sentence of one of
    the texts (the tokens truecased first if [truecase] is set); the call
    itself raises nothing. *)
Theorem extract_entities_each_found_once (texts : list string) (truecase : bool) :
  exists out,
    extract_entities nltk texts truecase None = Some out
    /\ NoDup out
    /\ forall l e, {| label := l; entity := e |} ∈ out
                   <-> found nltk texts truecase l e.
Proof.
  unfold extract_entities.
  destruct (for_texts_value truecase texts ∅) as (E & -> & HE). simpl.
  eexists. split; [reflexivity|]. split.
  - apply NoDup_fmap_2_strong; [|apply pairs_iter_NoDup].
    intros [l1 e1] [l2 e2] _ _ Heq. by injection Heq as -> ->.
  - intros l e. rewrite list_elem_of_fmap. split.
    + intros ([l' e'] & Heq & Hin). injection Heq as -> ->.
      apply elem_of_pairs_iter, HE in Hin as [Hin|Hin]; [|exact Hin].
      by apply elem_of_empty in Hin.
    + intros Hf. exists (l, e). split; [reflexivity|].
      apply elem_of_pairs_iter, HE. by right.
Qed.

(** X11. With [set_label], every dictionary returned carries that label; an
    entity is returned exactly when it is found under some label; and the
    result has one dictionary per pair of a label and an entity found, so it
    has a dictionary twice exactly when an entity is found under two
    labels. *)
Theorem extract_entities_set_label (texts : list string) (truecase : bool)
  (set_label : string) :
  exists out out_labelled,
    extract_entities nltk texts truecase None = Some out_labelled
    /\ extract_entities nltk texts truecase (Some set_label) = Some out
    /\ length out = length out_labelled
    /\ (forall d, d ∈ out -> label d = set_label)
    /\ (forall e, {| label := set_label; entity := e |} ∈ out
                  <-> exists l, found nltk texts truecase l e)
    /\ (NoDup out
        <-> forall l1 l2 e, found nltk texts truecase l1 e ->
                            found nltk texts truecase l2 e -> l1 = l2).
Proof.
  unfold extract_entities.
  destruct (for_texts_value truecase texts ∅) as (E & -> & HE). simpl.
  assert (HE' : forall l e, (l, e) ∈ pairs_iter E <-> found nltk texts truecase l e).
  { intros l e. rewrite elem_of_pairs_iter, HE. simpl. split; [|by right].
    intros [Hin|Hf]; [by apply elem_of_empty in Hin | exact Hf]. }
  eexists _, _. split; [reflexivity|]. split; [reflexivity|].
  split; [by rewrite !length_map|]. split.
  { intros d Hd. apply list_elem_of_fmap in Hd as (p & -> & _). reflexivity. }
  split.
  { intros e. rewrite list_elem_of_fmap. split.
    - intros ([l e'] & Heq & Hin). injection Heq as ->. exists l. by apply HE'.
    - intros [l Hf]. exists (l, e). split; [reflexivity | by apply HE']. }
  rewrite (NoDup_fmap_inj_on _ _ (pairs_iter_NoDup E)). split.
  - intros Hinj l1 l2 e H1 H2.
    apply HE' in H1, H2.
    specialize (Hinj (l1, e) (l2, e) H1 H2 eq_refl). by injection Hinj.
  - intros Huniq [l1 e1] [l2 e2] H1 H2 Heq. injection Heq as ->.
    apply HE' in H1, H2. by rewrite (Huniq l1 l2 e2 H1 H2).
Qed.

End EntitiesFacts.

(** The call evaluated on two short texts. *)
Example extract_entities_example :
  Entities.extract_entities EntitiesDemo.nltk
    ["NASA met Alice.the USA"; "Alice left"] true None
  = Some [ {| Entities.label := "NE"; Entities.entity := "USA" |};
           {| Entities.label := "NE"; Entities.entity := "Alice" |};
           {| Entities.label := "NE"; Entities.entity := "Nasa" |} ].
Proof. vm_compute. reflexivity. Qed.

(** * A stage as a loop over the origins *)

Section StageFacts.
Import Pipeline Checkpoints.
Context {W : Type}.
Variable body : nat -> M W unit.

Local Abbreviation stage :=
  (fun origins : list string =>
     for_each (enumerate origins) (fun _ i_url => body (fst i_url)) tt).

Lemma written_app (t1 t2 : list (event W)) :
  written (t1 ++ t2) = written t1 ++ written t2.
Proof. unfold written. apply omap_app. Qed.

Lemma elem_of_written (t : list (event W)) (i : nat) (c : W) :
  (i, c) ∈ written t <-> Write i c ∈ t.
Proof.
  unfold written. rewrite list_elem_of_omap. split.
  - intros ([m|j c'] & Hin & Heq); [discriminate|]. by injection Heq as -> ->.
  - intros Hin. by exists (Write i c).
Qed.

Lemma elem_of_enumerate_lt {A : Type} (l : list A) (iy : nat * A) :
  iy ∈ enumerate l -> (fst iy < length l)%nat.
Proof.
  intros Hin.
  assert (Hi : fst iy ∈ map fst (enumerate l)).
  { apply list_elem_of_fmap. by exists iy. }
  rewrite map_fst_enumerate in Hi. apply list_elem_of_In, in_seq in Hi. lia.
Qed.

(** The stage ends normally when every origin does. *)
Lemma stage_total (origins : list string) :
  (forall i, (i < length origins)%nat -> exists t, body i = (t, Ok tt)) ->
  exists t, stage origins = (t, Ok tt).
Proof.
  intros Hall.
  destruct (for_each_total (fun (_ : unit) (i_url : nat * string) => body (fst i_url))
              (enumerate origins)) with (s := tt) as (t & [] & Hrun).
  { intros s iy Hin. destruct (Hall (fst iy)) as [t Ht].
    { by apply elem_of_enumerate_lt. }
    by exists t, tt. }
  by exists t.
Qed.

(** When the stage ends normally, every origin did, and the trace is theirs
    in order. *)
Lemma stage_ok_inv (l : list string) :
  forall (a : nat) (t : list (event W)),
    for_each (combine (seq a (length l)) l)
      (fun (_ : unit) (i_url : nat * string) => body (fst i_url)) tt = (t, Ok tt) ->
    exists ts, length ts = length l
               /\ t = concat ts
               /\ forall k tk, ts !! k = Some tk -> body (a + k)%nat = (tk, Ok tt).
Proof.
  induction l as [|url l IH]; intros a t Hrun; simpl in Hrun.
  - injection Hrun as <-. exists []. split; [reflexivity|]. split; [reflexivity|].
    intros k tk Hk. by destruct k.
  - rewrite mbind_unfold in Hrun.
    apply bind_ok_inv in Hrun as (t1 & [] & t2 & Hb & Hrest & ->). simpl in Hb.
    destruct (IH (S a) t2 Hrest) as (ts & Hlen & -> & Hts).
    exists (t1 :: ts). split; [simpl; by rewrite Hlen|]. split; [reflexivity|].
    intros [|k] tk Hk; simpl in Hk.
    + injection Hk as <-. by rewrite Nat.add_0_r.
    + replace (a + S k)%nat with (S a + k)%nat by lia. by apply Hts.
Qed.

(** Each origin that ends normally writes its own file and no other: then
    the stage that ends normally writes the files [0], [1], ... in order. *)
Lemma stage_written (origins : list string) (t : list (event W)) :
  (forall i ti, body i = (ti, Ok tt) -> map fst (written ti) = [i]) ->
  stage origins = (t, Ok tt) ->
  map fst (written t) = seq 0 (length origins).
Proof.
  intros Hone Hrun. unfold enumerate in Hrun.
  apply stage_ok_inv in Hrun as (ts & Hlen & -> & Hts).
  revert Hlen Hts. generalize (length origins) as n. generalize 0%nat as a.
  induction ts as [|t1 ts IH]; intros a n Hlen Hts; simpl in Hlen; subst n.
  - reflexivity.
  - simpl. rewrite written_app, map_app.
    rewrite (Hone a t1).
    2:{ specialize (Hts 0%nat t1 eq_refl). by rewrite Nat.add_0_r in Hts. }
    simpl. f_equal. apply IH; [reflexivity|].
    intros k tk Hk. replace (S a + k)%nat with (a + S k)%nat by lia.
    by apply Hts.
Qed.

(** An origin that ends with an exception ends the stage; no file is written
    for it or for a later origin. *)
Lemma stage_raises (origins : list string) (k : nat) (t : list (event W)) (x : exn) :
  (forall i j c, Write j c ∈ fst (body i) -> j = i /\ snd (body i) = Ok tt) ->
  (k < length origins)%nat ->
  (forall j, (j < k)%nat -> snd (body j) = Ok tt) ->
  body k = (t, Raise x) ->
  snd (stage origins) = Raise x
  /\ forall j c, (k <= j)%nat -> Write j c ∉ fst (stage origins).
Proof.
  intros Hown Hk Hpre E.
  destruct (lookup_lt_is_Some_2 origins k Hk) as [url Hurl].
  destruct (enumerate_split origins k url Hurl) as (rest & Hsplit & Hlt).
  destruct (for_each_total (fun (_ : unit) (i_url : nat * string) => body (fst i_url))
              (enumerate (take k origins))) with (s := tt) as (t1 & s1 & Hfirst).
  { intros s [j y] Hin. specialize (Hlt _ Hin). simpl in *.
    specialize (Hpre j Hlt).
    destruct (body j) as [tj rj]. simpl in Hpre. subst rj. by exists tj, tt. }
  assert (Hstage : stage origins = (t1 ++ t, Raise x)).
  { rewrite Hsplit. eapply for_each_raise; [exact Hfirst|]. simpl. exact E. }
  rewrite Hstage. split; [reflexivity|].
  intros j c Hj [Hw|Hw]%elem_of_app.
  - replace t1 with (fst (for_each (enumerate (take k origins))
                            (fun (_ : unit) (i_url : nat * string) => body (fst i_url)) tt))
      in Hw by (by rewrite Hfirst).
    apply for_each_event in Hw as (s0 & [j' y] & Hin & Hw). simpl in Hw.
    apply Hown in Hw as [-> _]. specialize (Hlt _ Hin). simpl in Hlt. lia.
  - replace t with (fst (body k)) in Hw by (by rewrite E).
    apply Hown in Hw as [_ Hok]. rewrite E in Hok. discriminate.
Qed.

End StageFacts.

(** * Step 7: where the entries come from, and what stops the stage *)

Section Step7More.
Import PyStr Pipeline Checkpoints.
Context {gse_item article raw_date raw_author : Type}.
Context `{SetOrder}.
Variable blacklist : string -> bool.
Variable extractor : EntityExtractor gse_item article raw_date raw_author.
Variable normalizer : EntityNormalizer article raw_date raw_author.

Local Abbreviation gen := (gen_cr_entry blacklist extractor normalizer).
Local Abbreviation step_7_origin' := (step_7_origin blacklist extractor normalizer).
Local Abbreviation step_7 := (step_7_gen_cr_data blacklist extractor normalizer).
Local Abbreviation annotated := (annotated_from blacklist extractor normalizer).
Local Abbreviation skipped := (passed_over blacklist extractor).

Lemma authors_value (art : article) (gse_data : gse_item) (url : string)
  (t : list (event (list cr_entry))) (au : list string) :
  try_except (extract_author_names extractor normalizer art gse_data)
    (_ ← logging (ErrorExtractingAuthors url); mret [])
  = (t, Ok au) ->
  au = author_names extractor normalizer art gse_data.
Proof.
  unfold extract_author_names, author_names. rewrite !mbind_unfold. unfold lift.
  destruct (extract_authors extractor art gse_data) as [raw|x]; simpl.
  - destruct (normalize_authors normalizer raw art) as [names|x]; simpl;
      by intros [= _ <-].
  - by intros [= _ <-].
Qed.

(** A round that ends normally passes the candidate over, or appends the
    entry extracted from it. *)
Lemma gen_cr_entry_spec (st : Z * list cr_entry) (c : candidate gse_item)
  (t : list (event (list cr_entry))) (st' : Z * list cr_entry) :
  gen st c = (t, Ok st') ->
  (st' = st /\ skipped c)
  \/ exists e, st' = ((fst st + 1)%Z, snd st ++ [e]) /\ annotated c e.
Proof.
  unfold gen_cr_entry, passed_over.
  destruct (highRatio c) eqn:Hh; simpl; [|intros [= _ <-]; left; auto].
  destruct (blacklist (c_url c)) eqn:Hb; [intros [= _ <-]; left; auto|].
  destruct (parse_article extractor (c_url c) (c_html c)) as [art|x] eqn:Hp;
    [|intros [= _ <-]; left; split; [reflexivity|]; right; right; left; eauto].
  unfold annotate. cbn zeta. intros Hrun.
  rewrite mbind_unfold in Hrun.
  apply bind_ok_inv in Hrun as (t1 & titles & t1' & Ht & Hrun & ->).
  apply lift_ok in Ht.
  destruct titles as [|title titles].
  { injection Hrun as _ <-. left. split; [reflexivity|].
    right; right; right. by exists art. }
  rewrite mbind_unfold in Hrun.
  apply bind_ok_inv in Hrun as (t2 & srcs & t2' & Hs & Hrun & ->).
  apply lift_ok in Hs.
  rewrite mbind_unfold in Hrun.
  apply bind_ok_inv in Hrun as (t3 & pd & t3' & Hpd & Hrun & ->).
  rewrite mbind_unfold in Hrun.
  apply bind_ok_inv in Hrun as (t4 & au & t4' & Hau & Hrun & ->).
  apply authors_value in Hau.
  rewrite mret_unfold in Hrun. injection Hrun as _ <-.
  right. eexists. split; [reflexivity|].
  unfold annotated_from. simpl.
  split; [exact Hh|]. split; [exact Hb|]. split; [reflexivity|].
  split; [reflexivity|].
  exists art, title, titles, srcs. rewrite Hau. by repeat split.
Qed.

(** The entries collected for an origin are those of the candidates not
    passed over, in the order of the candidates. *)
Lemma gen_loop_spec (link_entries : list (candidate gse_item))
  (t : list (event (list cr_entry))) (st : Z * list cr_entry) :
  for_each link_entries gen (1%Z, []) = (t, Ok st) ->
  exists cs, cs `sublist_of` link_entries
             /\ Forall2 annotated cs (snd st)
             /\ (forall c, c ∈ link_entries -> c ∈ cs \/ skipped c).
Proof.
  intros Hrun.
  pose (Inv := fun (p : list (candidate gse_item)) (st : Z * list cr_entry) =>
    exists cs, cs `sublist_of` p /\ Forall2 annotated cs (snd st)
               /\ (forall c, c ∈ p -> c ∈ cs \/ skipped c)).
  apply (for_each_ok_inv Inv gen link_entries) with (p := []) (s := (1%Z, [])) (t := t);
    [| |exact Hrun].
  - intros p s c t1 s1 (cs & Hsub & HF & Hall) Hstep.
    apply gen_cr_entry_spec in Hstep as [[-> Hskip] | (e & -> & He)].
    + exists cs. split; [by apply sublist_inserts_r|]. split; [exact HF|].
      intros c' [Hc'|Hc']%elem_of_app; [by apply Hall|].
      apply list_elem_of_singleton in Hc' as ->. by right.
    + exists (cs ++ [c]). split; [by apply sublist_app|]. split.
      { simpl. apply Forall2_app; [exact HF | by constructor]. }
      intros c' [Hc'|Hc']%elem_of_app.
      * destruct (Hall c' Hc') as [?|?]; [left | by right].
        apply elem_of_app. by left.
      * left. apply elem_of_app. by right.
  - exists []. split; [constructor|]. split; [constructor|].
    intros c Hc. by apply elem_of_nil in Hc.
Qed.

Lemma step_7_origin_entries (origins : list string)
  (dir : gmap nat (list (candidate gse_item))) (i : nat) (es : list cr_entry) :
  Write i es ∈ fst (step_7 origins dir) ->
  exists link_entries cs,
    dir !! i = Some link_entries
    /\ cs `sublist_of` link_entries
    /\ Forall2 annotated cs es
    /\ (forall c, c ∈ link_entries -> c ∈ cs \/ skipped c).
Proof.
  intros Hw.
  apply step_7_write, step_7_origin_write in Hw
    as (_ & link_entries & t & st & Hdir & Hloop & ->).
  apply gen_loop_spec in Hloop as (cs & Hsub & HF & Hall).
  by exists link_entries, cs.
Qed.

Lemma lower_idem (s : string) : lower (lower s) = lower s.
Proof.
  induction s as [|c s IH]; [reflexivity|]. simpl. rewrite IH. f_equal.
  destruct c as [[] [] [] [] [] [] [] []]; vm_compute; reflexivity.
Qed.

Lemma lowered_set (names : list string) :
  NoDup (set_iter (list_to_set (map lower names)))
  /\ forall s, s ∈ set_iter (list_to_set (map lower names))
               <-> exists s0, s0 ∈ names /\ s = lower s0.
Proof.
  split; [apply set_iter_NoDup|].
  intros s. rewrite elem_of_set_iter, elem_of_list_to_set, list_elem_of_fmap.
  split; intros (s0 & H1 & H2); exists s0; auto.
Qed.

(** X13. The entries step 7 writes for an origin come from its candidates,
    in their order: each is extracted from a candidate with [highRatio] that
    is not blacklisted, parses and has a title, and carries its URL and body,
    the text and first title of the parsed article, the lowercased sources
    and the lowercased author names; every candidate without an entry was
    passed over. *)
Theorem step_7_entries_follow_candidates (origins : list string)
  (dir : gmap nat (list (candidate gse_item))) (i : nat) (es : list cr_entry) :
  Write i es ∈ fst (step_7 origins dir) ->
  exists link_entries cs,
    dir !! i = Some link_entries
    /\ cs `sublist_of` link_entries
    /\ Forall2 annotated cs es
    /\ (forall c, c ∈ link_entries -> c ∈ cs \/ skipped c)
    /\ (length es <= length link_entries)%nat.
Proof.
  intros Hw.
  destruct (step_7_origin_entries origins dir i es Hw)
    as (link_entries & cs & Hdir & Hsub & HF & Hall).
  exists link_entries, cs. repeat (split; [assumption|]).
  rewrite <- (Forall2_length _ _ _ HF). by apply sublist_length.
Qed.


Lemma written_logs {W : Type} (t : list (event W)) :
  (forall ev, ev ∈ t -> exists m, ev = Log m) -> written t = [].
Proof.
  induction t as [|ev t IH]; intros Hall; [reflexivity|].
  destruct (Hall ev) as [m ->]; [left|]. simpl. apply IH.
  intros ev' Hev'. apply Hall. by right.
Qed.

Lemma gen_loop_logs (link_entries : list (candidate gse_item)) (st : Z * list cr_entry) :
  written (fst (for_each link_entries gen st)) = [].
Proof.
  apply written_logs. intros ev Hev.
  apply for_each_event in Hev as (s0 & c & _ & Hev).
  by apply gen_cr_entry_events in Hev.
Qed.

(** An origin of step 7 whose loop ends normally logs the count and writes
    its file. *)
Lemma step_7_origin_run (dir : gmap nat (list (candidate gse_item))) (i : nat)
  (link_entries : list (candidate gse_item))
  (t : list (event (list cr_entry))) (st : Z * list cr_entry) :
  dir !! i = Some link_entries ->
  for_each link_entries gen (1%Z, []) = (t, Ok st) ->
  step_7_origin' dir i
  = (t ++ [Log (SavingEntries (length (snd st))); Write i (snd st)], Ok tt).
Proof.
  intros Hdir Hloop. unfold step_7_origin, read_file. rewrite Hdir.
  rewrite mbind_unfold. unfold bind at 1. cbn [fst snd mret M_ret ret app].
  rewrite mbind_unfold, (bind_ok_l _ _ _ _ Hloop). reflexivity.
Qed.

Lemma step_7_origin_stops (dir : gmap nat (list (candidate gse_item))) (i : nat)
  (link_entries : list (candidate gse_item))
  (t : list (event (list cr_entry))) (x : exn) :
  dir !! i = Some link_entries ->
  for_each link_entries gen (1%Z, []) = (t, Raise x) ->
  step_7_origin' dir i = (t, Raise x).
Proof.
  intros Hdir Hloop. unfold step_7_origin, read_file. rewrite Hdir.
  rewrite mbind_unfold. unfold bind at 1. cbn [fst snd mret M_ret ret app].
  rewrite mbind_unfold, (bind_raise_l _ _ _ _ Hloop). reflexivity.
Qed.

Lemma step_7_origin_own_file (dir : gmap nat (list (candidate gse_item)))
  (i j : nat) (es : list cr_entry) :
  Write j es ∈ fst (step_7_origin' dir i) ->
  j = i /\ snd (step_7_origin' dir i) = Ok tt.
Proof.
  intros Hw.
  apply step_7_origin_write in Hw as (-> & link_entries & t & st & Hdir & Hloop & _).
  split; [reflexivity|].
  by rewrite (step_7_origin_run dir i link_entries t st Hdir Hloop).
Qed.

Lemma step_7_origin_written (dir : gmap nat (list (candidate gse_item)))
  (i : nat) (t : list (event (list cr_entry))) :
  step_7_origin' dir i = (t, Ok tt) -> map fst (written t) = [i].
Proof.
  intros Hrun. unfold step_7_origin in Hrun.
  rewrite mbind_unfold in Hrun.
  apply bind_ok_inv in Hrun as (t1 & link_entries & t1' & Hread & Hrun & ->).
  apply read_file_ok in Hread as [Hdir ->].
  rewrite mbind_unfold in Hrun.
  apply bind_ok_inv in Hrun as (t2 & st & t2' & Hloop & Hrun & ->).
  injection Hrun as <-.
  rewrite app_nil_l, written_app.
  replace t2 with (fst (for_each link_entries gen (1%Z, []))) by (by rewrite Hloop).
  by rewrite gen_loop_logs.
Qed.

Lemma gen_cr_entry_raises (st : Z * list cr_entry) (c : candidate gse_item)
  (art : article) (x : exn) :
  highRatio c = true -> blacklist (c_url c) = false ->
  parse_article extractor (c_url c) (c_html c) = Ok art ->
  extract_titles extractor art = Raise x
  \/ (exists title titles, extract_titles extractor art = Ok (title :: titles)
                           /\ extract_sources extractor (gseData c) = Raise x) ->
  gen st c = ([], Raise x).
Proof.
  intros Hh Hb Hp Hfail. unfold gen_cr_entry. rewrite Hh, Hb, Hp. simpl.
  unfold annotate. cbn zeta. rewrite mbind_unfold. unfold lift.
  destruct Hfail as [Ht | (title & titles & Ht & Hs)]; rewrite Ht; [reflexivity|].
  unfold bind at 1. cbn [fst snd app].
  rewrite mbind_unfold. by rewrite Hs.
Qed.

Lemma gen_cr_entry_total (st : Z * list cr_entry) (c : candidate gse_item) :
  (highRatio c = true -> blacklist (c_url c) = false ->
   forall art, parse_article extractor (c_url c) (c_html c) = Ok art ->
               (exists titles, extract_titles extractor art = Ok titles)
               /\ exists srcs, extract_sources extractor (gseData c) = Ok srcs) ->
  exists t st', gen st c = (t, Ok st').
Proof.
  intros Hok. unfold gen_cr_entry.
  destruct (highRatio c) eqn:Hh; simpl; [|by eexists _, _].
  destruct (blacklist (c_url c)) eqn:Hb; [by eexists _, _|].
  destruct (parse_article extractor (c_url c) (c_html c)) as [art|x] eqn:Hp;
    [|by eexists _, _].
  destruct (Hok eq_refl eq_refl art eq_refl) as [[titles Ht] [srcs Hs]].
  destruct titles as [|title titles].
  - unfold annotate. cbn zeta. rewrite mbind_unfold. unfold lift. rewrite Ht.
    by eexists _, _.
  - destruct (annotate_appends extractor normalizer st c art title titles srcs Ht Hs)
      as (t & e & Hrun & _).
    by eexists _, _.
Qed.

(** X15. What stops step 7: a missing candidate file, and a failure of
    [extract_titles] or [extract_sources], which no handler catches. The
    origin then ends with that exception and writes no file, the entries
    already collected for it are lost, and the stage ends with the exception
    without a file for that origin or any later one. *)
Theorem step_7_stops_at_uncaught_failure :
  (forall dir i,
      dir !! i = None -> step_7_origin' dir i = ([], Raise (IOError i)))
  /\ (forall dir i l1 c l2 t1 st1 art x,
        dir !! i = Some (l1 ++ c :: l2) ->
        for_each l1 gen (1%Z, []) = (t1, Ok st1) ->
        highRatio c = true -> blacklist (c_url c) = false ->
        parse_article extractor (c_url c) (c_html c) = Ok art ->
        extract_titles extractor art = Raise x
        \/ (exists title titles,
              extract_titles extractor art = Ok (title :: titles)
              /\ extract_sources extractor (gseData c) = Raise x) ->
        step_7_origin' dir i = (t1, Raise x)
        /\ forall j es, Write j es ∉ t1)
  /\ (forall origins dir k t x,
        (k < length origins)%nat ->
        (forall j, (j < k)%nat -> snd (step_7_origin' dir j) = Ok tt) ->
        step_7_origin' dir k = (t, Raise x) ->
        snd (step_7 origins dir) = Raise x
        /\ forall j es, (k <= j)%nat -> Write j es ∉ fst (step_7 origins dir)).
Proof.
  split; [|split].
  - intros dir i Hdir. unfold step_7_origin, read_file. by rewrite Hdir.
  - intros dir i l1 c l2 t1 st1 art x Hdir Hpre Hh Hb Hp Hfail.
    pose proof (gen_cr_entry_raises st1 c art x Hh Hb Hp Hfail) as Hc.
    pose proof (for_each_raise gen l1 l2 c _ _ _ _ _ Hpre Hc) as Hloop.
    rewrite app_nil_r in Hloop.
    split; [by apply (step_7_origin_stops dir i (l1 ++ c :: l2))|].
    intros j es Hw.
    replace t1 with (fst (for_each l1 gen (1%Z, []))) in Hw by (by rewrite Hpre).
    apply for_each_event in Hw as (s0 & c0 & _ & Hw).
    apply gen_cr_entry_events in Hw as [m Hm]. discriminate.
  - intros origins dir k t x Hk Hpre E.
    apply (stage_raises (step_7_origin' dir) origins k t x); try assumption.
    intros i j es. apply step_7_origin_own_file.
Qed.

(** X16. Step 7 ends normally, with one file per origin written in the
    order of the origins, when every origin has its candidate file and
    [extract_titles] and [extract_sources] raise for no candidate that is
    parsed. *)
Theorem step_7_ends_normally (origins : list string)
  (dir : gmap nat (list (candidate gse_item))) :
  (forall i, (i < length origins)%nat ->
     exists link_entries,
       dir !! i = Some link_entries
       /\ forall c, c ∈ link_entries ->
            highRatio c = true -> blacklist (c_url c) = false ->
            forall art, parse_article extractor (c_url c) (c_html c) = Ok art ->
                        (exists titles, extract_titles extractor art = Ok titles)
                        /\ exists srcs, extract_sources extractor (gseData c) = Ok srcs) ->
  exists t,
    step_7 origins dir = (t, Ok tt)
    /\ map fst (written t) = seq 0 (length origins).
Proof.
  intros Hall.
  destruct (stage_total (step_7_origin' dir) origins) as [t Hrun].
  { intros i Hi. destruct (Hall i Hi) as (link_entries & Hdir & Hok).
    destruct (for_each_total gen link_entries) with (s := (1%Z, [] : list cr_entry))
      as (tl & st & Hloop).
    { intros s c Hc. apply gen_cr_entry_total. by apply Hok. }
    eexists. by apply (step_7_origin_run dir i link_entries tl st). }
  exists t. split; [exact Hrun|].
  apply (stage_written (step_7_origin' dir) origins t); [|exact Hrun].
  intros i ti. apply step_7_origin_written.
Qed.

End Step7More.

(** * Step 7 in the small world *)

Section Step7Runs.
Import PyStr Pipeline Checkpoints Demo.

Local Abbreviation step_7 := (step_7_gen_cr_data blacklist extractor normalizer).

(** The two entries of the small world come from the first and the third
    candidate. *)
Lemma step_7_entries_follow_candidates_witness :
  exists link_entries cs,
    related_links_dir !! 0%nat = Some link_entries
    /\ cs `sublist_of` link_entries
    /\ Forall2 (annotated_from blacklist extractor normalizer) cs [entry_a; entry_c]
    /\ (forall c, c ∈ link_entries -> c ∈ cs \/ passed_over blacklist extractor c)
    /\ (length [entry_a; entry_c] <= length link_entries)%nat.
Proof.
  apply (step_7_entries_follow_candidates blacklist extractor normalizer
           origins related_links_dir 0%nat [entry_a; entry_c]).
  exact step_7_writes_entries.
Defined.


(** With an extractor that finds no title in the third page, the origin ends
    with the exception and the entry of the first candidate is not
    written. *)
Lemma step_7_stops_at_uncaught_failure_witness :
  step_7_origin blacklist Step7Demo.extractor normalizer related_links_dir 0%nat
  = ([], Raise (Failure "no title tag"))
  /\ snd (step_7_gen_cr_data blacklist Step7Demo.extractor normalizer
            origins related_links_dir)
     = Raise (Failure "no title tag").
Proof.
  destruct (step_7_stops_at_uncaught_failure blacklist Step7Demo.extractor normalizer)
    as (_ & Horigin & Hstage).
  destruct (Horigin related_links_dir 0%nat [cand_a; cand_b] cand_c [] []
              (2%Z, [entry_a]) "The Quote In Full" (Failure "no title tag"))
    as [Hrun _].
  { reflexivity. }
  { vm_compute. reflexivity. }
  { reflexivity. }
  { reflexivity. }
  { reflexivity. }
  { left. reflexivity. }
  split; [exact Hrun|].
  apply (Hstage origins related_links_dir 0%nat [] (Failure "no title tag")).
  - simpl. lia.
  - intros j Hj. lia.
  - exact Hrun.
Defined.

Lemma step_7_ends_normally_witness :
  exists t,
    step_7 origins related_links_dir = (t, Ok tt)
    /\ map fst (written t) = seq 0 (length origins).
Proof.
  apply (step_7_ends_normally blacklist extractor normalizer origins related_links_dir).
  intros i Hi. exists [cand_a; cand_b; cand_c]. split.
  - destruct i as [|i]; [reflexivity | simpl in Hi; lia].
  - intros c _ _ _ art _. split; eexists; reflexivity.
Defined.

End Step7Runs.

(** * Step 6: which links get a record, and when the stage ends normally *)

Lemma bind_ok_intro {W A B : Type} (m : Pipeline.M W A) (f : A -> Pipeline.M W B)
  (t1 t2 : list (Pipeline.event W)) (a : A) (b : B) :
  m = (t1, Pipeline.Ok a) -> f a = (t2, Pipeline.Ok b) ->
  mbind f m = (t1 ++ t2, Pipeline.Ok b).
Proof. intros -> Hf. rewrite mbind_unfold. simpl. by rewrite Hf. Qed.

Lemma getitem_found {W V : Type} (d : gmap string V) (k : string) (v : V) :
  d !! k = Some v -> Pipeline.getitem (W := W) d k = ([], Pipeline.Ok v).
Proof. intros Hk. unfold Pipeline.getitem. by rewrite Hk. Qed.

Section Step6More.
Import PyStr Pipeline Checkpoints.
Context {gse_item pattern : Type}.
Context `{SetOrder}.
Variable item_link : gse_item -> string.
Variable black_domains : string -> bool.
Variable text_util : TextUtil pattern.
Variable fetch_urls : gmap string (option string) -> gmap string (option string).

Local Abbreviation step_6 :=
  (step_6_filter_out_unrelated item_link black_domains text_util fetch_urls).
Local Abbreviation step_6_origin' :=
  (step_6_origin item_link black_domains text_util fetch_urls).
Local Abbreviation discover' := (discover item_link black_domains text_util).
Local Abbreviation simplified := (simplified_text text_util).

Lemma uniq_segments_fold_items (seg : string) (items : list gse_item) (st : discovery) :
  uniq_segments (fold_left (add_found_item item_link black_domains seg) items st)
  = uniq_segments st.
Proof.
  revert st. induction items as [|it items IH]; intros st; simpl; [reflexivity|].
  rewrite IH. unfold add_found_item.
  by destruct (black_domains (item_link it)).
Qed.

Lemma uniq_segments_fold_entries (gse : list (segment_entry gse_item)) (st : discovery)
  (seg : string) :
  seg ∈ uniq_segments (fold_left (add_segment_entry item_link black_domains text_util)
                         gse st)
  <-> seg ∈ uniq_segments st
      \/ exists entry, entry ∈ gse /\ seg = simplified (segment entry).
Proof.
  revert st. induction gse as [|entry gse IH]; intros st; simpl.
  - split; [by left|]. intros [?|(entry & Hin & _)]; [done|].
    by apply elem_of_nil in Hin.
  - rewrite IH. unfold add_segment_entry. rewrite uniq_segments_fold_items. simpl.
    rewrite elem_of_union, elem_of_singleton. split.
    + intros [[?| ->]|(e & Hin & ->)].
      * by left.
      * right. exists entry. split; [left | reflexivity].
      * right. exists e. split; [by right | reflexivity].
    + intros [?|(e & Hin & ->)]; [by left; left|].
      apply elem_of_cons in Hin as [->|Hin]; [left; by right|].
      right. by exists e.
Qed.

(** The segments stored for a URL are segments of the origin. *)
Lemma url_segments_known (gse : list (segment_entry gse_item)) (u : string)
  (segments : gset string) (seg : string) :
  related_url2segm (discover' gse) !! u = Some segments ->
  seg ∈ segments -> seg ∈ uniq_segments (discover' gse).
Proof.
  intros Hsegm Hseg.
  destruct (discover_discovered item_link black_domains text_util gse) as (_ & Ds & _).
  rewrite Ds in Hsegm. destruct (black_domains u); [discriminate|].
  assert (Hset : segments
                 = list_to_set (map fst (items_for item_link u
                                           (found_in_order text_util gse)))).
  { destruct (items_for item_link u (found_in_order text_util gse)) as [|p l];
      [discriminate|].
    by injection Hsegm as <-. }
  rewrite Hset in Hseg.
  apply elem_of_list_to_set, list_elem_of_fmap in Hseg as ([seg' it] & -> & Hin).
  apply list_elem_of_filter in Hin as [_ Hin].
  apply elem_of_found_in_order in Hin as (entry & Hentry & _ & Hs). simpl.
  apply uniq_segments_fold_entries. right. by exists entry.
Qed.

(** A URL is handed to the fetcher exactly when a found item links to it and
    it is not blacklisted. *)
Lemma elem_of_dom_discovered (gse : list (segment_entry gse_item)) (u : string) :
  u ∈ dom (related_url2html (discover' gse))
  <-> black_domains u = false
      /\ exists entry it, entry ∈ gse /\ it ∈ foundItems entry /\ item_link it = u.
Proof.
  destruct (discover_discovered item_link black_domains text_util gse) as (_ & _ & Dh).
  rewrite elem_of_dom, Dh. destruct (black_domains u).
  { split; [intros [? ?]; discriminate | intros [? _]; discriminate]. }
  split.
  - intros Hsome. split; [reflexivity|].
    destruct (items_for item_link u (found_in_order text_util gse)) as [|[seg it] l] eqn:E.
    { by destruct Hsome. }
    assert (Hin : (seg, it) ∈ items_for item_link u (found_in_order text_util gse)).
    { rewrite E. left. }
    apply list_elem_of_filter in Hin as [Hl Hin]. simpl in Hl.
    apply elem_of_found_in_order in Hin as (entry & He & Hit & _).
    by exists entry, it.
  - intros (_ & entry & it & He & Hit & Hl).
    assert (Hin : (simplified (segment entry), it)
                  ∈ items_for item_link u (found_in_order text_util gse)).
    { apply list_elem_of_filter. split; [exact Hl|].
      apply elem_of_found_in_order. by exists entry. }
    destruct (items_for item_link u (found_in_order text_util gse)); [|done].
    by apply elem_of_nil in Hin.
Qed.

Lemma discovered_url_dicts (gse : list (segment_entry gse_item)) (u : string) :
  u ∈ dom (related_url2html (discover' gse)) ->
  is_Some (related_url2segm (discover' gse) !! u)
  /\ is_Some (related_url2gse (discover' gse) !! u).
Proof.
  destruct (discover_discovered item_link black_domains text_util gse) as (Dg & Ds & Dh).
  rewrite elem_of_dom, Dh, Ds, Dg. destruct (black_domains u).
  { intros [? ?]. discriminate. }
  destruct (items_for item_link u (found_in_order text_util gse)) as [|p l].
  { intros [? ?]. discriminate. }
  intros _. split; eexists; reflexivity.
Qed.

Lemma match_loop_total (fuzzy_patterns : gmap string pattern) (body : string)
  (segments : list string) :
  (forall seg, seg ∈ segments -> is_Some (fuzzy_patterns !! seg)) ->
  (forall seg pat, raises (fuzzy_search text_util body seg pat) = false) ->
  forall acc, exists t acc',
    for_each (W := list (candidate gse_item)) segments
      (match_segment text_util fuzzy_patterns body) acc = (t, Ok acc').
Proof.
  intros Hpat Hfuzzy. apply for_each_total.
  intros acc seg Hseg. destruct (Hpat seg Hseg) as [pat Hp].
  unfold match_segment, getitem. rewrite !mbind_unfold, Hp. simpl. unfold lift.
  specialize (Hfuzzy seg pat).
  destruct (fuzzy_search text_util body seg pat) as [[ratio mt]|x]; [|discriminate].
  simpl. destruct (Qgtb ratio (fst acc)); by eexists _, _.
Qed.

Lemma verify_url_total (gse : list (segment_entry gse_item))
  (html_of : gmap string (option string)) (n : nat)
  (acc : list (candidate gse_item)) (j : nat) (u : string) :
  (forall segs seg, seg ∈ segs ->
                    is_Some (compile_fuzzy_patterns text_util segs !! seg)) ->
  (forall body seg pat, raises (fuzzy_search text_util body seg pat) = false) ->
  u ∈ dom (related_url2html (discover' gse)) ->
  (forall html, html_of !! u = Some html ->
                raises (extract_body text_util u html) = false) ->
  is_Some (html_of !! u) ->
  exists t acc',
    verify_url text_util (discover' gse) html_of
      (compile_fuzzy_patterns text_util (uniq_segments (discover' gse))) n acc (j, u)
    = (t, Ok acc').
Proof.
  intros Hpat Hfuzzy Hu Hbody [html Hhtml].
  destruct (discovered_url_dicts gse u Hu) as [[segments Hsegm] [gd Hgd]].
  specialize (Hbody html Hhtml).
  destruct (extract_body text_util u html) as [body_lang|x] eqn:Eb; [|discriminate].
  destruct (match_loop_total
              (compile_fuzzy_patterns text_util (uniq_segments (discover' gse)))
              (simplified (fst body_lang)) (set_iter segments))
    with (acc := (0%Q, [] : list found_match)) as (tl & bm & Hloop).
  { intros seg Hseg. apply Hpat. apply elem_of_set_iter in Hseg.
    by eapply url_segments_known. }
  { intros seg pat. apply Hfuzzy. }
  unfold verify_url. cbn [fst snd].
  assert (Hlog : exists tlog,
             (if (j mod 10 =? 0)%nat
              then logging (FuzzyMatching j n) else mret tt)
             = ((tlog, Ok tt) : M (list (candidate gse_item)) unit)).
  { destruct (j mod 10 =? 0)%nat; by eexists. }
  destruct Hlog as [tlog Hlog].
  eexists _, _.
  eapply bind_ok_intro; [exact Hlog|].
  eapply bind_ok_intro; [by apply getitem_found|].
  eapply bind_ok_intro; [unfold lift; by rewrite Eb|].
  eapply bind_ok_intro; [by apply getitem_found|].
  eapply bind_ok_intro; [exact Hloop|].
  eapply bind_ok_intro; [by apply getitem_found|].
  reflexivity.
Qed.

Lemma elem_of_enumerate_snd {A : Type} (l : list A) (iy : nat * A) :
  iy ∈ enumerate l -> snd iy ∈ l.
Proof.
  intros Hin. rewrite <- (map_snd_enumerate l).
  apply list_elem_of_fmap. by exists iy.
Qed.

Lemma step_6_origin_total (dir : gmap nat (list (segment_entry gse_item)))
  (i : nat) (gse : list (segment_entry gse_item)) :
  (forall m, dom (fetch_urls m) ⊆ dom m) ->
  (forall segs seg, seg ∈ segs ->
                    is_Some (compile_fuzzy_patterns text_util segs !! seg)) ->
  (forall body seg pat, raises (fuzzy_search text_util body seg pat) = false) ->
  dir !! i = Some gse ->
  (forall u html, fetch_urls (related_url2html (discover' gse)) !! u = Some html ->
                  raises (extract_body text_util u html) = false) ->
  exists t, step_6_origin' dir i = (t, Ok tt).
Proof.
  intros Hfetch Hpat Hfuzzy Hdir Hbody.
  set (st := discover' gse).
  set (html_of := fetch_urls (related_url2html st)).
  destruct (for_each_total
              (verify_url text_util st html_of
                 (compile_fuzzy_patterns text_util (uniq_segments st))
                 (length (set_iter (dom html_of))))
              (enumerate (set_iter (dom html_of))))
    with (s := ([] : list (candidate gse_item))) as (tl & recs & Hloop).
  { intros acc [j u] Hin. apply elem_of_enumerate_snd in Hin. simpl in Hin.
    apply elem_of_set_iter in Hin.
    apply verify_url_total; [exact Hpat | exact Hfuzzy | | |].
    - by apply Hfetch.
    - intros html Hhtml. by apply (Hbody u html).
    - by apply elem_of_dom. }
  eexists. unfold step_6_origin, read_file. rewrite Hdir.
  eapply bind_ok_intro; [reflexivity|]. cbn zeta.
  eapply bind_ok_intro; [exact Hloop|]. reflexivity.
Qed.

Lemma step_6_origin_written (dir : gmap nat (list (segment_entry gse_item)))
  (i : nat) (t : list (event (list (candidate gse_item)))) :
  step_6_origin' dir i = (t, Ok tt) -> map fst (written t) = [i].
Proof.
  intros Hrun. unfold step_6_origin in Hrun.
  rewrite mbind_unfold in Hrun.
  apply bind_ok_inv in Hrun as (t1 & gse & t1' & Hread & Hrun & ->).
  apply read_file_ok in Hread as [Hdir ->]. cbn zeta in Hrun.
  rewrite mbind_unfold in Hrun.
  apply bind_ok_inv in Hrun as (t2 & recs & t2' & Hloop & Hrun & ->).
  injection Hrun as <-.
  rewrite app_nil_l, written_app.
  rewrite (written_logs t2); [reflexivity|].
  intros ev Hev. replace t2 with (fst (for_each
    (enumerate (set_iter (dom (fetch_urls (related_url2html (discover' gse))))))
    (verify_url text_util (discover' gse)
       (fetch_urls (related_url2html (discover' gse)))
       (compile_fuzzy_patterns text_util (uniq_segments (discover' gse)))
       (length (set_iter (dom (fetch_urls (related_url2html (discover' gse)))))))
    [])) in Hev by (by rewrite Hloop).
  apply for_each_event in Hev as (s0 & x & _ & Hev).
  by apply verify_url_events in Hev.
Qed.

Lemma step_6_origin_raises_no_write (dir : gmap nat (list (segment_entry gse_item)))
  (i : nat) :
  snd (step_6_origin' dir i) <> Ok tt ->
  exists t x, step_6_origin' dir i = (t, Raise x)
              /\ forall j recs, Write j recs ∉ t.
Proof.
  intros Hnot. destruct (step_6_origin' dir i) as [t [[]|x]] eqn:E; [done|].
  exists t, x. split; [reflexivity|]. intros j recs Hw.
  replace t with (fst (step_6_origin' dir i)) in Hw by (by rewrite E).
  apply step_6_origin_write_ok in Hw. rewrite E in Hw. discriminate.
Qed.

(** X17. Step 6 ends normally, with one file per origin written in the
    order of the origins, when every origin has its search file, the fetcher
    adds no URL, every segment gets a pattern, and neither the fuzzy search
    nor the body extraction of a fetched page raises. *)
Theorem step_6_ends_normally (origins : list string)
  (dir : gmap nat (list (segment_entry gse_item))) :
  (forall m, dom (fetch_urls m) ⊆ dom m) ->
  (forall segs seg, seg ∈ segs ->
                    is_Some (compile_fuzzy_patterns text_util segs !! seg)) ->
  (forall body seg pat, raises (fuzzy_search text_util body seg pat) = false) ->
  (forall i, (i < length origins)%nat ->
     exists gse,
       dir !! i = Some gse
       /\ forall u html,
            fetch_urls (related_url2html (discover' gse)) !! u = Some html ->
            raises (extract_body text_util u html) = false) ->
  exists t,
    step_6 origins dir = (t, Ok tt)
    /\ map fst (written t) = seq 0 (length origins).
Proof.
  intros Hfetch Hpat Hfuzzy Hall.
  destruct (stage_total (step_6_origin' dir) origins) as [t Hrun].
  { intros i Hi. destruct (Hall i Hi) as (gse & Hdir & Hbody).
    by apply (step_6_origin_total dir i gse). }
  exists t. split; [exact Hrun|].
  apply (stage_written (step_6_origin' dir) origins t); [|exact Hrun].
  intros i ti. apply step_6_origin_written.
Qed.

(** X18. When the fetcher keeps the URLs it is given, the records step 6
    writes for an origin are those of the links found for it that are not
    blacklisted: a URL has a record exactly when some found item of the
    origin links to it and it is not blacklisted. *)
Theorem step_6_records_cover_found_links (origins : list string)
  (dir : gmap nat (list (segment_entry gse_item)))
  (i : nat) (recs : list (candidate gse_item)) :
  (forall m, dom (fetch_urls m) = dom m) ->
  Write i recs ∈ fst (step_6 origins dir) ->
  exists gse,
    dir !! i = Some gse
    /\ forall u, u ∈ map c_url recs
         <-> black_domains u = false
             /\ exists entry it, entry ∈ gse /\ it ∈ foundItems entry
                                 /\ item_link it = u.
Proof.
  intros Hfetch Hw.
  apply step_6_write in Hw as [_ Hw].
  apply step_6_origin_write in Hw as (_ & gse & Hdir & HF).
  exists gse. split; [exact Hdir|]. intros u.
  assert (Hurls : map c_url recs
                  = set_iter (dom (fetch_urls (related_url2html (discover' gse))))).
  { clear Hdir. induction HF as [|u0 r urls recs' Hv HF IH]; [reflexivity|].
    simpl. rewrite IH. by destruct Hv as [-> _]. }
  rewrite Hurls, elem_of_set_iter, Hfetch. apply elem_of_dom_discovered.
Qed.

(** X19. What keeps an origin of step 6 from ending normally, besides a
    failing collaborator: a missing search file; a URL in the fetcher's
    result that was not handed to it; a segment of a fetched URL without a
    compiled pattern. The origin then ends with an exception and writes no
    file. *)
Theorem step_6_origin_cannot_finish :
  (forall dir i,
      dir !! i = None -> step_6_origin' dir i = ([], Raise (IOError i)))
  /\ (forall dir i gse u,
        dir !! i = Some gse ->
        u ∈ dom (fetch_urls (related_url2html (discover' gse))) ->
        u ∉ dom (related_url2html (discover' gse)) ->
        exists t x, step_6_origin' dir i = (t, Raise x)
                    /\ forall j recs, Write j recs ∉ t)
  /\ (forall dir i gse u segments seg,
        dir !! i = Some gse ->
        u ∈ dom (fetch_urls (related_url2html (discover' gse))) ->
        related_url2segm (discover' gse) !! u = Some segments ->
        seg ∈ segments ->
        compile_fuzzy_patterns text_util (uniq_segments (discover' gse)) !! seg = None ->
        exists t x, step_6_origin' dir i = (t, Raise x)
                    /\ forall j recs, Write j recs ∉ t).
Proof.
  assert (Hrec : forall dir i gse u t,
    dir !! i = Some gse ->
    u ∈ dom (fetch_urls (related_url2html (discover' gse))) ->
    step_6_origin' dir i = (t, Ok tt) ->
    exists r, verified text_util (discover' gse)
                (fetch_urls (related_url2html (discover' gse)))
                (compile_fuzzy_patterns text_util (uniq_segments (discover' gse))) u r).
  { intros dir i gse u t Hdir Hu E.
    apply step_6_origin_ok in E as (gse' & recs & Hdir' & _ & HF).
    rewrite Hdir in Hdir'. injection Hdir' as <-.
    apply elem_of_set_iter, list_elem_of_lookup in Hu as [k Hk].
    destruct (Forall2_lookup_l _ _ _ _ _ HF Hk) as (r & _ & Hv). by exists r. }
  split; [|split].
  - intros dir i Hdir. unfold step_6_origin, read_file. by rewrite Hdir.
  - intros dir i gse u Hdir Hu Hnew.
    apply step_6_origin_raises_no_write. intros Hok.
    destruct (step_6_origin' dir i) as [t r] eqn:E. simpl in Hok. subst r.
    destruct (Hrec dir i gse u t Hdir Hu E) as (r & Hv).
    destruct Hv as (_ & _ & _ & (segs & Hsegs & _) & _).
    apply Hnew.
    destruct (discover_discovered item_link black_domains text_util gse)
      as (_ & Ds & Dh).
    apply elem_of_dom. rewrite Dh. rewrite Ds in Hsegs.
    destruct (black_domains u); [discriminate|].
    by destruct (items_for item_link u (found_in_order text_util gse)).
  - intros dir i gse u segments seg Hdir Hu Hsegm Hseg Hpat.
    apply step_6_origin_raises_no_write. intros Hok.
    destruct (step_6_origin' dir i) as [t r] eqn:E. simpl in Hok. subst r.
    destruct (Hrec dir i gse u t Hdir Hu E) as (r & Hv).
    destruct Hv as (_ & _ & _ & (segs & Hsegs & Hcs) & _ & _ & HF & _).
    rewrite Hsegm in Hsegs. injection Hsegs as <-.
    assert (Hin : seg ∈ c_segments r) by (rewrite Hcs; by apply elem_of_set_iter).
    apply list_elem_of_lookup in Hin as [k Hk].
    destruct (Forall2_lookup_l _ _ _ _ _ HF Hk) as (m & _ & pat & Hpat' & _).
    congruence.
Qed.

End Step6More.

(** * Step 6 in the small world *)

Section Step6Runs.
Import PyStr Pipeline Checkpoints Demo.

Lemma demo_fetch_keeps_urls (m : gmap string (option string)) :
  dom (Demo.fetch_urls m) = dom m.
Proof.
  apply set_eq. intros u. rewrite !elem_of_dom. unfold Demo.fetch_urls.
  rewrite map_lookup_imap. destruct (m !! u); simpl.
  - split; intros _; eexists; reflexivity.
  - split; intros [? ?]; discriminate.
Qed.

Lemma demo_patterns (segs : gset string) (seg : string) :
  seg ∈ segs -> is_Some (compile_fuzzy_patterns text_util segs !! seg).
Proof. intros Hseg. exists tt. by apply lookup_gset_to_gmap_Some. Qed.

Lemma demo_fuzzy_search (body seg : string) (pat : unit) :
  raises (fuzzy_search text_util body seg pat) = false.
Proof.
  simpl. destruct (bool_decide (body = "he said: the quote in full"));
    [destruct (bool_decide (seg = "the quote in full"))|]; reflexivity.
Qed.

Lemma step_6_ends_normally_witness :
  exists t,
    step_6_filter_out_unrelated item_link blacklist text_util Demo.fetch_urls
      origins origin_gse_dir = (t, Ok tt)
    /\ map fst (written t) = seq 0 (length origins).
Proof.
  apply (step_6_ends_normally item_link blacklist text_util Demo.fetch_urls
           origins origin_gse_dir).
  - intros m. by rewrite demo_fetch_keeps_urls.
  - exact demo_patterns.
  - exact demo_fuzzy_search.
  - intros i Hi. eexists. split.
    + destruct i as [|i]; [reflexivity | simpl in Hi; lia].
    + apply (bool_decide_unpack
               (map_Forall (fun u html => raises (extract_body text_util u html) = false)
                  (Demo.fetch_urls
                     (related_url2html
                        (discover item_link blacklist text_util
                           [ {| segment := "The Quote In Full";
                                foundItems := [a1; spam; b1] |};
                             {| segment := "He Said"; foundItems := [a2] |} ]))))).
      vm_compute. exact I.
Defined.

(** The two links that are not blacklisted have a record, the blacklisted
    one has none. *)
Lemma step_6_records_cover_found_links_witness :
  exists gse,
    origin_gse_dir !! 0%nat = Some gse
    /\ forall u, u ∈ map c_url [cand_a; cand_b]
         <-> blacklist u = false
             /\ exists entry it, entry ∈ gse /\ it ∈ foundItems entry
                                 /\ item_link it = u.
Proof.
  apply (step_6_records_cover_found_links item_link blacklist text_util
           Demo.fetch_urls origins origin_gse_dir 0%nat [cand_a; cand_b]).
  - exact demo_fetch_keeps_urls.
  - exact step_6_writes_cands.
Defined.

(** With the fetcher that stores a page under the URL it was redirected to,
    the origin ends with an exception. *)
Lemma step_6_origin_cannot_finish_witness :
  exists t x,
    step_6_origin item_link blacklist text_util Step6Demo.fetch_urls
      origin_gse_dir 0%nat = (t, Raise x)
    /\ forall j recs, Write j recs ∉ t.
Proof.
  destruct (step_6_origin_cannot_finish item_link blacklist text_util
              Step6Demo.fetch_urls) as (_ & Hnew & _).
  eapply (Hnew origin_gse_dir 0%nat _ "http://elsewhere.example/").
  - reflexivity.
  - apply elem_of_dom. unfold Step6Demo.fetch_urls.
    rewrite lookup_insert_eq. by eexists.
  - apply not_elem_of_dom. vm_compute. reflexivity.
Defined.

End Step6Runs.

(** * The checkpoint a stage leaves *)

Section CheckpointFacts.
Import Pipeline Checkpoints.
Context {W : Type}.

Lemma checkpoint_lookup (t : list (event W)) (i : nat) (c : W) :
  checkpoint t !! i = Some c -> Write i c ∈ t.
Proof.
  unfold checkpoint. rewrite <- elem_of_written.
  generalize (written t). intros l.
  assert (Hgen : forall acc : gmap nat W,
    fold_left (fun dir iw => <[fst iw := snd iw]> dir) l acc !! i = Some c ->
    acc !! i = Some c \/ (i, c) ∈ l).
  { induction l as [|[j w] l IH]; intros acc Hl; simpl in Hl; [by left|].
    apply IH in Hl as [Hl|Hl]; [|right; by right].
    destruct (decide (j = i)) as [->|Hne].
    - rewrite lookup_insert_eq in Hl. injection Hl as ->. right. left.
    - rewrite lookup_insert_ne in Hl by exact Hne. by left. }
  intros Hl. apply Hgen in Hl as [Hl|Hl]; [|exact Hl].
  by rewrite lookup_empty in Hl.
Qed.

End CheckpointFacts.

(** * Step 8: dates, what stops the stage, and the entries of step 7 *)

Section Step8More.
Import PyStr Pipeline Checkpoints.
Context {datetime : Type}.
Variable strptime : string -> result datetime.
Variable strftime : datetime -> result string.
Variable RI : ReferenceIndex (datetime := datetime).

Local Abbreviation entry := (ReferenceEntry (datetime := datetime)).
Local Abbreviation build := (build_graph strftime).
Local Abbreviation step_8_origin' := (step_8_origin strptime strftime RI).
Local Abbreviation step_8 := (step_8_find_cross_references strptime strftime RI).
Local Abbreviation read_loop :=
  (fun articles : list cr_entry =>
     for_each (W := graph) articles
       (fun acc article => e ← read_ref_entry strptime article; mret (acc ++ [e]))
       ([] : list entry)).
Local Abbreviation read_as :=
  (fun (a : cr_entry) (e : entry) =>
     mirrors a e /\ entry_date strptime a (re_pub_date e)
     /\ bad_date strptime a = false).

(** The entry built from an article, with its date. *)
Lemma read_ref_entry_date (a : cr_entry) (t : list (event graph)) (e : entry) :
  read_ref_entry strptime a = (t, Ok e) -> read_as a e.
Proof.
  intros Hrun. split; [by eapply read_ref_entry_ok|].
  unfold read_ref_entry in Hrun. unfold entry_date, bad_date.
  rewrite mbind_unfold in Hrun.
  apply bind_ok_inv in Hrun as (t1 & pd & t2 & Hpd & Hrun & ->).
  rewrite mret_unfold in Hrun. injection Hrun as _ <-. simpl.
  destruct (e_pub_date a) as [[|c s]|].
  - rewrite mret_unfold in Hpd. injection Hpd as _ <-. by split.
  - rewrite mbind_unfold in Hpd.
    apply bind_ok_inv in Hpd as (t3 & d & t4 & Hd & Hret & _).
    apply lift_ok in Hd. rewrite mret_unfold in Hret. injection Hret as _ <-.
    rewrite Hd. split; [by exists d | reflexivity].
  - rewrite mret_unfold in Hpd. injection Hpd as _ <-. by split.
Qed.

Lemma read_ref_entry_total (a : cr_entry) :
  bad_date strptime a = false ->
  exists e, read_ref_entry strptime a = ([], Ok e).
Proof.
  unfold bad_date, read_ref_entry. intros Hok.
  destruct (e_pub_date a) as [[|c s]|]; try (eexists; reflexivity).
  simpl. rewrite !mbind_unfold. unfold lift.
  destruct (strptime (String c s)); [|discriminate]. eexists. reflexivity.
Qed.

Lemma read_entries_dates (articles : list cr_entry) (t : list (event graph))
  (entries : list entry) :
  read_loop articles = (t, Ok entries) -> Forall2 read_as articles entries.
Proof.
  intros Hrun.
  assert (Hfinal : (fun p acc => Forall2 read_as p acc) ([] ++ articles) entries).
  { eapply (for_each_ok_inv (fun p acc => Forall2 read_as p acc));
      [| |exact Hrun]; [|constructor].
    intros p acc a t1 acc1 HF Hstep. cbv beta in Hstep.
    rewrite mbind_unfold in Hstep.
    apply bind_ok_inv in Hstep as (ta & e & tb & He & Hret & ->).
    rewrite mret_unfold in Hret. injection Hret as _ <-.
    apply Forall2_app; [exact HF|].
    constructor; [by eapply read_ref_entry_date | constructor]. }
  exact Hfinal.
Qed.

Lemma read_entries_total (articles : list cr_entry) :
  Forall (fun a => bad_date strptime a = false) articles ->
  exists entries, read_loop articles = ([], Ok entries).
Proof.
  intros Hall.
  assert (Hgen : forall acc : list entry, exists entries,
    for_each (W := graph) articles
      (fun acc article => e ← read_ref_entry strptime article; mret (acc ++ [e])) acc
    = ([], Ok entries)).
  { induction Hall as [|a articles Ha Hall IH]; intros acc; [by exists acc|].
    destruct (read_ref_entry_total a Ha) as [e He].
    destruct (IH (acc ++ [e])) as [entries Hrest].
    exists entries. simpl. rewrite mbind_unfold.
    assert (Hbody : (e ← read_ref_entry strptime a; mret (acc ++ [e]))
                    = (([], Ok (acc ++ [e])) : M graph (list entry))).
    { rewrite mbind_unfold, He. reflexivity. }
    rewrite (bind_ok_l _ _ _ _ Hbody), Hrest. reflexivity. }
  apply Hgen.
Qed.

Lemma read_loop_trace (articles : list cr_entry) : fst (read_loop articles) = [].
Proof.
  apply no_event_nil. intros ev Hev.
  apply for_each_event in Hev as (s0 & x & _ & Hev). cbv beta in Hev.
  rewrite mbind_unfold in Hev. apply bind_event in Hev as [Hev | (e & _ & Hev)].
  - rewrite read_ref_entry_trace in Hev. by apply elem_of_nil in Hev.
  - by apply elem_of_nil in Hev.
Qed.

(** The node written for an entry read from an article has the article's
    date, parsed and written again. *)
Lemma node_of_date (a : cr_entry) (e : entry) (n : graph_node) :
  entry_date strptime a (re_pub_date e) ->
  node_of strftime e = ([], Ok n) ->
  node_date strptime strftime a (n_pubDate n).
Proof.
  intros Hdate Hnode. unfold entry_date in Hdate. unfold node_date.
  apply node_of_ok in Hnode as (_ & _ & _ & _ & _ & _ & _ & _ & Hpd).
  destruct (e_pub_date a) as [[|c s]|].
  - by rewrite Hdate in Hpd.
  - destruct Hdate as (d & Hd & Hre). rewrite Hre in Hpd.
    destruct Hpd as [Hs [s' Hn]]. rewrite Hn in Hs. simpl in Hs.
    by exists d, s'.
  - by rewrite Hdate in Hpd.
Qed.

(** [strftime] accepts the date of an entry read from an article exactly
    when the date of the article is not an early one. *)
Lemma node_of_early (a : cr_entry) (e : entry) :
  entry_date strptime a (re_pub_date e) ->
  (exists n, node_of strftime e = ([], Ok n))
  <-> early_date strptime strftime a = false.
Proof.
  intros Hdate. unfold entry_date in Hdate. unfold early_date.
  pose proof (node_of_cases strftime e) as Hc.
  destruct (e_pub_date a) as [[|c s]|].
  - rewrite Hdate in Hc. destruct Hc as (n & Hn & _). split; [done | by exists n].
  - destruct Hdate as (d & Hd & Hre). rewrite Hre in Hc. rewrite Hd.
    destruct (strftime d) as [s'|x]; simpl.
    + destruct Hc as (n & Hn & _). split; [done | by exists n].
    + split; [|discriminate]. intros [n Hn]. congruence.
  - rewrite Hdate in Hc. destruct Hc as (n & Hn & _). split; [done | by exists n].
Qed.

Lemma step_8_origin_run (dir : gmap nat (list cr_entry)) (i : nat)
  (articles : list cr_entry) (entries : list entry) (g : graph) :
  dir !! i = Some articles ->
  read_loop articles = ([], Ok entries) ->
  build (find_cross_references RI (new_index RI entries) 3)
    (iterentries RI (new_index RI entries)) = ([], Ok g) ->
  step_8_origin' dir i = ([Write i g], Ok tt).
Proof.
  intros Hdir Hloop Hbuild. unfold step_8_origin, read_file. rewrite Hdir.
  rewrite mbind_unfold. unfold bind at 1. cbn [fst snd mret M_ret ret app].
  rewrite mbind_unfold, (bind_ok_l _ _ _ _ Hloop). cbv zeta.
  rewrite mbind_unfold, (bind_ok_l _ _ _ _ Hbuild). reflexivity.
Qed.

(** An origin ends either with its graph written, the dates of its articles
    read and written again, or with an exception and nothing written. *)
Lemma step_8_origin_cases (dir : gmap nat (list cr_entry)) (i : nat) :
  (exists articles entries g,
      dir !! i = Some articles
      /\ Forall2 read_as articles entries
      /\ build (find_cross_references RI (new_index RI entries) 3)
           (iterentries RI (new_index RI entries)) = ([], Ok g)
      /\ step_8_origin' dir i = ([Write i g], Ok tt))
  \/ (exists x, step_8_origin' dir i = ([], Raise x)).
Proof.
  destruct (dir !! i) as [articles|] eqn:Hdir.
  2:{ right. exists (IOError i). unfold step_8_origin, read_file. by rewrite Hdir. }
  pose proof (read_loop_trace articles) as Ht.
  destruct (read_loop articles) as [tl [entries|x]] eqn:Hloop; simpl in Ht; subst tl.
  - pose proof (build_graph_trace strftime
                  (find_cross_references RI (new_index RI entries) 3)
                  (iterentries RI (new_index RI entries))) as Hb.
    destruct (build _ _) as [tb [g|x]] eqn:Hbuild; simpl in Hb; subst tb.
    + left. exists articles, entries, g. split; [reflexivity|].
      split; [by apply (read_entries_dates articles [])|]. split; [exact Hbuild|].
      by apply (step_8_origin_run dir i articles entries g).
    + right. exists x. unfold step_8_origin, read_file. rewrite Hdir.
      rewrite mbind_unfold. unfold bind at 1. cbn [fst snd mret M_ret ret app].
      rewrite mbind_unfold, (bind_ok_l _ _ _ _ Hloop). cbv zeta.
      rewrite mbind_unfold, (bind_raise_l _ _ _ _ Hbuild). reflexivity.
  - right. exists x. unfold step_8_origin, read_file. rewrite Hdir.
    rewrite mbind_unfold. unfold bind at 1. cbn [fst snd mret M_ret ret app].
    rewrite mbind_unfold, (bind_raise_l _ _ _ _ Hloop). reflexivity.
Qed.

Lemma step_8_origin_write_dates (dir : gmap nat (list cr_entry)) (i0 i : nat) (g : graph) :
  Write i g ∈ fst (step_8_origin' dir i0) ->
  i = i0
  /\ snd (step_8_origin' dir i0) = Ok tt
  /\ exists articles entries,
       dir !! i0 = Some articles
       /\ Forall2 read_as articles entries
       /\ build (find_cross_references RI (new_index RI entries) 3)
            (iterentries RI (new_index RI entries)) = ([], Ok g).
Proof.
  intros Hw.
  destruct (step_8_origin_cases dir i0)
    as [(articles & entries & g' & Hdir & HF & Hbuild & Hrun) | [x Hrun]];
    rewrite Hrun in Hw |- *; simpl in Hw.
  - apply list_elem_of_singleton in Hw. injection Hw as -> ->.
    split; [reflexivity|]. split; [reflexivity|]. by exists articles, entries.
  - by apply elem_of_nil in Hw.
Qed.

Lemma step_8_write (origins : list string) (dir : gmap nat (list cr_entry))
  (i : nat) (g : graph) :
  Write i g ∈ fst (step_8 origins dir) -> Write i g ∈ fst (step_8_origin' dir i).
Proof.
  unfold step_8_find_cross_references. intros He.
  apply for_each_event in He as (s0 & [i0 url] & Hin & He). simpl in He.
  by pose proof (step_8_origin_write_dates _ _ _ _ He) as [-> _].
Qed.

Lemma step_8_origin_written (dir : gmap nat (list cr_entry)) (i : nat)
  (t : list (event graph)) :
  step_8_origin' dir i = (t, Ok tt) -> map fst (written t) = [i].
Proof.
  intros Hrun.
  destruct (step_8_origin_cases dir i)
    as [(articles & entries & g & _ & _ & _ & Hrun') | [x Hrun']];
    rewrite Hrun' in Hrun; [|discriminate].
  by injection Hrun as <-.
Qed.

(** The graph written for articles with distinct ids, node by node. *)
Lemma step_8_nodes (origins : list string) (dir : gmap nat (list cr_entry))
  (i : nat) (g : graph) :
  (forall es, iterentries RI (new_index RI es) ≡ₚ es) ->
  Write i g ∈ fst (step_8 origins dir) ->
  exists articles,
    dir !! i = Some articles
    /\ (forall k, is_Some (nodes g !! k) <-> exists a, a ∈ articles /\ e_id a = k)
    /\ (NoDup (map e_id articles) ->
        forall a, a ∈ articles ->
          exists n, nodes g !! e_id a = Some n
                    /\ n_refId n = e_id a /\ n_url n = e_url a
                    /\ n_text n = e_text a /\ n_title n = e_title a
                    /\ n_sources n = e_sources a /\ n_authors n = e_authors a
                    /\ n_body n = e_body a
                    /\ node_date strptime strftime a (n_pubDate n)).
Proof.
  intros Hiter Hw.
  apply step_8_write, step_8_origin_write_dates in Hw
    as (_ & _ & articles & entries & Hdir & HF & Hbuild).
  set (ix := new_index RI entries) in *.
  set (fl := find_cross_references RI ix 3) in *.
  pose proof (build_graph_ok _ _ _ _ _ Hbuild) as (_ & _ & Hnodes & _).
  assert (Hin : forall e, e ∈ iterentries RI ix <-> e ∈ entries).
  { intros e. unfold ix. by rewrite Hiter. }
  assert (Hids : map ref_id entries = map e_id articles).
  { clear -HF. induction HF as [|a0 e0 la le [[Hm _] _] _ IH]; simpl; congruence. }
  exists articles. split; [exact Hdir|]. split.
  - intros k. specialize (Hnodes k). split.
    + intros Hsome.
      destruct (nodes g !! k) as [n|]; [|by destruct Hsome].
      destruct Hnodes as (e & He & Hk & _). apply Hin in He.
      apply list_elem_of_lookup in He as [j Hj].
      destruct (Forall2_lookup_r _ _ _ _ _ HF Hj) as (a & Ha & [[Hid _] _]).
      exists a. split; [by eapply list_elem_of_lookup_2 | congruence].
    + intros (a & Ha & Hk). apply list_elem_of_lookup in Ha as [j Hj].
      destruct (Forall2_lookup_l _ _ _ _ _ HF Hj) as (e & He & [[Hid _] _]).
      destruct (nodes g !! k) as [n|]; [by eexists|].
      exfalso. apply (Hnodes e); [|congruence].
      apply Hin. by eapply list_elem_of_lookup_2.
  - intros Hnd a Ha. apply list_elem_of_lookup in Ha as [j Hj].
    destruct (Forall2_lookup_l _ _ _ _ _ HF Hj) as (e & He & Hm & Hdate & _).
    destruct Hm as (Hid & Hurl & Htext & Htitle & Hsrc & Hauth & Hbody).
    assert (Hnd' : NoDup (map ref_id (iterentries RI ix))).
    { unfold ix. rewrite Hiter, Hids. exact Hnd. }
    destruct (build_graph_node_unique _ _ _ _ _ e Hbuild) as (n & En & Hnode);
      [apply Hin; by eapply list_elem_of_lookup_2 | exact Hnd' |].
    exists n. rewrite <- Hid. split; [exact En|].
    pose proof (node_of_date a e n Hdate Hnode) as Hnd2.
    apply node_of_ok in Hnode as (_ & -> & -> & -> & -> & -> & -> & -> & _).
    by repeat split.
Qed.

Lemma step_8_origin_own_file (dir : gmap nat (list cr_entry)) (i j : nat) (g : graph) :
  Write j g ∈ fst (step_8_origin' dir i) ->
  j = i /\ snd (step_8_origin' dir i) = Ok tt.
Proof.
  intros Hw. apply step_8_origin_write_dates in Hw as (-> & Hok & _). by split.
Qed.

(** X20. Step 8 writes the graph of an origin only when [strptime] accepts
    every date of its articles that is not empty; the [pubDate] of a node is
    then the parsed date written again with [strftime], and an article
    without a date, or with an empty one, gets a node without [pubDate]. *)
Theorem step_8_dates_parsed_and_rewritten (origins : list string)
  (dir : gmap nat (list cr_entry)) (i : nat) (g : graph) :
  (forall es, iterentries RI (new_index RI es) ≡ₚ es) ->
  Write i g ∈ fst (step_8 origins dir) ->
  exists articles,
    dir !! i = Some articles
    /\ Forall (fun a => bad_date strptime a = false) articles
    /\ (NoDup (map e_id articles) ->
        forall a, a ∈ articles ->
          exists n, nodes g !! e_id a = Some n
                    /\ node_date strptime strftime a (n_pubDate n)).
Proof.
  intros Hiter Hw.
  destruct (step_8_nodes origins dir i g Hiter Hw) as (articles & Hdir & _ & Hnodes).
  exists articles. split; [exact Hdir|]. split.
  - apply step_8_write, step_8_origin_write_dates in Hw
      as (_ & _ & articles' & entries & Hdir' & HF & _).
    rewrite Hdir in Hdir'. injection Hdir' as <-.
    apply Forall_forall. intros a Ha. apply list_elem_of_lookup in Ha as [j Hj].
    by destruct (Forall2_lookup_l _ _ _ _ _ HF Hj) as (e & _ & _ & _ & Hok).
  - intros Hnd a Ha.
    destruct (Hnodes Hnd a Ha) as (n & Hn & _ & _ & _ & _ & _ & _ & _ & Hdate).
    by exists n.
Qed.

(** X21. What stops step 8: a missing entry file, and a date that is not
    empty and that [strptime] rejects. The origin then ends with an exception
    and writes no graph, and the stage ends with that exception, without a
    graph for that origin or any later one. *)
Theorem step_8_stops_at_bad_date :
  (forall dir i,
      dir !! i = None -> step_8_origin' dir i = ([], Raise (IOError i)))
  /\ (forall dir i articles a,
        dir !! i = Some articles -> a ∈ articles ->
        bad_date strptime a = true ->
        exists t x, step_8_origin' dir i = (t, Raise x)
                    /\ forall j g, Write j g ∉ t)
  /\ (forall origins dir k t x,
        (k < length origins)%nat ->
        (forall j, (j < k)%nat -> snd (step_8_origin' dir j) = Ok tt) ->
        step_8_origin' dir k = (t, Raise x) ->
        snd (step_8 origins dir) = Raise x
        /\ forall j g, (k <= j)%nat -> Write j g ∉ fst (step_8 origins dir)).
Proof.
  split; [|split].
  - intros dir i Hdir. unfold step_8_origin, read_file. by rewrite Hdir.
  - intros dir i articles a Hdir Ha Hbad.
    destruct (step_8_origin_cases dir i)
      as [(articles' & entries & g & Hdir' & HF & _) | [x Hrun]].
    + exfalso. rewrite Hdir in Hdir'. injection Hdir' as <-.
      apply list_elem_of_lookup in Ha as [j Hj].
      destruct (Forall2_lookup_l _ _ _ _ _ HF Hj) as (e & _ & _ & _ & Hok).
      congruence.
    + exists [], x. split; [exact Hrun|]. intros j g Hw. by apply elem_of_nil in Hw.
  - intros origins dir k t x Hk Hpre E.
    apply (stage_raises (step_8_origin' dir) origins k t x); try assumption.
    intros i j g. apply step_8_origin_own_file.
Qed.

(** An origin ends normally exactly when it has its entry file and both
    [strptime] and [strftime] accept every date in it that is not empty. *)
Lemma step_8_origin_ok_iff (dir : gmap nat (list cr_entry)) (i : nat) :
  (forall es, iterentries RI (new_index RI es) ≡ₚ es) ->
  snd (step_8_origin' dir i) = Ok tt
  <-> exists articles,
        dir !! i = Some articles
        /\ Forall (fun a => bad_date strptime a = false
                            /\ early_date strptime strftime a = false) articles.
Proof.
  intros Hiter. split.
  - intros Hok.
    destruct (step_8_origin_cases dir i)
      as [(articles & entries & g & Hdir & HF & Hbuild & _) | [x Hrun]];
      [|rewrite Hrun in Hok; discriminate].
    exists articles. split; [exact Hdir|].
    apply build_graph_ok in Hbuild as (_ & _ & _ & Hall).
    rewrite Forall_forall in Hall.
    apply Forall_forall. intros a Ha. apply list_elem_of_lookup in Ha as [j Hj].
    destruct (Forall2_lookup_l _ _ _ _ _ HF Hj) as (e & He & _ & Hdate & Hbad).
    split; [exact Hbad|].
    apply (node_of_early a e Hdate). apply Hall.
    rewrite Hiter. by eapply list_elem_of_lookup_2.
  - intros (articles & Hdir & Hgood).
    assert (Hbad : Forall (fun a => bad_date strptime a = false) articles)
      by (eapply Forall_impl; [exact Hgood|]; by intros a [? _]).
    destruct (read_entries_total articles Hbad) as [entries Hloop].
    pose proof (read_entries_dates articles [] entries Hloop) as HF.
    destruct (build_graph_total strftime
                (find_cross_references RI (new_index RI entries) 3)
                (iterentries RI (new_index RI entries))) as [g Hbuild].
    { apply Forall_forall. intros e He. rewrite Hiter in He.
      apply list_elem_of_lookup in He as [j Hj].
      destruct (Forall2_lookup_r _ _ _ _ _ HF Hj) as (a & Ha & _ & Hdate & _).
      apply (node_of_early a e Hdate).
      rewrite Forall_forall in Hgood.
      by destruct (Hgood a (list_elem_of_lookup_2 _ _ _ Ha)). }
    by rewrite (step_8_origin_run dir i articles entries g Hdir Hloop Hbuild).
Qed.

(** X22. When the index enumerates the entries it was built from, step 8
    ends normally exactly when every origin has its entry file and, for
    every date in it that is not empty, [strptime] accepts the string and
    [strftime] accepts the date parsed from it; it has then written one
    graph per origin, in the order of the origins. *)
Theorem step_8_ends_normally (origins : list string) (dir : gmap nat (list cr_entry)) :
  (forall es, iterentries RI (new_index RI es) ≡ₚ es) ->
  (snd (step_8 origins dir) = Ok tt
   <-> forall i, (i < length origins)%nat ->
         exists articles,
           dir !! i = Some articles
           /\ Forall (fun a => bad_date strptime a = false
                               /\ early_date strptime strftime a = false) articles)
  /\ (snd (step_8 origins dir) = Ok tt ->
      map fst (written (fst (step_8 origins dir))) = seq 0 (length origins)).
Proof.
  intros Hiter. split; [split|].
  - intros Hok i Hi. apply (step_8_origin_ok_iff dir i Hiter).
    destruct (step_8 origins dir) as [t r] eqn:Hrun. simpl in Hok. subst r.
    unfold step_8_find_cross_references, enumerate in Hrun.
    apply (stage_ok_inv (step_8_origin' dir)) in Hrun as (ts & Hlen & _ & Hts).
    destruct (lookup_lt_is_Some_2 ts i) as [ti Hti]; [lia|].
    pose proof (Hts i ti Hti) as Hb. cbn [Nat.add] in Hb. by rewrite Hb.
  - intros Hall.
    destruct (stage_total (step_8_origin' dir) origins) as [t Hrun].
    { intros i Hi. apply (step_8_origin_ok_iff dir i Hiter) in Hall; [|exact Hi].
      destruct (step_8_origin' dir i) as [ti ri]. simpl in Hall. subst ri.
      by exists ti. }
    unfold step_8_find_cross_references. by rewrite Hrun.
  - intros Hok.
    destruct (step_8 origins dir) as [t r] eqn:Hrun. simpl in Hok. subst r. simpl.
    apply (stage_written (step_8_origin' dir) origins t); [|exact Hrun].
    intros i ti. apply step_8_origin_written.
Qed.

End Step8More.

(** * Step 8 on the checkpoint of step 7 *)

Section Step7Then8.
Import PyStr Pipeline Checkpoints.
Context {gse_item article raw_date raw_author datetime : Type}.
Context `{SetOrder}.
Variable blacklist : string -> bool.
Variable extractor : EntityExtractor gse_item article raw_date raw_author.
Variable normalizer : EntityNormalizer article raw_date raw_author.
Variable strptime : string -> result datetime.
Variable strftime : datetime -> result string.
Variable RI : ReferenceIndex (datetime := datetime).

Local Abbreviation step_7 := (step_7_gen_cr_data blacklist extractor normalizer).
Local Abbreviation step_8 := (step_8_find_cross_references strptime strftime RI).

Lemma consecutive_ids (es : list cr_entry) :
  (forall k e, es !! k = Some e -> e_id e = (Z.of_nat k + 1)%Z) ->
  NoDup (map e_id es)
  /\ forall id, (exists a, a ∈ es /\ e_id a = id)
                <-> (1 <= id <= Z.of_nat (length es))%Z.
Proof.
  intros Hids. split.
  - apply NoDup_alt. intros j1 j2 id H1 H2.
    rewrite list_lookup_fmap in H1, H2.
    destruct (es !! j1) as [e1|] eqn:E1; [|discriminate].
    destruct (es !! j2) as [e2|] eqn:E2; [|discriminate].
    simpl in H1, H2. injection H1 as H1. injection H2 as H2.
    rewrite (Hids j1 e1 E1) in H1. rewrite (Hids j2 e2 E2) in H2. lia.
  - intros id. split.
    + intros (a & Ha & Hid). apply list_elem_of_lookup in Ha as [k Hk].
      pose proof (lookup_lt_Some _ _ _ Hk). rewrite (Hids k a Hk) in Hid. lia.
    + intros Hid.
      destruct (lookup_lt_is_Some_2 es (Z.to_nat (id - 1))) as [a Ha]; [lia|].
      exists a. split; [by eapply list_elem_of_lookup_2|].
      rewrite (Hids _ a Ha). lia.
Qed.

(** X23. When step 8 reads the checkpoint step 7 left, the graph of an
    origin has exactly one node per entry of the origin, under the ids
    1, 2, ..., and the node under [k + 1] carries the fields of the [k]-th
    entry; the URL of no node is blacklisted. *)
Theorem step_8_after_step_7 (origins origins_8 : list string)
  (dir : gmap nat (list (candidate gse_item))) (i : nat) (g : graph) :
  (forall es, iterentries RI (new_index RI es) ≡ₚ es) ->
  Write i g ∈ fst (step_8 origins_8 (checkpoint (fst (step_7 origins dir)))) ->
  exists es,
    Write i es ∈ fst (step_7 origins dir)
    /\ (forall id, is_Some (nodes g !! id) <-> (1 <= id <= Z.of_nat (length es))%Z)
    /\ forall k e, es !! k = Some e ->
         exists n, nodes g !! (Z.of_nat k + 1)%Z = Some n
                   /\ n_refId n = (Z.of_nat k + 1)%Z
                   /\ n_url n = e_url e /\ n_text n = e_text e
                   /\ n_title n = e_title e /\ n_sources n = e_sources e
                   /\ n_authors n = e_authors e /\ n_body n = e_body e
                   /\ blacklist (n_url n) = false.
Proof.
  intros Hiter Hw.
  destruct (step_8_nodes strptime strftime RI origins_8 _ i g Hiter Hw)
    as (es & Hdir & Hkeys & Hnodes).
  apply checkpoint_lookup in Hdir.
  exists es. split; [exact Hdir|].
  assert (Hloop : forall k e, es !! k = Some e ->
            e_id e = (Z.of_nat k + 1)%Z /\ blacklist (e_url e) = false).
  { intros k e Hk.
    pose proof Hdir as Hd.
    apply step_7_write, step_7_origin_write in Hd
      as (_ & link_entries & t & st & _ & Hrun & ->).
    apply gen_loop_ok in Hrun as [_ Hall].
    destruct (Hall k e Hk) as (? & ? & _). by split. }
  destruct (consecutive_ids es) as [Hnd Hrange].
  { intros k e Hk. by destruct (Hloop k e Hk). }
  split.
  - intros id. rewrite Hkeys. apply Hrange.
  - intros k e Hk. destruct (Hloop k e Hk) as [Hid Hb].
    destruct (Hnodes Hnd e) as (n & Hn & Hr & Hurl & Htext & Htitle & Hsrc & Hau & Hbody & _).
    { by eapply list_elem_of_lookup_2. }
    exists n. rewrite <- Hid. split; [exact Hn|].
    repeat (split; [assumption|]). by rewrite Hurl.
Qed.

End Step7Then8.

(** * Step 8 in the small world *)

Section Step8Runs.
Import PyStr Pipeline Checkpoints Demo.

Local Abbreviation step_7 := (step_7_gen_cr_data blacklist extractor normalizer).
Local Abbreviation step_8 :=
  (step_8_find_cross_references strptime strftime reference_index).

Lemma demo_index_keeps_entries (es : list (ReferenceEntry (datetime := string))) :
  iterentries reference_index (new_index reference_index es) ≡ₚ es.
Proof. reflexivity. Qed.

Lemma step_8_writes_graph : Write 0%nat graph_0 ∈ fst (step_8 origins crossref_in_dir).
Proof. rewrite step_8_run. left. Qed.

Lemma step_8_dates_parsed_and_rewritten_witness :
  exists articles,
    crossref_in_dir !! 0%nat = Some articles
    /\ Forall (fun a => bad_date strptime a = false) articles
    /\ (NoDup (map e_id articles) ->
        forall a, a ∈ articles ->
          exists n, nodes graph_0 !! e_id a = Some n
                    /\ node_date strptime strftime a (n_pubDate n)).
Proof.
  apply (step_8_dates_parsed_and_rewritten strptime strftime reference_index
           origins crossref_in_dir 0%nat graph_0).
  - exact demo_index_keeps_entries.
  - exact step_8_writes_graph.
Defined.

(** The date [yesterday] stops the origin and the stage. *)
Lemma step_8_stops_at_bad_date_witness :
  (exists t x,
      step_8_origin Step8Demo.strptime strftime reference_index
        Step8Demo.crossref_bad_dir 0%nat = (t, Raise x)
      /\ forall j g, Write j g ∉ t)
  /\ snd (step_8_find_cross_references Step8Demo.strptime strftime reference_index
            origins Step8Demo.crossref_bad_dir)
     = Raise (Failure "does not match format").
Proof.
  destruct (step_8_stops_at_bad_date Step8Demo.strptime strftime reference_index)
    as (_ & Horigin & Hstage).
  split.
  - apply (Horigin Step8Demo.crossref_bad_dir 0%nat
             [entry_a; Step8Demo.entry_undated] Step8Demo.entry_undated).
    + reflexivity.
    + right. left.
    + reflexivity.
  - apply (Hstage origins Step8Demo.crossref_bad_dir 0%nat []
             (Failure "does not match format")).
    + simpl. lia.
    + intros j Hj. lia.
    + vm_compute. reflexivity.
Defined.

(** The file of the small world has one date, of the year 2020, and one
    article without a date. *)
Lemma step_8_ends_normally_witness :
  snd (step_8 origins crossref_in_dir) = Ok tt
  /\ map fst (written (fst (step_8 origins crossref_in_dir))) = seq 0 (length origins).
Proof.
  destruct (step_8_ends_normally strptime strftime reference_index
              origins crossref_in_dir demo_index_keeps_entries) as [[_ Hok] Hwritten].
  assert (Hrun : snd (step_8 origins crossref_in_dir) = Ok tt).
  { apply Hok. intros i Hi. exists [entry_a; entry_c]. split.
    - destruct i as [|i]; [reflexivity | simpl in Hi; lia].
    - repeat constructor. }
  split; [exact Hrun | exact (Hwritten Hrun)].
Defined.

(** A date of the year 1899 is read and cannot be written again: the origin
    ends with the exception of [strftime], and no graph is written. *)
Example step_8_early_date_run :
  early_date Step8Demo.strptime strftime Step8Demo.entry_1899 = true
  /\ step_8_find_cross_references Step8Demo.strptime strftime reference_index
       origins Step8Demo.crossref_early_dir
     = ([], Raise (Failure "year is before 1900")).
Proof. split; vm_compute; reflexivity. Qed.

Lemma step_8_reads_step_7 :
  fst (step_8 origins (checkpoint (fst (step_7 origins related_links_dir))))
  = [Write 0%nat graph_0].
Proof. vm_compute. reflexivity. Qed.

(** The two entries of the small world give the nodes 1 and 2. *)
Lemma step_8_after_step_7_witness :
  exists es,
    Write 0%nat es ∈ fst (step_7 origins related_links_dir)
    /\ (forall id, is_Some (nodes graph_0 !! id)
                   <-> (1 <= id <= Z.of_nat (length es))%Z)
    /\ forall k e, es !! k = Some e ->
         exists n, nodes graph_0 !! (Z.of_nat k + 1)%Z = Some n
                   /\ n_refId n = (Z.of_nat k + 1)%Z
                   /\ n_url n = e_url e /\ n_text n = e_text e
                   /\ n_title n = e_title e /\ n_sources n = e_sources e
                   /\ n_authors n = e_authors e /\ n_body n = e_body e
                   /\ blacklist (n_url n) = false.
Proof.
  apply (step_8_after_step_7 blacklist extractor normalizer strptime strftime
           reference_index origins origins related_links_dir 0%nat graph_0).
  - exact demo_index_keeps_entries.
  - rewrite step_8_reads_step_7. left.
Defined.

End Step8Runs.

(** * Step 7 on the checkpoint of step 6 *)

Section Step6Then7.
Import PyStr Pipeline Checkpoints.
Context {gse_item pattern article raw_date raw_author : Type}.
Context `{SetOrder}.
Variable item_link : gse_item -> string.
Variable blacklist : string -> bool.
Variable text_util : TextUtil pattern.
Variable fetch_urls : gmap string (option string) -> gmap string (option string).
Variable extractor : EntityExtractor gse_item article raw_date raw_author.
Variable normalizer : EntityNormalizer article raw_date raw_author.

Local Abbreviation step_6 :=
  (step_6_filter_out_unrelated item_link blacklist text_util fetch_urls).
Local Abbreviation step_7 := (step_7_gen_cr_data blacklist extractor normalizer).

(** X24. When step 7 reads the checkpoint step 6 left, no URL is annotated
    twice for an origin, and every entry comes from a record of step 6 for
    that origin whose best ratio is above 0.5, with the record's URL and
    body, in the order of the records. *)
Theorem step_7_after_step_6 (origins origins_7 : list string)
  (dir : gmap nat (list (segment_entry gse_item))) (i : nat) (es : list cr_entry) :
  Write i es ∈ fst (step_7 origins_7 (checkpoint (fst (step_6 origins dir)))) ->
  exists recs rs,
    Write i recs ∈ fst (step_6 origins dir)
    /\ rs `sublist_of` recs
    /\ Forall2 (fun r e => e_url e = c_url r /\ e_body e = c_body r
                           /\ (1 # 2 < bestRatio r)%Q) rs es
    /\ NoDup (map e_url es).
Proof.
  intros Hw.
  destruct (step_7_origin_entries blacklist extractor normalizer origins_7 _ i es Hw)
    as (recs & rs & Hdir & Hsub & HF & _).
  apply checkpoint_lookup in Hdir.
  exists recs, rs. split; [exact Hdir|]. split; [exact Hsub|].
  pose proof Hdir as Hd.
  apply step_6_write in Hd as [_ Hd].
  apply step_6_origin_write in Hd as (_ & gse & _ & HV).
  assert (Hratio : forall r, r ∈ recs -> highRatio r = Qgtb (bestRatio r) (1 # 2)).
  { intros r Hr. apply list_elem_of_lookup in Hr as [k Hk].
    destruct (Forall2_lookup_r _ _ _ _ _ HV Hk) as (u & _ & Hv).
    by destruct Hv as (_ & _ & _ & _ & Hhigh & _). }
  assert (Hurls : NoDup (map c_url recs)).
  { assert (Hmap : map c_url recs
                   = set_iter (dom (fetch_urls (related_url2html
                       (discover item_link blacklist text_util gse))))).
    { clear -HV. induction HV as [|u0 r urls recs' Hv HV IH]; [reflexivity|].
      simpl. rewrite IH. by destruct Hv as [-> _]. }
    rewrite Hmap. apply set_iter_NoDup. }
  split.
  - apply Forall2_same_length_lookup. split; [by eapply Forall2_length|].
    intros k r e Hr He.
    destruct (Forall2_lookup_lr _ _ _ _ _ _ HF Hr He) as (Hh & _ & Hurl & Hbody & _).
    split; [exact Hurl|]. split; [exact Hbody|].
    apply Qgtb_true. rewrite <- Hratio; [exact Hh|].
    eapply elem_of_sublist; [|exact Hsub]. by eapply list_elem_of_lookup_2.
  - assert (Hsame : map e_url es = map c_url rs).
    { clear -HF. induction HF as [|r e rs es (_ & _ & Hurl & _) _ IH]; simpl;
        congruence. }
    rewrite Hsame. assert (Hs : map c_url rs `sublist_of` map c_url recs)
      by (by apply (fmap_sublist c_url)).
    eauto using sublist_NoDup.
Qed.

End Step6Then7.

Section Step6Then7Runs.
Import PyStr Pipeline Checkpoints Demo.

Local Abbreviation step_6 :=
  (step_6_filter_out_unrelated item_link blacklist text_util fetch_urls).
Local Abbreviation step_7 := (step_7_gen_cr_data blacklist extractor normalizer).

Lemma step_7_reads_step_6 :
  fst (step_7 origins (checkpoint (fst (step_6 origins origin_gse_dir))))
  = [Log (SavingEntries 1); Write 0%nat [entry_a]].
Proof. vm_compute. reflexivity. Qed.

(** Of the two records of the small world, the one above 0.5 is annotated. *)
Lemma step_7_after_step_6_witness :
  exists recs rs,
    Write 0%nat recs ∈ fst (step_6 origins origin_gse_dir)
    /\ rs `sublist_of` recs
    /\ Forall2 (fun r e => e_url e = c_url r /\ e_body e = c_body r
                           /\ (1 # 2 < bestRatio r)%Q) rs [entry_a]
    /\ NoDup (map e_url [entry_a]).
Proof.
  apply (step_7_after_step_6 item_link blacklist text_util fetch_urls
           extractor normalizer origins origins origin_gse_dir 0%nat [entry_a]).
  rewrite step_7_reads_step_6. right. left.
Defined.

End Step6Then7Runs.

(** * Steps 2 to 5: the loop over the origins and the files it leaves *)

Section EarlyFacts.
Import PyStr Pipeline Early.
Context {W L : Type}.

Lemma files_lookup (t : list (event W L)) (j : nat) :
  files t !! j = fold_left (file_step j) t None.
Proof.
  unfold files.
  assert (Hgen : forall acc : gmap nat (option W),
    fold_left (fun dir e => match e with
                            | Opened i => <[i := None]> dir
                            | Wrote i content => <[i := Some content]> dir
                            | Logged _ => dir
                            end) t acc !! j
    = fold_left (file_step j) t (acc !! j)).
  2:{ rewrite Hgen. by rewrite lookup_empty. }
  induction t as [|e t IH]; intros acc; [reflexivity|].
  simpl. rewrite IH. f_equal. destruct e as [i|i c|m]; simpl; [| |reflexivity].
  - destruct (decide (i = j)) as [->|Hne];
      [by rewrite lookup_insert_eq | by rewrite lookup_insert_ne].
  - destruct (decide (i = j)) as [->|Hne];
      [by rewrite lookup_insert_eq | by rewrite lookup_insert_ne].
Qed.

Variable body : nat -> string -> list (event W L) * result unit.

(** The traces of the origins, one after the other. *)
Local Abbreviation traces :=
  (fun (i : nat) (origins : list string) =>
     concat (imap (fun k url => fst (body (i + k) url)) origins)).

Lemma traces_cons (i : nat) (url : string) (origins : list string) :
  traces i (url :: origins) = fst (body i url) ++ traces (S i) origins.
Proof.
  simpl. rewrite Nat.add_0_r. f_equal. f_equal. apply imap_ext.
  intros k u _. simpl. f_equal. f_equal. lia.
Qed.

Lemma for_origins_ok (origins : list string) :
  forall i,
    (forall k url, origins !! k = Some url -> snd (body (i + k) url) = Ok tt) ->
    for_origins body i origins = (traces i origins, Ok tt).
Proof.
  induction origins as [|url origins IH]; intros i Hall; [reflexivity|].
  rewrite traces_cons. cbn [for_origins].
  specialize (Hall 0%nat url eq_refl) as H0. rewrite Nat.add_0_r in H0.
  destruct (body i url) as [t r]. simpl in H0. subst r.
  rewrite IH; [reflexivity|].
  intros k u Hk. replace (S i + k)%nat with (i + S k)%nat by lia. by apply Hall.
Qed.

Lemma for_origins_raise (origins : list string) :
  forall i k url t x,
    origins !! k = Some url ->
    (forall j u, (j < k)%nat -> origins !! j = Some u ->
                 snd (body (i + j) u) = Ok tt) ->
    body (i + k) url = (t, Raise x) ->
    for_origins body i origins = (traces i (take k origins) ++ t, Raise x).
Proof.
  induction origins as [|u0 origins IH]; intros i k url t x Hk Hpre Hraise;
    [discriminate|].
  destruct k as [|k].
  - injection Hk as ->. rewrite Nat.add_0_r in Hraise.
    cbn [for_origins]. by rewrite Hraise.
  - simpl in Hk. cbn [take]. rewrite traces_cons. cbn [for_origins].
    specialize (Hpre 0%nat u0 ltac:(lia) eq_refl) as H0. rewrite Nat.add_0_r in H0.
    destruct (body i u0) as [t0 r0]. simpl in H0. subst r0.
    rewrite (IH (S i) k url t x Hk).
    + simpl. by rewrite app_assoc.
    + intros j u Hj Hu. replace (S i + j)%nat with (i + S j)%nat by lia.
      apply Hpre; [lia | exact Hu].
    + by replace (S i + k)%nat with (i + S k)%nat by lia.
Qed.

(** Each origin touches its own file only: then file [j] is as origin [j]
    left it. *)
Lemma file_after_traces (origins : list string) (j : nat) :
  forall i s,
    (forall k url j' s', origins !! k = Some url -> j' <> (i + k)%nat ->
                         fold_left (file_step j') (fst (body (i + k) url)) s' = s') ->
    fold_left (file_step j) (traces i origins) s
    = match origins !! (j - i)%nat with
      | Some url => if decide (i <= j)%nat
                    then fold_left (file_step j) (fst (body j url)) s else s
      | None => s
      end.
Proof.
  induction origins as [|url origins IH]; intros i s Hown.
  - by rewrite lookup_nil.
  - rewrite traces_cons, fold_left_app.
    destruct (decide (j = i)) as [->|Hne].
    + rewrite Nat.sub_diag.
      change ((url :: origins) !! 0%nat) with (Some url). cbv beta iota.
      rewrite decide_True by lia.
      rewrite IH.
      * replace (i - S i)%nat with 0%nat by lia.
        destruct origins as [|u1 origins']; [reflexivity|].
        change ((u1 :: origins') !! 0%nat) with (Some u1). cbv beta iota.
        by rewrite decide_False by lia.
      * intros k u j' s' Hk Hj'. replace (S i + k)%nat with (i + S k)%nat by lia.
        apply Hown; [exact Hk | lia].
    + specialize (Hown 0%nat url j s eq_refl) as H0.
      rewrite Nat.add_0_r in H0. rewrite H0 by exact Hne.
      rewrite IH.
      2:{ intros k u j' s' Hk Hj'. replace (S i + k)%nat with (i + S k)%nat by lia.
          apply Hown; [exact Hk | lia]. }
      destruct (decide (i <= j)%nat) as [Hle|Hgt].
      * replace (j - i)%nat with (S (j - S i)) by lia.
        change ((url :: origins) !! S (j - S i)) with (origins !! (j - S i)%nat).
        destruct (origins !! (j - S i)%nat); [|reflexivity].
        by rewrite decide_True by lia.
      * replace (j - i)%nat with 0%nat by lia.
        replace (j - S i)%nat with 0%nat by lia.
        change ((url :: origins) !! 0%nat) with (Some url). cbv beta iota.
        destruct origins as [|u1 origins']; [reflexivity|].
        change ((u1 :: origins') !! 0%nat) with (Some u1). cbv beta iota.
        by rewrite decide_False by lia.
Qed.

Lemma for_origins_inv (origins : list string) :
  forall i t r,
    for_origins body i origins = (t, r) ->
    match r with
    | Ok _ =>
        t = traces i origins
        /\ forall k url, origins !! k = Some url -> snd (body (i + k) url) = Ok tt
    | Raise x =>
        exists k url tk,
          origins !! k = Some url
          /\ (forall j u, (j < k)%nat -> origins !! j = Some u ->
                          snd (body (i + j) u) = Ok tt)
          /\ body (i + k) url = (tk, Raise x)
          /\ t = traces i (take k origins) ++ tk
    end.
Proof.
  induction origins as [|url origins IH]; intros i t r Hrun.
  - simpl in Hrun. injection Hrun as <- <-. split; [reflexivity|].
    intros k u Hk. by rewrite lookup_nil in Hk.
  - cbn [for_origins] in Hrun.
    destruct (body i url) as [t0 [[]|x0]] eqn:E0.
    + destruct (for_origins body (S i) origins) as [t1 r1] eqn:E1.
      simpl in Hrun. injection Hrun as <- <-.
      specialize (IH (S i) t1 r1 E1). destruct r1 as [[]|x].
      * destruct IH as [-> Hall]. split.
        { rewrite traces_cons. by rewrite E0. }
        intros [|k] u Hk.
        -- injection Hk as <-. rewrite Nat.add_0_r. by rewrite E0.
        -- replace (i + S k)%nat with (S i + k)%nat by lia. by apply Hall.
      * destruct IH as (k & u & tk & Hk & Hpre & Hraise & ->).
        exists (S k), u, tk. split; [exact Hk|]. split.
        { intros [|j] u' Hj Hu'.
          - injection Hu' as <-. rewrite Nat.add_0_r. by rewrite E0.
          - replace (i + S j)%nat with (S i + j)%nat by lia.
            apply Hpre; [lia | exact Hu']. }
        split.
        { by replace (i + S k)%nat with (S i + k)%nat by lia. }
        cbn [take]. rewrite traces_cons, E0. simpl. by rewrite app_assoc.
    + injection Hrun as <- <-. exists 0%nat, url, t0.
      split; [reflexivity|]. split; [intros j u Hj; lia|].
      split; [by rewrite Nat.add_0_r | reflexivity].
Qed.

Lemma traces_split (origins : list string) :
  forall i k url,
    origins !! k = Some url ->
    exists t1 t2, traces i origins = t1 ++ fst (body (i + k) url) ++ t2.
Proof.
  induction origins as [|u0 origins IH]; intros i k url Hk; [discriminate|].
  rewrite traces_cons. destruct k as [|k].
  - injection Hk as ->. rewrite Nat.add_0_r. by exists [], (traces (S i) origins).
  - destruct (IH (S i) k url Hk) as (t1 & t2 & ->).
    exists (fst (body i u0) ++ t1), t2.
    replace (i + S k)%nat with (S i + k)%nat by lia. by rewrite <- app_assoc.
Qed.

Lemma files_written (t : list (event W L)) (i : nat) (c : W) :
  files t !! i = Some (Some c) -> Wrote i c ∈ t.
Proof.
  rewrite files_lookup.
  assert (Hgen : forall s,
    fold_left (file_step i) t s = Some (Some c) -> s = Some (Some c) \/ Wrote i c ∈ t).
  { induction t as [|e t IH]; intros s Hs; [by left|].
    simpl in Hs. apply IH in Hs as [Hs|Hs]; [|right; by right].
    destruct e as [j|j c'|m]; simpl in Hs.
    - destruct (decide (j = i)); [discriminate | by left].
    - destruct (decide (j = i)) as [->|]; [|by left].
      injection Hs as ->. right. left.
    - by left. }
  intros Hs. by apply Hgen in Hs as [Hs|Hs].
Qed.

Lemma elem_of_traces (origins : list string) (e : event W L) :
  forall i, e ∈ traces i origins ->
            exists k url, origins !! k = Some url /\ e ∈ fst (body (i + k) url).
Proof.
  induction origins as [|url origins IH]; intros i He.
  - by apply elem_of_nil in He.
  - rewrite traces_cons in He. apply elem_of_app in He as [He|He].
    + exists 0%nat, url. split; [reflexivity|]. by rewrite Nat.add_0_r.
    + destruct (IH (S i) He) as (k & u & Hk & Hin).
      exists (S k), u. split; [exact Hk|].
      by replace (i + S k)%nat with (S i + k)%nat by lia.
Qed.

(** Origins that each contribute the one item [f (i + k)] give the items
    [f i], [f (i + 1)], ... *)
Lemma omap_traces {B : Type} (sel : event W L -> option B) (f : nat -> list B)
  (origins : list string) :
  forall i,
    (forall k url, origins !! k = Some url ->
                   omap sel (fst (body (i + k) url)) = f (i + k)%nat) ->
    omap sel (traces i origins) = concat (map f (seq i (length origins))).
Proof.
  induction origins as [|url origins IH]; intros i Hall; [reflexivity|].
  rewrite traces_cons, omap_app. cbn [length seq map concat].
  specialize (Hall 0%nat url eq_refl) as H0. rewrite Nat.add_0_r in H0.
  rewrite H0. f_equal. apply IH.
  intros k u Hk. replace (S i + k)%nat with (i + S k)%nat by lia. by apply Hall.
Qed.

Lemma concat_singletons {B : Type} (g : nat -> B) (l : list nat) :
  concat (map (fun k => [g k]) l) = map g l.
Proof. induction l as [|k l IH]; simpl; [reflexivity | by rewrite IH]. Qed.

Lemma concat_nils {B : Type} (l : list nat) :
  concat (map (fun _ => ([] : list B)) l) = [].
Proof. induction l as [|k l IH]; simpl; [reflexivity | exact IH]. Qed.

End EarlyFacts.

Section OutcomeFacts.
Import PyStr Pipeline Early.
Context {W L : Type}.
Variable body : nat -> string -> list (event W L) * result unit.

Lemma map_fst_wrote (t : list (event W L)) :
  map fst (wrote t)
  = omap (fun e => match e with Wrote i _ => Some i | _ => None end) t.
Proof.
  unfold wrote.
  induction t as [|[i|i c|m] t IH]; [reflexivity|..]; simpl; [|f_equal|]; exact IH.
Qed.

(** What the loop over the origins leaves, when every origin that ends
    normally opens and writes its own file, once, and no origin touches the
    file of another. *)
Lemma for_origins_outcome (origins : list string)
  (t : list (event W L)) (r : result unit) :
  (forall i url, snd (body i url) = Ok tt ->
                 opened (fst (body i url)) = [i]
                 /\ map fst (wrote (fst (body i url))) = [i]) ->
  (forall i url j s, j <> i -> fold_left (file_step j) (fst (body i url)) s = s) ->
  for_origins body 0 origins = (t, r) ->
  match r with
  | Ok _ =>
      opened t = seq 0 (length origins)
      /\ map fst (wrote t) = seq 0 (length origins)
      /\ forall e, e ∈ t ->
           exists k url, origins !! k = Some url /\ snd (body k url) = Ok tt
                         /\ e ∈ fst (body k url)
  | Raise x =>
      exists k url tk,
        origins !! k = Some url
        /\ body k url = (tk, Raise x)
        /\ opened t = seq 0 k ++ opened tk
        /\ map fst (wrote t) = seq 0 k ++ map fst (wrote tk)
        /\ files t !! k = fold_left (file_step k) tk None
  end.
Proof.
  intros Hshape Hown Hrun.
  assert (Hprefix : forall l : list string,
    (forall k url, l !! k = Some url -> snd (body (0 + k) url) = Ok tt) ->
    opened (concat (imap (fun k url => fst (body (0 + k) url)) l)) = seq 0 (length l)
    /\ map fst (wrote (concat (imap (fun k url => fst (body (0 + k) url)) l)))
       = seq 0 (length l)).
  { intros l Hall. split.
    - unfold opened. rewrite (omap_traces body _ (fun k => [k])).
      + by rewrite concat_singletons, map_id.
      + intros k url Hk. destruct (Hshape _ url (Hall k url Hk)) as [Ho _].
        exact Ho.
    - rewrite map_fst_wrote. rewrite (omap_traces body _ (fun k => [k])).
      + by rewrite concat_singletons, map_id.
      + intros k url Hk. rewrite <- map_fst_wrote.
        by destruct (Hshape _ url (Hall k url Hk)) as [_ Hw]. }
  apply for_origins_inv in Hrun. destruct r as [[]|x].
  - destruct Hrun as [-> Hall]. destruct (Hprefix origins Hall) as [Ho Hw].
    split; [exact Ho|]. split; [exact Hw|].
    intros e He. apply elem_of_traces in He as (k & url & Hk & He).
    exists k, url. split; [exact Hk|]. split; [by apply (Hall k url) | exact He].
  - destruct Hrun as (k & url & tk & Hk & Hpre & Hraise & ->).
    pose proof (lookup_lt_Some _ _ _ Hk) as Hlt.
    destruct (Hprefix (take k origins)) as [Ho Hw].
    { intros j u Hj. apply lookup_take_Some in Hj as [Hj Hjk]. by apply (Hpre j u). }
    rewrite length_take in Ho, Hw.
    replace (k `min` length origins)%nat with k in * by lia.
    exists k, url, tk. split; [exact Hk|]. split; [exact Hraise|].
    split. { unfold opened in *. by rewrite omap_app, Ho. }
    split. { unfold wrote in *. by rewrite omap_app, map_app, Hw. }
    rewrite files_lookup, fold_left_app.
    rewrite (file_after_traces body (take k origins) k 0 None).
    + rewrite Nat.sub_0_r, lookup_take_ge by lia. reflexivity.
    + intros j u j' s' _ Hne. by apply Hown.
Qed.

End OutcomeFacts.

(** * Step 3, and step 3 after step 2 *)

Section Step3Facts.
Import PyStr Pipeline Checkpoints Early.
Context {response pattern : Type}.
Variable fetcher : PageFetcher response.
Variable text_util : TextUtil pattern.

Local Abbreviation step_2 := (step_2_fetch_origin_articles fetcher).
Local Abbreviation step_3 := (step_3_extract_origin_bodies text_util).
Local Abbreviation step_3_origin' := (step_3_origin text_util).

Lemma step_3_origin_ok (dir : gmap nat (option string)) (i : nat) (url : string) :
  snd (step_3_origin' dir i url) = Ok tt ->
  exists html body_lang,
    read_text dir i = Ok html
    /\ extract_body text_util url (Some html) = Ok body_lang
    /\ fst (step_3_origin' dir i url)
       = [Opened i;
          Wrote i {| bf_body := fst body_lang; bf_lang_id := snd body_lang |}].
Proof.
  unfold step_3_origin.
  destruct (read_text dir i) as [html|x]; [|discriminate].
  destruct (extract_body text_util url (Some html)) as [bl|x] eqn:Eb; [|discriminate].
  intros _. exists html, bl. by repeat split.
Qed.

Lemma step_3_origin_raise (dir : gmap nat (option string)) (i : nat) (url : string)
  (t : list (event body_file log_3)) (x : exn) :
  step_3_origin' dir i url = (t, Raise x) ->
  t = []
  /\ (read_text dir i = Raise x
      \/ exists html, read_text dir i = Ok html
                      /\ extract_body text_util url (Some html) = Raise x).
Proof.
  unfold step_3_origin.
  destruct (read_text dir i) as [html|x0].
  - destruct (extract_body text_util url (Some html)) as [bl|x0] eqn:E; [discriminate|].
    intros [= <- <-]. split; [reflexivity|]. right. by exists html.
  - intros [= <- <-]. split; [reflexivity|]. by left.
Qed.

Lemma step_3_prefix (dir : gmap nat (option string)) (origins : list string) :
  (forall k url, origins !! k = Some url ->
                 snd (step_3_origin' dir (0 + k) url) = Ok tt) ->
  opened (concat (imap (fun k url => fst (step_3_origin' dir (0 + k) url)) origins))
  = seq 0 (length origins)
  /\ map fst (wrote (concat (imap (fun k url => fst (step_3_origin' dir (0 + k) url))
                               origins)))
     = seq 0 (length origins)
  /\ logs (concat (imap (fun k url => fst (step_3_origin' dir (0 + k) url)) origins))
     = [].
Proof.
  intros Hall.
  assert (Hshape : forall k url, origins !! k = Some url ->
            exists c, fst (step_3_origin' dir (0 + k) url)
                      = [Opened (0 + k)%nat; Wrote (0 + k)%nat c]).
  { intros k url Hk. destruct (step_3_origin_ok dir _ url (Hall k url Hk))
      as (html & bl & _ & _ & ->). by eexists. }
  split; [|split].
  - unfold opened. rewrite (omap_traces (step_3_origin' dir) _ (fun k => [k])).
    + by rewrite concat_singletons, map_id.
    + intros k url Hk. destruct (Hshape k url Hk) as [c ->]. reflexivity.
  - unfold wrote.
    assert (Hw : forall l : list (event body_file log_3),
              map fst (omap (fun e => match e with
                                      | Wrote i content => Some (i, content)
                                      | _ => None
                                      end) l)
              = omap (fun e => match e with Wrote i _ => Some i | _ => None end) l).
    { induction l as [|[i|i c|m] l IH]; [reflexivity|..]; simpl; [|f_equal|]; exact IH. }
    rewrite Hw, (omap_traces (step_3_origin' dir) _ (fun k => [k])).
    + by rewrite concat_singletons, map_id.
    + intros k url Hk. destruct (Hshape k url Hk) as [c ->]. reflexivity.
  - unfold logs. rewrite (omap_traces (step_3_origin' dir) _ (fun k => [])).
    + apply concat_nils.
    + intros k url Hk. destruct (Hshape k url Hk) as [c ->]. reflexivity.
Qed.

(** X26. When step 3 ends normally it has written one body file per origin,
    in order, each holding the body and the language [extract_body] returned
    for the origin's URL and the content of its HTML file, and it logs the
    number of origins. Otherwise it stops at the first origin whose HTML
    file is missing or whose extraction raises: the earlier origins have
    their files, that origin and the later ones have none, and no count is
    logged. *)
Theorem step_3_bodies_or_first_failure (origins : list string)
  (dir : gmap nat (option string)) :
  match snd (step_3 origins dir) with
  | Ok _ =>
      opened (fst (step_3 origins dir)) = seq 0 (length origins)
      /\ map fst (wrote (fst (step_3 origins dir))) = seq 0 (length origins)
      /\ logs (fst (step_3 origins dir)) = [ExtractedBodies (length origins)]
      /\ forall i c, (i, c) ∈ wrote (fst (step_3 origins dir)) ->
           exists url html,
             origins !! i = Some url /\ read_text dir i = Ok html
             /\ extract_body text_util url (Some html) = Ok (bf_body c, bf_lang_id c)
  | Raise x =>
      exists k url,
        origins !! k = Some url
        /\ opened (fst (step_3 origins dir)) = seq 0 k
        /\ map fst (wrote (fst (step_3 origins dir))) = seq 0 k
        /\ logs (fst (step_3 origins dir)) = []
        /\ (read_text dir k = Raise x
            \/ exists html, read_text dir k = Ok html
                            /\ extract_body text_util url (Some html) = Raise x)
  end.
Proof.
  unfold step_3_extract_origin_bodies.
  destruct (for_origins (step_3_origin' dir) 0 origins) as [t r] eqn:E.
  apply for_origins_inv in E. destruct r as [[]|x]; cbn [fst snd].
  - destruct E as [-> Hall].
    destruct (step_3_prefix dir origins Hall) as (Ho & Hw & Hl).
    unfold opened, wrote, logs in *. rewrite !omap_app, map_app. cbn [omap map].
    rewrite !app_nil_r. rewrite Ho, Hw, Hl.
    split; [reflexivity|]. split; [reflexivity|]. split; [reflexivity|].
    intros i c Hin. apply list_elem_of_omap in Hin as (e & He & Hsel).
    destruct e as [j|j c'|m]; try discriminate. injection Hsel as -> ->.
    apply elem_of_traces in He as (k & url & Hk & He).
    destruct (step_3_origin_ok dir _ url (Hall k url Hk))
      as (html & [body lang] & Hread & Hbody & Ht).
    rewrite Ht in He.
    apply elem_of_cons in He as [He|He]; [discriminate|].
    apply list_elem_of_singleton in He. injection He as -> ->.
    exists url, html. by repeat split.
  - destruct E as (k & url & tk & Hk & Hpre & Hraise & ->).
    apply step_3_origin_raise in Hraise as [-> Hwhy].
    exists k, url. split; [exact Hk|]. rewrite app_nil_r.
    pose proof (lookup_lt_Some _ _ _ Hk) as Hlt.
    destruct (step_3_prefix dir (take k origins)) as (Ho & Hw & Hl).
    { intros j u Hj. apply lookup_take_Some in Hj as [Hj Hjk]. by apply (Hpre j u). }
    rewrite length_take in Ho, Hw. replace (k `min` length origins)%nat with k in * by lia.
    by repeat split.
Qed.

End Step3Facts.

Section Step2Then3.
Import PyStr Pipeline Checkpoints Early.
Context {response pattern : Type}.
Variable fetcher : PageFetcher response.
Variable text_util : TextUtil pattern.

Local Abbreviation step_2 := (step_2_fetch_origin_articles fetcher).
Local Abbreviation step_3 := (step_3_extract_origin_bodies text_util).
Local Abbreviation step_3_origin' := (step_3_origin text_util).
Local Abbreviation page :=
  (fun (i : nat) (html : string) =>
     (([Opened i; Wrote i html], Ok tt) : list (event string log_2) * result unit)).

Lemma write_html_ok (responses : list response) (htmls : list string) :
  Forall2 (fun r h => response_to_utf_8 fetcher r = Ok h) responses htmls ->
  forall i,
    write_html_to_disk fetcher i responses
    = (concat (imap (fun k h => fst (page (i + k)%nat h)) htmls), Ok tt).
Proof.
  induction 1 as [|r h responses htmls Hr HF IH]; intros i; [reflexivity|].
  cbn [write_html_to_disk]. rewrite Hr, IH.
  rewrite (traces_cons page i h htmls). reflexivity.
Qed.

Lemma step_2_pages (origins : list string) (responses : list response)
  (htmls : list string) :
  fetch_documents fetcher origins = Ok responses ->
  Forall2 (fun r h => response_to_utf_8 fetcher r = Ok h) responses htmls ->
  step_2 origins
  = (concat (imap (fun k h => fst (page (0 + k)%nat h)) htmls)
       ++ [Logged (Fetched (length origins))], Ok tt).
Proof.
  intros Hfetch HF. unfold step_2_fetch_origin_articles.
  by rewrite Hfetch, (write_html_ok responses htmls HF 0).
Qed.

Lemma step_2_files (origins : list string) (responses : list response)
  (htmls : list string) (j : nat) :
  fetch_documents fetcher origins = Ok responses ->
  Forall2 (fun r h => response_to_utf_8 fetcher r = Ok h) responses htmls ->
  read_text (files (fst (step_2 origins))) j
  = match htmls !! j with
    | Some html => Ok html
    | None => Raise (IOError j)
    end.
Proof.
  intros Hfetch HF. rewrite (step_2_pages origins responses htmls Hfetch HF).
  pose proof (file_after_traces page htmls j 0 None) as Hf.
  rewrite Nat.sub_0_r in Hf.
  unfold read_text. cbn [fst] in Hf |- *.
  rewrite files_lookup, fold_left_app. cbn [fold_left file_step].
  rewrite Hf.
  - destruct (htmls !! j) as [h|]; [|reflexivity].
    rewrite decide_True by lia. simpl. by rewrite !decide_True by reflexivity.
  - intros k h j' s' _ Hne. simpl. by rewrite !decide_False by lia.
Qed.

(** X25. Step 2 writes one page per response of the fetcher, not per
    origin, and logs the number of origins. When the pages could all be
    written and body extraction raises for none of them, step 3 on the
    directory step 2 left ends normally if there are at least as many
    responses as origins, and otherwise stops with IOError at the first
    origin without a page. *)
Theorem step_3_after_step_2 (origins : list string) (responses : list response)
  (htmls : list string) :
  fetch_documents fetcher origins = Ok responses ->
  Forall2 (fun r h => response_to_utf_8 fetcher r = Ok h) responses htmls ->
  (forall i url h, origins !! i = Some url -> htmls !! i = Some h ->
                   raises (extract_body text_util url (Some h)) = false) ->
  snd (step_2 origins) = Ok tt
  /\ map fst (wrote (fst (step_2 origins))) = seq 0 (length responses)
  /\ logs (fst (step_2 origins)) = [Fetched (length origins)]
  /\ ((length origins <= length responses)%nat ->
      snd (step_3 origins (files (fst (step_2 origins)))) = Ok tt)
  /\ ((length responses < length origins)%nat ->
      snd (step_3 origins (files (fst (step_2 origins))))
      = Raise (IOError (length responses))).
Proof.
  intros Hfetch HF Hbody.
  pose proof (Forall2_length _ _ _ HF) as Hlen.
  assert (Hread := fun j => step_2_files origins responses htmls j Hfetch HF).
  assert (Hok : forall k url, origins !! k = Some url -> (k < length htmls)%nat ->
            snd (step_3_origin' (files (fst (step_2 origins))) (0 + k) url) = Ok tt).
  { intros k url Hk Hlt. destruct (lookup_lt_is_Some_2 htmls k Hlt) as [h Hh].
    unfold step_3_origin. simpl. rewrite Hread, Hh.
    specialize (Hbody k url h Hk Hh).
    by destruct (extract_body text_util url (Some h)). }
  pose proof (step_2_pages origins responses htmls Hfetch HF) as Hrun.
  set (T := concat (imap (fun k h => fst (page (0 + k)%nat h)) htmls)) in Hrun.
  assert (HwT : map fst (wrote T) = seq 0 (length responses)).
  { unfold T. rewrite map_fst_wrote.
    rewrite (omap_traces page _ (fun k => [k])); [|reflexivity].
    by rewrite concat_singletons, map_id, Hlen. }
  assert (HlT : logs T = []).
  { unfold T, logs. rewrite (omap_traces page _ (fun k => [])); [|reflexivity].
    by rewrite concat_nils. }
  clearbody T.
  rewrite Hrun at 1 2 3. cbn [fst snd].
  split; [reflexivity|]. split.
  { unfold wrote in *. rewrite omap_app, map_app, HwT. simpl. by rewrite app_nil_r. }
  split.
  { unfold logs in *. rewrite omap_app, HlT. reflexivity. }
  split.
  - intros Hle. unfold step_3_extract_origin_bodies.
    rewrite (for_origins_ok (step_3_origin' (files (fst (step_2 origins)))) origins 0);
      [reflexivity|].
    intros k url Hk. apply Hok; [exact Hk|].
    apply lookup_lt_Some in Hk. lia.
  - intros Hlt. unfold step_3_extract_origin_bodies.
    destruct (lookup_lt_is_Some_2 origins (length responses) Hlt) as [url Hurl].
    rewrite (for_origins_raise (step_3_origin' (files (fst (step_2 origins)))) origins 0
               (length responses) url [] (IOError (length responses)) Hurl);
      [reflexivity| |].
    + intros j u Hj Hu. apply Hok; [exact Hu | lia].
    + unfold step_3_origin. simpl. rewrite Hread.
      by rewrite lookup_ge_None_2 by lia.
Qed.

End Step2Then3.

(** * Step 4 *)

Section Step4Facts.
Import PyStr Pipeline Checkpoints Early EarlySpec.
Variable text_util : Segmenter.

Local Abbreviation step_4 := (step_4_extract_sentences text_util).
Local Abbreviation step_4_origin' := (step_4_origin text_util).

Lemma step_4_origin_cases (dir : gmap nat (option body_file)) (i : nat) (url : string) :
  match snd (step_4_origin' dir i url) with
  | Ok _ =>
      exists body_obj c,
        read_json dir i = Ok body_obj
        /\ segmented text_util url body_obj c
        /\ fst (step_4_origin' dir i url)
           = [Opened i; Wrote i c;
              Logged (Extracted (length (sf_sentences c)) (length (sf_quoted c))
                        (length (sf_segments c)))]
  | Raise x =>
      (read_json dir i = Raise x /\ fst (step_4_origin' dir i url) = [])
      \/ exists body_obj,
           read_json dir i = Ok body_obj
           /\ segmenter_raises text_util (bf_body body_obj) x
           /\ fst (step_4_origin' dir i url) = [Opened i]
  end.
Proof.
  unfold step_4_origin, segmented, segmenter_raises.
  destruct (read_json dir i) as [body_obj|x]; [|by left].
  destruct (sent_tokenize text_util (bf_body body_obj)) as [sentences|x] eqn:E1.
  2:{ right. exists body_obj. split; [reflexivity|]. split; [by left | reflexivity]. }
  destruct (extract_quoted text_util (bf_body body_obj)) as [quoted|x] eqn:E2.
  2:{ right. exists body_obj. split; [reflexivity|]. split; [|reflexivity].
      right. exists sentences. split; [exact E1 | by left]. }
  destruct (select_segments text_util sentences quoted) as [segments|x] eqn:E3.
  2:{ right. exists body_obj. split; [reflexivity|]. split; [|reflexivity].
      right. exists sentences. split; [exact E1|]. right. by exists quoted. }
  exists body_obj,
    {| sf_url := url; sf_text := bf_body body_obj; sf_lang_id := bf_lang_id body_obj;
       sf_sentences := sentences; sf_quoted := quoted; sf_segments := segments |}.
  split; [reflexivity|]. split; [|reflexivity].
  simpl. by repeat split.
Qed.

(** X27. When step 4 ends normally it has written one segment file per
    origin, in order, holding the URL, the text and language of the body
    file, and the sentences, quotes and segments the three [TextUtil] calls
    returned. Otherwise it stops at the first origin that fails: if the body
    file cannot be read, nothing is opened for it; if one of the three calls
    raises, its segment file has been opened and is left empty, so that
    reading it raises [No JSON object could be decoded], not a missing
    file. *)
Theorem step_4_segments_or_empty_file (origins : list string)
  (dir : gmap nat (option body_file)) :
  match snd (step_4 origins dir) with
  | Ok _ =>
      opened (fst (step_4 origins dir)) = seq 0 (length origins)
      /\ map fst (wrote (fst (step_4 origins dir))) = seq 0 (length origins)
      /\ forall i c, (i, c) ∈ wrote (fst (step_4 origins dir)) ->
           exists url body_obj,
             origins !! i = Some url /\ read_json dir i = Ok body_obj
             /\ segmented text_util url body_obj c
  | Raise x =>
      exists k url,
        origins !! k = Some url
        /\ map fst (wrote (fst (step_4 origins dir))) = seq 0 k
        /\ ((read_json dir k = Raise x
             /\ opened (fst (step_4 origins dir)) = seq 0 k
             /\ files (fst (step_4 origins dir)) !! k = None)
            \/ (exists body_obj,
                  read_json dir k = Ok body_obj
                  /\ segmenter_raises text_util (bf_body body_obj) x
                  /\ opened (fst (step_4 origins dir)) = seq 0 k ++ [k]
                  /\ files (fst (step_4 origins dir)) !! k = Some None
                  /\ read_json (files (fst (step_4 origins dir))) k
                     = Raise (Failure "No JSON object could be decoded")))
  end.
Proof.
  unfold step_4_extract_sentences.
  destruct (for_origins (step_4_origin' dir) 0 origins) as [t r] eqn:E.
  apply for_origins_outcome in E.
  - destruct r as [[]|x]; cbn [fst snd].
    + destruct E as (Ho & Hw & Hin). split; [exact Ho|]. split; [exact Hw|].
      intros i c Hic. apply list_elem_of_omap in Hic as (e & He & Hsel).
      destruct e as [j|j c'|m]; try discriminate. injection Hsel as -> ->.
      destruct (Hin _ He) as (k & url & Hk & Hok & Hek).
      pose proof (step_4_origin_cases dir k url) as Hc. rewrite Hok in Hc.
      destruct Hc as (body_obj & c0 & Hread & Hseg & Ht). rewrite Ht in Hek.
      apply elem_of_cons in Hek as [Hek|Hek]; [discriminate|].
      apply elem_of_cons in Hek as [Hek|Hek].
      2:{ apply list_elem_of_singleton in Hek. discriminate. }
      injection Hek as -> ->. by exists url, body_obj.
    + destruct E as (k & url & tk & Hk & Hraise & Ho & Hw & Hf).
      pose proof (step_4_origin_cases dir k url) as Hc. rewrite Hraise in Hc.
      cbn [fst snd] in Hc.
      exists k, url. split; [exact Hk|].
      destruct Hc as [[Hread ->] | (body_obj & Hread & Hwhy & ->)].
      * simpl in Ho, Hw, Hf. rewrite app_nil_r in Ho, Hw.
        split; [exact Hw|]. left. by repeat split.
      * simpl in Ho, Hw, Hf. rewrite app_nil_r in Hw.
        rewrite decide_True in Hf by reflexivity.
        split; [exact Hw|]. right. exists body_obj.
        split; [exact Hread|]. split; [exact Hwhy|]. split; [exact Ho|].
        split; [exact Hf|]. unfold read_json. by rewrite Hf.
  - intros i url Hok. pose proof (step_4_origin_cases dir i url) as Hc.
    rewrite Hok in Hc. destruct Hc as (body_obj & c & _ & _ & ->). by split.
  - intros i url j s Hne. pose proof (step_4_origin_cases dir i url) as Hc.
    destruct (snd (step_4_origin' dir i url)) as [[]|x].
    + destruct Hc as (body_obj & c & _ & _ & ->). simpl.
      by rewrite !decide_False by congruence.
    + destruct Hc as [[_ ->] | (body_obj & _ & _ & ->)]; [reflexivity|].
      simpl. by rewrite decide_False by congruence.
Qed.

End Step4Facts.

(** * Step 5 *)

Section Step5Facts.
Import PyStr Pipeline Checkpoints Early EarlySpec.
Context {query gse_item : Type}.
Variable item_link : gse_item -> string.
Variable gse_api : SearchApi query gse_item.
Variables query_size_heuristic upper_threshold bottom_threshold : option Z.

Local Abbreviation step_5 :=
  (step_5_request_gse item_link gse_api query_size_heuristic upper_threshold
     bottom_threshold).
Local Abbreviation step_5_origin' :=
  (step_5_origin item_link gse_api query_size_heuristic upper_threshold
     bottom_threshold).
Local Abbreviation for_segments' :=
  (for_segments item_link gse_api query_size_heuristic upper_threshold
     bottom_threshold).
Local Abbreviation searched' :=
  (searched gse_api query_size_heuristic upper_threshold bottom_threshold).
Local Abbreviation search_raises' :=
  (search_raises gse_api query_size_heuristic upper_threshold bottom_threshold).

(** [segment[:16]] is the segment when it is shorter. *)
Lemma prefix_16_short (n : nat) (s : string) :
  (String.length s <= n)%nat -> prefix_16 n s = s.
Proof.
  revert n. induction s as [|c s IH]; intros n Hn; [by destruct n|].
  destruct n as [|n]; simpl in *; [lia|]. rewrite IH; [reflexivity | lia].
Qed.

Lemma length_prefix_16 (n : nat) (s : string) :
  String.length (prefix_16 n s) = (n `min` String.length s)%nat.
Proof.
  revert n. induction s as [|c s IH]; intros n; [by destruct n|].
  destruct n as [|n]; simpl; [reflexivity|]. by rewrite IH.
Qed.

Lemma prefix_16_prefix (n : nat) (s : string) :
  exists rest, s = String.append (prefix_16 n s) rest.
Proof.
  revert n. induction s as [|c s IH]; intros n.
  - exists EmptyString. by destruct n.
  - destruct n as [|n]; simpl; [by eexists|].
    destruct (IH n) as [rest Hrest]. exists rest.
    change (String c s = String c (String.append (prefix_16 n s) rest)).
    by f_equal.
Qed.

Lemma segment_fragment_prefix (segment : string) :
  (if (String.length segment <? 16)%nat then segment else prefix_16 16 segment)
  = prefix_16 16 segment.
Proof.
  destruct (String.length segment <? 16)%nat eqn:E; [|reflexivity].
  apply Nat.ltb_lt in E. symmetry. apply prefix_16_short. lia.
Qed.

Lemma unique_links_fold (found : list gse_item) (links : gset string) :
  fold_left (fun s item => s ∪ {[ item_link item ]}) found links
  = links ∪ list_to_set (map item_link found).
Proof.
  revert links. induction found as [|item found IH]; intros links; simpl.
  - by rewrite union_empty_r_L.
  - rewrite IH. by rewrite (assoc_L (∪)).
Qed.

Lemma for_segments_spec (segments : list string) :
  forall st,
    match for_segments' segments st with
    | (lg, Ok st') =>
        exists entries,
          Forall2 searched' segments entries
          /\ origin_gse st' = origin_gse st ++ entries
          /\ lg = logged st ++ search_logs entries
          /\ unique_links st'
             = unique_links st ∪ list_to_set (found_links item_link entries)
    | (lg, Raise x) =>
        exists l1 seg l2 entries,
          segments = l1 ++ seg :: l2
          /\ Forall2 searched' l1 entries
          /\ search_raises' seg x
          /\ lg = logged st ++ search_logs entries
    end.
Proof.
  induction segments as [|seg segments IH]; intros st.
  - simpl. exists []. split; [constructor|]. rewrite !app_nil_r.
    split; [reflexivity|]. split; [reflexivity|].
    simpl. by rewrite union_empty_r_L.
  - cbn [for_segments].
    destruct (make_query gse_api seg seg) as [q|x] eqn:Eq.
    2:{ exists [], seg, segments, []. split; [reflexivity|]. split; [constructor|].
        split; [by left|]. simpl. by rewrite app_nil_r. }
    destruct (find_results gse_api q query_size_heuristic upper_threshold
                bottom_threshold upper_threshold) as [[[found urls] total]|x] eqn:Ef.
    2:{ exists [], seg, segments, []. split; [reflexivity|]. split; [constructor|].
        split; [right; by exists q|]. simpl. by rewrite app_nil_r. }
    rewrite segment_fragment_prefix.
    set (e := {| ge_segment := seg; ge_totalResults := total;
                 ge_foundUrls := urls; ge_foundItems := found |}).
    assert (He : searched' seg e).
    { split; [reflexivity|]. exists q. by split. }
    match goal with |- context [for_segments' segments ?s] => specialize (IH s) end.
    destruct (for_segments' segments _) as [lg [st'|x]].
    + destruct IH as (entries & HF & Hgse & Hlg & Hul). simpl in Hgse, Hlg, Hul.
      exists (e :: entries). split; [by constructor|].
      split; [by rewrite Hgse, <- app_assoc|].
      split; [by rewrite Hlg, <- app_assoc|].
      rewrite Hul, unique_links_fold. unfold found_links. simpl.
      rewrite list_to_set_app_L. by rewrite (assoc_L (∪)).
    + destruct IH as (l1 & s1 & l2 & entries & -> & HF & Hraise & Hlg).
      simpl in Hlg.
      exists (seg :: l1), s1, l2, (e :: entries). split; [reflexivity|].
      split; [by constructor|]. split; [exact Hraise|].
      by rewrite Hlg, <- app_assoc.
Qed.

Lemma step_5_origin_cases (dir : gmap nat (option segment_file)) (i : nat)
  (url : string) :
  match snd (step_5_origin' dir i url) with
  | Ok _ =>
      exists segment_obj entries,
        read_json dir i = Ok segment_obj
        /\ Forall2 searched' (sf_segments segment_obj) entries
        /\ fst (step_5_origin' dir i url)
           = Opened i :: map Logged (search_logs entries)
               ++ [Logged (SavingGse
                             (size (list_to_set (found_links item_link entries)
                                      : gset string)));
                   Wrote i entries]
  | Raise x =>
      (read_json dir i = Raise x /\ fst (step_5_origin' dir i url) = [])
      \/ exists segment_obj l1 seg l2 entries,
           read_json dir i = Ok segment_obj
           /\ sf_segments segment_obj = l1 ++ seg :: l2
           /\ Forall2 searched' l1 entries
           /\ search_raises' seg x
           /\ fst (step_5_origin' dir i url)
              = Opened i :: map Logged (search_logs entries)
  end.
Proof.
  unfold step_5_origin.
  destruct (read_json dir i) as [segment_obj|x]; [|by left].
  pose proof (for_segments_spec (sf_segments segment_obj)
                {| unique_links := ∅; origin_gse := []; logged := [] |}) as Hs.
  destruct (for_segments' (sf_segments segment_obj) _) as [lg [st'|x]].
  - destruct Hs as (entries & HF & Hgse & Hlg & Hul). simpl in Hgse, Hlg, Hul.
    exists segment_obj, entries. split; [reflexivity|]. split; [exact HF|].
    cbn [fst snd]. rewrite Hgse, Hlg, Hul. by rewrite union_empty_l_L.
  - destruct Hs as (l1 & seg & l2 & entries & Hsplit & HF & Hraise & Hlg).
    simpl in Hlg. right. exists segment_obj, l1, seg, l2, entries.
    split; [reflexivity|]. split; [exact Hsplit|]. split; [exact HF|].
    split; [exact Hraise|]. cbn [fst]. by rewrite Hlg.
Qed.

Lemma opened_logged (l : list log_5) :
  opened (map (Logged (W := list (gse_entry gse_item))) l) = []
  /\ wrote (map (Logged (W := list (gse_entry gse_item))) l) = []
  /\ forall j s, fold_left (file_step j)
                   (map (Logged (W := list (gse_entry gse_item))) l) s = s.
Proof.
  induction l as [|m l (Ho & Hw & Hf)]; [by repeat split|].
  split; [exact Ho|]. split; [exact Hw|]. intros j s. simpl. apply Hf.
Qed.

(** X28. When step 5 ends normally it has written one search file per
    origin, in order, with one entry per segment of the origin, in the order
    of the segments: the entry of a segment holds what [find_results]
    returned for the query made from the segment (as query string and as
    exact terms, with [max_results] set to the upper threshold). Otherwise
    it stops at the first origin that fails: if a search raises, the file of
    the origin, opened before the searches, is left empty, and the answers
    to its earlier searches are not written. *)
Theorem step_5_entries_or_empty_file (origins : list string)
  (dir : gmap nat (option segment_file)) :
  match snd (step_5 origins dir) with
  | Ok _ =>
      opened (fst (step_5 origins dir)) = seq 0 (length origins)
      /\ map fst (wrote (fst (step_5 origins dir))) = seq 0 (length origins)
      /\ forall i entries, (i, entries) ∈ wrote (fst (step_5 origins dir)) ->
           exists url segment_obj,
             origins !! i = Some url /\ read_json dir i = Ok segment_obj
             /\ Forall2 searched' (sf_segments segment_obj) entries
  | Raise x =>
      exists k url,
        origins !! k = Some url
        /\ map fst (wrote (fst (step_5 origins dir))) = seq 0 k
        /\ ((read_json dir k = Raise x
             /\ files (fst (step_5 origins dir)) !! k = None)
            \/ (exists segment_obj l1 seg l2 entries,
                  read_json dir k = Ok segment_obj
                  /\ sf_segments segment_obj = l1 ++ seg :: l2
                  /\ Forall2 searched' l1 entries
                  /\ search_raises' seg x
                  /\ files (fst (step_5 origins dir)) !! k = Some None))
  end.
Proof.
  unfold step_5_request_gse.
  destruct (for_origins (step_5_origin' dir) 0 origins) as [t r] eqn:E.
  apply for_origins_outcome in E.
  - destruct r as [[]|x]; cbn [fst snd].
    + destruct E as (Ho & Hw & Hin). split; [exact Ho|]. split; [exact Hw|].
      intros i entries Hic. apply list_elem_of_omap in Hic as (e & He & Hsel).
      destruct e as [j|j c'|m]; try discriminate. injection Hsel as -> ->.
      destruct (Hin _ He) as (k & url & Hk & Hok & Hek).
      pose proof (step_5_origin_cases dir k url) as Hc. rewrite Hok in Hc.
      destruct Hc as (sf & entries0 & Hread & HF & Ht). rewrite Ht in Hek.
      apply elem_of_cons in Hek as [Hek|Hek]; [discriminate|].
      apply elem_of_app in Hek as [Hek|Hek].
      { apply list_elem_of_fmap in Hek as (m & Hm & _). discriminate. }
      apply elem_of_cons in Hek as [Hek|Hek]; [discriminate|].
      apply list_elem_of_singleton in Hek. injection Hek as -> ->.
      by exists url, sf.
    + destruct E as (k & url & tk & Hk & Hraise & Ho & Hw & Hf).
      pose proof (step_5_origin_cases dir k url) as Hc. rewrite Hraise in Hc.
      cbn [fst snd] in Hc.
      exists k, url. split; [exact Hk|].
      destruct Hc as [[Hread ->] | (sf & l1 & seg & l2 & entries & Hread & Hsplit
                                    & HF & Hwhy & ->)].
      * simpl in Hw, Hf. rewrite app_nil_r in Hw. split; [exact Hw|]. by left.
      * destruct (opened_logged (search_logs entries)) as (_ & Hwl & Hfl).
        rewrite (Hwl : wrote (Opened k :: map Logged (search_logs entries)) = []) in Hw.
        simpl in Hw. rewrite app_nil_r in Hw.
        split; [exact Hw|]. right. exists sf, l1, seg, l2, entries.
        repeat (split; [assumption|]).
        rewrite Hf. cbn [fold_left file_step]. rewrite decide_True by reflexivity.
        apply Hfl.
  - intros i url Hok. pose proof (step_5_origin_cases dir i url) as Hc.
    rewrite Hok in Hc. destruct Hc as (sf & entries & _ & _ & ->).
    destruct (opened_logged (search_logs entries)) as (Hol & Hwl & _).
    split.
    + change (i :: opened (map Logged (search_logs entries)
                           ++ [Logged (SavingGse
                                         (size (list_to_set
                                                  (found_links item_link entries)
                                                : gset string)));
                               Wrote i entries]) = [i]).
      unfold opened in *. by rewrite omap_app, Hol.
    + change (map fst (wrote (map Logged (search_logs entries)
                              ++ [Logged (SavingGse
                                            (size (list_to_set
                                                     (found_links item_link entries)
                                                   : gset string)));
                                  Wrote i entries])) = [i]).
      unfold wrote in *. by rewrite omap_app, Hwl.
  - intros i url j s Hne. pose proof (step_5_origin_cases dir i url) as Hc.
    destruct (snd (step_5_origin' dir i url)) as [[]|x].
    + destruct Hc as (sf & entries & _ & _ & ->).
      destruct (opened_logged (search_logs entries)) as (_ & _ & Hfl).
      cbn [fold_left file_step]. rewrite decide_False by congruence.
      rewrite fold_left_app, Hfl. simpl. by rewrite decide_False by congruence.
    + destruct Hc as [[_ ->] | (sf & l1 & seg & l2 & entries & _ & _ & _ & _ & ->)];
        [reflexivity|].
      destruct (opened_logged (search_logs entries)) as (_ & _ & Hfl).
      cbn [fold_left file_step]. rewrite decide_False by congruence. apply Hfl.
Qed.

(** A search file that is written, whether the stage ends normally or
    not: where it comes from, and the records logged around it. *)
Lemma step_5_wrote (origins : list string) (dir : gmap nat (option segment_file))
  (i : nat) (entries : list (gse_entry gse_item)) :
  Wrote i entries ∈ fst (step_5 origins dir) ->
  exists url segment_obj t1 t2,
    origins !! i = Some url /\ read_json dir i = Ok segment_obj
    /\ Forall2 searched' (sf_segments segment_obj) entries
    /\ fst (step_5 origins dir)
       = t1 ++ (Opened i :: map Logged (search_logs entries)
                  ++ [Logged (SavingGse
                                (size (list_to_set (found_links item_link entries)
                                         : gset string)));
                      Wrote i entries]) ++ t2.
Proof.
  unfold step_5_request_gse. intros Hw.
  destruct (for_origins (step_5_origin' dir) 0 origins) as [t r] eqn:E.
  apply for_origins_inv in E. cbn [fst] in Hw |- *.
  assert (Hok : forall (l : list string) k url,
    l !! k = Some url ->
    snd (step_5_origin' dir (0 + k) url) = Ok tt ->
    Wrote i entries ∈ fst (step_5_origin' dir (0 + k) url) ->
    k = i
    /\ exists segment_obj,
         read_json dir i = Ok segment_obj
         /\ Forall2 searched' (sf_segments segment_obj) entries
         /\ fst (step_5_origin' dir (0 + k) url)
            = Opened i :: map Logged (search_logs entries)
                ++ [Logged (SavingGse
                              (size (list_to_set (found_links item_link entries)
                                       : gset string)));
                    Wrote i entries]).
  { intros l k url _ Hres Hek. simpl in *.
    pose proof (step_5_origin_cases dir k url) as Hc. rewrite Hres in Hc.
    destruct Hc as (sf & entries0 & Hread & HF & Ht). rewrite Ht in Hek |- *.
    apply elem_of_cons in Hek as [Hek|Hek]; [discriminate|].
    apply elem_of_app in Hek as [Hek|Hek].
    { apply list_elem_of_fmap in Hek as (m & Hm & _). discriminate. }
    apply elem_of_cons in Hek as [Hek|Hek]; [discriminate|].
    apply list_elem_of_singleton in Hek. injection Hek as -> ->.
    split; [reflexivity|]. by exists sf. }
  destruct r as [[]|x].
  - destruct E as [-> Hall].
    apply elem_of_traces in Hw as (k & url & Hk & Hek).
    destruct (Hok origins k url Hk (Hall k url Hk) Hek) as (-> & sf & Hread & HF & Ht).
    destruct (traces_split (step_5_origin' dir) origins 0 i url Hk) as (t1 & t2 & Hsplit).
    exists url, sf, t1, t2. split; [exact Hk|]. split; [exact Hread|].
    split; [exact HF|]. rewrite Hsplit. by rewrite Ht.
  - destruct E as (k & url & tk & Hk & Hpre & Hraise & ->).
    apply elem_of_app in Hw as [Hw|Hw].
    + apply elem_of_traces in Hw as (j & u & Hj & Hek).
      pose proof Hj as Hj'. apply lookup_take_Some in Hj' as [Hju Hjk].
      destruct (Hok _ j u Hj (Hpre j u Hjk Hju) Hek) as (-> & sf & Hread & HF & Ht).
      destruct (traces_split (step_5_origin' dir) (take k origins) 0 i u Hj)
        as (t1 & t2 & Hsplit).
      exists u, sf, t1, (t2 ++ tk). split; [exact Hju|]. split; [exact Hread|].
      split; [exact HF|]. rewrite Hsplit, Ht. by rewrite <- !app_assoc.
    + exfalso. pose proof (step_5_origin_cases dir (0 + k) url) as Hc.
      rewrite Hraise in Hc. cbn [fst snd] in Hc.
      destruct Hc as [[_ ->] | (sf & l1 & seg & l2 & es & _ & _ & _ & _ & ->)].
      * by apply elem_of_nil in Hw.
      * apply elem_of_cons in Hw as [Hw|Hw]; [discriminate|].
        apply list_elem_of_fmap in Hw as (m & Hm & _). discriminate.
Qed.

Lemma size_links (links : list string) :
  size (list_to_set links : gset string) = length (remove_dups links).
Proof.
  rewrite <- (size_list_to_set (C := gset string) (remove_dups links))
    by apply NoDup_remove_dups.
  f_equal. apply set_eq. intros u.
  by rewrite !elem_of_list_to_set, elem_of_remove_dups.
Qed.

(** X29. Around every search file step 5 writes, it logs one record per
    segment, in order, with the total of the search and the first 16 bytes
    of the segment (the whole segment when it is shorter), and then the
    number of links of the origin, which is the number of distinct links
    among all the items found for its segments. *)
Theorem step_5_logs_fragments_and_unique_links (origins : list string)
  (dir : gmap nat (option segment_file))
  (i : nat) (entries : list (gse_entry gse_item)) :
  Wrote i entries ∈ fst (step_5 origins dir) ->
  (exists t1 t2,
      fst (step_5 origins dir)
      = t1 ++ (Opened i :: map Logged (search_logs entries)
                 ++ [Logged (SavingGse
                               (length (remove_dups (found_links item_link entries))));
                     Wrote i entries]) ++ t2)
  /\ forall e, e ∈ entries ->
       String.length (prefix_16 16 (ge_segment e))
       = (16 `min` String.length (ge_segment e))%nat
       /\ ((String.length (ge_segment e) <= 16)%nat ->
           prefix_16 16 (ge_segment e) = ge_segment e)
       /\ exists rest, ge_segment e = String.append (prefix_16 16 (ge_segment e)) rest.
Proof.
  intros Hw.
  destruct (step_5_wrote origins dir i entries Hw)
    as (url & sf & t1 & t2 & _ & _ & _ & Ht).
  split.
  - exists t1, t2. by rewrite <- size_links.
  - intros e _. split; [apply length_prefix_16|].
    split; [apply prefix_16_short | apply prefix_16_prefix].
Qed.

End Step5Facts.

(** * Step 6 on the checkpoint of step 5 *)

Section Step5Then6.
Import PyStr Pipeline Checkpoints Early EarlySpec.
Context {query gse_item pattern : Type}.
Context `{SetOrder}.
Variable item_link : gse_item -> string.
Variable gse_api : SearchApi query gse_item.
Variables query_size_heuristic upper_threshold bottom_threshold : option Z.
Variable black_domains : string -> bool.
Variable text_util : TextUtil pattern.
Variable fetch_urls : gmap string (option string) -> gmap string (option string).

Local Abbreviation step_5 :=
  (step_5_request_gse item_link gse_api query_size_heuristic upper_threshold
     bottom_threshold).
Local Abbreviation step_6 :=
  (step_6_filter_out_unrelated item_link black_domains text_util fetch_urls).
Local Abbreviation searched' :=
  (searched gse_api query_size_heuristic upper_threshold bottom_threshold).

(** X30. When step 6 reads the checkpoint step 5 left, every record of an
    origin is for a link of an item step 5 found for a segment of that
    origin, not blacklisted, and its segments are simplified segments of the
    origin; there are at most as many records as the number of links step 5
    logged for the origin. *)
Theorem step_6_after_step_5 (origins origins_6 : list string)
  (dir : gmap nat (option segment_file))
  (i : nat) (recs : list (candidate gse_item)) :
  Write i recs ∈ fst (step_6 origins_6 (gse_checkpoint (fst (step_5 origins dir)))) ->
  exists url segment_obj entries,
    origins !! i = Some url
    /\ read_json dir i = Ok segment_obj
    /\ Wrote i entries ∈ fst (step_5 origins dir)
    /\ Forall2 searched' (sf_segments segment_obj) entries
    /\ (forall r, r ∈ recs ->
          black_domains (c_url r) = false
          /\ c_url r ∈ found_links item_link entries
          /\ forall seg, seg ∈ c_segments r ->
               exists s, s ∈ sf_segments segment_obj
                         /\ seg = simplified_text text_util s)
    /\ (length recs <= length (remove_dups (found_links item_link entries)))%nat.
Proof.
  intros Hw.
  apply step_6_write in Hw as [_ Hw].
  apply step_6_origin_write in Hw as (_ & gse & Hdir & HV).
  unfold gse_checkpoint in Hdir. rewrite lookup_omap in Hdir.
  destruct (files (fst (step_5 origins dir)) !! i) as [[entries|]|] eqn:Ef;
    try discriminate.
  simpl in Hdir. injection Hdir as <-.
  apply files_written in Ef.
  destruct (step_5_wrote item_link gse_api query_size_heuristic upper_threshold
              bottom_threshold origins dir i entries Ef)
    as (url & sf & _ & _ & Hurl & Hread & HF & _).
  exists url, sf, entries. split; [exact Hurl|]. split; [exact Hread|].
  split; [exact Ef|]. split; [exact HF|].
  assert (Hfound : forall seg it,
            (seg, it) ∈ found_in_order text_util (map to_segment_entry entries) ->
            item_link it ∈ found_links item_link entries
            /\ exists s, s ∈ sf_segments sf /\ seg = simplified_text text_util s).
  { intros seg it Hin.
    apply elem_of_found_in_order in Hin as (entry & Hentry & Hit & ->).
    apply list_elem_of_fmap in Hentry as (e & -> & He). simpl in *. split.
    - unfold found_links. apply list_elem_of_In, in_flat_map. exists e.
      split; [by apply list_elem_of_In|].
      apply list_elem_of_In, list_elem_of_fmap. by exists it.
    - apply list_elem_of_lookup in He as [k Hk].
      destruct (Forall2_lookup_r _ _ _ _ _ HF Hk) as (s & Hs & [Hseg _]).
      exists s. split; [by eapply list_elem_of_lookup_2 | by rewrite Hseg]. }
  assert (Hrec : forall r, r ∈ recs ->
            black_domains (c_url r) = false
            /\ c_url r ∈ found_links item_link entries
            /\ forall seg, seg ∈ c_segments r ->
                 exists s, s ∈ sf_segments sf /\ seg = simplified_text text_util s).
  { intros r Hr. apply list_elem_of_lookup in Hr as [k Hk].
    destruct (Forall2_lookup_r _ _ _ _ _ HV Hk) as (u & _ & Hv).
    apply verified_discovered in Hv as (Hb & _ & Hsegs & Hfirst).
    split; [exact Hb|]. split.
    - destruct (items_for item_link (c_url r)
                  (found_in_order text_util (map to_segment_entry entries)))
        as [|[seg it] l] eqn:Ei; [discriminate|].
      assert (Hin : (seg, it) ∈ items_for item_link (c_url r)
                      (found_in_order text_util (map to_segment_entry entries))).
      { rewrite Ei. left. }
      apply list_elem_of_filter in Hin as [Hl Hin]. simpl in Hl.
      rewrite <- Hl. by apply (Hfound seg it).
    - intros seg Hseg. apply Hsegs in Hseg as (it & Hin & _).
      by apply (Hfound seg it). }
  split; [exact Hrec|].
  assert (Hurls : NoDup (map c_url recs)).
  { assert (Hmap : map c_url recs
                   = set_iter (dom (fetch_urls (related_url2html
                       (discover item_link black_domains text_util
                          (map to_segment_entry entries)))))).
    { clear -HV. induction HV as [|u0 r urls recs' Hv HV IH]; [reflexivity|].
      simpl. rewrite IH. by destruct Hv as [-> _]. }
    rewrite Hmap. apply set_iter_NoDup. }
  rewrite <- (length_map c_url recs).
  apply NoDup_incl_length.
  - by apply NoDup_ListNoDup.
  - intros u Hu. apply list_elem_of_In, elem_of_remove_dups.
    apply list_elem_of_In, list_elem_of_fmap in Hu as (r & -> & Hr).
    by destruct (Hrec r Hr) as (_ & ? & _).
Qed.

End Step5Then6.

(** * Steps 2 to 5 in the small world *)

Section EarlyRuns.
Import PyStr Pipeline Checkpoints Early EarlySpec Demo EarlyDemo.

Local Abbreviation step_2 := (step_2_fetch_origin_articles fetcher).
Local Abbreviation step_3 := (step_3_extract_origin_bodies text_util).
Local Abbreviation step_4 := (step_4_extract_sentences segmenter).
Local Abbreviation step_5 := (step_5_request_gse item_link gse_api None (Some 10%Z) None).
Local Abbreviation step_6 :=
  (step_6_filter_out_unrelated item_link blacklist text_util fetch_urls).

(** Two origins and a fetcher that returns one page: step 2 logs two
    origins, step 3 stops at the second. *)
Example step_2_3_run :
  step_2 two_origins
  = ([Opened 0%nat; Wrote 0%nat "Page of http://origin.example/0";
      Logged (Fetched 2)], Ok tt)
  /\ step_3 two_origins (files (fst (step_2 two_origins)))
     = ([Opened 0%nat;
         Wrote 0%nat {| bf_body := "Page of http://origin.example/0";
                        bf_lang_id := "en" |}],
        Raise (IOError 1)).
Proof. split; vm_compute; reflexivity. Qed.

(** The second body is empty and the tokeniser fails on it: its segment
    file is left empty. *)
Example step_4_run :
  step_4 two_origins body_dir
  = ([Opened 0%nat;
      Wrote 0%nat {| sf_url := "http://origin.example/0";
                     sf_text := "The Quote In Full.He Said";
                     sf_lang_id := "en";
                     sf_sentences := ["The Quote In Full"; "He Said"];
                     sf_quoted := [];
                     sf_segments := ["The Quote In Full"; "He Said"] |};
      Logged (Extracted 2 0 2);
      Opened 1%nat],
     Raise (Failure "empty text"))
  /\ files (fst (step_4 two_origins body_dir)) !! 1%nat = Some None.
Proof. split; vm_compute; reflexivity. Qed.

(** The search for the second segment of the second origin fails: the
    answer to its first search is not written. *)
Example step_5_run :
  step_5 two_origins segment_dir
  = ([Opened 0%nat;
      Logged (FoundItems 3 "The Quote In Ful");
      Logged (FoundItems 1 "He Said");
      Logged (SavingGse 3);
      Wrote 0%nat
        [ {| ge_segment := "The Quote In Full"; ge_totalResults := 3;
             ge_foundUrls := ["http://a.example/1"; "http://spam.example/x";
                              "http://b.example/2"];
             ge_foundItems := [a1; spam; b1] |};
          {| ge_segment := "He Said"; ge_totalResults := 1;
             ge_foundUrls := ["http://a.example/1"];
             ge_foundItems := [a2] |} ];
      Opened 1%nat;
      Logged (FoundItems 1 "He Said")],
     Raise (Failure "quota exceeded")).
Proof. vm_compute. reflexivity. Qed.

Lemma step_3_after_step_2_witness :
  snd (step_2 two_origins) = Ok tt
  /\ map fst (wrote (fst (step_2 two_origins)))
     = seq 0 (length ["Page of http://origin.example/0"])
  /\ logs (fst (step_2 two_origins)) = [Fetched (length two_origins)]
  /\ ((length two_origins <= length ["Page of http://origin.example/0"])%nat ->
      snd (step_3 two_origins (files (fst (step_2 two_origins)))) = Ok tt)
  /\ ((length ["Page of http://origin.example/0"] < length two_origins)%nat ->
      snd (step_3 two_origins (files (fst (step_2 two_origins))))
      = Raise (IOError (length ["Page of http://origin.example/0"]))).
Proof.
  apply (step_3_after_step_2 fetcher text_util two_origins
           ["Page of http://origin.example/0"] ["Page of http://origin.example/0"]).
  - reflexivity.
  - repeat constructor.
  - intros i url h Hi _.
    destruct i as [|[|i]]; simpl in Hi; try discriminate;
      injection Hi as <-; reflexivity.
Defined.

Lemma step_5_writes_first :
  Wrote 0%nat
    [ {| ge_segment := "The Quote In Full"; ge_totalResults := 3;
         ge_foundUrls := ["http://a.example/1"; "http://spam.example/x";
                          "http://b.example/2"];
         ge_foundItems := [a1; spam; b1] |};
      {| ge_segment := "He Said"; ge_totalResults := 1;
         ge_foundUrls := ["http://a.example/1"];
         ge_foundItems := [a2] |} ]
  ∈ fst (step_5 two_origins segment_dir).
Proof. rewrite step_5_run. do 4 right. left. Qed.

(** Four items found, three distinct links logged. *)
Lemma step_5_logs_fragments_and_unique_links_witness :
  exists t1 t2 entries,
    fst (step_5 two_origins segment_dir)
    = t1 ++ (Opened 0%nat :: map Logged (search_logs entries)
               ++ [Logged (SavingGse
                             (length (remove_dups (found_links item_link entries))));
                   Wrote 0%nat entries]) ++ t2
    /\ length (found_links item_link entries) = 4%nat
    /\ length (remove_dups (found_links item_link entries)) = 3%nat.
Proof.
  destruct (step_5_logs_fragments_and_unique_links item_link gse_api None (Some 10%Z)
              None two_origins segment_dir 0%nat _ step_5_writes_first)
    as [(t1 & t2 & Ht) _].
  eexists t1, t2, _. split; [exact Ht|]. split; reflexivity.
Defined.

Lemma step_6_reads_step_5 :
  fst (step_6 origins
         (gse_checkpoint (fst (step_5 two_origins segment_dir))))
  = [Log (FuzzyMatching 0 2); Write 0%nat [cand_a; cand_b]].
Proof. vm_compute. reflexivity. Qed.

(** Three links logged by step 5, two records written by step 6. *)
Lemma step_6_after_step_5_witness :
  exists url segment_obj entries,
    two_origins !! 0%nat = Some url
    /\ read_json segment_dir 0%nat = Ok segment_obj
    /\ Wrote 0%nat entries ∈ fst (step_5 two_origins segment_dir)
    /\ Forall2 (searched gse_api None (Some 10%Z) None)
         (sf_segments segment_obj) entries
    /\ (forall r, r ∈ [cand_a; cand_b] ->
          blacklist (c_url r) = false
          /\ c_url r ∈ found_links item_link entries
          /\ forall seg, seg ∈ c_segments r ->
               exists s, s ∈ sf_segments segment_obj
                         /\ seg = simplified_text text_util s)
    /\ (length [cand_a; cand_b]
        <= length (remove_dups (found_links item_link entries)))%nat.
Proof.
  apply (step_6_after_step_5 item_link gse_api None (Some 10%Z) None
           blacklist text_util fetch_urls two_origins origins segment_dir
           0%nat [cand_a; cand_b]).
  rewrite step_6_reads_step_5. right. left.
Defined.

End EarlyRuns.
